(* ===== verification/_CoqProject ===== *)
-Q . S2P
Prelude.v
Errors.v
Utf8.v
Str.v
Types.v
Decode.v
Encode.v
Topic.v
Properties.v
PropertiesFacts.v
Packets.v
Connect.v
Publish.v
Subscribe.v
Ping.v
PacketCodec.v
CodecFacts.v
Writers.v
Frame.v
Options.v
Format.v
Trace.v
Transport.v
Client.v
ClientFacts.v
ClientHears.v
ClientProps.v
ClientLive.v
AsyncTypes.v
AsyncDriver.v
AsyncClient.v
AsyncConnect.v
Tls.v
TlsStream.v
AsyncFacts.v
AsyncScript.v
AsyncStart.v
AsyncRun.v
AsyncLinear.v
AsyncReplies.v
AsyncTotal.v
AsyncLive.v
AsyncProps.v
AsyncRequests.v
AsyncTimers.v
AsyncFlow.v
AsyncDisconnect.v
AsyncOwnership.v
AsyncAdmission.v
AsyncDispatch.v
AsyncLimits.v
