(* ===== verification/Prelude.v ===== *)
(** * mqtt-wasi: a verification development

    mqtt-wasi is an MQTT 5 client library in Rust: a packet codec, an incremental frame
    reader, a blocking client ([MqttClient]) and an asynchronous client
    ([AsyncMqttClient], a handle, and [MqttConnection], the driver it talks to over
    channels). This library is a shallow embedding of that code: every function under
    src/src that computes, decides or changes state is a Rocq definition of the same
    name, and the theorems are about those definitions.

    ** How Rust is read

    A call is a [result E A]: [Ok], [Err], a [Panic] (an index out of range, an overflowing
    addition, an [expect], an [Instant] out of range) or [Diverge] (a loop whose fuel ran out,
    or a driver that still waits for its next task). Code that changes an object is a function
    [S → result E A * S] ([st S E A]) with the notation [let! x := m in k] for [?] and
    sequencing; pure fallible code uses [let?]. Integers are [Z] with the wrap-around or the check of
    their type written out ([as_u16], [checked_add], [saturating_sub]); bytes and strings are
    lists of [Z] (a string is its UTF-8 encoding); a [HashMap] is a [gmap], a [VecDeque] a list.
    Hash iteration order is any permutation the world chooses ([HashOrder]).

    Code that is not in the repository is a parameter with laws: [TransportLaws] (a byte stream
    accepts what it reports, reads no more than asked, and the other calls send nothing), [ReceiveLaws]
    (what reads delivered is the sum of what each read delivered; [Logged] gives any transport
    such a log),
    [ClockLaws] (readings stay below a horizon that leaves room for the longest
    keep-alive), rustls and name resolution in [Tls], [TlsStream] and [AsyncConnect]. [AsyncScript] has a
    scripted network that satisfies all of them; the witnesses run on it. tokio's channels follow their documentation: an
    [mpsc] channel is its queue, capacity and live ends; a oneshot sender is the number of
    its channel, and [Oneshots] logs every send, so that a second reply on one channel is
    visible in the model, where Rust's ownership forbids it by moving the sender.

    ** Files

    - Prelude: outcomes, the state monad, its logic ([outcome], [safe]), machine
      integers, lists, sums over maps.
    - Errors (error.rs), Types and Packets (codec/types.rs), Utf8 and Str (the parts of
      [str] the code calls).
    - Decode, Encode, Topic, Properties, Connect, Publish, Subscribe, Ping, PacketCodec: the
      files of codec/ with the same names (PacketCodec is codec/mod.rs). PropertiesFacts,
      CodecFacts and Writers: their round trips, totality, and the sizes of what is written.
    - Frame: frame.rs, a two-state machine over a byte buffer.
    - Options (options.rs), Trace (trace.rs), Transport (transport.rs), Tls (tls.rs,
      addresses and connecting), TlsStream (tls.rs, the stream as an instance of [Transport]).
    - Format: the texts of errors, and the [Debug] texts that leave the credentials out.
    - Client: client.rs; ClientFacts its invariant [client_ok]; ClientHears: the bytes that were
      read are the frames of the packets a call has taken, in order, then the bytes the reader
      keeps; ClientProps its theorems; ClientLive its requests against a broker that answers.
    - AsyncTypes: the data of async_client.rs and the tokio channels; AsyncDriver:
      [MqttConnection] method by method; AsyncClient: the handle, request_response.rs and
      the run loop; AsyncConnect: the handshake and the TCP loops of the three connect
      functions.
    - AsyncFacts: the invariant [conn_ok] and [m_keeps : keeps m s] for every method;
      AsyncStart: the handshake establishes it; AsyncRun: [run] from its first turn to the
      dropped driver; AsyncLinear: every reply sender is used at most once, by counting
      what each state and each call owes; AsyncReplies: the replies of whole runs; AsyncTotal:
      no method diverges given the fuel below; AsyncLive: reachable states and whole runs.
    - AsyncProps, AsyncRequests, AsyncTimers, AsyncAdmission: what single operations of the
      driver do. AsyncFlow: the outbound queue refines an abstract outbox. AsyncDisconnect: a
      disconnect from the command to the end of the run. AsyncOwnership: the frame, the
      acknowledgement and the entry of a request agree ([requests_inv]). AsyncDispatch: reading
      is a fold of the handlers over the packets of the stream.
      AsyncLimits: inputs on which the client does not do what it intends.
    - AsyncScript: the scripted network and a session for the examples.

    ** How the parts interact

    A client feeds what it reads to [FrameReader_push] and takes packets with [try_decode], which calls [Packet_decode].
    Packets are encoded whole and handed to the transport. The blocking client waits for
    each acknowledgement in a loop that dispatches unrelated packets ([read_ack_packet]). The
    asynchronous driver runs [turn] repeatedly: cancellations, commands, writing, reading,
    dispatch, expiry, keep-alive, writing, then the time to wait; between two turns the
    application acts through its handle ([handle_action]) and one command may wake the driver
    ([receive_command]). [run] is a list of such intervals; [live] is the states it can reach.

    ** What is shown

    - Codec: what is encoded decodes to the same value, for properties, PUBLISH and
      streams of PUBLISH cut into any chunks; decoding any bytes returns (no panic, no
      overflow, loops bounded) and what it returns is well formed; encoders refuse
      exactly the invalid values; the topic filter validator decides the grammar of the standard.
    - Frame reader: for any chunks that respect [remaining_capacity], the packets delivered are those
      of the concatenated stream; its buffer stays within the limit; the loop refines an
      abstract parser.
    - Blocking client: connect, publish, subscribe, unsubscribe, recv have exactly the
      outcomes listed, where connect and recv act on the packets that the bytes read hold; the wire always holds whole packets, identifiers in flight are
      distinct, a closed client does nothing; [requests_answered]: a request succeeds when the broker grants
      it, however slowly the stream delivers and whatever messages come first, and those
      messages are acknowledged.
    - Asynchronous client, whole runs: [live_invariant] (queue, wire framing, byte
      counts, bounds, identifiers in every reachable state), [run_returns_or_waits] (no panic and no endless
      loop), [run_resolves_all] (when the driver returns, every operation ever started is
      answered), [at_most_one_reply]; [async_connect_outcome] starts the invariant, with the limits
      of the CONNACK that was read.
    - Asynchronous client, requests: [requests_consistent] in every reachable state;
      [request_admission] (kept whole or refused), [response_subscription_ack] (every waiting
      request is settled), [response_delivery], [request_withdrawal].
    - Asynchronous client, writing: [flush_outbound_refines] (nothing lost, repeated or
      reordered whatever the transport takes), [graceful_disconnect] (on a transport that takes
      bytes a disconnect is written last, after the whole queue but the requests that were
      cancelled, the caller told, the run over).
    - Asynchronous client, reading: [decode_and_dispatch_folds] (no packet skipped or repeated, and no
      handler touches the bytes behind its packet).
    - Asynchronous client, other operations: admission of publishes, acknowledgements,
      expiry, identifiers, waiting times, keep-alive.
    - Options, trace contexts, TLS addresses: validation and parsing decide their grammars.

    ** Fuel

    Loops over bytes and lists are structural or take the length they can need, so they have no
    fuel in their statements. Loops that call the transport ([write_loop], the handshake's
    loops) take a number: [write_loop] hands over at least one byte per iteration, so the run theorems ask for
    more fuel than the queue's limit in bytes, and for writes that do not report
    [Interrupted] for ever ([steady]: not at all). The list of tasks of [run] is the
    schedule; when it ends first the driver is still waiting ([waiting]).

    ** Not modelled

    Derived [Debug] texts (their own [Display] and [Debug] implementations are in Format and
    Trace) and accessors that return a field; the re-exports of lib.rs;
    the forwarding of TcpStream to std, and rustls itself; allocation failure;
    serde, which appears as the argument of [publish_json]; the generation of UUIDs, which is
    the argument of [request]. Rust's [HashSet::with_capacity] and [Vec] are assumed to
    find memory. The scheduling of several handles is one interleaving of their actions, which is
    what the shared channel and mutex allow. The tests and examples of the repository are not
    part of the development. *)

From Stdlib Require Export Lia ZArith.
From stdpp Require Export base list strings gmap numbers option.

#[global] Set Default Goal Selector "!".

Local Open Scope Z_scope.

(** ** Outcomes of Rust code *)

(** A call either returns [Ok] or [Err] (Rust's [Result]), panics (an index out
    of range, an arithmetic overflow in a checked build, [unreachable!],
    [expect]) or, for a loop run with bounded fuel, has not finished yet. *)
Inductive result (E A : Type) : Type :=
  | Ok (a : A)
  | Err (e : E)
  | Panic (why : string)
  | Diverge.
Arguments Ok {E A} a.
Arguments Err {E A} e.
Arguments Panic {E A} why.
Arguments Diverge {E A}.

Definition rbind {E A B} (r : result E A) (k : A → result E B) : result E B :=
  match r with
  | Ok a => k a
  | Err e => Err e
  | Panic w => Panic w
  | Diverge => Diverge
  end.

(** [Result::map_err] *)
Definition map_err {E F A} (f : E → F) (r : result E A) : result F A :=
  match r with
  | Ok a => Ok a
  | Err e => Err (f e)
  | Panic w => Panic w
  | Diverge => Diverge
  end.

(** [Option::ok_or] *)
Definition ok_or {E A} (o : option A) (e : E) : result E A :=
  match o with Some a => Ok a | None => Err e end.

Lemma Ok_inj {E A} (a b : A) : @Ok E A a = Ok b → a = b.
Proof. congruence. Qed.

(** A returned value or error: neither a panic nor an unfinished loop. *)
Definition returns {E A} (r : result E A) : Prop :=
  match r with Ok _ | Err _ => True | Panic _ | Diverge => False end.

(** ** State and error: [&mut self] methods returning [Result] *)

Definition st (S E A : Type) : Type := S → result E A * S.

Definition ret {S E A} (a : A) : st S E A := λ s, (Ok a, s).
Definition fail {S E A} (e : E) : st S E A := λ s, (Err e, s).
Definition panic {S E A} (w : string) : st S E A := λ s, (Panic w, s).
Definition diverge {S E A} : st S E A := λ s, (Diverge, s).
Definition get {S E} : st S E S := λ s, (Ok s, s).
Definition gets {S E A} (f : S → A) : st S E A := λ s, (Ok (f s), s).
Definition put {S E} (s' : S) : st S E unit := λ _, (Ok (), s').
Definition modify {S E} (f : S → S) : st S E unit := λ s, (Ok (), f s).
Definition lift {S E A} (r : result E A) : st S E A := λ s, (r, s).

(** The [?] operator: an error keeps the state the callee left. *)
Definition bind {S E A B} (m : st S E A) (k : A → st S E B) : st S E B :=
  λ s, match m s with
       | (Ok a, s') => k a s'
       | (Err e, s') => (Err e, s')
       | (Panic w, s') => (Panic w, s')
       | (Diverge, s') => (Diverge, s')
       end.

(** [match call { .. }] on the whole outcome: panics and unfinished loops still
    propagate, an [Err] is handed to the continuation. *)
Definition attempt {S E F A} (m : st S E A) : st S F (result E A) :=
  λ s, match m s with
       | (Ok a, s') => (Ok (Ok a), s')
       | (Err e, s') => (Ok (Err e), s')
       | (Panic w, s') => (Panic w, s')
       | (Diverge, s') => (Diverge, s')
       end.

(** [match call { Ok(a) => k, Err(e) => h }]: either arm may answer for the caller,
    also with another error type. *)
Definition match_result {S E F A B} (m : st S E A) (h : E → st S F B) (k : A → st S F B)
  : st S F B :=
  λ s, match m s with
       | (Ok a, s') => k a s'
       | (Err e, s') => h e s'
       | (Panic w, s') => (Panic w, s')
       | (Diverge, s') => (Diverge, s')
       end.

(** [Result::map_err] on a call *)
Definition map_error {S E F A} (f : E → F) (m : st S E A) : st S F A :=
  match_result m (λ e, fail (f e)) ret.

(** [if b { return Err(e) }] *)
Definition fail_if {S E} (b : bool) (e : E) : st S E unit :=
  if b then fail e else ret ().

Declare Scope rust_scope.
Delimit Scope rust_scope with rust.

Notation "'let!' x := m 'in' k" := (bind m (λ x, k))
  (at level 10, x name, m at level 100, k at level 200,
   format "'[v' 'let!'  x  :=  m  'in' '/' k ']'") : rust_scope.
Notation "'let!' ' p := m 'in' k" := (bind m (λ x, match x with p => k end))
  (at level 10, p pattern, m at level 100, k at level 200, only parsing) : rust_scope.
Notation "'let?' x := r 'in' k" := (rbind r (λ x, k))
  (at level 10, x name, r at level 100, k at level 200,
   format "'[v' 'let?'  x  :=  r  'in' '/' k ']'") : rust_scope.
Notation "'let?' ' p := r 'in' k" := (rbind r (λ x, match x with p => k end))
  (at level 10, p pattern, r at level 100, k at level 200, only parsing) : rust_scope.
Open Scope rust_scope.

(** Run a computation on a fresh local ([let mut buf = ..]) and keep its outcome. *)
Definition run_on {S E A} (s0 : S) (m : st S E A) : result E (A * S) :=
  match m s0 with
  | (Ok a, s') => Ok (a, s')
  | (Err e, _) => Err e
  | (Panic w, _) => Panic w
  | (Diverge, _) => Diverge
  end.

(** The same, keeping the value only. *)
Definition eval_on {S E A} (s0 : S) (m : st S E A) : result E A := (m s0).1.

Section monad_lemmas.
Context {S E : Type}.

Lemma bind_ok {A B} (m : st S E A) (k : A → st S E B) s a s' :
  m s = (Ok a, s') → bind m k s = k a s'.
Proof. unfold bind. by intros ->. Qed.

Lemma bind_err {A B} (m : st S E A) (k : A → st S E B) s e s' :
  m s = (Err e, s') → bind m k s = (Err e, s').
Proof. unfold bind. by intros ->. Qed.

Lemma bind_ok_inv {A B} (m : st S E A) (k : A → st S E B) s b s'' :
  bind m k s = (Ok b, s'') → ∃ a s', m s = (Ok a, s') ∧ k a s' = (Ok b, s'').
Proof. unfold bind. destruct (m s) as [[] ?]; naive_solver. Qed.

Lemma bind_ret {A B} (a : A) (k : A → st S E B) s : bind (ret a) k s = k a s.
Proof. done. Qed.

Lemma bind_assoc {A B C} (m : st S E A) (k : A → st S E B) (h : B → st S E C) s :
  bind (bind m k) h s = bind m (λ a, bind (k a) h) s.
Proof. unfold bind. by destruct (m s) as [[] ?]. Qed.

Lemma fail_if_ok b (e : E) (s : S) r s' :
  fail_if b e s = (Ok r, s') → b = false ∧ s' = s.
Proof. destruct b; intros [=]; subst; auto. Qed.

Lemma fail_if_false (e : E) (s : S) : fail_if false e s = (Ok (), s).
Proof. done. Qed.

Lemma run_on_ok {A} (s0 : S) (m : st S E A) a s' :
  run_on s0 m = Ok (a, s') ↔ m s0 = (Ok a, s').
Proof. unfold run_on. destruct (m s0) as [[] ?]; naive_solver. Qed.
End monad_lemmas.

(** ** Weakest preconditions: what holds of every outcome of a call *)

Definition wp {S E A} (m : st S E A) (Q : result E A → S → Prop) (s : S) : Prop :=
  Q (m s).1 (m s).2.

(** The call returns (no panic, no unfinished loop), its state satisfies [I]
    whatever the outcome, and an [Ok] value satisfies [Q]. *)
Definition safe {S E A} (I : S → Prop) (m : st S E A) (Q : A → S → Prop) (s : S) : Prop :=
  wp m (λ r s', returns r ∧ I s' ∧ ∀ a, r = Ok a → Q a s') s.

Section wp_lemmas.
Context {S E : Type}.
Implicit Types I : S → Prop.

Lemma safe_bind {A B} I (m : st S E A) (k : A → st S E B) (R : A → S → Prop) Q s :
  safe I m R s → (∀ a s', I s' → R a s' → safe I (k a) Q s') → safe I (bind m k) Q s.
Proof.
  unfold safe, wp, bind. intros (Hr & HI & HQ) Hk.
  destruct (m s) as [[a|e|w|] s']; simpl in *; try done.
  apply Hk; auto.
Qed.

(** A step whose outcome is known. *)
Lemma safe_step {A B} I (m : st S E A) (k : A → st S E B) a s' Q s :
  m s = (Ok a, s') → safe I (k a) Q s' → safe I (bind m k) Q s.
Proof. unfold safe, wp. intros Hm. by rewrite (bind_ok _ _ _ _ _ Hm). Qed.

Lemma safe_ret {A} I (a : A) (Q : A → S → Prop) s :
  I s → Q a s → safe I (ret (E:=E) a) Q s.
Proof. unfold safe, wp; simpl. naive_solver. Qed.

Lemma safe_fail {A} I (e : E) (Q : A → S → Prop) s : I s → safe I (fail e) Q s.
Proof. unfold safe, wp; simpl. naive_solver. Qed.

Lemma safe_fail_if I b (e : E) (Q : () → S → Prop) s :
  I s → (b = false → Q () s) → safe I (fail_if b e) Q s.
Proof. destruct b; intros; [by apply safe_fail | apply safe_ret; auto]. Qed.

Lemma safe_lift {A} I (r : result E A) (Q : A → S → Prop) s :
  I s → returns r → (∀ a, r = Ok a → Q a s) → safe I (lift r) Q s.
Proof. unfold safe, wp; simpl. naive_solver. Qed.

Lemma safe_weaken {A} I (m : st S E A) (Q Q' : A → S → Prop) s :
  safe I m Q s → (∀ a s', I s' → Q a s' → Q' a s') → safe I m Q' s.
Proof. unfold safe, wp. naive_solver. Qed.

Lemma safe_returns {A} I (m : st S E A) Q s : safe I m Q s → returns (m s).1.
Proof. unfold safe, wp. naive_solver. Qed.
End wp_lemmas.

(** A two-sided postcondition: [Q] of an [Ok], [R] of an [Err]; no panic. A loop
    that ran out of fuel promises nothing. *)
Definition outcome {S E A} (m : st S E A) (Q : A → S → Prop) (R : E → S → Prop) (s : S) : Prop :=
  match m s with
  | (Ok a, s') => Q a s'
  | (Err e, s') => R e s'
  | (Panic _, _) => False
  | (Diverge, _) => True
  end.

Section outcome_lemmas.
Context {S E : Type}.

Lemma outcome_bind {A B} (m : st S E A) (k : A → st S E B) Q' Q R s :
  outcome m Q' R s → (∀ a s', Q' a s' → outcome (k a) Q R s') → outcome (bind m k) Q R s.
Proof.
  unfold outcome at 1 3, bind. intros Hm Hk. destruct (m s) as [[a|e|w|] s']; try done.
  by apply Hk.
Qed.

Lemma outcome_attempt {F A B} (m : st S F A) (k : result F A → st S E B) Q' R' Q R s :
  outcome m Q' R' s →
  (∀ a s', Q' a s' → outcome (k (Ok a)) Q R s') →
  (∀ e s', R' e s' → outcome (k (Err e)) Q R s') →
  outcome (bind (attempt m) k) Q R s.
Proof.
  unfold outcome at 1 4, bind, attempt. intros Hm Ha He.
  destruct (m s) as [[a|e|w|] s']; try done; [by apply Ha|by apply He].
Qed.

Lemma outcome_weaken {A} (m : st S E A) (Q Q' : A → S → Prop) (R R' : E → S → Prop) s :
  outcome m Q R s → (∀ a s', Q a s' → Q' a s') → (∀ e s', R e s' → R' e s') →
  outcome m Q' R' s.
Proof. unfold outcome. destruct (m s) as [[a|e|w|] s']; auto. Qed.

(** What is known of the values a call returns may be added to its postcondition. *)
Lemma outcome_also {A} (m : st S E A) (Q Q' : A → S → Prop) (R : E → S → Prop) s :
  outcome m Q R s → (∀ a s', m s = (Ok a, s') → Q' a s') →
  outcome m (λ a s', Q a s' ∧ Q' a s') R s.
Proof. unfold outcome. destruct (m s) as [[a|e|w|] s']; auto. Qed.

Lemma outcome_match {F A B} (m : st S F A) (h : F → st S E B) (k : A → st S E B) Q' R' Q R s :
  outcome m Q' R' s →
  (∀ a s', Q' a s' → outcome (k a) Q R s') →
  (∀ e s', R' e s' → outcome (h e) Q R s') →
  outcome (match_result m h k) Q R s.
Proof.
  unfold outcome at 1 4, match_result. intros Hm Ha He.
  destruct (m s) as [[a|e|w|] s']; try done; [by apply Ha|by apply He].
Qed.

(** The postcondition of a run whose result is known. *)
Lemma outcome_ok {A} (m : st S E A) (Q : A → S → Prop) (R : E → S → Prop) s a :
  outcome m Q R s → (m s).1 = Ok a → Q a (m s).2.
Proof. unfold outcome. destruct (m s) as [r s']; cbn. by intros H ->. Qed.

Lemma outcome_lift {A} (r : result E A) (Q : A → S → Prop) (R : E → S → Prop) s :
  returns r → (∀ a, r = Ok a → Q a s) → (∀ e, r = Err e → R e s) → outcome (lift r) Q R s.
Proof. unfold outcome, lift. destruct r; simpl; auto. Qed.

Lemma outcome_fail_if b (e : E) (Q : () → S → Prop) (R : E → S → Prop) s :
  (b = false → Q () s) → (b = true → R e s) → outcome (fail_if b e) Q R s.
Proof. destruct b; unfold outcome; simpl; auto. Qed.
End outcome_lemmas.

(** ** Machine integers *)

Definition is_u8 (z : Z) : Prop := 0 ≤ z < 256.
Definition is_u16 (z : Z) : Prop := 0 ≤ z < 65536.
Definition is_u32 (z : Z) : Prop := 0 ≤ z < 4294967296.

(** [as u8], [as u16], [as u32]: truncating casts. *)
Definition as_u8 (z : Z) : Z := z mod 256.
Definition as_u16 (z : Z) : Z := z mod 65536.
Definition as_u32 (z : Z) : Z := z mod 4294967296.

Definition u16_max : Z := 65535.
(** [usize] on the 64-bit targets. *)
Definition usize_max : Z := 18446744073709551615.

(** [usize::saturating_sub], [usize::saturating_add], [usize::checked_add] *)
Definition saturating_sub (a b : Z) : Z := Z.max 0 (a - b).
Definition saturating_add (a b : Z) : Z := Z.min usize_max (a + b).
Definition checked_add (a b : Z) : option Z :=
  if a + b <=? usize_max then Some (a + b) else None.

(** [u16::to_be_bytes], [u32::to_be_bytes] and their inverses. *)
Definition u16_to_be (v : Z) : list Z := [Z.shiftr v 8; Z.land v 0xFF].
Definition u32_to_be (v : Z) : list Z :=
  [Z.shiftr v 24; Z.land (Z.shiftr v 16) 0xFF; Z.land (Z.shiftr v 8) 0xFF; Z.land v 0xFF].
Definition u16_from_be (b0 b1 : Z) : Z := Z.lor (Z.shiftl b0 8) b1.
Definition u32_from_be (b0 b1 b2 b3 : Z) : Z :=
  Z.lor (Z.shiftl b0 24) (Z.lor (Z.shiftl b1 16) (Z.lor (Z.shiftl b2 8) b3)).

(** ** Slices: [usize] lengths and positions are integers *)

Definition zlen {A} (l : list A) : Z := Z.of_nat (length l).
Definition ztake {A} (n : Z) (l : list A) : list A := take (Z.to_nat n) l.
Definition zdrop {A} (n : Z) (l : list A) : list A := drop (Z.to_nat n) l.
Definition znth {A} (l : list A) (i : Z) : option A :=
  if i <? 0 then None else l !! Z.to_nat i.

Definition bytes_ok (l : list Z) : Prop := Forall is_u8 l.

(** [slice.contains(&x)] *)
Definition contains (x : Z) (l : list Z) : bool := existsb (Z.eqb x) l.

(** A string literal's bytes. *)
Fixpoint lit (s : string) : list Z :=
  match s with
  | EmptyString => []
  | String c s' => Z.of_N (Ascii.N_of_ascii c) :: lit s'
  end.

Definition list_eqb (a b : list Z) : bool := bool_decide (a = b).

(** ** Arithmetic and bit lemmas *)

Lemma land_ones_mod v n : 0 ≤ n → Z.land v (Z.ones n) = v mod 2 ^ n.
Proof. apply Z.land_ones. Qed.

Lemma land_0xFF v : Z.land v 0xFF = v mod 256.
Proof. apply (land_ones_mod v 8). lia. Qed.

Lemma land_0x7F v : Z.land v 0x7F = v mod 128.
Proof. apply (land_ones_mod v 7). lia. Qed.

Lemma land_0x0F v : Z.land v 0x0F = v mod 16.
Proof. apply (land_ones_mod v 4). lia. Qed.

Lemma shiftr_div v n : 0 ≤ n → Z.shiftr v n = v / 2 ^ n.
Proof. apply Z.shiftr_div_pow2. Qed.

(** Concatenating bit fields is addition. *)
Lemma lor_shiftl_add a b n :
  0 ≤ n → 0 ≤ b < 2 ^ n → Z.lor (Z.shiftl a n) b = a * 2 ^ n + b.
Proof.
  intros Hn Hb. rewrite <- (Z.shiftl_mul_pow2 a n) by lia.
  assert (Hl : Z.land (Z.shiftl a n) b = 0).
  { apply Z.bits_inj'. intros i Hi. rewrite Z.land_spec, Z.bits_0.
    destruct (decide (i < n)) as [Hlt|Hge].
    - by rewrite Z.shiftl_spec_low.
    - rewrite <- (Z.mod_small b (2 ^ n)) by lia.
      rewrite Z.mod_pow2_bits_high by lia. apply andb_false_r. }
  rewrite <- Z.add_lor_land. lia.
Qed.

(** A boolean property of a byte is decided by its 256 cases. *)
Lemma u8_cases (P : Z → bool) :
  forallb P (seqZ 0 256) = true → ∀ b, is_u8 b → P b = true.
Proof.
  intros Hall b Hb. rewrite forallb_forall in Hall. apply Hall.
  apply list_elem_of_In, elem_of_seqZ. unfold is_u8 in Hb. lia.
Qed.

(** Prove an integer fact about a byte [b] ([H : is_u8 b]) by cases. *)
Ltac by_u8_cases b H :=
  match goal with
  | |- ?f = ?g :> Z =>
      let F := eval pattern b in f in
      let G := eval pattern b in g in
      match F with ?F' _ => match G with ?G' _ =>
        apply Z.eqb_eq; change ((λ x, F' x =? G' x) b = true);
        revert b H; apply u8_cases; vm_compute; reflexivity end end
  | |- ?f = ?g :> bool =>
      let F := eval pattern b in f in
      let G := eval pattern b in g in
      match F with ?F' _ => match G with ?G' _ =>
        apply eqb_prop; change ((λ x, eqb (F' x) (G' x)) b = true);
        revert b H; apply u8_cases; vm_compute; reflexivity end end
  end.

Lemma u8_land_0x80 b : is_u8 b → (Z.land b 0x80 =? 0) = (b <? 128).
Proof. intros H. by_u8_cases b H. Qed.

Lemma u8_as_u8 b : is_u8 b → as_u8 b = b.
Proof. intros. apply Z.mod_small. done. Qed.

Lemma u16_to_be_bytes v : is_u16 v → bytes_ok (u16_to_be v).
Proof.
  unfold is_u16. intros H. unfold u16_to_be, bytes_ok.
  rewrite land_0xFF, shiftr_div by lia. change (2 ^ 8) with 256.
  repeat constructor; unfold is_u8; try lia.
  - apply Z.div_pos; lia.
  - apply Z.div_lt_upper_bound; lia.
  - apply Z.mod_pos_bound; lia.
  - apply Z.mod_pos_bound; lia.
Qed.

Lemma u16_be_roundtrip v :
  is_u16 v → u16_from_be (Z.shiftr v 8) (Z.land v 0xFF) = v.
Proof.
  intros H. unfold u16_from_be.
  rewrite land_0xFF, shiftr_div, lor_shiftl_add; [|lia|apply Z.mod_pos_bound; lia|lia].
  change (2 ^ 8) with 256. pose proof (Z.div_mod v 256). lia.
Qed.

Lemma u32_be_roundtrip v :
  is_u32 v →
  u32_from_be (Z.shiftr v 24) (Z.land (Z.shiftr v 16) 0xFF)
              (Z.land (Z.shiftr v 8) 0xFF) (Z.land v 0xFF) = v.
Proof.
  intros H. unfold u32_from_be.
  rewrite !land_0xFF, !shiftr_div by lia.
  change (2 ^ 24) with 16777216. change (2 ^ 16) with 65536. change (2 ^ 8) with 256.
  assert (Hm : ∀ x, 0 ≤ x mod 256 < 256) by (intros; apply Z.mod_pos_bound; lia).
  pose proof (Hm v). pose proof (Hm (v / 256)). pose proof (Hm (v / 65536)).
  rewrite (lor_shiftl_add _ (v mod 256) 8) by (change (2 ^ 8) with 256; lia).
  rewrite (lor_shiftl_add _ _ 16) by (change (2 ^ 8) with 256; change (2 ^ 16) with 65536; lia).
  rewrite lor_shiftl_add
    by (change (2 ^ 8) with 256; change (2 ^ 16) with 65536; change (2 ^ 24) with 16777216; lia).
  change (2 ^ 24) with 16777216. change (2 ^ 16) with 65536. change (2 ^ 8) with 256.
  pose proof (Z.div_mod v 256). pose proof (Z.div_mod (v / 256) 256).
  pose proof (Z.div_mod (v / 65536) 256).
  rewrite Z.div_div in * by lia. change (256 * 256) with 65536 in *.
  change (65536 * 256) with 16777216 in *. lia.
Qed.

Lemma u16_from_be_range b0 b1 : is_u8 b0 → is_u8 b1 → is_u16 (u16_from_be b0 b1).
Proof.
  unfold is_u8, is_u16, u16_from_be. intros.
  rewrite lor_shiftl_add by (change (2 ^ 8) with 256; lia). lia.
Qed.

Lemma u32_from_be_range b0 b1 b2 b3 :
  is_u8 b0 → is_u8 b1 → is_u8 b2 → is_u8 b3 → is_u32 (u32_from_be b0 b1 b2 b3).
Proof.
  unfold is_u8, is_u32, u32_from_be. intros.
  rewrite (lor_shiftl_add b2) by (change (2 ^ 8) with 256; lia).
  rewrite (lor_shiftl_add b1) by (change (2 ^ 8) with 256; change (2 ^ 16) with 65536; lia).
  rewrite lor_shiftl_add
    by (change (2 ^ 8) with 256; change (2 ^ 16) with 65536; change (2 ^ 24) with 16777216; lia).
  lia.
Qed.

(** ** Slice lemmas *)

Lemma zlen_nonneg {A} (l : list A) : 0 ≤ zlen l.
Proof. unfold zlen. lia. Qed.

Lemma zlen_nil {A} : zlen (@nil A) = 0.
Proof. done. Qed.

Lemma zlen_cons {A} (x : A) l : zlen (x :: l) = 1 + zlen l.
Proof. unfold zlen. cbn [length]. lia. Qed.

Lemma zlen_app {A} (a b : list A) : zlen (a ++ b) = zlen a + zlen b.
Proof. unfold zlen. rewrite length_app. lia. Qed.

Lemma zlen_zdrop {A} n (l : list A) : 0 ≤ n ≤ zlen l → zlen (zdrop n l) = zlen l - n.
Proof. unfold zlen, zdrop. rewrite length_drop. lia. Qed.

Lemma zlen_ztake {A} n (l : list A) : 0 ≤ n ≤ zlen l → zlen (ztake n l) = n.
Proof. unfold zlen, ztake. rewrite length_take. lia. Qed.

Lemma zdrop_app_exact {A} (a b : list A) : zdrop (zlen a) (a ++ b) = b.
Proof. unfold zdrop, zlen. rewrite Nat2Z.id. apply drop_app_length. Qed.

Lemma ztake_app_exact {A} (a b : list A) : ztake (zlen a) (a ++ b) = a.
Proof. unfold ztake, zlen. rewrite Nat2Z.id. apply take_app_length. Qed.

Lemma znth_app_at {A} (a b : list A) i : 0 ≤ i → znth (a ++ b) (zlen a + i) = znth b i.
Proof.
  intros. unfold znth, zlen.
  rewrite !(proj2 (Z.ltb_ge _ 0)) by lia.
  replace (Z.to_nat (Z.of_nat (length a) + i)) with (length a + Z.to_nat i)%nat by lia.
  rewrite lookup_app_r by lia. f_equal. lia.
Qed.

Lemma znth_some {A} (l : list A) i : 0 ≤ i < zlen l → ∃ x, znth l i = Some x.
Proof.
  unfold znth, zlen. intros. rewrite (proj2 (Z.ltb_ge i 0)) by lia.
  destruct (lookup_lt_is_Some_2 l (Z.to_nat i)) as [x Hx]; [lia|eauto].
Qed.

Lemma znth_Forall {A} (P : A → Prop) l i x : Forall P l → znth l i = Some x → P x.
Proof.
  unfold znth. intros HF. destruct (i <? 0); [done|]. intros. by eapply Forall_lookup_1.
Qed.

Lemma ztake_all_le {A} n (l : list A) : zlen l ≤ n → ztake n l = l.
Proof. intros. unfold ztake, zlen in *. apply take_ge. lia. Qed.

Lemma zdrop_all {A} n (l : list A) : zlen l ≤ n → zdrop n l = [].
Proof. intros. unfold zdrop, zlen in *. apply drop_ge. lia. Qed.

Lemma filter_all {A} (P : A → Prop) `{!∀ x, Decision (P x)} (l : list A) :
  (∀ x, x ∈ l → P x) → filter P l = l.
Proof.
  induction l as [|x l IH]; intros Hl; [done|]. rewrite filter_cons, decide_True.
  - f_equal. apply IH. intros y Hy. apply Hl, elem_of_cons. by right.
  - apply Hl, elem_of_cons. by left.
Qed.

Lemma ztake_zdrop {A} n (l : list A) : ztake n l ++ zdrop n l = l.
Proof. apply take_drop. Qed.

Lemma contains_false x l : contains x l = false ↔ x ∉ l.
Proof.
  unfold contains. rewrite <- not_true_iff_false, existsb_exists. f_equiv. split.
  - intros (y & Hy & ->%Z.eqb_eq). by apply list_elem_of_In.
  - intros. exists x. split; [by apply list_elem_of_In|apply Z.eqb_refl].
Qed.

Lemma list_eqb_true a b : list_eqb a b = true ↔ a = b.
Proof. unfold list_eqb. apply bool_decide_eq_true. Qed.

(** ** Map lemmas *)

Section maps.
Context {K : Type} `{Countable K} {A : Type}.
Implicit Types m : gmap K A.

Lemma size_delete_le i m : (size (delete i m) ≤ size m)%nat.
Proof. rewrite map_size_delete. destruct (m !! i); cbn; lia. Qed.

Lemma size_alter (f : A → A) i m : size (alter f i m) = size m.
Proof. by rewrite <- !size_dom, dom_alter_L. Qed.

(** The sum of a quantity over the values of a map. *)
Definition msum (f : A → nat) m : nat := sum_list_with (λ p, f p.2) (map_to_list m).

Lemma msum_empty f : msum f ∅ = 0%nat.
Proof. unfold msum. by rewrite map_to_list_empty. Qed.

Lemma msum_insert f i x m : m !! i = None → msum f (<[ i := x ]> m) = (f x + msum f m)%nat.
Proof. intros. unfold msum. by rewrite map_to_list_insert. Qed.

Lemma msum_delete f i x m : m !! i = Some x → msum f m = (f x + msum f (delete i m))%nat.
Proof.
  intros Hx. rewrite <- (msum_insert f i x) by apply lookup_delete_eq.
  by rewrite insert_delete_id.
Qed.

Lemma msum_delete_le f i m : (msum f (delete i m) ≤ msum f m)%nat.
Proof.
  destruct (m !! i) as [x|] eqn:Hx; [rewrite (msum_delete f i x m) by done; lia|].
  by rewrite delete_id.
Qed.

Lemma msum_update f i x y m :
  m !! i = Some x → (msum f (<[ i := y ]> m) + f x = f y + msum f m)%nat.
Proof.
  intros Hx. rewrite (msum_delete f i x m) by done. rewrite <- insert_delete_eq.
  rewrite msum_insert by apply lookup_delete_eq. lia.
Qed.

Lemma msum_insert_le f i x m : (msum f (<[ i := x ]> m) ≤ f x + msum f m)%nat.
Proof.
  rewrite <- insert_delete_eq, msum_insert by apply lookup_delete_eq.
  pose proof (msum_delete_le f i m). lia.
Qed.

Lemma alter_as_insert (g : A → A) i x m : m !! i = Some x → alter g i m = <[ i := g x ]> m.
Proof.
  intros Hx. apply map_eq. intros j. destruct (decide (i = j)) as [<-|].
  - by rewrite lookup_alter_eq, lookup_insert_eq, Hx.
  - by rewrite lookup_alter_ne, lookup_insert_ne.
Qed.

Lemma msum_alter f g i m : (∀ x, (f (g x) ≤ f x)%nat) → (msum f (alter g i m) ≤ msum f m)%nat.
Proof.
  intros Hg. destruct (m !! i) as [x|] eqn:Hx.
  - rewrite (alter_as_insert g i x) by done. pose proof (msum_update f i x (g x) m Hx).
    specialize (Hg x). lia.
  - rewrite alter_id; [done|]. intros y Hy. congruence.
Qed.

Lemma msum_fmap f (g : A → A) m : (∀ x, (f (g x) ≤ f x)%nat) → (msum f (g <$> m) ≤ msum f m)%nat.
Proof.
  intros Hg. unfold msum. rewrite map_to_list_fmap. induction (map_to_list m) as [|[k x] l IH];
    [done|]. cbn. specialize (Hg x). lia.
Qed.

(** Any walk of the map gives the same sum. *)
Lemma msum_perm f m l : l ≡ₚ map_to_list m → sum_list_with (λ p, f p.2) l = msum f m.
Proof. intros Hl. unfold msum. by rewrite Hl. Qed.

Lemma size_insert_le i x m : (size (<[ i := x ]> m) ≤ S (size m))%nat.
Proof. rewrite map_size_insert. destruct (m !! i); cbn; lia. Qed.
End maps.

(** ** Automation *)

Create HintDb mqtt discriminated.
#[export] Hint Constants Transparent : mqtt.
#[export] Hint Resolve zlen_nonneg : mqtt.
