(* ===== verification/Errors.v ===== *)
(** * Errors (src/src/error.rs)

    The crate's error type, constructor by constructor, the [io::Error] values it
    wraps, and the crate's [Result]. Messages are kept: frame.rs matches on one. *)

From S2P Require Import Prelude.

Local Open Scope Z_scope.

(** [std::io::ErrorKind]: the kinds the crate matches on or builds; every other
    kind of a transport is [Other]. *)
Inductive ErrorKind : Type :=
  | TimedOut | WouldBlock | Interrupted | WriteZero | InvalidData | InvalidInput
  | UnexpectedEof | ConnectionReset | ConnectionRefused_ | NotConnected | Other.

#[export] Instance ErrorKind_eq_dec : EqDecision ErrorKind.
Proof. solve_decision. Defined.

(** [std::io::Error] *)
Record io_error := mk_io { io_kind : ErrorKind; io_msg : string }.

#[export] Instance io_error_eq_dec : EqDecision io_error.
Proof. solve_decision. Defined.

(** [ErrorKind::K.into()] *)
Definition io_of_kind (k : ErrorKind) : io_error := mk_io k "".

Inductive Error : Type :=
  | InvalidOptions (msg : string)
  | MalformedPacket (msg : string)
  | InvalidPacketType (t : Z)
  | InvalidQoS (q : Z)
  | InvalidReasonCode (c : Z)
  | ConnectionRefused (c : Z)
  | ServerDisconnected (c : Z)
  | PacketTooLarge (size max : Z)
  | StringTooLong (len : Z)
  | BinaryTooLong (len : Z)
  | Timeout (operation : string)
  | KeepAliveTimeout
  | UnexpectedPacket (msg : string)
  | AckRejected (packet : string) (reason_code : Z)
  | QueueFull (queue : string)
  | ClientClosed
  | Serialize (msg : string)
  | Deserialize (msg : string)
  | ConnectionClosed
  | Io (e : io_error).

#[export] Instance Error_eq_dec : EqDecision Error.
Proof. solve_decision. Defined.

(** The crate's [Result<T>], and methods over a state [S] that return it. *)
Abbreviation Result := (result Error).
Abbreviation io_Result := (result io_error).
Abbreviation M S A := (st S Error A).

(** [impl From<std::io::Error> for Error]: what [?] applies to an I/O result. *)
Definition from_io {A} (r : io_Result A) : Result A := map_err Io r.

Lemma from_io_ok {A} (a : A) : from_io (Ok a) = Ok a.
Proof. done. Qed.
