(* ===== verification/Utf8.v ===== *)
(** * Rust strings: UTF-8 byte sequences

    A Rust [String] or [&str] is modelled by its bytes; [utf8_valid] is the type's
    invariant, and [String::from_utf8] (the standard library's, called by
    src/src/codec/decode.rs) its check. The [str] methods the crate calls search for
    ASCII characters only, so they act on the bytes. *)

From S2P Require Import Prelude.

Local Open Scope Z_scope.

Definition in_range (lo hi b : Z) : bool := (lo <=? b) && (b <=? hi).
Definition is_continuation (b : Z) : bool := in_range 0x80 0xBF b.

(** The well-formed byte sequences of the Unicode standard (table 3-7), the ones
    [core::str::from_utf8] accepts. *)
Fixpoint utf8_valid (l : list Z) : bool :=
  match l with
  | [] => true
  | b0 :: r0 =>
      if in_range 0x00 0x7F b0 then utf8_valid r0
      else match r0 with
      | [] => false
      | b1 :: r1 =>
          if in_range 0xC2 0xDF b0 then is_continuation b1 && utf8_valid r1
          else match r1 with
          | [] => false
          | b2 :: r2 =>
              let three lo hi := in_range lo hi b1 && is_continuation b2 && utf8_valid r2 in
              if b0 =? 0xE0 then three 0xA0 0xBF
              else if in_range 0xE1 0xEC b0 || in_range 0xEE 0xEF b0 then three 0x80 0xBF
              else if b0 =? 0xED then three 0x80 0x9F
              else match r2 with
              | [] => false
              | b3 :: r3 =>
                  let four lo hi :=
                    in_range lo hi b1 && is_continuation b2 && is_continuation b3
                    && utf8_valid r3 in
                  if b0 =? 0xF0 then four 0x90 0xBF
                  else if in_range 0xF1 0xF3 b0 then four 0x80 0xBF
                  else if b0 =? 0xF4 then four 0x80 0x8F
                  else false
              end
          end
      end
  end.

(** [String::from_utf8] *)
Definition from_utf8 (bytes : list Z) : result () (list Z) :=
  if utf8_valid bytes then Ok bytes else Err ().

Lemma in_range_true lo hi b : in_range lo hi b = true ↔ lo ≤ b ≤ hi.
Proof. unfold in_range. rewrite andb_true_iff, !Z.leb_le. lia. Qed.

(** Decompose a [utf8_valid] hypothesis into its byte ranges. *)
Ltac utf8_step :=
  match goal with
  | H : false = true |- _ => discriminate H
  | H : _ && _ = true |- _ => apply andb_true_iff in H; destruct H
  | H : _ || _ = true |- _ => apply orb_true_iff in H; destruct H
  | H : in_range _ _ _ = true |- _ => apply in_range_true in H
  | H : (_ =? _) = true |- _ => apply Z.eqb_eq in H
  | H : is_continuation _ = true |- _ => unfold is_continuation in H
  | H : context [if ?b then _ else _] |- _ => destruct b eqn:?
  | H : match ?l with [] => _ | _ :: _ => _ end = true |- _ => destruct l
  end.

(** A valid string is a sequence of bytes. *)
Lemma utf8_valid_bytes_ok l : utf8_valid l = true → bytes_ok l.
Proof.
  remember (length l) as n eqn:Hn. revert l Hn.
  induction (lt_wf n) as [n _ IH]. intros l -> Hv.
  destruct l as [|b0 r0]; [constructor|]. cbn [utf8_valid] in Hv.
  cbn beta zeta in Hv.
  repeat utf8_step; cbn [length] in IH;
    repeat (apply Forall_cons_2; [unfold is_u8; lia|]);
    (eapply IH; [|reflexivity|done]; lia).
Qed.

(** ASCII strings are valid. *)
Lemma utf8_valid_ascii l : Forall (λ b, 0 ≤ b < 128) l → utf8_valid l = true.
Proof.
  induction 1 as [|b l Hb _ IH]; [done|]. cbn [utf8_valid].
  by rewrite (proj2 (in_range_true 0 0x7F b)) by lia.
Qed.

Lemma from_utf8_ok l : utf8_valid l = true → from_utf8 l = Ok l.
Proof. unfold from_utf8. by intros ->. Qed.

Lemma from_utf8_inv l s : from_utf8 l = Ok s → s = l ∧ utf8_valid l = true.
Proof. unfold from_utf8. destruct (utf8_valid l); naive_solver. Qed.

Example utf8_crab : utf8_valid [0x74; 0xF0; 0x9F; 0xA6; 0x80] = true.
Proof. reflexivity. Qed.

Example utf8_overlong : utf8_valid [0xC0; 0x80] = false.
Proof. reflexivity. Qed.
