(* ===== verification/Str.v ===== *)
(** * Methods of [str] the crate calls

    [split], [split_once], [rsplit_once], [strip_prefix] and [starts_with] on ASCII separators and
    prefixes, as functions on the bytes of the string, with the lemmas that relate
    splitting and joining. *)

From S2P Require Import Prelude.

Local Open Scope Z_scope.

(** [s.split(sep)]: the segments between separators, at least one. *)
Fixpoint split (sep : Z) (l : list Z) : list (list Z) :=
  match l with
  | [] => [[]]
  | x :: r =>
      if x =? sep then [] :: split sep r
      else match split sep r with
           | [] => [[x]]
           | seg :: segs => (x :: seg) :: segs
           end
  end.

(** [s.split_once(sep)]: around the first separator. *)
Fixpoint split_once (sep : Z) (l : list Z) : option (list Z * list Z) :=
  match l with
  | [] => None
  | x :: r =>
      if x =? sep then Some ([], r)
      else match split_once sep r with
           | Some (a, b) => Some (x :: a, b)
           | None => None
           end
  end.

(** [s.rsplit_once(sep)]: around the last separator. *)
Definition rsplit_once (sep : Z) (l : list Z) : option (list Z * list Z) :=
  match split_once sep (reverse l) with
  | Some (a, b) => Some (reverse b, reverse a)
  | None => None
  end.

(** [s.strip_prefix(p)] *)
Fixpoint strip_prefix (p l : list Z) : option (list Z) :=
  match p, l with
  | [], _ => Some l
  | x :: p', y :: l' => if x =? y then strip_prefix p' l' else None
  | _ :: _, [] => None
  end.

(** [s.starts_with(p)] *)
Definition starts_with (p l : list Z) : bool :=
  match strip_prefix p l with Some _ => true | None => false end.

(** The inverse of [split]: segments with separators between them. *)
Fixpoint join (sep : Z) (segs : list (list Z)) : list Z :=
  match segs with
  | [] => []
  | [s] => s
  | s :: rest => s ++ sep :: join sep rest
  end.

Lemma split_not_nil sep l : split sep l ≠ [].
Proof. destruct l as [|x r]; cbn; repeat case_match; done. Qed.

Lemma join_cons sep s segs : segs ≠ [] → join sep (s :: segs) = s ++ sep :: join sep segs.
Proof. by destruct segs. Qed.

Lemma join_split sep l : join sep (split sep l) = l.
Proof.
  induction l as [|x r IH]; [done|]. cbn [split].
  destruct (Z.eqb_spec x sep) as [->|Hx].
  - rewrite join_cons by apply split_not_nil. cbn. by rewrite IH.
  - destruct (split sep r) as [|seg segs] eqn:Hs; [by destruct (split_not_nil sep r)|].
    rewrite <- IH. by destruct segs.
Qed.

Lemma split_segments sep l : Forall (λ seg, sep ∉ seg) (split sep l).
Proof.
  induction l as [|x r IH]; cbn [split].
  - constructor; [apply not_elem_of_nil|constructor].
  - destruct (Z.eqb_spec x sep) as [->|Hx].
    + constructor; [apply not_elem_of_nil|done].
    + destruct (split sep r) as [|seg segs]; apply Forall_cons_1 in IH || clear IH.
      * by apply Forall_singleton, not_elem_of_cons; split; [|apply not_elem_of_nil].
      * destruct IH. constructor; [|done]. by apply not_elem_of_cons.
Qed.

Lemma split_no_sep sep l : sep ∉ l → split sep l = [l].
Proof.
  induction l as [|x r IH]; [done|]. intros [Hx Hr]%not_elem_of_cons. cbn [split].
  rewrite (proj2 (Z.eqb_neq x sep)) by done. by rewrite IH.
Qed.

Lemma split_app sep a b :
  sep ∉ a → split sep (a ++ sep :: b) = a :: split sep b.
Proof.
  induction a as [|x a IH]; cbn [split app].
  - by rewrite Z.eqb_refl.
  - intros [Hx Ha]%not_elem_of_cons. rewrite (proj2 (Z.eqb_neq x sep)) by done.
    by rewrite IH.
Qed.

Lemma split_join sep segs :
  segs ≠ [] → Forall (λ seg, sep ∉ seg) segs → split sep (join sep segs) = segs.
Proof.
  induction segs as [|s segs IH]; [done|]. intros _ [Hs Hsegs]%Forall_cons_1.
  destruct (decide (segs = [])) as [->|Hne].
  - by apply split_no_sep.
  - rewrite join_cons, split_app by done. by rewrite IH.
Qed.

Lemma split_once_some sep l a b :
  split_once sep l = Some (a, b) ↔ l = a ++ sep :: b ∧ sep ∉ a.
Proof.
  revert a b. induction l as [|x r IH]; intros a b; cbn [split_once].
  { split; [done|]. intros [? _]. by destruct a. }
  destruct (Z.eqb_spec x sep) as [->|Hx].
  - split.
    + intros [= <- <-]. split; [done|apply not_elem_of_nil].
    + intros [Heq Ha]. destruct a as [|y a]; cbn in Heq; [by injection Heq as ->|].
      injection Heq as -> _. by apply not_elem_of_cons in Ha as [? _].
  - destruct (split_once sep r) as [[a' b']|] eqn:Hr.
    + split.
      * intros [= <- <-]. destruct (proj1 (IH a' b') eq_refl) as [-> ?].
        split; [done|]. by apply not_elem_of_cons.
      * intros [Heq Ha]. destruct a as [|y a]; cbn in Heq; [congruence|].
        injection Heq as <- Heq. apply not_elem_of_cons in Ha as [_ Ha].
        assert (He : Some (a', b') = Some (a, b)) by (by apply IH). by injection He as -> ->.
    + split; [done|]. intros [Heq Ha]. destruct a as [|y a]; cbn in Heq; [congruence|].
      injection Heq as <- Heq. apply not_elem_of_cons in Ha as [_ Ha].
      by assert (None = Some (a, b)) by (by apply IH).
Qed.

Lemma split_once_none sep l : split_once sep l = None ↔ sep ∉ l.
Proof.
  induction l as [|x r IH]; cbn [split_once].
  { split; [intros _; apply not_elem_of_nil|done]. }
  rewrite not_elem_of_cons. destruct (Z.eqb_spec x sep) as [->|Hx]; [naive_solver|].
  destruct (split_once sep r) as [[]|]; naive_solver.
Qed.

Lemma strip_prefix_some p l r : strip_prefix p l = Some r ↔ l = p ++ r.
Proof.
  revert l. induction p as [|x p IH]; intros l; cbn; [naive_solver|].
  destruct l as [|y l]; [naive_solver|].
  destruct (Z.eqb_spec x y) as [->|Hx]; [|naive_solver]. rewrite IH. naive_solver.
Qed.

Lemma starts_with_true p l : starts_with p l = true ↔ ∃ r, l = p ++ r.
Proof.
  unfold starts_with. destruct (strip_prefix p l) as [r|] eqn:H.
  - apply strip_prefix_some in H. naive_solver.
  - split; [done|]. intros [r Hr]. apply strip_prefix_some in Hr. congruence.
Qed.
