(* ===== verification/Types.v ===== *)
(** * Control packet types, QoS and the fixed header (src/src/codec/types.rs)

    The 4-bit packet type, the QoS level and the fixed header, with the
    conversions from and to the wire byte. *)

From S2P Require Import Prelude Errors.

Local Open Scope Z_scope.

Inductive PacketType : Type :=
  | Connect | ConnAck | Publish | PubAck | PubRec | PubRel | PubComp
  | Subscribe | SubAck | Unsubscribe | UnsubAck | PingReq | PingResp
  | Disconnect | Auth.

#[export] Instance PacketType_eq_dec : EqDecision PacketType.
Proof. solve_decision. Defined.

(** The [#[repr(u8)]] discriminants: [packet_type as u8]. *)
Definition PacketType_as_u8 (t : PacketType) : Z :=
  match t with
  | Connect => 1 | ConnAck => 2 | Publish => 3 | PubAck => 4 | PubRec => 5
  | PubRel => 6 | PubComp => 7 | Subscribe => 8 | SubAck => 9 | Unsubscribe => 10
  | UnsubAck => 11 | PingReq => 12 | PingResp => 13 | Disconnect => 14 | Auth => 15
  end.

(** [PacketType::from_u8] *)
Definition PacketType_from_u8 (val : Z) : Result PacketType :=
  match val with
  | 1 => Ok Connect
  | 2 => Ok ConnAck
  | 3 => Ok Publish
  | 4 => Ok PubAck
  | 5 => Ok PubRec
  | 6 => Ok PubRel
  | 7 => Ok PubComp
  | 8 => Ok Subscribe
  | 9 => Ok SubAck
  | 10 => Ok Unsubscribe
  | 11 => Ok UnsubAck
  | 12 => Ok PingReq
  | 13 => Ok PingResp
  | 14 => Ok Disconnect
  | 15 => Ok Auth
  | _ => Err (InvalidPacketType val)
  end.

Inductive QoS : Type := AtMostOnce | AtLeastOnce.

#[export] Instance QoS_eq_dec : EqDecision QoS.
Proof. solve_decision. Defined.

(** [qos as u8] *)
Definition QoS_as_u8 (q : QoS) : Z :=
  match q with AtMostOnce => 0 | AtLeastOnce => 1 end.

(** [QoS::from_u8] *)
Definition QoS_from_u8 (val : Z) : Result QoS :=
  match val with
  | 0 => Ok AtMostOnce
  | 1 => Ok AtLeastOnce
  | _ => Err (InvalidQoS val)
  end.

Record FixedHeader := mkFixedHeader {
  fh_packet_type : PacketType;
  fh_flags : Z;
  fh_remaining_length : Z;
}.

#[export] Instance FixedHeader_eq_dec : EqDecision FixedHeader.
Proof. solve_decision. Defined.

Lemma PacketType_u8_roundtrip t : PacketType_from_u8 (PacketType_as_u8 t) = Ok t.
Proof. by destruct t. Qed.

Lemma PacketType_as_u8_range t : 1 ≤ PacketType_as_u8 t ≤ 15.
Proof. destruct t; cbn; lia. Qed.

Lemma QoS_u8_roundtrip q : QoS_from_u8 (QoS_as_u8 q) = Ok q.
Proof. by destruct q. Qed.

Lemma QoS_as_u8_range q : 0 ≤ QoS_as_u8 q ≤ 1.
Proof. destruct q; cbn; lia. Qed.

Lemma PacketType_from_u8_returns v : returns (PacketType_from_u8 v).
Proof. unfold PacketType_from_u8. repeat case_match; done. Qed.

Lemma QoS_from_u8_returns v : returns (QoS_from_u8 v).
Proof. unfold QoS_from_u8. repeat case_match; done. Qed.
