(* ===== verification/Decode.v ===== *)
(** * Decoding primitives (src/src/codec/decode.rs)

    The byte cursor and its readers, and the fixed-header decoder. A reader is a
    state transformer on the cursor; indexing and [u32] arithmetic are checked, so
    that panic freedom is a theorem and not a convention. *)

From S2P Require Import Prelude Errors Types Utf8.

Local Open Scope Z_scope.

Record Cursor := mkCursor { cur_buf : list Z; cur_pos : Z }.

(** [Cursor::new] *)
Definition cursor_new (buf : list Z) : Cursor := mkCursor buf 0.

Abbreviation CurM A := (M Cursor A).

(** [Cursor::position] *)
Definition position (c : Cursor) : Z := cur_pos c.

(** [Cursor::remaining] *)
Definition remaining (c : Cursor) : Z := saturating_sub (zlen (cur_buf c)) (cur_pos c).

(** [&buf[from..]]: panics when [from] is past the end. *)
Definition slice_from (l : list Z) (from : Z) : Result (list Z) :=
  if zlen l <? from then Panic "slice start out of range" else Ok (zdrop from l).

(** [&buf[from..to]] *)
Definition slice_range (l : list Z) (from to : Z) : Result (list Z) :=
  if to <? from then Panic "slice end before start"
  else if zlen l <? to then Panic "slice end out of range"
  else Ok (ztake (to - from) (zdrop from l)).

(** [buf[i]] *)
Definition index (l : list Z) (i : Z) : Result Z :=
  match znth l i with Some x => Ok x | None => Panic "index out of bounds" end.

(** [Cursor::remaining_bytes] *)
Definition remaining_bytes : CurM (list Z) :=
  λ c, (slice_from (cur_buf c) (cur_pos c), c).

(** [Cursor::ensure] *)
Definition ensure (n : Z) : CurM unit :=
  let! c := get in
  fail_if (remaining c <? n) (MalformedPacket "unexpected end of data").

(** [self.buf[self.pos + i]] *)
Definition peek (i : Z) : CurM Z :=
  λ c, (index (cur_buf c) (cur_pos c + i), c).

(** [self.pos += n] *)
Definition advance (n : Z) : CurM unit :=
  modify (λ c, mkCursor (cur_buf c) (cur_pos c + n)).

(** [Cursor::read_u8] *)
Definition read_u8 : CurM Z :=
  let! _ := ensure 1 in
  let! val := peek 0 in
  let! _ := advance 1 in
  ret val.

(** [Cursor::read_u16] *)
Definition read_u16 : CurM Z :=
  let! _ := ensure 2 in
  let! b0 := peek 0 in
  let! b1 := peek 1 in
  let! _ := advance 2 in
  ret (u16_from_be b0 b1).

(** [Cursor::read_u32] *)
Definition read_u32 : CurM Z :=
  let! _ := ensure 4 in
  let! b0 := peek 0 in
  let! b1 := peek 1 in
  let! b2 := peek 2 in
  let! b3 := peek 3 in
  let! _ := advance 4 in
  ret (u32_from_be b0 b1 b2 b3).

(** [Cursor::read_bytes] *)
Definition read_bytes (n : Z) : CurM (list Z) :=
  let! _ := ensure n in
  let! c := get in
  let! slice := lift (slice_range (cur_buf c) (cur_pos c) (cur_pos c + n)) in
  let! _ := advance n in
  ret slice.

(** Overflow-checked [u32] arithmetic, as a debug build performs it; where it
    never panics a release build computes the same value. *)
Definition u32_mul (a b : Z) : Result Z :=
  if a * b <? 4294967296 then Ok (a * b) else Panic "u32 multiplication overflow".
Definition u32_add (a b : Z) : Result Z :=
  if a + b <? 4294967296 then Ok (a + b) else Panic "u32 addition overflow".

(** One run of the [loop] of [Cursor::read_variable_int]; [fuel] bounds its
    iterations. *)
Fixpoint read_variable_int_loop (fuel : nat) (value multiplier : Z) : CurM Z :=
  match fuel with
  | O => diverge
  | S fuel' =>
      let! byte := read_u8 in
      let! term := lift (u32_mul (Z.land byte 0x7F) multiplier) in
      let! value := lift (u32_add value term) in
      if Z.land byte 0x80 =? 0 then ret value
      else
        let! multiplier := lift (u32_mul multiplier 128) in
        if 128 * 128 * 128 <? multiplier
        then fail (MalformedPacket "variable int too long")
        else read_variable_int_loop fuel' value multiplier
  end.

(** [Cursor::read_variable_int]: four iterations are always enough. *)
Definition read_variable_int : CurM Z := read_variable_int_loop 4 0 1.

(** [Cursor::read_string]: the bytes of the [String]. *)
Definition read_string : CurM (list Z) :=
  let! len := read_u16 in
  let! bytes := read_bytes len in
  if contains 0 bytes then fail (MalformedPacket "MQTT string contains null")
  else lift (map_err (λ _, MalformedPacket "invalid UTF-8") (from_utf8 bytes)).

(** [Cursor::read_binary] *)
Definition read_binary : CurM (list Z) :=
  let! len := read_u16 in
  let! bytes := read_bytes len in
  ret bytes.

(** [validate_fixed_header] *)
Definition validate_fixed_header (header : FixedHeader) : Result unit :=
  match fh_packet_type header with
  | Publish =>
      let qos := Z.land (Z.shiftr (fh_flags header) 1) 0x03 in
      if qos =? 0x03 then Err (InvalidQoS qos)
      else if (qos =? 0) && negb (Z.land (fh_flags header) 0x08 =? 0)
      then Err (MalformedPacket "QoS 0 PUBLISH has DUP flag")
      else Ok ()
  | t =>
      let expected :=
        match t with PubRel | Subscribe | Unsubscribe => 0x02 | _ => 0x00 end in
      if negb (fh_flags header =? expected)
      then Err (MalformedPacket "invalid fixed-header flags")
      else Ok ()
  end.

(** [decode_fixed_header]: the header and the bytes it takes. *)
Definition decode_fixed_header (data : list Z) : Result (FixedHeader * Z) :=
  eval_on (cursor_new data) (
    let! first_byte := read_u8 in
    let! packet_type := lift (PacketType_from_u8 (Z.shiftr first_byte 4)) in
    let flags := Z.land first_byte 0x0F in
    let! remaining_length := read_variable_int in
    let header := mkFixedHeader packet_type flags remaining_length in
    let! _ := lift (validate_fixed_header header) in
    let! cur := get in
    ret (header, position cur)).

(** ** What the readers do *)

(** The cursor that has consumed [pre] and still has [rest]. *)
Definition cursor_at (pre rest : list Z) : Cursor := mkCursor (pre ++ rest) (zlen pre).

Lemma cursor_new_at buf : cursor_new buf = cursor_at [] buf.
Proof. done. Qed.

Lemma remaining_at pre rest : remaining (cursor_at pre rest) = zlen rest.
Proof.
  unfold remaining, saturating_sub, cursor_at; cbn [cur_buf cur_pos]. rewrite zlen_app.
  pose proof (zlen_nonneg rest). lia.
Qed.

Lemma position_at pre rest : position (cursor_at pre rest) = zlen pre.
Proof. done. Qed.

Lemma ensure_at n pre rest :
  ensure n (cursor_at pre rest) =
    (if zlen rest <? n then Err (MalformedPacket "unexpected end of data") else Ok (),
     cursor_at pre rest).
Proof.
  unfold ensure, get, bind. rewrite remaining_at. by destruct (zlen rest <? n).
Qed.

Lemma ensure_ok n pre rest :
  n ≤ zlen rest → ensure n (cursor_at pre rest) = (Ok (), cursor_at pre rest).
Proof. intros. rewrite ensure_at. by rewrite (proj2 (Z.ltb_ge _ _)). Qed.

Lemma ensure_short n pre rest :
  zlen rest < n →
  ensure n (cursor_at pre rest) =
    (Err (MalformedPacket "unexpected end of data"), cursor_at pre rest).
Proof. intros. rewrite ensure_at. by rewrite (proj2 (Z.ltb_lt _ _)). Qed.

Lemma peek_at i pre rest x :
  0 ≤ i → znth rest i = Some x → peek i (cursor_at pre rest) = (Ok x, cursor_at pre rest).
Proof.
  intros Hi Hx. unfold peek, index, cursor_at; cbn [cur_buf cur_pos].
  by rewrite znth_app_at, Hx.
Qed.

Lemma advance_at pre w rest n :
  n = zlen w → advance n (cursor_at pre (w ++ rest)) = (Ok (), cursor_at (pre ++ w) rest).
Proof.
  intros ->. unfold advance, modify, cursor_at; cbn [cur_buf cur_pos].
  by rewrite zlen_app, <- app_assoc.
Qed.

Lemma remaining_bytes_at pre rest :
  remaining_bytes (cursor_at pre rest) = (Ok rest, cursor_at pre rest).
Proof.
  unfold remaining_bytes, slice_from, cursor_at; cbn [cur_buf cur_pos].
  rewrite zlen_app, (proj2 (Z.ltb_ge _ _)) by (pose proof (zlen_nonneg rest); lia).
  by rewrite zdrop_app_exact.
Qed.

Ltac short_len := unfold zlen; cbn [length]; lia.

Lemma read_u8_at pre b rest :
  read_u8 (cursor_at pre (b :: rest)) = (Ok b, cursor_at (pre ++ [b]) rest).
Proof.
  unfold read_u8. erewrite bind_ok by (apply ensure_ok; short_len).
  erewrite bind_ok by (apply peek_at; [lia|reflexivity]).
  by erewrite bind_ok by (apply (advance_at _ [b]); short_len).
Qed.

Lemma read_u8_nil pre :
  read_u8 (cursor_at pre []) =
    (Err (MalformedPacket "unexpected end of data"), cursor_at pre []).
Proof. unfold read_u8. by erewrite bind_err by (apply ensure_short; short_len). Qed.

Lemma read_u16_at pre b0 b1 rest :
  read_u16 (cursor_at pre (b0 :: b1 :: rest)) =
    (Ok (u16_from_be b0 b1), cursor_at (pre ++ [b0; b1]) rest).
Proof.
  unfold read_u16. erewrite bind_ok by (apply ensure_ok; short_len).
  erewrite bind_ok by (apply peek_at; [lia|reflexivity]).
  erewrite bind_ok by (apply peek_at; [lia|reflexivity]).
  by erewrite bind_ok by (apply (advance_at _ [b0; b1]); short_len).
Qed.

Lemma read_u16_short pre rest :
  zlen rest < 2 →
  read_u16 (cursor_at pre rest) =
    (Err (MalformedPacket "unexpected end of data"), cursor_at pre rest).
Proof. intros. unfold read_u16. by erewrite bind_err by (by apply ensure_short). Qed.

Lemma read_u32_at pre b0 b1 b2 b3 rest :
  read_u32 (cursor_at pre (b0 :: b1 :: b2 :: b3 :: rest)) =
    (Ok (u32_from_be b0 b1 b2 b3), cursor_at (pre ++ [b0; b1; b2; b3]) rest).
Proof.
  unfold read_u32. erewrite bind_ok by (apply ensure_ok; short_len).
  do 4 (erewrite bind_ok by (apply peek_at; [lia|reflexivity])).
  by erewrite bind_ok by (apply (advance_at _ [b0; b1; b2; b3]); short_len).
Qed.

Lemma read_u32_short pre rest :
  zlen rest < 4 →
  read_u32 (cursor_at pre rest) =
    (Err (MalformedPacket "unexpected end of data"), cursor_at pre rest).
Proof. intros. unfold read_u32. by erewrite bind_err by (by apply ensure_short). Qed.

Lemma slice_range_at pre w rest :
  slice_range (pre ++ w ++ rest) (zlen pre) (zlen pre + zlen w) = Ok w.
Proof.
  unfold slice_range.
  pose proof (zlen_nonneg w). pose proof (zlen_nonneg rest).
  rewrite (proj2 (Z.ltb_ge _ _)) by lia.
  rewrite (proj2 (Z.ltb_ge _ _)) by (rewrite !zlen_app; lia).
  rewrite zdrop_app_exact. replace (zlen pre + zlen w - zlen pre) with (zlen w) by lia.
  by rewrite ztake_app_exact.
Qed.

Lemma read_bytes_at pre w rest :
  read_bytes (zlen w) (cursor_at pre (w ++ rest)) = (Ok w, cursor_at (pre ++ w) rest).
Proof.
  unfold read_bytes.
  erewrite bind_ok by (apply ensure_ok; rewrite zlen_app; pose proof (zlen_nonneg rest); lia).
  erewrite bind_ok by reflexivity.
  erewrite bind_ok by (unfold lift; cbn [cur_buf cur_pos cursor_at];
                       by rewrite slice_range_at).
  by erewrite bind_ok by (by apply advance_at).
Qed.

Lemma read_bytes_short n pre rest :
  zlen rest < n →
  read_bytes n (cursor_at pre rest) =
    (Err (MalformedPacket "unexpected end of data"), cursor_at pre rest).
Proof. intros. unfold read_bytes. by erewrite bind_err by (by apply ensure_short). Qed.

(** *** Variable-length integers *)

Lemma u32_add_ok a b : a + b < 4294967296 → u32_add a b = Ok (a + b).
Proof. intros. unfold u32_add. by rewrite (proj2 (Z.ltb_lt _ _)). Qed.

Lemma u32_mul_ok a b : a * b < 4294967296 → u32_mul a b = Ok (a * b).
Proof. intros. unfold u32_mul. by rewrite (proj2 (Z.ltb_lt _ _)). Qed.

(** The decoded value so far is below the weight of the next digit, and that
    weight is at most [128^3]: the arithmetic of the loop cannot overflow. *)
Definition varint_state (value multiplier : Z) : Prop :=
  0 ≤ value < multiplier ∧ 1 ≤ multiplier ≤ 128 * 128 * 128.

Lemma read_variable_int_loop_at fuel value multiplier pre b rest :
  varint_state value multiplier → is_u8 b →
  read_variable_int_loop (S fuel) value multiplier (cursor_at pre (b :: rest)) =
    if b <? 128 then (Ok (value + b mod 128 * multiplier), cursor_at (pre ++ [b]) rest)
    else if 128 * 128 * 128 <? multiplier * 128
    then (Err (MalformedPacket "variable int too long"), cursor_at (pre ++ [b]) rest)
    else read_variable_int_loop fuel (value + b mod 128 * multiplier) (multiplier * 128)
           (cursor_at (pre ++ [b]) rest).
Proof.
  intros [Hv Hm] Hb. cbn [read_variable_int_loop].
  erewrite bind_ok by apply read_u8_at.
  rewrite land_0x7F. pose proof (Z.mod_pos_bound b 128).
  erewrite bind_ok by (unfold lift; rewrite u32_mul_ok by nia; reflexivity).
  erewrite bind_ok by (unfold lift; rewrite u32_add_ok by nia; reflexivity).
  rewrite (u8_land_0x80 b Hb). destruct (b <? 128); [done|].
  erewrite bind_ok by (unfold lift; rewrite u32_mul_ok by nia; reflexivity).
  by destruct (_ <? _).
Qed.

(** Panic freedom and termination of every reader, and what it leaves behind:
    the buffer is untouched and the position moves forward, never past the end. *)
Ltac split_bytes_ok :=
  repeat match goal with
  | H : bytes_ok (_ :: _) |- _ => unfold bytes_ok in H
  | H : Forall is_u8 (_ :: _) |- _ => apply Forall_cons_1 in H as [? H]
  end.

Section reader_safety.
Context (buf : list Z) (Hbuf : bytes_ok buf).

Definition cursor_inv (p : Z) (c : Cursor) : Prop :=
  cur_buf c = buf ∧ 0 ≤ p ≤ cur_pos c ∧ cur_pos c ≤ zlen buf.

Lemma cursor_inv_at p c :
  cursor_inv p c →
  ∃ pre rest, buf = pre ++ rest ∧ c = cursor_at pre rest ∧ 0 ≤ p ≤ zlen pre ∧ bytes_ok rest.
Proof.
  intros (Hb & Hp & Hl). exists (ztake (cur_pos c) buf), (zdrop (cur_pos c) buf).
  assert (Hz : zlen (ztake (cur_pos c) buf) = cur_pos c) by (apply zlen_ztake; lia).
  split_and!.
  - by rewrite ztake_zdrop.
  - unfold cursor_at. rewrite ztake_zdrop, Hz. destruct c; cbn in *. congruence.
  - lia.
  - rewrite Hz; lia.
  - by apply Forall_drop.
Qed.

Lemma cursor_inv_intro p pre rest :
  buf = pre ++ rest → 0 ≤ p ≤ zlen pre → cursor_inv p (cursor_at pre rest).
Proof.
  unfold cursor_inv, cursor_at; cbn [cur_buf cur_pos]. intros -> Hp.
  rewrite zlen_app. pose proof (zlen_nonneg rest). split_and!; auto; lia.
Qed.

Lemma cursor_inv_mono p p' c : 0 ≤ p' ≤ p → cursor_inv p c → cursor_inv p' c.
Proof. intros ? (? & ? & ?). split_and!; auto; lia. Qed.

Lemma cursor_inv_new : cursor_inv 0 (cursor_new buf).
Proof. apply (cursor_inv_intro 0 [] buf); [done|]. done. Qed.

(** A reader is safe from [p] when from any position at or after [p] it returns,
    advances by at least [k] when it succeeds, and yields a value in [Q]. *)
Definition reads {A} (k : Z) (m : CurM A) (Q : A → Prop) : Prop :=
  ∀ p c, cursor_inv p c →
    safe (cursor_inv p) m (λ a c', Q a ∧ cur_pos c + k ≤ cur_pos c') c.

Lemma reads_bind {A B} k1 k2 (m : CurM A) (k : A → CurM B) Q R :
  reads k1 m Q → (∀ a, Q a → reads k2 (k a) R) → reads (k1 + k2) (bind m k) R.
Proof.
  intros Hm Hk p c Hc. eapply safe_bind; [by apply Hm|].
  intros a c' Hc' [HQ Hp]. eapply safe_weaken; [by apply Hk|].
  cbv beta. intros b c'' _ [HR ?]. split; [done|lia].
Qed.

(** The same without counting the bytes consumed. *)
Lemma reads_bind0 {A B} k (m : CurM A) (f : A → CurM B) Q R :
  reads k m Q → 0 ≤ k → (∀ a, Q a → reads 0 (f a) R) → reads 0 (bind m f) R.
Proof.
  intros Hm Hk Hf p c Hc. eapply safe_bind; [by apply Hm|].
  intros a c' Hc' [HQ Hp]. eapply safe_weaken; [by apply Hf|].
  cbv beta. intros b c'' _ [HR ?]. split; [done|lia].
Qed.

Lemma reads_get : reads 0 get (λ _, True).
Proof.
  intros p c Hc. unfold safe, wp, get; cbn. split_and!; auto. intros a [= <-].
  split; [done|lia].
Qed.

Lemma reads_weaken {A} k k' (m : CurM A) (Q Q' : A → Prop) :
  reads k m Q → k' ≤ k → (∀ a, Q a → Q' a) → reads k' m Q'.
Proof.
  intros Hm Hk HQ p c Hc. eapply safe_weaken; [by apply Hm|].
  cbv beta. intros a c' _ [? ?]. split; [auto|lia].
Qed.

Lemma reads_ret {A} (a : A) (Q : A → Prop) : Q a → reads 0 (ret a) Q.
Proof. intros HQ p c Hc. apply safe_ret; [done|]. split; [done|lia]. Qed.

Lemma reads_assoc {A B C} n (m : CurM A) (k : A → CurM B) (h : B → CurM C) Q :
  reads n (bind m (λ a, bind (k a) h)) Q → reads n (bind (bind m k) h) Q.
Proof. intros H p c Hc. unfold safe, wp. rewrite bind_assoc. by apply H. Qed.

Lemma reads_fail {A} k e (Q : A → Prop) : reads k (fail e) Q.
Proof. intros p c Hc. by apply safe_fail. Qed.

Lemma reads_fail_if b e : reads 0 (fail_if b e) (λ _, b = false).
Proof. intros p c Hc. apply safe_fail_if; [done|]. intros. split; [done|lia]. Qed.

Lemma reads_lift {A} (r : Result A) (Q : A → Prop) :
  returns r → (∀ a, r = Ok a → Q a) → reads 0 (lift r) Q.
Proof. intros Hr HQ p c Hc. apply safe_lift; auto. intros. split; [auto|lia]. Qed.

Lemma reads_bind_lift {A B} (r : Result A) (f : A → CurM B) R :
  returns r → (∀ a, r = Ok a → reads 0 (f a) R) → reads 0 (bind (lift r) f) R.
Proof.
  intros Hr Hf. eapply (reads_bind0 0 _ _ (λ a, r = Ok a)); [by apply reads_lift|lia|done].
Qed.

Lemma reads_gets {A} (f : Cursor → A) : reads 0 (gets f) (λ _, True).
Proof.
  intros p c Hc. unfold safe, wp, gets; cbn. split_and!; auto. intros a [= <-].
  split; [done|lia].
Qed.

Lemma reads_short {A} k pre rest (m : CurM A) (Q : A → Prop) p e :
  buf = pre ++ rest → 0 ≤ p ≤ zlen pre →
  m (cursor_at pre rest) = (Err e, cursor_at pre rest) →
  safe (cursor_inv p) m (λ a c', Q a ∧ cur_pos (cursor_at pre rest) + k ≤ cur_pos c')
    (cursor_at pre rest).
Proof.
  intros Heq Hp Hm. unfold safe, wp. rewrite Hm. split_and!; [done| |done].
  by apply cursor_inv_intro.
Qed.

Lemma reads_consume {A} pre w rest (m : CurM A) (Q : A → Prop) p a :
  buf = pre ++ w ++ rest → 0 ≤ p ≤ zlen pre → Q a →
  m (cursor_at pre (w ++ rest)) = (Ok a, cursor_at (pre ++ w) rest) →
  safe (cursor_inv p) m
    (λ a c', Q a ∧ cur_pos (cursor_at pre (w ++ rest)) + zlen w ≤ cur_pos c')
    (cursor_at pre (w ++ rest)).
Proof.
  intros Heq Hp HQ Hm. unfold safe, wp. rewrite Hm. cbn [fst snd].
  pose proof (zlen_nonneg w). split; [done|]. split.
  - apply cursor_inv_intro; [by rewrite <- app_assoc|]. rewrite zlen_app. lia.
  - intros ? [= <-]. split; [done|]. cbn [cur_pos cursor_at]. rewrite zlen_app. lia.
Qed.

Lemma read_u8_reads : reads 1 read_u8 is_u8.
Proof.
  intros p c Hc. destruct (cursor_inv_at p c Hc) as (pre & rest & Heq & -> & Hp & Hr).
  destruct rest as [|b rest]; [eapply reads_short; [done..|apply read_u8_nil]|].
  split_bytes_ok. apply (reads_consume pre [b] rest _ _ _ b); [done..|].
  apply read_u8_at.
Qed.

Lemma read_u16_reads : reads 2 read_u16 is_u16.
Proof.
  intros p c Hc. destruct (cursor_inv_at p c Hc) as (pre & rest & Heq & -> & Hp & Hr).
  destruct rest as [|b0 [|b1 rest]];
    try (eapply reads_short; [done..|]; by apply read_u16_short).
  split_bytes_ok.
  apply (reads_consume pre [b0; b1] rest _ _ _ (u16_from_be b0 b1)); [done..| |].
  - by apply u16_from_be_range.
  - apply read_u16_at.
Qed.

Lemma read_u32_reads : reads 4 read_u32 is_u32.
Proof.
  intros p c Hc. destruct (cursor_inv_at p c Hc) as (pre & rest & Heq & -> & Hp & Hr).
  destruct rest as [|b0 [|b1 [|b2 [|b3 rest]]]];
    try (eapply reads_short; [done..|]; by apply read_u32_short).
  split_bytes_ok.
  apply (reads_consume pre [b0; b1; b2; b3] rest _ _ _ (u32_from_be b0 b1 b2 b3)); [done..| |].
  - by apply u32_from_be_range.
  - apply read_u32_at.
Qed.

Lemma read_bytes_reads n :
  0 ≤ n → reads n (read_bytes n) (λ w, bytes_ok w ∧ zlen w = n).
Proof.
  intros Hn p c Hc. destruct (cursor_inv_at p c Hc) as (pre & rest & Heq & -> & Hp & Hr).
  destruct (decide (zlen rest < n)) as [Hs|Hs].
  - eapply reads_short; [done..|]. by apply read_bytes_short.
  - assert (Hz : zlen (ztake n rest) = n) by (apply zlen_ztake; lia).
    assert (Hw : bytes_ok (ztake n rest)) by (by apply Forall_take).
    revert Heq Hz Hw. rewrite <- (ztake_zdrop n rest) at 1 4.
    generalize (ztake n rest) as w, (zdrop n rest) as r. intros w r Heq <- Hw.
    apply (reads_consume pre w r _ (λ w', bytes_ok w' ∧ zlen w' = zlen w) _ w);
      [done..|apply read_bytes_at].
Qed.

(** A successful read: the value satisfies [Q], the cursor is still in the buffer. *)
Lemma reads_inv {A} k (m : CurM A) (Q : A → Prop) p c a c' :
  reads k m Q → cursor_inv p c → m c = (Ok a, c') →
  Q a ∧ cursor_inv p c' ∧ cur_pos c + k ≤ cur_pos c'.
Proof.
  intros Hm Hc He. destruct (Hm p c Hc) as (_ & HI & HQ). rewrite He in HI, HQ.
  destruct (HQ a eq_refl). done.
Qed.

(** A decoder run on a fresh cursor returns, and what it yields satisfies [Q]. *)
Lemma reads_eval {A} k (m : CurM A) (Q : A → Prop) :
  reads k m Q →
  returns (eval_on (cursor_new buf) m) ∧ ∀ a, eval_on (cursor_new buf) m = Ok a → Q a.
Proof.
  intros Hm. destruct (Hm 0 _ cursor_inv_new) as (Hr & _ & HQ).
  split; [done|]. intros a Ha. by apply HQ.
Qed.

Lemma read_variable_int_loop_reads fuel value multiplier :
  varint_state value multiplier → multiplier * 128 ^ Z.of_nat fuel = 128 * 128 * 128 →
  reads 1 (read_variable_int_loop (S fuel) value multiplier) (λ v, 0 ≤ v ≤ 268435455).
Proof.
  revert value multiplier. induction fuel as [|fuel IH]; intros value multiplier [Hv Hm] Hw;
    cbn [read_variable_int_loop]; change 1 with (1 + (0 + (0 + 0))).
  all: eapply reads_bind; [apply read_u8_reads|]; intros b Hb.
  all: rewrite land_0x7F; pose proof (Z.mod_pos_bound b 128).
  all: eapply (reads_bind _ _ _ _ (λ t, t = b mod 128 * multiplier));
    [apply reads_lift; rewrite u32_mul_ok by nia; [done|by intros ? [= <-]]|]; intros ? ->.
  all: eapply (reads_bind _ _ _ _ (λ v, v = value + b mod 128 * multiplier));
    [apply reads_lift; rewrite u32_add_ok by nia; [done|by intros ? [= <-]]|]; intros ? ->.
  all: destruct (_ =? 0); [apply reads_ret; nia|].
  all: eapply (reads_weaken (0 + 0)); [|lia|exact (λ _ H, H)].
  all: eapply (reads_bind _ _ _ _ (λ m, m = multiplier * 128));
    [apply reads_lift; rewrite u32_mul_ok by nia; [done|by intros ? [= <-]]|]; intros ? ->.
  - rewrite (proj2 (Z.ltb_lt _ _)) by lia. apply reads_fail.
  - assert (Hp : 0 < 128 ^ Z.of_nat fuel) by (apply Z.pow_pos_nonneg; lia).
    rewrite Nat2Z.inj_succ, Z.pow_succ_r in Hw by lia.
    rewrite (proj2 (Z.ltb_ge _ _)) by nia.
    eapply reads_weaken; [apply IH|lia|done]; [split; nia|nia].
Qed.

Lemma read_variable_int_reads : reads 1 read_variable_int (λ v, 0 ≤ v ≤ 268435455).
Proof. apply read_variable_int_loop_reads; [unfold varint_state; lia|done]. Qed.

Lemma read_string_reads :
  reads 2 read_string (λ s, utf8_valid s = true ∧ (0 ∉ s) ∧ zlen s ≤ 65535).
Proof.
  unfold read_string. change 2 with (2 + (0 + 0)).
  eapply reads_bind; [apply read_u16_reads|]. intros len Hlen.
  eapply reads_bind; [eapply reads_weaken; [apply (read_bytes_reads len)| |exact (λ _ H, H)];
                      unfold is_u16 in Hlen; lia|].
  intros w [_ Hw]. destruct (contains 0 w) eqn:Hc; [apply reads_fail|].
  unfold from_utf8, is_u16 in *. apply reads_lift; destruct (utf8_valid w) eqn:Hv; try done.
  intros ? [= <-]. split_and!; [done|by apply contains_false|lia].
Qed.

Lemma read_binary_reads : reads 2 read_binary (λ s, bytes_ok s ∧ zlen s ≤ 65535).
Proof.
  unfold read_binary. change 2 with (2 + (0 + 0)).
  eapply reads_bind; [apply read_u16_reads|]. intros len Hlen.
  eapply reads_bind; [eapply reads_weaken; [apply (read_bytes_reads len)| |exact (λ _ H, H)];
                      unfold is_u16 in Hlen; lia|].
  intros w [? ?]. apply reads_ret. unfold is_u16 in Hlen. split; [done|lia].
Qed.
End reader_safety.

#[export] Hint Resolve read_u8_reads read_u16_reads read_u32_reads read_variable_int_reads
  read_string_reads read_binary_reads reads_fail_if reads_get : mqtt.

(** Walk through a reader that chains safe readers and guards; what is left is the
    [lift]ed pure checks and the final [ret]. *)
Ltac reads_step :=
  lazymatch goal with
  | |- reads _ _ (let x := _ in _) _ => cbv zeta
  | |- reads ?buf ?n (bind (ret ?a) ?k) ?Q =>
      let t := eval cbv beta in (k a) in change (reads buf n t Q)
  | |- reads _ _ (bind (bind _ _) _) _ => apply reads_assoc
  | |- reads _ _ (bind (if ?b then _ else _) _) _ => destruct b eqn:?
  | |- reads _ _ (bind (lift _) _) _ =>
      apply reads_bind_lift; [solve [eauto with mqtt]|intros]
  | |- reads _ _ (bind _ _) _ =>
      eapply reads_bind0; [solve [eauto with mqtt]|lia|cbv beta; intros]
  | |- reads _ _ (fail _) _ => apply reads_fail
  | |- reads _ _ (ret _) _ => apply reads_ret
  | |- reads _ _ (if ?b then _ else _) _ => destruct b eqn:?
  | |- reads _ _ (match ?x with _ => _ end) _ => destruct x eqn:?
  end.

(** *** The fixed header *)

Lemma validate_fixed_header_returns h : returns (validate_fixed_header h).
Proof. unfold validate_fixed_header. repeat case_match; done. Qed.

#[export] Hint Resolve PacketType_from_u8_returns QoS_from_u8_returns
  validate_fixed_header_returns : mqtt.

(** A fixed header is decoded or refused from any bytes: no index leaves the
    buffer, no [u32] operation overflows and the length loop ends. *)
Lemma decode_fixed_header_returns data : bytes_ok data → returns (decode_fixed_header data).
Proof.
  intros Hb. unfold decode_fixed_header. apply (reads_eval data Hb 0 _ (λ _, True)).
  repeat reads_step; auto with mqtt.
Qed.
