(* ===== verification/Encode.v ===== *)
(** * Encoding primitives (src/src/codec/encode.rs)

    The writers append to a byte buffer. Each is paired with its reader of
    [Decode] through the interface [Wire], whose law is the round trip; the packet
    codecs are proved against that law. *)

From S2P Require Import Prelude Errors Utf8 Types Decode.

Local Open Scope Z_scope.

(** A writer over [buf: &mut Vec<u8>]. *)
Abbreviation BufM A := (M (list Z) A).

(** [buf.push(b)], [buf.extend_from_slice(w)] *)
Definition push (b : Z) : BufM unit := modify (λ buf, buf ++ [b]).
Definition extend_from_slice (w : list Z) : BufM unit := modify (λ buf, buf ++ w).

Definition VARIABLE_INT_MAX : Z := 268435455.

Fixpoint encode_variable_int_loop (fuel : nat) (value : Z) : BufM unit :=
  match fuel with
  | O => diverge
  | S fuel' =>
      let byte := as_u8 (Z.land value 0x7F) in
      let value := Z.shiftr value 7 in
      let byte := if 0 <? value then Z.lor byte 0x80 else byte in
      let! _ := push byte in
      if value =? 0 then ret () else encode_variable_int_loop fuel' value
  end.

(** [encode_variable_int]: a [u32] has at most five 7-bit digits. *)
Definition encode_variable_int (value : Z) : BufM unit :=
  if VARIABLE_INT_MAX <? value then fail (PacketTooLarge value VARIABLE_INT_MAX)
  else encode_variable_int_loop 5 value.

(** [variable_int_len] *)
Definition variable_int_len (value : Z) : Z :=
  if value <=? 127 then 1
  else if value <=? 16383 then 2
  else if value <=? 2097151 then 3
  else 4.

(** [encode_string] *)
Definition encode_string (s : list Z) : BufM unit :=
  let len := zlen s in
  if 65535 <? len then fail (StringTooLong len)
  else if contains 0 s then fail (MalformedPacket "MQTT string contains null")
  else
    let! _ := extend_from_slice (u16_to_be (as_u16 len)) in
    extend_from_slice s.

(** [encode_binary] *)
Definition encode_binary (data : list Z) : BufM unit :=
  let len := zlen data in
  if 65535 <? len then fail (BinaryTooLong len)
  else
    let! _ := extend_from_slice (u16_to_be (as_u16 len)) in
    extend_from_slice data.

(** [encode_u16] *)
Definition encode_u16 (val : Z) : BufM unit := extend_from_slice (u16_to_be val).

(** [encode_fixed_header] *)
Definition encode_fixed_header (packet_type : PacketType) (flags remaining_length : Z)
  : BufM unit :=
  let! _ := fail_if (0x0F <? flags) (MalformedPacket "fixed-header flags exceed four bits") in
  let! _ := lift (validate_fixed_header (mkFixedHeader packet_type flags remaining_length)) in
  let type_byte := Z.lor (as_u8 (Z.shiftl (PacketType_as_u8 packet_type) 4)) flags in
  let! _ := push type_byte in
  encode_variable_int remaining_length.

(** [string_len], [binary_len] *)
Definition string_len (s : list Z) : Z := 2 + zlen s.
Definition binary_len (data : list Z) : Z := 2 + zlen data.

(** ** Reference definition: base-128 digits, least significant first *)

Fixpoint varint_digits (n : nat) (value : Z) : list Z :=
  match n with
  | O => [value]
  | S n' => if value <? 128 then [value]
            else (128 + value mod 128) :: varint_digits n' (value / 128)
  end.

(** At most four digits for an MQTT variable-length integer. *)
Definition varint_bytes (value : Z) : list Z := varint_digits 3 value.

(** What a length-prefixed field looks like on the wire. *)
Definition prefixed (w : list Z) : list Z := u16_to_be (zlen w) ++ w.

Lemma encode_variable_int_loop_digits fuel n value buf :
  0 ≤ value < 128 ^ Z.of_nat (S n) → (n < fuel)%nat →
  encode_variable_int_loop fuel value buf = (Ok (), buf ++ varint_digits n value).
Proof.
  revert n value buf. induction fuel as [|fuel IH]; intros n value buf Hv Hn; [lia|].
  cbn [encode_variable_int_loop]. unfold push.
  erewrite bind_ok by reflexivity.
  rewrite land_0x7F, shiftr_div by lia. change (2 ^ 7) with 128.
  assert (Hm : is_u8 (value mod 128)) by (pose proof (Z.mod_pos_bound value 128);
                                         unfold is_u8; lia).
  rewrite (u8_as_u8 _ Hm).
  assert (Hor : Z.lor (value mod 128) 0x80 = 128 + value mod 128).
  { rewrite Z.lor_comm. apply (lor_shiftl_add 1 (value mod 128) 7); [lia|].
    apply Z.mod_pos_bound. lia. }
  destruct (decide (value < 128)) as [Hs|Hs].
  - rewrite Z.div_small, Z.mod_small by lia. cbn [Z.ltb Z.eqb Z.compare].
    destruct n; cbn [varint_digits]; [done|]. by rewrite (proj2 (Z.ltb_lt _ _)).
  - assert (0 < value / 128) by (apply Z.div_str_pos; lia).
    rewrite (proj2 (Z.ltb_lt _ _)), (proj2 (Z.eqb_neq _ _)) by lia.
    destruct n as [|n]; [change (128 ^ Z.of_nat 1) with 128 in Hv; lia|].
    rewrite (IH n), Hor, <- app_assoc; [| |lia].
    + cbn [varint_digits app]. by rewrite (proj2 (Z.ltb_ge _ _)) by lia.
    + split; [lia|]. apply Z.div_lt_upper_bound; [lia|].
      rewrite (Nat2Z.inj_succ (S n)), Z.pow_succ_r in Hv by lia. lia.
Qed.

Lemma encode_variable_int_ok value buf :
  0 ≤ value ≤ VARIABLE_INT_MAX →
  encode_variable_int value buf = (Ok (), buf ++ varint_bytes value).
Proof.
  unfold VARIABLE_INT_MAX. intros Hv. unfold encode_variable_int, VARIABLE_INT_MAX.
  rewrite (proj2 (Z.ltb_ge _ _)) by lia.
  apply encode_variable_int_loop_digits; [|lia].
  change (128 ^ Z.of_nat 4) with 268435456. lia.
Qed.

Lemma encode_variable_int_too_large value buf :
  VARIABLE_INT_MAX < value →
  encode_variable_int value buf = (Err (PacketTooLarge value VARIABLE_INT_MAX), buf).
Proof.
  intros. unfold encode_variable_int. by rewrite (proj2 (Z.ltb_lt _ _)).
Qed.

Lemma varint_digits_u8 n value :
  0 ≤ value < 128 ^ Z.of_nat (S n) → bytes_ok (varint_digits n value).
Proof.
  revert value. induction n as [|n IH]; intros value Hv; cbn [varint_digits].
  - change (128 ^ Z.of_nat 1) with 128 in Hv. repeat constructor; unfold is_u8; lia.
  - pose proof (Z.mod_pos_bound value 128).
    destruct (value <? 128) eqn:Hs; repeat constructor; unfold is_u8; try lia.
    apply IH. split; [apply Z.div_pos; lia|]. apply Z.div_lt_upper_bound; [lia|].
    rewrite (Nat2Z.inj_succ (S n)), Z.pow_succ_r in Hv by lia. lia.
Qed.

Lemma varint_bytes_len value :
  0 ≤ value ≤ VARIABLE_INT_MAX → zlen (varint_bytes value) = variable_int_len value.
Proof.
  unfold VARIABLE_INT_MAX, varint_bytes, variable_int_len. intros Hv. cbn [varint_digits].
  rewrite !Z.div_div by lia. change (128 * 128) with 16384.
  change (16384 * 128) with 2097152.
  assert (∀ d c, 0 < d → (value / d <? c) = (value <? c * d)) as Hdiv.
  { intros d c Hd. apply eq_true_iff_eq. rewrite !Z.ltb_lt. split; intros.
    - pose proof (Z.div_mod value d). pose proof (Z.mod_pos_bound value d). nia.
    - apply Z.div_lt_upper_bound; lia. }
  rewrite !Hdiv by lia.
  change (128 * 128) with 16384. change (128 * 16384) with 2097152.
  destruct (Z.ltb_spec value 128); [by rewrite (proj2 (Z.leb_le _ _)) by lia|].
  rewrite (proj2 (Z.leb_gt _ 127)) by lia.
  destruct (Z.ltb_spec value 16384); [by rewrite (proj2 (Z.leb_le _ _)) by lia|].
  rewrite (proj2 (Z.leb_gt _ 16383)) by lia.
  destruct (Z.ltb_spec value 2097152); [by rewrite (proj2 (Z.leb_le _ _)) by lia|].
  by rewrite (proj2 (Z.leb_gt _ 2097151)) by lia.
Qed.

(** ** The wire interface: a field that is written and read back *)

Record Wire (A : Type) := mkWire {
  wire_put : A → BufM unit;
  wire_get : CurM A;
  wire_dom : A → Prop;
  wire_bytes : A → list Z;
}.
Arguments mkWire {A}. Arguments wire_put {A}. Arguments wire_get {A}.
Arguments wire_dom {A}. Arguments wire_bytes {A}.

(** What a field promises its users: on its domain the writer appends exactly
    [wire_bytes], a sequence of bytes, and the reader gives the value back,
    consuming those bytes and nothing else. *)
Class WireLaws {A} (w : Wire A) : Prop := {
  wire_put_ok a buf :
    wire_dom w a → wire_put w a buf = (Ok (), buf ++ wire_bytes w a);
  wire_get_ok a pre rest :
    wire_dom w a →
    wire_get w (cursor_at pre (wire_bytes w a ++ rest))
      = (Ok a, cursor_at (pre ++ wire_bytes w a) rest);
  wire_bytes_u8 a : wire_dom w a → bytes_ok (wire_bytes w a);
}.

Definition u8_wire : Wire Z := mkWire push read_u8 is_u8 (λ b, [b]).
Definition u16_wire : Wire Z := mkWire encode_u16 read_u16 is_u16 u16_to_be.
Definition u32_wire : Wire Z :=
  mkWire (λ v, extend_from_slice (u32_to_be v)) read_u32 is_u32 u32_to_be.
Definition varint_wire : Wire Z :=
  mkWire encode_variable_int read_variable_int (λ v, 0 ≤ v ≤ VARIABLE_INT_MAX) varint_bytes.

(** A string the codec accepts: valid UTF-8, no NUL, a 16-bit length. *)
Definition string_ok (s : list Z) : Prop :=
  utf8_valid s = true ∧ (0 ∉ s) ∧ zlen s ≤ 65535.
Definition binary_ok (d : list Z) : Prop := bytes_ok d ∧ zlen d ≤ 65535.

Definition string_wire : Wire (list Z) := mkWire encode_string read_string string_ok prefixed.
Definition binary_wire : Wire (list Z) := mkWire encode_binary read_binary binary_ok prefixed.

#[export] Instance u8_wire_laws : WireLaws u8_wire.
Proof.
  split; cbn; intros.
  - done.
  - apply read_u8_at.
  - by apply Forall_singleton.
Qed.

#[export] Instance u16_wire_laws : WireLaws u16_wire.
Proof.
  split; cbn -[Z.shiftr Z.land]; intros.
  - done.
  - unfold u16_to_be; cbn [app]. by rewrite read_u16_at, u16_be_roundtrip.
  - by apply u16_to_be_bytes.
Qed.

Lemma u32_to_be_bytes v : is_u32 v → bytes_ok (u32_to_be v).
Proof.
  unfold is_u32. intros H. unfold u32_to_be, bytes_ok.
  rewrite !land_0xFF, !shiftr_div by lia.
  change (2 ^ 24) with 16777216. change (2 ^ 16) with 65536. change (2 ^ 8) with 256.
  repeat constructor; unfold is_u8;
    try (apply Z.mod_pos_bound; lia); try (apply Z.div_pos; lia);
    apply Z.div_lt_upper_bound; lia.
Qed.

#[export] Instance u32_wire_laws : WireLaws u32_wire.
Proof.
  split; cbn -[Z.shiftr Z.land]; intros.
  - done.
  - unfold u32_to_be; cbn [app]. by rewrite read_u32_at, u32_be_roundtrip.
  - by apply u32_to_be_bytes.
Qed.

(** Reading the digits adds them up, most recent digit weighted by [multiplier]. *)
Lemma read_varint_digits n value acc multiplier pre rest :
  varint_state acc multiplier → multiplier * 128 ^ Z.of_nat n = 128 * 128 * 128 →
  0 ≤ value < 128 ^ Z.of_nat (S n) →
  read_variable_int_loop (S n) acc multiplier (cursor_at pre (varint_digits n value ++ rest))
    = (Ok (acc + value * multiplier), cursor_at (pre ++ varint_digits n value) rest).
Proof.
  revert value acc multiplier pre. induction n as [|n IH];
    intros value acc multiplier pre Hst Hw Hv; pose proof Hst as [Ha Hm].
  { change (128 ^ Z.of_nat 1) with 128 in Hv. cbn [varint_digits app].
    rewrite read_variable_int_loop_at by (try done; unfold is_u8; lia).
    rewrite (proj2 (Z.ltb_lt _ _)) by lia. by rewrite Z.mod_small by lia. }
  cbn [varint_digits]. destruct (Z.ltb_spec value 128) as [Hs|Hs]; cbn [app].
  { rewrite read_variable_int_loop_at by (try done; unfold is_u8; lia).
    rewrite (proj2 (Z.ltb_lt _ _)) by lia. by rewrite Z.mod_small by lia. }
  pose proof (Z.mod_pos_bound value 128).
  assert (Hp : 0 < 128 ^ Z.of_nat n) by (apply Z.pow_pos_nonneg; lia).
  rewrite Nat2Z.inj_succ, Z.pow_succ_r in Hw by lia.
  rewrite read_variable_int_loop_at by (try done; unfold is_u8; lia).
  rewrite (proj2 (Z.ltb_ge _ _)) by lia.
  rewrite (proj2 (Z.ltb_ge _ (multiplier * 128))) by nia.
  replace ((128 + value mod 128) mod 128) with (value mod 128)
    by (rewrite <- (Z.mul_1_l 128) at 2; rewrite Z.add_comm, Z.mod_add, Z.mod_mod by lia; done).
  rewrite IH.
  - rewrite <- app_assoc. cbn [app]. do 2 f_equal. pose proof (Z.div_mod value 128). nia.
  - split; nia.
  - lia.
  - split; [apply Z.div_pos; lia|]. apply Z.div_lt_upper_bound; [lia|].
    rewrite (Nat2Z.inj_succ (S n)), Z.pow_succ_r in Hv by lia. lia.
Qed.

#[export] Instance varint_wire_laws : WireLaws varint_wire.
Proof.
  split; cbn [wire_put wire_get wire_dom wire_bytes varint_wire]; unfold VARIABLE_INT_MAX.
  - intros. by apply encode_variable_int_ok.
  - intros a pre rest Ha. unfold read_variable_int, varint_bytes.
    rewrite read_varint_digits; [by rewrite Z.add_0_l, Z.mul_1_r|unfold varint_state; lia|done|].
    change (128 ^ Z.of_nat 4) with 268435456. lia.
  - intros a Ha. apply varint_digits_u8. change (128 ^ Z.of_nat 4) with 268435456. lia.
Qed.

Lemma zlen_u16 (w : list Z) : zlen w ≤ 65535 → is_u16 (zlen w) ∧ as_u16 (zlen w) = zlen w.
Proof.
  intros. pose proof (zlen_nonneg w). unfold is_u16. split; [lia|].
  apply Z.mod_small. lia.
Qed.

Lemma prefixed_u8 w : bytes_ok w → zlen w ≤ 65535 → bytes_ok (prefixed w).
Proof.
  intros Hw Hl. apply Forall_app_2; [|done]. apply u16_to_be_bytes. by apply zlen_u16.
Qed.

Lemma read_u16_prefix (w : list Z) pre rest :
  zlen w ≤ 65535 →
  read_u16 (cursor_at pre (u16_to_be (zlen w) ++ rest))
    = (Ok (zlen w), cursor_at (pre ++ u16_to_be (zlen w)) rest).
Proof. intros. apply (wire_get_ok (w := u16_wire)). by apply zlen_u16. Qed.

#[export] Instance string_wire_laws : WireLaws string_wire.
Proof.
  split; cbn [wire_put wire_get wire_dom wire_bytes string_wire]; intros s.
  - intros buf (_ & H0 & Hl). unfold encode_string.
    rewrite (proj2 (Z.ltb_ge _ _)) by lia. rewrite (proj2 (contains_false 0 s)) by done.
    destruct (zlen_u16 s Hl) as [_ ->]. unfold prefixed. by rewrite app_assoc.
  - intros pre rest (Hv & H0 & Hl). unfold read_string, prefixed. rewrite <- app_assoc.
    erewrite bind_ok by (by apply read_u16_prefix).
    erewrite bind_ok by apply read_bytes_at.
    rewrite (proj2 (contains_false 0 s)) by done. unfold lift.
    by rewrite from_utf8_ok, app_assoc by done.
  - intros (Hv & _ & Hl). apply prefixed_u8; [|done]. by apply utf8_valid_bytes_ok.
Qed.

#[export] Instance binary_wire_laws : WireLaws binary_wire.
Proof.
  split; cbn [wire_put wire_get wire_dom wire_bytes binary_wire]; intros s.
  - intros buf (_ & Hl). unfold encode_binary.
    rewrite (proj2 (Z.ltb_ge _ _)) by lia.
    destruct (zlen_u16 s Hl) as [_ ->]. unfold prefixed. by rewrite app_assoc.
  - intros pre rest (_ & Hl). unfold read_binary, prefixed. rewrite <- app_assoc.
    erewrite bind_ok by (by apply read_u16_prefix).
    erewrite bind_ok by apply read_bytes_at. by rewrite app_assoc.
  - intros (Hb & Hl). by apply prefixed_u8.
Qed.

(** Two fields in sequence. *)
Definition pair_wire {A B} (wa : Wire A) (wb : Wire B) : Wire (A * B) :=
  mkWire
    (λ '(a, b), let! _ := wire_put wa a in wire_put wb b)
    (let! a := wire_get wa in let! b := wire_get wb in ret (a, b))
    (λ '(a, b), wire_dom wa a ∧ wire_dom wb b)
    (λ '(a, b), wire_bytes wa a ++ wire_bytes wb b).

#[export] Instance pair_wire_laws {A B} (wa : Wire A) (wb : Wire B) :
  WireLaws wa → WireLaws wb → WireLaws (pair_wire wa wb).
Proof.
  intros Ha Hb. split; cbn; intros [a b].
  - intros buf [? ?]. erewrite bind_ok by (by apply wire_put_ok).
    rewrite wire_put_ok by done. by rewrite app_assoc.
  - intros pre rest [? ?]. rewrite <- app_assoc.
    erewrite bind_ok by (by apply wire_get_ok).
    erewrite bind_ok by (by apply wire_get_ok). by rewrite app_assoc.
  - intros [? ?]. apply Forall_app_2; by apply wire_bytes_u8.
Qed.
