(* ===== verification/Topic.v ===== *)
(** * Topic names and topic filters (src/src/codec/topic.rs)

    The two validators, and the grammar of MQTT topic filters they decide. *)

From S2P Require Import Prelude Errors Str.

Local Open Scope Z_scope.

Definition HASH : Z := 0x23. (* '#' *)
Definition PLUS : Z := 0x2B. (* '+' *)
Definition SLASH : Z := 0x2F. (* '/' *)

(** [s.contains(['#', '+'])] *)
Definition contains_wildcard (s : list Z) : bool := existsb (λ c, (c =? HASH) || (c =? PLUS)) s.

(** [s.is_empty()] *)
Definition is_empty (s : list Z) : bool := match s with [] => true | _ => false end.

(** [validate_topic_name] *)
Definition validate_topic_name (topic : list Z) : Result unit :=
  if is_empty topic then Err (MalformedPacket "topic name is empty")
  else if contains_wildcard topic then Err (MalformedPacket "topic name contains a wildcard")
  else Ok ().

(** The [while let] loop of [validate_filter_levels] over the peekable levels. *)
Fixpoint validate_levels (levels : list (list Z)) : Result unit :=
  match levels with
  | [] => Ok ()
  | level :: rest =>
      let peek_is_some := match rest with [] => false | _ :: _ => true end in
      if contains HASH level && (negb (list_eqb level [HASH]) || peek_is_some)
      then Err (MalformedPacket "multi-level wildcard must occupy the final topic level")
      else if contains PLUS level && negb (list_eqb level [PLUS])
      then Err (MalformedPacket "single-level wildcard must occupy an entire topic level")
      else validate_levels rest
  end.

(** [validate_filter_levels] *)
Definition validate_filter_levels (filter : list Z) : Result unit :=
  validate_levels (split SLASH filter).

(** [validate_topic_filter] *)
Definition validate_topic_filter (filter : list Z) : Result unit :=
  if is_empty filter then Err (MalformedPacket "topic filter is empty")
  else match strip_prefix (lit "$share/") filter with
  | Some shared =>
      match split_once SLASH shared with
      | None => Err (MalformedPacket "shared subscription is missing its topic filter")
      | Some (share_name, inner_filter) =>
          if is_empty share_name || contains_wildcard share_name
          then Err (MalformedPacket "shared subscription has an invalid share name")
          else if is_empty inner_filter
          then Err (MalformedPacket "shared subscription is missing its topic filter")
          else validate_filter_levels inner_filter
      end
  | None => validate_filter_levels filter
  end.

(** ** The grammar *)

(** A level without separators or wildcards. *)
Definition plain_level (l : list Z) : Prop := SLASH ∉ l ∧ HASH ∉ l ∧ PLUS ∉ l.

(** The levels of a filter: each is plain or ["+"]; the last may be ["#"]. *)
Inductive filter_levels : list (list Z) → Prop :=
  | fl_hash : filter_levels [[HASH]]
  | fl_last l : plain_level l ∨ l = [PLUS] → filter_levels [l]
  | fl_cons l ls : plain_level l ∨ l = [PLUS] → filter_levels ls → filter_levels (l :: ls).

(** A non-shared filter: its levels joined by slashes. *)
Definition plain_filter (f : list Z) : Prop :=
  ∃ levels, f = join SLASH levels ∧ filter_levels levels.

(** A topic filter: a plain one without the share prefix, or
    [$share/{ShareName}/{filter}]. *)
Inductive topic_filter : list Z → Prop :=
  | tf_plain f : f ≠ [] → starts_with (lit "$share/") f = false → plain_filter f → topic_filter f
  | tf_shared name f :
      name ≠ [] → plain_level name → f ≠ [] → plain_filter f →
      topic_filter (lit "$share/" ++ name ++ SLASH :: f).

Lemma contains_wildcard_false s : contains_wildcard s = false ↔ HASH ∉ s ∧ PLUS ∉ s.
Proof.
  unfold contains_wildcard. induction s as [|c s IH]; cbn [existsb].
  { split; [|done]. intros _. split; apply not_elem_of_nil. }
  rewrite !orb_false_iff, IH, !not_elem_of_cons, !Z.eqb_neq. naive_solver.
Qed.

Lemma is_empty_true s : is_empty s = true ↔ s = [].
Proof. by destruct s. Qed.

Lemma is_empty_false s : is_empty s = false ↔ s ≠ [].
Proof. by destruct s. Qed.

Lemma validate_topic_name_ok t :
  validate_topic_name t = Ok () ↔ t ≠ [] ∧ HASH ∉ t ∧ PLUS ∉ t.
Proof.
  unfold validate_topic_name. rewrite <- contains_wildcard_false, <- is_empty_false.
  destruct (is_empty t), (contains_wildcard t); naive_solver.
Qed.

Lemma validate_topic_name_returns t : returns (validate_topic_name t).
Proof. unfold validate_topic_name. by repeat case_match. Qed.

Lemma contains_true x l : contains x l = true ↔ x ∈ l.
Proof. rewrite <- not_false_iff_true, contains_false. split; [apply dec_stable|auto]. Qed.

Lemma validate_levels_ok levels :
  levels ≠ [] → Forall (λ l, SLASH ∉ l) levels →
  validate_levels levels = Ok () ↔ filter_levels levels.
Proof.
  induction levels as [|l ls IH]; [done|]. intros _ [Hs Hls]%Forall_cons_1.
  cbn [validate_levels]. split.
  - destruct (contains HASH l) eqn:Hh.
    { destruct (list_eqb l [HASH]) eqn:He; cbn [negb orb andb]; [|done].
      apply list_eqb_true in He as ->. destruct ls; [intros _; constructor|done]. }
    cbn [andb].
    destruct (contains PLUS l && negb (list_eqb l [PLUS])) eqn:Hp; [done|]. intros Hrec.
    assert (Hl : plain_level l ∨ l = [PLUS]).
    { apply andb_false_iff in Hp as [Hp%contains_false|Hp%negb_false_iff%list_eqb_true];
        [left|by right]. apply contains_false in Hh. done. }
    destruct ls as [|l' ls]; [by constructor|]. apply fl_cons; [done|]. by apply IH.
  - inversion 1 as [|? Hl|? ? Hl Hrec]; subst; [done| |].
    all: assert (contains HASH l = false) as -> by
           (apply contains_false; destruct Hl as [(_ & ? & _)| ->]; [done|];
            by rewrite list_elem_of_singleton).
    all: assert (contains PLUS l && negb (list_eqb l [PLUS]) = false) as ->
           by (destruct Hl as [(_ & _ & ?%contains_false)| ->]; [by rewrite andb_false_iff; left|done]).
    + done.
    + cbn [andb]. apply IH; [by destruct Hrec|done|done].
Qed.

Lemma filter_levels_no_slash levels : filter_levels levels → Forall (λ l, SLASH ∉ l) levels.
Proof.
  assert (∀ x, SLASH ≠ x → SLASH ∉ [x]) by (intros; by apply not_elem_of_cons; split; [|apply not_elem_of_nil]).
  induction 1 as [|l Hl|l ls Hl _ IH]; repeat constructor; auto; try by apply H.
  all: destruct Hl as [(? & _)| ->]; [done|by apply H].
Qed.

Lemma validate_filter_levels_ok f : validate_filter_levels f = Ok () ↔ plain_filter f.
Proof.
  unfold validate_filter_levels.
  rewrite validate_levels_ok by (apply split_not_nil || apply split_segments). split.
  - intros Hf. exists (split SLASH f). by rewrite join_split.
  - intros (levels & -> & Hl). rewrite split_join; [done|by destruct Hl|].
    by apply filter_levels_no_slash.
Qed.

Lemma validate_levels_returns levels : returns (validate_levels levels).
Proof. induction levels; cbn; repeat case_match; done. Qed.

Lemma validate_topic_filter_returns f : returns (validate_topic_filter f).
Proof.
  unfold validate_topic_filter, validate_filter_levels.
  repeat case_match; done || apply validate_levels_returns.
Qed.

(** C34. [validate_topic_filter] accepts exactly the topic filters of the grammar:
    non-empty, each level free of wildcards or just [+], [#] only as the last
    level, and after a [$share/] prefix a non-empty share name without separators
    or wildcards followed by such a filter. *)
Theorem validate_topic_filter_grammar f :
  validate_topic_filter f = Ok () ↔ topic_filter f.
Proof.
  unfold validate_topic_filter. split.
  - destruct (is_empty f) eqn:He; [done|]. apply is_empty_false in He.
    destruct (strip_prefix (lit "$share/") f) as [shared|] eqn:Hp.
    + destruct (split_once SLASH shared) as [[name inner]|] eqn:Hs; [|done].
      destruct (is_empty name || contains_wildcard name) eqn:Hn; [done|].
      destruct (is_empty inner) eqn:Hi; [done|]. rewrite validate_filter_levels_ok. intros Hf.
      apply orb_false_iff in Hn as [Hn%is_empty_false [? ?]%contains_wildcard_false].
      apply strip_prefix_some in Hp as ->. apply split_once_some in Hs as [-> Hs].
      by apply tf_shared; [| |apply is_empty_false|].
    + rewrite validate_filter_levels_ok. intros. apply tf_plain; [done| |done].
      unfold starts_with. by rewrite Hp.
  - destruct 1 as [f Hne Hp Hf|name f Hn (Hs & Hh & Hpl) Hne Hf].
    + apply is_empty_false in Hne as ->. unfold starts_with in Hp.
      destruct (strip_prefix (lit "$share/") f); [done|]. by apply validate_filter_levels_ok.
    + rewrite (proj2 (is_empty_false _)) by done.
      rewrite (proj2 (strip_prefix_some _ _ _) eq_refl).
      rewrite (proj2 (split_once_some SLASH _ name f)) by done.
      rewrite (proj2 (is_empty_false name)), (proj2 (is_empty_false f)) by done.
      rewrite (proj2 (contains_wildcard_false name)) by done.
      by apply validate_filter_levels_ok.
Qed.
