(* ===== verification/Properties.v ===== *)
(** * MQTT v5 properties (src/src/codec/properties.rs)

    Property identifiers, typed values, the per-packet allowlists, the property
    list with its accessors, and the encoder and decoder of a property section. *)

From S2P Require Import Prelude Errors Utf8 Str Types Decode Encode Topic.

Local Open Scope Z_scope.

Inductive PropertyId : Type :=
  | ResponseTopic | CorrelationData | SessionExpiryInterval | AssignedClientIdentifier
  | ServerKeepAlive | ReasonString | ReceiveMaximum | TopicAliasMaximum | MaximumQoS
  | RetainAvailable | MaximumPacketSize | WildcardSubscriptionAvailable | UserProperty
  | SharedSubscriptionAvailable.

#[export] Instance PropertyId_eq_dec : EqDecision PropertyId.
Proof. solve_decision. Defined.

(** [id as u8] *)
Definition PropertyId_as_u8 (id : PropertyId) : Z :=
  match id with
  | ResponseTopic => 0x08
  | CorrelationData => 0x09
  | SessionExpiryInterval => 0x11
  | AssignedClientIdentifier => 0x12
  | ServerKeepAlive => 0x13
  | ReasonString => 0x1F
  | ReceiveMaximum => 0x21
  | TopicAliasMaximum => 0x22
  | MaximumQoS => 0x24
  | RetainAvailable => 0x25
  | MaximumPacketSize => 0x27
  | WildcardSubscriptionAvailable => 0x28
  | UserProperty => 0x26
  | SharedSubscriptionAvailable => 0x2A
  end.

(** [PropertyId::from_u8] *)
Definition PropertyId_from_u8 (val : Z) : option PropertyId :=
  match val with
  | 0x08 => Some ResponseTopic
  | 0x09 => Some CorrelationData
  | 0x11 => Some SessionExpiryInterval
  | 0x12 => Some AssignedClientIdentifier
  | 0x13 => Some ServerKeepAlive
  | 0x1F => Some ReasonString
  | 0x21 => Some ReceiveMaximum
  | 0x22 => Some TopicAliasMaximum
  | 0x24 => Some MaximumQoS
  | 0x25 => Some RetainAvailable
  | 0x26 => Some UserProperty
  | 0x27 => Some MaximumPacketSize
  | 0x28 => Some WildcardSubscriptionAvailable
  | 0x2A => Some SharedSubscriptionAvailable
  | _ => None
  end.

Inductive PropertyValue : Type :=
  | Byte (b : Z)
  | U16 (v : Z)
  | U32 (v : Z)
  | Str (s : list Z)
  | Binary (bytes : list Z)
  | StringPair (k v : list Z).

#[export] Instance PropertyValue_eq_dec : EqDecision PropertyValue.
Proof. solve_decision. Defined.

(** The packet whose property section is encoded or decoded. *)
Inductive PropertyContext : Type :=
  | CtxConnect | CtxConnAck | CtxPublish | CtxPubAck | CtxSubscribe | CtxSubAck
  | CtxUnsubscribe | CtxUnsubAck | CtxDisconnect.

#[export] Instance PropertyContext_eq_dec : EqDecision PropertyContext.
Proof. solve_decision. Defined.

(** [matches!(id, a | b | ..)] *)
Definition one_of (ids : list Z) (id : Z) : bool := existsb (Z.eqb id) ids.

(** [PropertyContext::allows] *)
Definition allows (ctx : PropertyContext) (id : Z) : bool :=
  match ctx with
  | CtxConnect => one_of [0x11; 0x21; 0x22; 0x26; 0x27] id
  | CtxConnAck =>
      one_of [0x11; 0x12; 0x13; 0x15; 0x16; 0x1A; 0x1C; 0x1F; 0x21; 0x22; 0x24; 0x25;
              0x26; 0x27; 0x28; 0x29; 0x2A] id
  | CtxPublish => one_of [0x01; 0x02; 0x03; 0x08; 0x09; 0x0B; 0x23; 0x26] id
  | CtxPubAck | CtxSubAck | CtxUnsubAck => one_of [0x1F; 0x26] id
  | CtxSubscribe => one_of [0x0B; 0x26] id
  | CtxUnsubscribe => id =? 0x26
  | CtxDisconnect => one_of [0x1C; 0x1F; 0x26] id
  end.

(** [context.is_some_and(|context| !context.allows(id))] *)
Definition disallowed (ctx : option PropertyContext) (id : Z) : bool :=
  match ctx with Some c => negb (allows c id) | None => false end.

Record Properties := mkProperties { entries : list (PropertyId * PropertyValue) }.

#[export] Instance Properties_eq_dec : EqDecision Properties.
Proof. solve_decision. Defined.

(** [Properties::new] *)
Definition properties_new : Properties := mkProperties [].

(** [Properties::push] *)
Definition properties_push (p : Properties) (id : PropertyId) (value : PropertyValue) : Properties :=
  mkProperties (entries p ++ [(id, value)]).

(** [Properties::user] *)
Definition user (p : Properties) (key value : list Z) : Properties :=
  mkProperties (entries p ++ [(UserProperty, StringPair key value)]).

(** [Properties::replace_single] *)
Definition replace_single (p : Properties) (id : PropertyId) (value : PropertyValue) : Properties :=
  mkProperties (filter (λ e, e.1 ≠ id) (entries p) ++ [(id, value)]).

(** [Properties::set_response_topic], [Properties::set_correlation_data] *)
Definition set_response_topic (p : Properties) (topic : list Z) : Properties :=
  replace_single p ResponseTopic (Str topic).
Definition set_correlation_data (p : Properties) (data : list Z) : Properties :=
  replace_single p CorrelationData (Binary data).

(** [iter().find_map(..)]: the first entry with this identifier whose value has
    the asked type. *)
Fixpoint find_map_entry {A} (id : PropertyId) (f : PropertyValue → option A)
    (l : list (PropertyId * PropertyValue)) : option A :=
  match l with
  | [] => None
  | (pid, val) :: rest =>
      if decide (pid = id)
      then match f val with Some a => Some a | None => find_map_entry id f rest end
      else find_map_entry id f rest
  end.

(** [Properties::get_byte], [get_u16], [get_u32], [get_string], [get_binary] *)
Definition get_byte (p : Properties) (id : PropertyId) : option Z :=
  find_map_entry id (λ v, match v with Byte b => Some b | _ => None end) (entries p).
Definition get_u16 (p : Properties) (id : PropertyId) : option Z :=
  find_map_entry id (λ v, match v with U16 n => Some n | _ => None end) (entries p).
Definition get_u32 (p : Properties) (id : PropertyId) : option Z :=
  find_map_entry id (λ v, match v with U32 n => Some n | _ => None end) (entries p).
Definition get_string (p : Properties) (id : PropertyId) : option (list Z) :=
  find_map_entry id (λ v, match v with Str s => Some s | _ => None end) (entries p).
Definition get_binary (p : Properties) (id : PropertyId) : option (list Z) :=
  find_map_entry id (λ v, match v with Binary b => Some b | _ => None end) (entries p).

(** [Properties::response_topic], [Properties::correlation_data] *)
Definition response_topic (p : Properties) : option (list Z) := get_string p ResponseTopic.
Definition correlation_data (p : Properties) : option (list Z) := get_binary p CorrelationData.

(** [Properties::user_properties] *)
Definition user_properties (p : Properties) : list (list Z * list Z) :=
  omap (λ e, match e with
             | (UserProperty, StringPair k v) => Some (k, v)
             | _ => None
             end) (entries p).

(** [validate_property] *)
Definition validate_property (id : PropertyId) (value : PropertyValue) : Result unit :=
  let valid_type :=
    match id, value with
    | (ResponseTopic | AssignedClientIdentifier | ReasonString), Str _ => true
    | CorrelationData, Binary _ => true
    | (SessionExpiryInterval | MaximumPacketSize), U32 _ => true
    | (ServerKeepAlive | ReceiveMaximum | TopicAliasMaximum), U16 _ => true
    | (MaximumQoS | RetainAvailable | WildcardSubscriptionAvailable
       | SharedSubscriptionAvailable), Byte _ => true
    | UserProperty, StringPair _ _ => true
    | _, _ => false
    end in
  if negb valid_type then Err (MalformedPacket "property value has wrong wire type")
  else match id, value with
  | ResponseTopic, Str topic => validate_topic_name topic
  | AssignedClientIdentifier, Str identifier =>
      if is_empty identifier
      then Err (MalformedPacket "assigned client identifier must be non-empty")
      else Ok ()
  | ReceiveMaximum, U16 v =>
      if v =? 0 then Err (MalformedPacket "receive maximum must be non-zero") else Ok ()
  | MaximumPacketSize, U32 v =>
      if v =? 0 then Err (MalformedPacket "maximum packet size must be non-zero") else Ok ()
  | MaximumQoS, Byte v =>
      if 1 <? v then Err (MalformedPacket "maximum QoS exceeds one") else Ok ()
  | (RetainAvailable | WildcardSubscriptionAvailable | SharedSubscriptionAvailable), Byte v =>
      if 1 <? v then Err (MalformedPacket "availability property must be zero or one") else Ok ()
  | _, _ => Ok ()
  end.

(** The [match val] of [encode_inner]. *)
Definition encode_value (val : PropertyValue) : BufM unit :=
  match val with
  | Byte b => push b
  | U16 v => encode_u16 v
  | U32 v => extend_from_slice (u32_to_be v)
  | Str s => encode_string s
  | Binary bytes => encode_binary bytes
  | StringPair k v => let! _ := encode_string k in encode_string v
  end.

(** The [for] loop of [encode_inner]; [before] is [self.entries[..index]]. *)
Fixpoint encode_entries (ctx : option PropertyContext)
    (before todo : list (PropertyId * PropertyValue)) : BufM unit :=
  match todo with
  | [] => ret ()
  | (id, val) :: rest =>
      let! _ := fail_if (disallowed ctx (PropertyId_as_u8 id))
                  (MalformedPacket "property is not allowed in this packet") in
      let! _ := lift (validate_property id val) in
      let! _ := fail_if (negb (bool_decide (id = UserProperty))
                         && existsb (λ e, bool_decide (e.1 = id)) before)
                  (MalformedPacket "duplicate singleton property") in
      let! _ := encode_variable_int (PropertyId_as_u8 id) in
      let! _ := encode_value val in
      encode_entries ctx (before ++ [(id, val)]) rest
  end.

(** [Properties::encode_inner] *)
Definition encode_inner (p : Properties) (ctx : option PropertyContext) : BufM unit :=
  let! r := lift (run_on [] (encode_entries ctx [] (entries p))) in
  let body := r.2 in
  let! _ := encode_variable_int (as_u32 (zlen body)) in
  extend_from_slice body.

(** [Properties::encode], [Properties::encode_for] *)
Definition properties_encode (p : Properties) : BufM unit := encode_inner p None.
Definition encode_for (p : Properties) (ctx : PropertyContext) : BufM unit :=
  encode_inner p (Some ctx).

Definition value_len (val : PropertyValue) : Z :=
  match val with
  | Byte _ => 1
  | U16 _ => 2
  | U32 _ => 4
  | Str s => string_len s
  | Binary bytes => binary_len bytes
  | StringPair k v => string_len k + string_len v
  end.

(** [Properties::body_len], [Properties::encoded_len] *)
Definition body_len (p : Properties) : Z :=
  foldr (λ e acc, variable_int_len (PropertyId_as_u8 e.1) + value_len e.2 + acc) 0 (entries p).
Definition encoded_len (p : Properties) : Z :=
  variable_int_len (as_u32 (body_len p)) + body_len p.

(** [register_property_id]: the updated [seen_ids]. *)
Definition register_property_id (seen_ids : list Z) (id : Z) (ctx : option PropertyContext)
  : Result (list Z) :=
  let repeatable :=
    (id =? PropertyId_as_u8 UserProperty)
    || ((id =? 0x0B) && match ctx with None | Some CtxPublish => true | _ => false end) in
  if negb repeatable && contains id seen_ids
  then Err (MalformedPacket "duplicate singleton property")
  else Ok (seen_ids ++ [id]).

(** [skip_property_value] *)
Definition skip_property_value (id : Z) : CurM unit :=
  if id =? 0x01 then
    let! v := read_u8 in
    fail_if (1 <? v) (MalformedPacket "payload format indicator must be zero or one")
  else if id =? 0x29 then
    let! v := read_u8 in
    fail_if (1 <? v) (MalformedPacket "subscription identifiers available must be zero or one")
  else if one_of [0x17; 0x19; 0x24] id then let! _ := read_u8 in ret ()
  else if one_of [0x13; 0x21; 0x22] id then let! _ := read_u16 in ret ()
  else if one_of [0x02; 0x11; 0x18; 0x27] id then let! _ := read_u32 in ret ()
  else if id =? 0x0B then
    let! v := read_variable_int in
    fail_if (v =? 0) (MalformedPacket "subscription identifier must be non-zero")
  else if one_of [0x03; 0x08; 0x12; 0x15; 0x1A; 0x1C; 0x1F] id then
    let! _ := read_string in ret ()
  else if one_of [0x09; 0x16] id then let! _ := read_binary in ret ()
  else if id =? 0x26 then let! _ := read_string in let! _ := read_string in ret ()
  else fail (MalformedPacket "unknown property id").

(** The [match id] of [decode_inner]. *)
Definition decode_value (id : PropertyId) : CurM PropertyValue :=
  match id with
  | MaximumQoS | RetainAvailable | WildcardSubscriptionAvailable
  | SharedSubscriptionAvailable => let! b := read_u8 in ret (Byte b)
  | ReceiveMaximum | ServerKeepAlive | TopicAliasMaximum => let! v := read_u16 in ret (U16 v)
  | SessionExpiryInterval | MaximumPacketSize => let! v := read_u32 in ret (U32 v)
  | ResponseTopic | AssignedClientIdentifier | ReasonString =>
      let! s := read_string in ret (Str s)
  | CorrelationData => let! b := read_binary in ret (Binary b)
  | UserProperty =>
      let! k := read_string in
      let! v := read_string in
      ret (StringPair k v)
  end.

(** [u8::try_from(raw_id)] *)
Definition u8_try_from (raw : Z) : option Z := if raw <=? 255 then Some raw else None.

(** One iteration of the [while] loop of [decode_inner] for the identifier and
    value at the cursor: the property read, or [None] for one that is skipped. *)
Definition decode_entry (ctx : option PropertyContext) (end_ : Z) (seen_ids : list Z)
  : CurM (list Z * option (PropertyId * PropertyValue)) :=
  let! raw_id := read_variable_int in
  let! id_byte := lift (ok_or (u8_try_from raw_id)
                    (MalformedPacket "property id exceeds one byte")) in
  let! _ := fail_if (id_byte =? 0x23) (MalformedPacket "topic alias is not supported") in
  let! _ := fail_if (disallowed ctx id_byte)
              (MalformedPacket "property is not allowed in this packet") in
  let! seen_ids := lift (register_property_id seen_ids id_byte ctx) in
  match PropertyId_from_u8 id_byte with
  | None =>
      let! _ := skip_property_value id_byte in
      let! c := get in
      let! _ := fail_if (end_ <? position c)
                  (MalformedPacket "property exceeded declared length") in
      ret (seen_ids, None)
  | Some id =>
      let! value := decode_value id in
      let! c := get in
      let! _ := fail_if (end_ <? position c)
                  (MalformedPacket "property exceeded declared length") in
      let! _ := lift (validate_property id value) in
      ret (seen_ids, Some (id, value))
  end.

(** The [while cur.position() < end] loop; every iteration reads a byte or more. *)
Fixpoint decode_entries (fuel : nat) (ctx : option PropertyContext) (end_ : Z)
    (props : Properties) (seen_ids : list Z) : CurM Properties :=
  match fuel with
  | O => diverge
  | S fuel' =>
      let! c := get in
      if position c <? end_ then
        let! r := decode_entry ctx end_ seen_ids in
        let props := match r.2 with
                     | Some (id, value) => properties_push props id value
                     | None => props
                     end in
        decode_entries fuel' ctx end_ props r.1
      else ret props
  end.

(** [Properties::decode_inner] *)
Definition decode_inner (ctx : option PropertyContext) : CurM Properties :=
  let! prop_len := read_variable_int in
  if prop_len =? 0 then ret properties_new
  else
    let! c := get in
    let! _ := fail_if (remaining c <? prop_len)
                (MalformedPacket "property length exceeds packet") in
    let start := position c in
    let! end_ := lift (ok_or (checked_add start prop_len)
                   (MalformedPacket "property length overflow")) in
    let! props := decode_entries (S (Z.to_nat prop_len)) ctx end_ properties_new [] in
    let! c := get in
    let! _ := fail_if (negb (position c =? end_)) (MalformedPacket "property length mismatch") in
    ret props.

(** [Properties::decode], [Properties::decode_for] *)
Definition properties_decode : CurM Properties := decode_inner None.
Definition decode_for (ctx : PropertyContext) : CurM Properties := decode_inner (Some ctx).
