(* ===== verification/PropertiesFacts.v ===== *)
(** * Correctness of the property sections

    The domain on which a property list is encoded ([props_ok]), the wire law of a
    property section, the length computed by [encoded_len], and the safety of the
    decoder: it returns on any bytes, and what it returns is well formed. *)

From S2P Require Import Prelude Errors Utf8 Str Types Decode Encode Topic Properties.

Local Open Scope Z_scope.

(** ** Well-formed property lists *)

(** The invariants of the Rust types inside a value. *)
Definition value_typed (v : PropertyValue) : Prop :=
  match v with
  | Byte b => is_u8 b
  | U16 n => is_u16 n
  | U32 n => is_u32 n
  | Str s => utf8_valid s = true
  | Binary d => bytes_ok d
  | StringPair k v => utf8_valid k = true ∧ utf8_valid v = true
  end.

(** A value the encoder accepts: also within the 16-bit lengths, strings free of NUL. *)
Definition value_ok (v : PropertyValue) : Prop :=
  match v with
  | Byte b => is_u8 b
  | U16 n => is_u16 n
  | U32 n => is_u32 n
  | Str s => string_ok s
  | Binary d => binary_ok d
  | StringPair k v => string_ok k ∧ string_ok v
  end.

Definition entry_ok (ctx : option PropertyContext) (e : PropertyId * PropertyValue) : Prop :=
  disallowed ctx (PropertyId_as_u8 e.1) = false ∧ validate_property e.1 e.2 = Ok () ∧ value_ok e.2.

(** No identifier other than User Property occurs twice. *)
Definition singletons (l : list (PropertyId * PropertyValue)) : Prop :=
  NoDup (filter (λ id, id ≠ UserProperty) (l.*1)).

Definition props_ok (ctx : option PropertyContext) (p : Properties) : Prop :=
  Forall (entry_ok ctx) (entries p) ∧ singletons (entries p).

(** ** Wire form *)

Definition value_bytes (v : PropertyValue) : list Z :=
  match v with
  | Byte b => [b]
  | U16 n => u16_to_be n
  | U32 n => u32_to_be n
  | Str s => prefixed s
  | Binary d => prefixed d
  | StringPair k v => prefixed k ++ prefixed v
  end.

Definition entry_bytes (e : PropertyId * PropertyValue) : list Z :=
  PropertyId_as_u8 e.1 :: value_bytes e.2.

Definition body_bytes (l : list (PropertyId * PropertyValue)) : list Z :=
  foldr (λ e acc, entry_bytes e ++ acc) [] l.

Definition props_bytes (p : Properties) : list Z :=
  varint_bytes (zlen (body_bytes (entries p))) ++ body_bytes (entries p).

Lemma PropertyId_u8_roundtrip id : PropertyId_from_u8 (PropertyId_as_u8 id) = Some id.
Proof. by destruct id. Qed.

#[export] Instance PropertyId_as_u8_inj : Inj (=) (=) PropertyId_as_u8.
Proof. intros a b Hab. by destruct a, b. Qed.

Lemma PropertyId_as_u8_range id : 0x08 ≤ PropertyId_as_u8 id ≤ 0x2A.
Proof. destruct id; cbn; lia. Qed.

Lemma varint_bytes_small v : 0 ≤ v < 128 → varint_bytes v = [v].
Proof.
  intros. unfold varint_bytes; cbn [varint_digits]. by rewrite (proj2 (Z.ltb_lt _ _)) by lia.
Qed.

Lemma PropertyId_varint id : varint_bytes (PropertyId_as_u8 id) = [PropertyId_as_u8 id].
Proof. apply varint_bytes_small. pose proof (PropertyId_as_u8_range id). lia. Qed.

Lemma value_ok_typed v : value_ok v → value_typed v.
Proof. destruct v; cbn; unfold string_ok, binary_ok; naive_solver. Qed.

Lemma encode_value_ok v buf :
  value_ok v → encode_value v buf = (Ok (), buf ++ value_bytes v).
Proof.
  destruct v as [b|n|n|s|d|k w]; cbn [value_ok encode_value value_bytes]; intros H.
  - done.
  - done.
  - done.
  - by apply (wire_put_ok (w := string_wire)).
  - by apply (wire_put_ok (w := binary_wire)).
  - by apply (wire_put_ok (w := pair_wire string_wire string_wire) (k, w)).
Qed.

Lemma value_bytes_u8 v : value_ok v → bytes_ok (value_bytes v).
Proof.
  destruct v as [b|n|n|s|d|k w]; cbn [value_ok value_bytes]; intros H.
  - by apply Forall_singleton.
  - by apply u16_to_be_bytes.
  - by apply u32_to_be_bytes.
  - by apply (wire_bytes_u8 (w := string_wire)).
  - by apply (wire_bytes_u8 (w := binary_wire)).
  - by apply (wire_bytes_u8 (w := pair_wire string_wire string_wire) (k, w)).
Qed.

(** The reader chosen by the identifier is the one of the value's wire type. *)
Lemma decode_value_ok id v pre rest :
  validate_property id v = Ok () → value_ok v →
  decode_value id (cursor_at pre (value_bytes v ++ rest))
    = (Ok v, cursor_at (pre ++ value_bytes v) rest).
Proof.
  intros Hv Hok.
  destruct v as [b|n|n|s|d|k w];
    destruct id; try discriminate Hv; unfold decode_value; cbn [value_ok value_bytes] in *.
  all: first
    [ by erewrite bind_ok by (by apply (wire_get_ok (w := u8_wire)))
    | by erewrite bind_ok by (by apply (wire_get_ok (w := u16_wire)))
    | by erewrite bind_ok by (by apply (wire_get_ok (w := u32_wire)))
    | by erewrite bind_ok by (by apply (wire_get_ok (w := string_wire)))
    | by erewrite bind_ok by (by apply (wire_get_ok (w := binary_wire)))
    | idtac ].
  destruct Hok as [? ?]. rewrite <- app_assoc.
  erewrite bind_ok by (by apply (wire_get_ok (w := string_wire))).
  erewrite bind_ok by (by apply (wire_get_ok (w := string_wire))).
  by rewrite app_assoc.
Qed.

Lemma value_bytes_len v : zlen (value_bytes v) = value_len v.
Proof.
  destruct v; cbn [value_bytes value_len]; unfold string_len, binary_len, prefixed;
    rewrite ?zlen_app; try done; unfold zlen, u16_to_be, u32_to_be; cbn [length]; lia.
Qed.

Lemma body_bytes_cons e l : body_bytes (e :: l) = entry_bytes e ++ body_bytes l.
Proof. done. Qed.

Lemma body_len_bytes p : zlen (body_bytes (entries p)) = body_len p.
Proof.
  unfold body_len. induction (entries p) as [|[id v] l IH]; [done|].
  rewrite body_bytes_cons, zlen_app, IH. unfold entry_bytes.
  rewrite zlen_cons, value_bytes_len. cbn [foldr fst snd].
  assert (variable_int_len (PropertyId_as_u8 id) = 1) as -> by (by destruct id). lia.
Qed.

(** ** Singletons *)

Lemma singletons_cons_inv before id v rest :
  singletons (before ++ (id, v) :: rest) → id = UserProperty ∨ id ∉ before.*1.
Proof.
  unfold singletons. rewrite fmap_app, list.filter_app, fmap_cons, filter_cons. cbn [fst].
  intros Hnd. destruct (decide (id = UserProperty)) as [|Hne]; [by left|right].
  intros Hin. rewrite decide_True in Hnd by done.
  apply list.NoDup_app in Hnd as (_ & Hd & _). apply (Hd id); [|apply list_elem_of_here].
  by apply list_elem_of_filter.
Qed.

Lemma singletons_snoc before id v :
  singletons before → (id = UserProperty ∨ id ∉ before.*1) → singletons (before ++ [(id, v)]).
Proof.
  unfold singletons. intros Hb Hid. rewrite fmap_app, list.filter_app. cbn [fmap list_fmap fst].
  rewrite filter_cons. case_decide as Hu; [|by rewrite app_nil_r].
  destruct Hid as [|Hid]; [done|].
  apply list.NoDup_app. split_and!; [done| |apply NoDup_singleton].
  intros x Hx ->%list_elem_of_singleton. by apply list_elem_of_filter in Hx as [_ ?].
Qed.

Lemma duplicate_guard id (before : list (PropertyId * PropertyValue)) :
  negb (bool_decide (id = UserProperty)) && existsb (λ e, bool_decide (e.1 = id)) before = false
  ↔ id = UserProperty ∨ id ∉ before.*1.
Proof.
  rewrite andb_false_iff, negb_false_iff, bool_decide_eq_true.
  enough (existsb (λ e, bool_decide (e.1 = id)) before = false ↔ id ∉ before.*1) as ->; [done|].
  induction before as [|e l IH]; cbn [existsb fmap list_fmap].
  { split; [intros _; apply not_elem_of_nil|done]. }
  rewrite orb_false_iff, IH, not_elem_of_cons, bool_decide_eq_false. naive_solver.
Qed.

(** ** The encoder *)

Lemma encode_entries_ok ctx before todo buf :
  Forall (entry_ok ctx) todo → singletons (before ++ todo) →
  encode_entries ctx before todo buf = (Ok (), buf ++ body_bytes todo).
Proof.
  revert before buf. induction todo as [|[id v] rest IH]; intros before buf Hok Hs;
    cbn [encode_entries body_bytes foldr]; [by rewrite app_nil_r|].
  apply Forall_cons_1 in Hok as [(Hd & Hv & Hval) Hrest]; cbn [fst snd] in *.
  rewrite Hd. erewrite bind_ok by apply fail_if_false.
  erewrite bind_ok by (unfold lift; by rewrite Hv).
  rewrite (proj2 (duplicate_guard id before)) by (by eapply singletons_cons_inv).
  erewrite bind_ok by apply fail_if_false.
  erewrite bind_ok by (apply encode_variable_int_ok;
                       pose proof (PropertyId_as_u8_range id); unfold VARIABLE_INT_MAX; lia).
  erewrite bind_ok by (by apply encode_value_ok).
  rewrite IH by (try done; by rewrite <- app_assoc).
  rewrite PropertyId_varint. unfold entry_bytes. by rewrite <- !app_assoc.
Qed.

Lemma encode_inner_ok ctx p buf :
  props_ok ctx p → body_len p ≤ VARIABLE_INT_MAX →
  encode_inner p ctx buf = (Ok (), buf ++ props_bytes p).
Proof.
  intros [Hok Hs] Hlen. unfold encode_inner.
  erewrite bind_ok.
  2:{ unfold lift, run_on. rewrite encode_entries_ok by done. reflexivity. }
  cbn [snd app]. rewrite <- body_len_bytes in Hlen.
  unfold VARIABLE_INT_MAX in Hlen. pose proof (zlen_nonneg (body_bytes (entries p))).
  assert (as_u32 (zlen (body_bytes (entries p))) = zlen (body_bytes (entries p))) as ->
    by (apply Z.mod_small; lia).
  erewrite bind_ok by (apply encode_variable_int_ok; unfold VARIABLE_INT_MAX; lia).
  unfold extend_from_slice, modify, props_bytes. by rewrite app_assoc.
Qed.

(** ** The decoder inverts the encoder *)

Lemma register_new_id ctx seen id :
  (id = UserProperty ∨ PropertyId_as_u8 id ∉ seen) →
  register_property_id seen (PropertyId_as_u8 id) ctx = Ok (seen ++ [PropertyId_as_u8 id]).
Proof.
  intros [->|Hid]; unfold register_property_id; [done|].
  apply contains_false in Hid as ->. by rewrite andb_false_r.
Qed.

Lemma fst_entries_u8 id (before : list (PropertyId * PropertyValue)) :
  PropertyId_as_u8 id ∉ PropertyId_as_u8 <$> before.*1 ↔ id ∉ before.*1.
Proof.
  split; intros H Hin; apply H.
  - by apply list_elem_of_fmap_2.
  - apply list_elem_of_fmap in Hin as (id' & Heq & ?). by apply PropertyId_as_u8_inj in Heq as ->.
Qed.

Lemma read_small_varint b pre rest :
  0 ≤ b < 128 →
  read_variable_int (cursor_at pre (b :: rest)) = (Ok b, cursor_at (pre ++ [b]) rest).
Proof.
  intros Hb. pose proof (wire_get_ok (w := varint_wire) b pre rest) as Hget.
  cbn [wire_get wire_bytes wire_dom varint_wire] in Hget.
  rewrite varint_bytes_small in Hget by done. apply Hget. unfold VARIABLE_INT_MAX. lia.
Qed.

Lemma decode_entry_ok ctx end_ seen id v pre rest :
  entry_ok ctx (id, v) → (id = UserProperty ∨ PropertyId_as_u8 id ∉ seen) →
  zlen pre + zlen (entry_bytes (id, v)) ≤ end_ →
  decode_entry ctx end_ seen (cursor_at pre (entry_bytes (id, v) ++ rest))
    = (Ok (seen ++ [PropertyId_as_u8 id], Some (id, v)),
       cursor_at (pre ++ entry_bytes (id, v)) rest).
Proof.
  intros (Hd & Hv & Hok) Hseen Hend. cbn [fst snd] in *.
  pose proof (PropertyId_as_u8_range id) as Hr.
  unfold decode_entry, entry_bytes in *; cbn [fst snd app] in *.
  erewrite bind_ok by (apply read_small_varint; lia).
  erewrite bind_ok by (unfold lift, u8_try_from; by rewrite (proj2 (Z.leb_le _ _)) by lia).
  assert (PropertyId_as_u8 id =? 0x23 = false) as -> by (by destruct id).
  erewrite bind_ok by apply fail_if_false. rewrite Hd.
  erewrite bind_ok by apply fail_if_false.
  erewrite bind_ok by (unfold lift; by rewrite register_new_id).
  rewrite PropertyId_u8_roundtrip.
  erewrite bind_ok by (by apply decode_value_ok).
  erewrite bind_ok by reflexivity.
  rewrite position_at, <- app_assoc. cbn [app].
  rewrite (proj2 (Z.ltb_ge _ _)) by (rewrite zlen_app; exact Hend).
  erewrite bind_ok by apply fail_if_false.
  by erewrite bind_ok by (unfold lift; by rewrite Hv).
Qed.

Lemma decode_entries_ok ctx todo : ∀ fuel before seen pre rest,
  Forall (entry_ok ctx) todo → singletons (before ++ todo) →
  seen = PropertyId_as_u8 <$> before.*1 → (length todo < fuel)%nat →
  decode_entries fuel ctx (zlen pre + zlen (body_bytes todo)) (mkProperties before) seen
      (cursor_at pre (body_bytes todo ++ rest))
    = (Ok (mkProperties (before ++ todo)), cursor_at (pre ++ body_bytes todo) rest).
Proof.
  induction todo as [|[id v] todo IH]; intros fuel before seen pre rest Hok Hs -> Hf;
    (destruct fuel as [|fuel]; [cbn [length] in Hf; lia|]); cbn [decode_entries];
    (erewrite bind_ok by reflexivity); rewrite position_at.
  - cbn [body_bytes foldr]. rewrite zlen_nil, Z.add_0_r, Z.ltb_irrefl, !app_nil_r. done.
  - apply Forall_cons_1 in Hok as [Hid Hrest].
    rewrite body_bytes_cons, zlen_app, <- app_assoc.
    pose proof (zlen_nonneg (body_bytes todo)).
    assert (0 < zlen (entry_bytes (id, v))).
    { unfold entry_bytes. rewrite zlen_cons. pose proof (zlen_nonneg (value_bytes v)).
      cbn [snd]. lia. }
    rewrite (proj2 (Z.ltb_lt _ _)) by lia.
    erewrite bind_ok.
    2:{ apply decode_entry_ok; [done| |lia].
        rewrite fst_entries_u8. by eapply singletons_cons_inv. }
    cbn [fst snd]. unfold properties_push; cbn [entries].
    replace (zlen pre + (zlen (entry_bytes (id, v)) + zlen (body_bytes todo)))
      with (zlen (pre ++ entry_bytes (id, v)) + zlen (body_bytes todo))
      by (rewrite zlen_app; lia).
    rewrite (IH fuel (before ++ [(id, v)])); [by rewrite <- !app_assoc|done| | |].
    + by rewrite <- app_assoc.
    + by rewrite !fmap_app.
    + cbn [length] in Hf. lia.
Qed.

Lemma body_bytes_length l : (length l ≤ length (body_bytes l))%nat.
Proof.
  induction l as [|e l IH]; [done|]. rewrite body_bytes_cons, length_app.
  unfold entry_bytes. cbn [length]. lia.
Qed.

Lemma decode_inner_ok ctx p pre rest :
  props_ok ctx p → body_len p ≤ VARIABLE_INT_MAX → zlen (pre ++ props_bytes p) ≤ usize_max →
  decode_inner ctx (cursor_at pre (props_bytes p ++ rest))
    = (Ok p, cursor_at (pre ++ props_bytes p) rest).
Proof.
  intros [Hok Hs] Hlen Hsize. destruct p as [l]; cbn [entries] in *.
  rewrite <- body_len_bytes in Hlen; cbn [entries] in Hlen.
  unfold decode_inner, props_bytes in *; cbn [entries] in *. rewrite <- app_assoc.
  pose proof (zlen_nonneg (body_bytes l)) as H0.
  erewrite bind_ok by (by apply (wire_get_ok (w := varint_wire))).
  destruct (Z.eqb_spec (zlen (body_bytes l)) 0) as [Hz|Hnz].
  { destruct l as [|e l]; [cbn [body_bytes foldr]; by rewrite app_nil_r|exfalso].
    pose proof (body_bytes_length (e :: l)). unfold zlen in Hz. cbn [length] in *. lia. }
  erewrite bind_ok by reflexivity. cbn [wire_bytes varint_wire] in *.
  pose proof (zlen_nonneg rest). rewrite !zlen_app in Hsize.
  rewrite remaining_at, zlen_app, (proj2 (Z.ltb_ge _ _)) by lia.
  erewrite bind_ok by apply fail_if_false. rewrite position_at.
  erewrite bind_ok by (unfold lift, checked_add; rewrite (proj2 (Z.leb_le _ _))
                         by (rewrite zlen_app; lia); reflexivity).
  erewrite bind_ok.
  2:{ apply (decode_entries_ok ctx l _ []); try done.
      pose proof (body_bytes_length l). unfold zlen. lia. }
  erewrite bind_ok by reflexivity.
  rewrite position_at, zlen_app, Z.eqb_refl.
  erewrite bind_ok by apply fail_if_false. by rewrite <- app_assoc.
Qed.

(** The property section as a field: what the packet codecs rely on. *)
Definition props_wire (ctx : PropertyContext) : Wire Properties :=
  mkWire (λ p, encode_for p ctx) (decode_for ctx)
    (λ p, props_ok (Some ctx) p ∧ body_len p ≤ VARIABLE_INT_MAX) props_bytes.

Lemma body_bytes_u8 ctx l : Forall (entry_ok ctx) l → bytes_ok (body_bytes l).
Proof.
  induction 1 as [|[id v] l (_ & _ & Hv) _ IH]; [constructor|].
  rewrite body_bytes_cons. apply Forall_app_2; [|done]. unfold entry_bytes.
  constructor; [|by apply value_bytes_u8]. pose proof (PropertyId_as_u8_range id).
  cbn [fst]. unfold is_u8. lia.
Qed.

Lemma props_bytes_u8 ctx p :
  props_ok ctx p → body_len p ≤ VARIABLE_INT_MAX → bytes_ok (props_bytes p).
Proof.
  intros [Hok _] Hlen. rewrite <- body_len_bytes in Hlen.
  apply Forall_app_2; [|by eapply body_bytes_u8].
  apply (wire_bytes_u8 (w := varint_wire)). cbn.
  pose proof (zlen_nonneg (body_bytes (entries p))). lia.
Qed.

(** ** The decoder on arbitrary bytes *)

Lemma PropertyId_from_u8_inv b id :
  is_u8 b → PropertyId_from_u8 b = Some id → PropertyId_as_u8 id = b.
Proof.
  intros Hb H. pose proof (u8_cases (λ b, match PropertyId_from_u8 b with
                             | Some id => PropertyId_as_u8 id =? b | None => true end)
    ltac:(vm_compute; reflexivity) b Hb) as Hc. cbv beta in Hc. rewrite H in Hc. lia.
Qed.

Lemma validate_property_returns id v : returns (validate_property id v).
Proof.
  destruct id, v; cbn; try done; try apply validate_topic_name_returns; by case_match.
Qed.

Lemma register_property_id_returns seen id ctx : returns (register_property_id seen id ctx).
Proof. unfold register_property_id. by case_match. Qed.

Lemma register_property_id_inv seen id ctx seen' :
  register_property_id seen (PropertyId_as_u8 id) ctx = Ok seen' →
  seen' = seen ++ [PropertyId_as_u8 id] ∧ (id = UserProperty ∨ PropertyId_as_u8 id ∉ seen).
Proof.
  unfold register_property_id. destruct (negb _ && _) eqn:Hd; intros [= <-]. split; [done|].
  apply andb_false_iff in Hd as [Hr|Hc]; [left|right; by apply contains_false].
  destruct id; try done; destruct ctx as [[]|]; done.
Qed.

Lemma ok_or_returns {A} (o : option A) (e : Error) : returns (ok_or o e).
Proof. by destruct o. Qed.

#[export] Hint Resolve validate_property_returns register_property_id_returns
  ok_or_returns validate_topic_name_returns validate_topic_filter_returns : mqtt.

Section decoder_safety.
Context (buf : list Z) (Hbuf : bytes_ok buf).

Lemma read_string_ok_reads : reads buf 2 read_string string_ok.
Proof using Hbuf.
  eapply reads_weaken; [apply read_string_reads, Hbuf|lia|done].
Qed.

Lemma decode_value_reads id : reads buf 1 (decode_value id) value_ok.
Proof using Hbuf.
  destruct id; unfold decode_value; change 1 with (1 + 0).
  all: try (eapply reads_bind;
    [eapply reads_weaken; [first [apply read_u8_reads, Hbuf | apply read_u16_reads, Hbuf
       | apply read_u32_reads, Hbuf | apply read_string_ok_reads | apply read_binary_reads, Hbuf]
       |lia|exact (λ _ H, H)]|intros v Hv; by apply reads_ret]).
  eapply reads_bind.
  { eapply reads_weaken; [apply read_string_ok_reads|lia|exact (λ _ H, H)]. }
  intros k Hk. eapply reads_bind0; [apply read_string_ok_reads|lia|].
  intros v Hv. by apply reads_ret.
Qed.

Lemma skip_property_value_reads id : reads buf 0 (skip_property_value id) (λ _, True).
Proof using Hbuf.
  unfold skip_property_value. repeat reads_step; auto.
  all: eapply reads_weaken; [apply reads_fail_if|lia|done].
Qed.

(** What one iteration yields. *)
Definition entry_result (ctx : option PropertyContext) (seen : list Z)
    (r : list Z * option (PropertyId * PropertyValue)) : Prop :=
  match r.2 with
  | Some (id, v) =>
      entry_ok ctx (id, v) ∧ r.1 = seen ++ [PropertyId_as_u8 id]
      ∧ (id = UserProperty ∨ PropertyId_as_u8 id ∉ seen)
  | None => ∃ b, r.1 = seen ++ [b]
  end.

Lemma decode_entry_reads ctx end_ seen :
  reads buf 1 (decode_entry ctx end_ seen) (entry_result ctx seen).
Proof using Hbuf.
  unfold decode_entry. change 1 with (1 + 0).
  eapply reads_bind; [by apply read_variable_int_reads|]. cbv beta. intros raw Hraw.
  apply reads_bind_lift; [eauto with mqtt|]. intros b Hb.
  assert (is_u8 b) as Hu8.
  { unfold u8_try_from in Hb. destruct (raw <=? 255) eqn:Hle; [|discriminate].
    injection Hb as <-. unfold is_u8. lia. }
  eapply reads_bind0; [apply reads_fail_if|lia|intros _ _].
  eapply reads_bind0; [apply reads_fail_if|lia|intros ? Hd].
  apply reads_bind_lift; [eauto with mqtt|]. intros seen' Hseen.
  destruct (PropertyId_from_u8 b) as [id|] eqn:Hid.
  - apply PropertyId_from_u8_inv in Hid; [|done]. subst b.
    apply register_property_id_inv in Hseen as [-> Hseen].
    eapply reads_bind0; [apply decode_value_reads|lia|]. intros v Hv.
    eapply reads_bind0; [apply reads_get|lia|intros c _].
    eapply reads_bind0; [apply reads_fail_if|lia|intros _ _].
    apply reads_bind_lift; [eauto with mqtt|]. intros [] Hval.
    apply reads_ret. done.
  - eapply reads_bind0; [apply skip_property_value_reads|lia|intros _ _].
    eapply reads_bind0; [apply reads_get|lia|intros c _].
    eapply reads_bind0; [apply reads_fail_if|lia|intros _ _].
    apply reads_ret. unfold register_property_id in Hseen.
    destruct (negb _ && _); [discriminate|]. injection Hseen as <-. by exists b.
Qed.

(** The identifiers of the properties kept are among those registered. *)
Definition loop_inv (ctx : option PropertyContext) (props : Properties) (seen : list Z) : Prop :=
  props_ok ctx props ∧ ∀ id, id ∈ (entries props).*1 → PropertyId_as_u8 id ∈ seen.

Lemma loop_inv_push ctx props seen id v :
  loop_inv ctx props seen → entry_ok ctx (id, v) →
  (id = UserProperty ∨ PropertyId_as_u8 id ∉ seen) →
  loop_inv ctx (properties_push props id v) (seen ++ [PropertyId_as_u8 id]).
Proof.
  intros [[Hok Hs] Hin] He Hid. unfold properties_push. split; cbn [entries].
  - split; cbn [entries].
    + by apply Forall_app_2; [|apply Forall_singleton].
    + apply singletons_snoc; [done|]. destruct Hid as [|Hid]; [by left|right].
      intros H. by apply Hid, Hin.
  - intros id'. rewrite fmap_app, !elem_of_app. cbn [fmap list_fmap fst].
    rewrite !list_elem_of_singleton. intros [?| ->]; [left; auto|by right].
Qed.

Lemma decode_entries_safe ctx end_ fuel : ∀ p c props seen,
  cursor_inv buf p c → end_ - cur_pos c < Z.of_nat fuel → 0 < Z.of_nat fuel →
  loop_inv ctx props seen →
  safe (cursor_inv buf p) (decode_entries fuel ctx end_ props seen)
    (λ r c', props_ok ctx r ∧ cur_pos c ≤ cur_pos c') c.
Proof using Hbuf.
  induction fuel as [|fuel IH]; intros p c props seen Hc Hf H0 Hinv; [lia|].
  cbn [decode_entries]. eapply (safe_step (E:=Error)); [reflexivity|].
  unfold position. destruct (Z.ltb_spec (cur_pos c) end_) as [Hlt|Hge].
  - apply (safe_bind (E:=Error) _ _ _ _ _ _ (decode_entry_reads ctx end_ seen p c Hc)).
    intros r c' Hc' [Hr Hp]. eapply safe_weaken.
    + apply IH; [done|lia|lia|]. destruct Hinv as [Hok Hin].
      unfold entry_result in Hr. destruct r as [seen' [[id v]|]]; cbn [fst snd] in *.
      * destruct Hr as (He & -> & Hid). by apply loop_inv_push.
      * destruct Hr as [b ->]. split; [done|]. intros id Hid. apply elem_of_app. left. auto.
    + cbv beta. intros r' c'' _ [? ?]. split; [done|lia].
  - apply (safe_ret (E:=Error)); [done|]. split; [apply Hinv|lia].
Qed.

Lemma decode_inner_reads ctx : reads buf 1 (decode_inner ctx) (props_ok ctx).
Proof using Hbuf.
  unfold decode_inner. change 1 with (1 + 0).
  eapply reads_bind; [by apply read_variable_int_reads|]. cbv beta. intros len Hlen.
  assert (Hnew : props_ok ctx properties_new)
    by (split; [constructor|apply NoDup_nil_2]).
  destruct (len =? 0) eqn:Hz; [by apply reads_ret|].
  intros p c Hc. eapply (safe_step (E:=Error)); [reflexivity|].
  eapply (safe_bind (E:=Error)).
  { by apply (reads_fail_if buf _ _ p c). }
  cbv beta. intros _ c1 Hc1 [_ Hp1].
  eapply (safe_bind (E:=Error)).
  { apply (safe_lift (E:=Error) _ _ (λ e c', e = position c + len ∧ c' = c1)); [done| |].
    - apply ok_or_returns.
    - unfold ok_or, checked_add. intros e. case_match; [case_match|]; naive_solver. }
  cbv beta. intros end_ c2 Hc2 [-> ->].
  eapply (safe_bind (E:=Error)).
  { apply decode_entries_safe; [done| | |]; unfold position; try lia.
    split; [done|]. intros id Hid. by apply not_elem_of_nil in Hid. }
  cbv beta. intros props c3 Hc3 [Hok Hp3]. 
  eapply (safe_step (E:=Error)); [reflexivity|].
  eapply (safe_bind (E:=Error)); [by apply (reads_fail_if buf _ _ p c3)|].
  cbv beta. intros _ c4 Hc4 [_ Hp4]. apply (safe_ret (E:=Error)); [done|].
  split; [done|lia].
Qed.

Lemma read_string_consumes p c s c' :
  cursor_inv buf p c → read_string c = (Ok s, c') →
  cursor_inv buf p c' ∧ cur_pos c + string_len s ≤ cur_pos c'.
Proof using Hbuf.
  intros Hc H. unfold read_string in H.
  apply bind_ok_inv in H as (len & c1 & H1 & H). apply bind_ok_inv in H as (w & c2 & H2 & H).
  apply (reads_inv buf 2 _ is_u16 p) in H1 as ([??] & Hc1 & Hp1); [|by apply read_u16_reads|done].
  apply (reads_inv buf len _ (λ w, bytes_ok w ∧ zlen w = len) p) in H2
    as ([_ Hw] & Hc2 & Hp2); [|by apply read_bytes_reads|done].
  destruct (contains 0 w); [discriminate|]. unfold lift, from_utf8 in H.
  destruct (utf8_valid w); [|discriminate]. injection H as <- <-.
  split; [done|]. unfold string_len. lia.
Qed.

Lemma read_binary_consumes p c s c' :
  cursor_inv buf p c → read_binary c = (Ok s, c') →
  cursor_inv buf p c' ∧ cur_pos c + binary_len s ≤ cur_pos c'.
Proof using Hbuf.
  intros Hc H. unfold read_binary in H.
  apply bind_ok_inv in H as (len & c1 & H1 & H). apply bind_ok_inv in H as (w & c2 & H2 & H).
  apply (reads_inv buf 2 _ is_u16 p) in H1 as ([??] & Hc1 & Hp1); [|by apply read_u16_reads|done].
  apply (reads_inv buf len _ (λ w, bytes_ok w ∧ zlen w = len) p) in H2
    as ([_ Hw] & Hc2 & Hp2); [|by apply read_bytes_reads|done].
  injection H as <- <-. split; [done|]. unfold binary_len. lia.
Qed.

Lemma decode_value_consumes p id c v c' :
  cursor_inv buf p c → decode_value id c = (Ok v, c') →
  cursor_inv buf p c' ∧ cur_pos c + value_len v ≤ cur_pos c'.
Proof using Hbuf.
  intros Hc H. destruct id; unfold decode_value in H;
    apply bind_ok_inv in H as (x & c1 & H1 & H).
  all: try (injection H as <- <-; cbn [value_len];
    first [ by apply (read_string_consumes p) in H1 | by apply (read_binary_consumes p) in H1
          | apply (reads_inv buf 1 _ is_u8 p) in H1 as (_ & ? & ?); [done|by apply read_u8_reads|done]
          | apply (reads_inv buf 2 _ is_u16 p) in H1 as (_ & ? & ?); [done|by apply read_u16_reads|done]
          | apply (reads_inv buf 4 _ is_u32 p) in H1 as (_ & ? & ?); [done|by apply read_u32_reads|done] ]).
  apply (read_string_consumes p) in H1 as [Hc1 Hp1]; [|done].
  apply bind_ok_inv in H as (y & c2 & H2 & H).
  apply (read_string_consumes p) in H2 as [Hc2 Hp2]; [|done].
  injection H as <- <-. cbn [value_len]. split; [done|lia].
Qed.

Lemma decode_entry_consumes p ctx end_ seen c r id v c' :
  cursor_inv buf p c → decode_entry ctx end_ seen c = (Ok (r, Some (id, v)), c') →
  cur_pos c + 1 + value_len v ≤ cur_pos c'.
Proof using Hbuf.
  intros Hc H. unfold decode_entry in H.
  apply bind_ok_inv in H as (raw & c1 & H1 & H).
  apply (reads_inv buf 1 _ (λ v, 0 ≤ v ≤ 268435455) p) in H1 as (_ & Hc1 & Hp1);
    [|by apply read_variable_int_reads|done].
  apply bind_ok_inv in H as (b & c2 & H2 & H).
  assert (c2 = c1) as -> by (by injection H2).
  apply bind_ok_inv in H as ([] & c3 & [_ ->]%fail_if_ok & H).
  apply bind_ok_inv in H as ([] & c4 & [_ ->]%fail_if_ok & H).
  apply bind_ok_inv in H as (seen' & c5 & H5 & H).
  assert (c5 = c1) as -> by (by injection H5).
  destruct (PropertyId_from_u8 b) as [id'|].
  - apply bind_ok_inv in H as (w & c6 & H6 & H).
    apply (decode_value_consumes p) in H6 as [Hc6 Hp6]; [|done].
    apply bind_ok_inv in H as (? & ? & [= <- <-] & H).
    apply bind_ok_inv in H as ([] & c7 & [_ ->]%fail_if_ok & H).
    apply bind_ok_inv in H as ([] & c8 & H8 & H).
    assert (c8 = c6) as -> by (by injection H8). injection H as _ _ <- <-. lia.
  - apply bind_ok_inv in H as (w & c6 & H6 & H).
    apply bind_ok_inv in H as (? & ? & [= <- <-] & H).
    apply bind_ok_inv in H as ([] & c7 & [_ ->]%fail_if_ok & H). discriminate.
Qed.

Lemma body_len_push props id v :
  body_len (properties_push props id v) = body_len props + 1 + value_len v.
Proof.
  assert (variable_int_len (PropertyId_as_u8 id) = 1) as Hid by (by destruct id).
  destruct props as [l]. unfold body_len, properties_push; cbn [entries].
  induction l as [|e l IH]; cbn [app foldr fst snd] in *; lia.
Qed.

(** The properties kept take no more room than the bytes they were read from. *)
Lemma decode_entries_consumes ctx end_ fuel : ∀ p c props seen props' c',
  cursor_inv buf p c → decode_entries fuel ctx end_ props seen c = (Ok props', c') →
  body_len props' - body_len props ≤ cur_pos c' - cur_pos c.
Proof using Hbuf.
  induction fuel as [|fuel IH]; intros p c props seen props' c' Hc H; [discriminate|].
  cbn [decode_entries] in H. apply bind_ok_inv in H as (? & ? & [= <- <-] & H).
  destruct (position c <? end_); [|injection H as <- <-; lia].
  apply bind_ok_inv in H as ([seen' r] & c1 & H1 & H). pose proof H1 as H1'.
  apply (reads_inv buf 1 _ (entry_result ctx seen) p) in H1 as (_ & Hc1 & Hp1);
    [|apply decode_entry_reads|done].
  apply (IH p) in H; [|done]. cbn [snd] in H. destruct r as [[id v]|]; [|lia].
  apply (decode_entry_consumes p) in H1'; [|done]. rewrite body_len_push in H. lia.
Qed.

Lemma decode_inner_body_len ctx p c props c' :
  cursor_inv buf p c → decode_inner ctx c = (Ok props, c') →
  body_len props ≤ VARIABLE_INT_MAX.
Proof using Hbuf.
  intros Hc H. unfold decode_inner in H.
  apply bind_ok_inv in H as (len & c1 & H1 & H).
  apply (reads_inv buf 1 _ (λ v, 0 ≤ v ≤ 268435455) p) in H1 as (Hlen & Hc1 & Hp1);
    [|by apply read_variable_int_reads|done].
  destruct (len =? 0); [injection H as <- <-; by vm_compute|].
  apply bind_ok_inv in H as (? & ? & [= <- <-] & H).
  apply bind_ok_inv in H as ([] & c2 & [_ ->]%fail_if_ok & H).
  apply bind_ok_inv in H as (end_ & c3 & H3 & H).
  assert (end_ = position c1 + len ∧ c3 = c1) as [-> ->].
  { unfold lift, checked_add, ok_or in H3. destruct (_ <=? _); [|discriminate].
    by injection H3. }
  apply bind_ok_inv in H as (props1 & c4 & H4 & H).
  apply (decode_entries_consumes _ _ _ p) in H4; [|done].
  apply bind_ok_inv in H as (? & ? & [= <- <-] & H).
  apply bind_ok_inv in H as ([] & c5 & [Hend ->]%fail_if_ok & H).
  injection H as <- <-. apply negb_false_iff, Z.eqb_eq in Hend. unfold position in Hend.
  assert (body_len properties_new = 0) as Hnew by done. unfold position in *.
  unfold VARIABLE_INT_MAX. lia.
Qed.
End decoder_safety.

#[export] Hint Resolve decode_inner_reads : mqtt.

(** ** When the encoder succeeds *)

Definition props_typed (p : Properties) : Prop := Forall (λ e, value_typed e.2) (entries p).

Lemma encode_string_inv s buf r buf' :
  encode_string s buf = (Ok r, buf') → 0 ∉ s ∧ zlen s ≤ 65535.
Proof.
  unfold encode_string. destruct (65535 <? zlen s) eqn:Hl; [discriminate|].
  destruct (contains 0 s) eqn:Hc; [discriminate|]. intros _.
  apply contains_false in Hc. split; [done|lia].
Qed.

Lemma encode_value_inv v buf r buf' :
  value_typed v → encode_value v buf = (Ok r, buf') → value_ok v.
Proof.
  destruct v as [b|n|n|s|d|k w]; cbn [value_typed encode_value value_ok]; try done.
  - intros Hv [? ?]%encode_string_inv. done.
  - intros Hd. unfold encode_binary. destruct (65535 <? zlen d) eqn:Hl; [discriminate|].
    intros _. split; [done|lia].
  - intros [Hk Hw] H. apply bind_ok_inv in H as ([] & buf1 & H1 & H2).
    apply encode_string_inv in H1 as [? ?]. apply encode_string_inv in H2 as [? ?]. done.
Qed.

Lemma encode_entries_inv ctx todo : ∀ before buf r buf',
  Forall (λ e, value_typed e.2) todo → singletons before →
  encode_entries ctx before todo buf = (Ok r, buf') →
  Forall (entry_ok ctx) todo ∧ singletons (before ++ todo).
Proof.
  induction todo as [|[id v] todo IH]; intros before buf r buf' Ht Hs H; cbn [encode_entries] in H.
  { rewrite app_nil_r. split; [constructor|done]. }
  apply Forall_cons_1 in Ht as [Hv Ht]. cbn [snd] in Hv.
  apply bind_ok_inv in H as ([] & s1 & [Hd ->]%fail_if_ok & H).
  apply bind_ok_inv in H as ([] & s2 & Hval & H).
  assert (validate_property id v = Ok ()) as Hvalid by (by injection Hval).
  assert (s2 = buf) as -> by (by injection Hval). clear Hval.
  apply bind_ok_inv in H as ([] & s3 & [Hdup ->]%fail_if_ok & H).
  apply duplicate_guard in Hdup.
  apply bind_ok_inv in H as ([] & s4 & _ & H).
  apply bind_ok_inv in H as ([] & s5 & Henc & H).
  apply encode_value_inv in Henc; [|done].
  apply IH in H as [Hrest Hs']; [|done|by apply singletons_snoc].
  split; [by constructor|]. by rewrite <- app_assoc in Hs'.
Qed.

Lemma encode_entries_returns ctx todo : ∀ before buf,
  returns (encode_entries ctx before todo buf).1.
Proof.
  induction todo as [|[id v] todo IH]; intros before buf; cbn [encode_entries]; [done|].
  unfold bind at 1. destruct (disallowed _ _); [done|]. cbn [fail_if ret].
  unfold bind at 1, lift. pose proof (validate_property_returns id v).
  destruct (validate_property id v) as [[]| | |]; try done.
  unfold bind at 1. destruct (_ && _); [done|]. cbn [fail_if ret].
  erewrite bind_ok by (apply encode_variable_int_ok;
                       pose proof (PropertyId_as_u8_range id); unfold VARIABLE_INT_MAX; lia).
  assert (∀ s b, encode_string s b = (Ok (), b ++ prefixed s)
                 ∨ ∃ e b', encode_string s b = (Err e, b')) as Hstr.
  { intros s b. unfold encode_string. destruct (65535 <? zlen s) eqn:Hl; [by right; eauto|].
    destruct (contains 0 s); [by right; eauto|left].
    destruct (zlen_u16 s ltac:(lia)) as [_ ->]. unfold prefixed. by rewrite app_assoc. }
  unfold bind at 1. destruct v as [b|n|n|s|d|k w]; cbn [encode_value]; try apply IH.
  - destruct (Hstr s (buf ++ varint_bytes (PropertyId_as_u8 id))) as [->|(e & b' & ->)];
      [apply IH|done].
  - unfold encode_binary. destruct (65535 <? zlen d); [done|apply IH].
  - unfold bind at 1.
    destruct (Hstr k (buf ++ varint_bytes (PropertyId_as_u8 id))) as [->|(e & b' & ->)]; [|done].
    destruct (Hstr w ((buf ++ varint_bytes (PropertyId_as_u8 id)) ++ prefixed k))
      as [->|(e & b' & ->)]; [apply IH|done].
Qed.

(** The encoder's outcome: the section is appended exactly when the list is
    allowed in the packet, valid and within the length limit; otherwise an error is
    returned and nothing has been written. *)
Lemma encode_inner_cases ctx p buf :
  props_typed p → body_len p < 4294967296 →
  (props_ok ctx p ∧ body_len p ≤ VARIABLE_INT_MAX
   ∧ encode_inner p ctx buf = (Ok (), buf ++ props_bytes p))
  ∨ (¬ (props_ok ctx p ∧ body_len p ≤ VARIABLE_INT_MAX)
     ∧ ∃ e, encode_inner p ctx buf = (Err e, buf)).
Proof.
  intros Ht Hlen.
  pose proof (encode_entries_returns ctx (entries p) [] []) as Hr.
  destruct (encode_entries ctx [] (entries p) []) as [[[]|e| |] body] eqn:He; try done.
  - pose proof He as Hinv. apply encode_entries_inv in Hinv as [Hok Hs]; [|done|apply NoDup_nil_2].
    destruct (decide (body_len p ≤ VARIABLE_INT_MAX)) as [Hle|Hgt].
    { left. split_and!; [by split|done|]. by apply encode_inner_ok. }
    right. split; [naive_solver|].
    rewrite encode_entries_ok in He by done. injection He as <-.
    eexists. unfold encode_inner.
    erewrite bind_ok by (unfold lift, run_on; rewrite encode_entries_ok by done; reflexivity).
    cbn [snd app]. rewrite body_len_bytes.
    assert (as_u32 (body_len p) = body_len p) as ->.
    { apply Z.mod_small. rewrite <- body_len_bytes in *.
      pose proof (zlen_nonneg (body_bytes (entries p))). lia. }
    apply bind_err, encode_variable_int_too_large. lia.
  - right. split.
    + intros [[Hok Hs] _]. rewrite encode_entries_ok in He by done. discriminate.
    + exists e. unfold encode_inner. apply bind_err. unfold lift, run_on. by rewrite He.
Qed.

Lemma encoded_len_bytes p :
  body_len p ≤ VARIABLE_INT_MAX → zlen (props_bytes p) = encoded_len p.
Proof.
  intros Hlen. unfold props_bytes, encoded_len. rewrite zlen_app, body_len_bytes.
  assert (0 ≤ body_len p) by (rewrite <- body_len_bytes; apply zlen_nonneg).
  unfold VARIABLE_INT_MAX in Hlen.
  rewrite varint_bytes_len by (unfold VARIABLE_INT_MAX; lia).
  assert (as_u32 (body_len p) = body_len p) as -> by (apply Z.mod_small; lia). done.
Qed.

(** C27. Properties round trip: whenever [encode_for] succeeds on a property list whose entries
    take less than 2^32 bytes (the length is computed in a [usize] and cast to [u32]), it
    has appended [encoded_len] bytes, and [decode_for] in the same packet context
    reads exactly those bytes, wherever they stand in a packet that fits a [usize], and returns the
    same list: same identifiers, same values, same order. *)
Theorem properties_roundtrip ctx p buf buf' pre rest :
  props_typed p → body_len p < 4294967296 →
  encode_for p ctx buf = (Ok (), buf') →
  ∃ w, buf' = buf ++ w ∧ zlen w = encoded_len p ∧
    (zlen (pre ++ w) ≤ usize_max →
     decode_for ctx (cursor_at pre (w ++ rest)) = (Ok p, cursor_at (pre ++ w) rest)).
Proof.
  intros Ht Hlen Henc.
  destruct (encode_inner_cases (Some ctx) p buf Ht Hlen) as [(Hok & Hle & He)|(_ & e & He)];
    unfold encode_for in Henc; rewrite He in Henc; [|discriminate].
  injection Henc as <-. exists (props_bytes p).
  split; [done|]. split; [by apply encoded_len_bytes|]. intros Hsize.
  by apply decode_inner_ok.
Qed.

Definition example_props : Properties :=
  set_correlation_data (set_response_topic (user properties_new (lit "k") (lit "v"))
    (lit "replies/client")) [0x00; 0xFF; 0x42].

Lemma properties_roundtrip_witness :
  ∃ w, (encode_for example_props CtxPublish []).2 = [] ++ w ∧ zlen w = encoded_len example_props ∧
    (zlen ([7] ++ w) ≤ usize_max →
     decode_for CtxPublish (cursor_at [7] (w ++ [1; 2])) = (Ok example_props, cursor_at ([7] ++ w) [1; 2])).
Proof.
  apply properties_roundtrip.
  - repeat constructor; unfold is_u8; cbn; lia.
  - vm_compute. done.
  - vm_compute. done.
Defined.

(** C31. The property encoder is exact: on a list whose strings are valid UTF-8 and
    integers in range (the invariants of the Rust types) and whose entries take less than 2^32
    bytes, so that the cast of their length to [u32] is exact, [encode_for] succeeds if and
    only if every identifier is allowed in the packet, every value has the type and the
    range of its identifier, only User Property repeats, the lengths of strings and binary data
    fit 16 bits, strings contain no NUL, and the section fits the variable-length integer; on
    failure the buffer is unchanged. *)
Theorem encode_for_exact ctx p buf :
  props_typed p → body_len p < 4294967296 →
  (fst (encode_for p ctx buf) = Ok () ↔ props_ok (Some ctx) p ∧ body_len p ≤ VARIABLE_INT_MAX)
  ∧ (fst (encode_for p ctx buf) ≠ Ok () →
     ∃ e, encode_for p ctx buf = (Err e, buf)).
Proof.
  intros Ht Hlen. unfold encode_for.
  destruct (encode_inner_cases (Some ctx) p buf Ht Hlen) as [(Hok & Hle & ->)|(Hn & e & ->)];
    cbn [fst]; (split; [split; [done|]|]); try done.
  eauto.
Qed.

Lemma encode_for_exact_witness :
  (fst (encode_for example_props CtxSubscribe [9]) = Ok ()
     ↔ props_ok (Some CtxSubscribe) example_props ∧ body_len example_props ≤ VARIABLE_INT_MAX)
  ∧ (fst (encode_for example_props CtxSubscribe [9]) ≠ Ok () →
     ∃ e, encode_for example_props CtxSubscribe [9] = (Err e, [9])).
Proof.
  apply encode_for_exact.
  - repeat constructor; unfold is_u8; cbn; lia.
  - vm_compute. done.
Defined.

(** C32. The property decoder is total and sound on untrusted bytes: from any position
    of any buffer it neither panics nor loops, stays within the buffer, and what it
    accepts is well formed for the packet, so that encoding it again succeeds and
    decodes to the same list. *)
Theorem decode_for_sound ctx buf c p :
  bytes_ok buf → cur_buf c = buf → 0 ≤ cur_pos c ≤ zlen buf → zlen buf ≤ usize_max →
  returns (fst (decode_for ctx c))
  ∧ (0 ≤ cur_pos (snd (decode_for ctx c)) ≤ zlen buf)
  ∧ (fst (decode_for ctx c) = Ok p →
     props_ok (Some ctx) p
     ∧ encode_for p ctx [] = (Ok (), props_bytes p)
     ∧ zlen (props_bytes p) = encoded_len p
     ∧ fst (decode_for ctx (cursor_new (props_bytes p))) = Ok p).
Proof.
  intros Hb Hc Hp Hsize.
  assert (Hinv : cursor_inv buf 0 c) by (split_and!; [done|lia..]).
  change (decode_for ctx) with (decode_inner (Some ctx)).
  destruct (decode_inner_reads buf Hb (Some ctx) 0 c Hinv) as (Hr & (_ & Hp1 & Hp2) & HQ).
  split; [done|]. split; [lia|]. intros Hok. destruct (HQ p Hok) as [Hprops _].
  assert (Hle : body_len p ≤ VARIABLE_INT_MAX).
  { apply (decode_inner_body_len buf Hb (Some ctx) 0 c p (decode_inner (Some ctx) c).2); [done|].
    by rewrite <- Hok, <- surjective_pairing. }
  split; [done|]. unfold encode_for. rewrite encode_inner_ok by done. split; [done|].
  split; [by apply encoded_len_bytes|].
  pose proof (decode_inner_ok (Some ctx) p [] []) as Hd. rewrite app_nil_r in Hd.
  rewrite cursor_new_at, Hd; [done..|].
  cbn [app]. rewrite encoded_len_bytes by done. unfold encoded_len, variable_int_len.
  unfold VARIABLE_INT_MAX, usize_max in *. repeat case_match; lia.
Qed.

Lemma decode_for_sound_witness :
  returns (fst (decode_for CtxPublish (cursor_new [5; 0x01; 1; 0x09; 0; 0])))
  ∧ (0 ≤ cur_pos (snd (decode_for CtxPublish (cursor_new [5; 0x01; 1; 0x09; 0; 0]))) ≤ 6)
  ∧ (fst (decode_for CtxPublish (cursor_new [5; 0x01; 1; 0x09; 0; 0]))
       = Ok (mkProperties [(CorrelationData, Binary [])]) →
     props_ok (Some CtxPublish) (mkProperties [(CorrelationData, Binary [])])
     ∧ encode_for (mkProperties [(CorrelationData, Binary [])]) CtxPublish []
          = (Ok (), props_bytes (mkProperties [(CorrelationData, Binary [])]))
     ∧ zlen (props_bytes (mkProperties [(CorrelationData, Binary [])]))
          = encoded_len (mkProperties [(CorrelationData, Binary [])])
     ∧ fst (decode_for CtxPublish
              (cursor_new (props_bytes (mkProperties [(CorrelationData, Binary [])]))))
          = Ok (mkProperties [(CorrelationData, Binary [])])).
Proof.
  apply (decode_for_sound CtxPublish [5; 0x01; 1; 0x09; 0; 0]).
  - repeat constructor; unfold is_u8; lia.
  - done.
  - vm_compute. split; discriminate.
  - vm_compute. done.
Defined.
