(* ===== verification/Packets.v ===== *)
(** * Control packets (src/src/codec/types.rs)

    The packet structures and the tagged union of decoded packets. *)

From S2P Require Import Prelude Errors Types Encode Properties.

Local Open Scope Z_scope.

Record ConnectPacket := mkConnectPacket {
  con_protocol_version : Z;
  con_clean_start : bool;
  con_keep_alive : Z;
  con_client_id : list Z;
  con_username : option (list Z);
  con_password : option (list Z);
  con_properties : Properties;
}.

Record ConnAckPacket := mkConnAckPacket {
  ca_session_present : bool;
  ca_reason_code : Z;
  ca_properties : Properties;
}.

Record PublishPacket := mkPublishPacket {
  pub_topic : list Z;
  pub_packet_id : option Z;
  pub_payload : list Z;
  pub_qos : QoS;
  pub_retain : bool;
  pub_dup : bool;
  pub_properties : Properties;
}.

Record PubAckPacket := mkPubAckPacket { pa_packet_id : Z; pa_reason_code : Z }.

Record SubscribePacket := mkSubscribePacket {
  sub_packet_id : Z;
  sub_filters : list (list Z * QoS);
  sub_properties : Properties;
}.

Record SubAckPacket := mkSubAckPacket { sa_packet_id : Z; sa_reason_codes : list Z }.

Record UnsubscribePacket := mkUnsubscribePacket {
  uns_packet_id : Z;
  uns_filters : list (list Z);
  uns_properties : Properties;
}.

Record UnsubAckPacket := mkUnsubAckPacket { ua_packet_id : Z; ua_reason_codes : list Z }.

Record DisconnectPacket := mkDisconnectPacket { dis_reason_code : Z }.

(** [Packet]: a decoded control packet. *)
Inductive Packet : Type :=
  | PktConnect (p : ConnectPacket)
  | PktConnAck (p : ConnAckPacket)
  | PktPublish (p : PublishPacket)
  | PktPubAck (p : PubAckPacket)
  | PktSubscribe (p : SubscribePacket)
  | PktSubAck (p : SubAckPacket)
  | PktUnsubscribe (p : UnsubscribePacket)
  | PktUnsubAck (p : UnsubAckPacket)
  | PktPingReq
  | PktPingResp
  | PktDisconnect (p : DisconnectPacket).

#[export] Instance ConnectPacket_eq_dec : EqDecision ConnectPacket.
Proof. solve_decision. Defined.
#[export] Instance ConnAckPacket_eq_dec : EqDecision ConnAckPacket.
Proof. solve_decision. Defined.
#[export] Instance PublishPacket_eq_dec : EqDecision PublishPacket.
Proof. solve_decision. Defined.
#[export] Instance PubAckPacket_eq_dec : EqDecision PubAckPacket.
Proof. solve_decision. Defined.
#[export] Instance SubscribePacket_eq_dec : EqDecision SubscribePacket.
Proof. solve_decision. Defined.
#[export] Instance SubAckPacket_eq_dec : EqDecision SubAckPacket.
Proof. solve_decision. Defined.
#[export] Instance UnsubscribePacket_eq_dec : EqDecision UnsubscribePacket.
Proof. solve_decision. Defined.
#[export] Instance UnsubAckPacket_eq_dec : EqDecision UnsubAckPacket.
Proof. solve_decision. Defined.
#[export] Instance DisconnectPacket_eq_dec : EqDecision DisconnectPacket.
Proof. solve_decision. Defined.
#[export] Instance Packet_eq_dec : EqDecision Packet.
Proof. solve_decision. Defined.

(** [let mut v = Vec::new(); ..; Ok(v)]: the bytes a writer leaves in a new buffer. *)
Definition written (m : BufM unit) : Result (list Z) :=
  let? r := run_on [] m in Ok r.2.

(** The tail of every [encode]: the fixed header with the length of [body], then
    [body]. The length is cast with [as u32]. *)
Definition with_fixed_header (t : PacketType) (flags : Z) (body : list Z) : Result (list Z) :=
  written (
    let! _ := encode_fixed_header t flags (as_u32 (zlen body)) in
    extend_from_slice body).

Lemma written_ok m w : m [] = (Ok (), w) → written m = Ok w.
Proof. unfold written, run_on. by intros ->. Qed.

Lemma written_err m e w : m [] = (Err e, w) → written m = Err e.
Proof. unfold written, run_on. by intros ->. Qed.

Lemma written_inv m w : written m = Ok w → m [] = (Ok (), w).
Proof.
  unfold written, run_on. destruct (m []) as [[[]|e| |] w'] eqn:Hm; try done.
  by intros [= <-].
Qed.
