(* ===== verification/Connect.v ===== *)
(** * CONNECT and CONNACK (src/src/codec/connect.rs)

    The CONNECT encoder, the CONNACK decoder, the checks that relate the two, and
    the broker capabilities a CONNACK announces. *)

From S2P Require Import Prelude Errors Utf8 Str Types Decode Encode Topic Properties Packets.

Local Open Scope Z_scope.

Definition PROTOCOL_NAME : list Z := lit "MQTT".
Definition PROTOCOL_VERSION_5 : Z := 5.

Definition is_some {A} (o : option A) : bool := match o with Some _ => true | None => false end.

(** The connect flags byte. *)
Definition connect_flags (self : ConnectPacket) : Z :=
  let flags := 0 in
  let flags := if con_clean_start self then Z.lor flags 0x02 else flags in
  let flags := if is_some (con_password self) then Z.lor flags 0x40 else flags in
  if is_some (con_username self) then Z.lor flags 0x80 else flags.

(** [ConnectPacket::encode] *)
Definition ConnectPacket_encode (self : ConnectPacket) : Result (list Z) :=
  if negb (con_protocol_version self =? PROTOCOL_VERSION_5)
  then Err (MalformedPacket "only MQTT v5 is supported")
  else
    let? body := written (
      let! _ := encode_string PROTOCOL_NAME in
      let! _ := push (con_protocol_version self) in
      let! _ := push (connect_flags self) in
      let! _ := encode_u16 (con_keep_alive self) in
      let! _ := if PROTOCOL_VERSION_5 <=? con_protocol_version self
                then encode_for (con_properties self) CtxConnect else ret () in
      let! _ := encode_string (con_client_id self) in
      let! _ := match con_username self with
                | Some username => encode_string username
                | None => ret ()
                end in
      match con_password self with
      | Some password => encode_binary password
      | None => ret ()
      end) in
    with_fixed_header Connect 0 body.

(** [validate_connack] *)
Definition validate_connack (requested_client_id : list Z) (clean_start : bool)
    (connack : ConnAckPacket) : Result unit :=
  if clean_start && ca_session_present connack
  then Err (MalformedPacket "CONNACK has session present after clean start")
  else if is_empty requested_client_id && ca_session_present connack
  then Err (MalformedPacket
         "CONNACK has session present for a newly assigned client identifier")
  else if is_empty requested_client_id
          && negb (match get_string (ca_properties connack) AssignedClientIdentifier with
                   | Some identifier => negb (is_empty identifier)
                   | None => false
                   end)
  then Err (MalformedPacket "CONNACK omitted a non-empty assigned client identifier")
  else Ok ().

Record ServerCapabilities := mkServerCapabilities {
  maximum_qos : QoS;
  retain_available : bool;
  wildcard_subscriptions_available : bool;
  shared_subscriptions_available : bool;
}.

(** [properties.get_byte(id).unwrap_or(1) != 0] *)
Definition available (p : Properties) (id : PropertyId) : bool :=
  negb (default 1 (get_byte p id) =? 0).

(** [ServerCapabilities::from_connack]; the [unreachable!] arm is a panic. *)
Definition from_connack (connack : ConnAckPacket) : Result ServerCapabilities :=
  let? maximum_qos :=
    match get_byte (ca_properties connack) MaximumQoS with
    | Some 0 => Ok AtMostOnce
    | Some 1 | None => Ok AtLeastOnce
    | Some _ => Panic "Maximum QoS was validated while decoding properties"
    end in
  Ok (mkServerCapabilities maximum_qos
        (available (ca_properties connack) RetainAvailable)
        (available (ca_properties connack) WildcardSubscriptionAvailable)
        (available (ca_properties connack) SharedSubscriptionAvailable)).

(** [ServerCapabilities::validate_publish] *)
Definition validate_publish (self : ServerCapabilities) (qos : QoS) (retain : bool) : Result unit :=
  if QoS_as_u8 (maximum_qos self) <? QoS_as_u8 qos
  then Err (InvalidOptions "broker does not support QoS 1 publishing")
  else if retain && negb (retain_available self)
  then Err (InvalidOptions "broker does not support retained publishing")
  else Ok ().

(** [ServerCapabilities::validate_subscription_filter] *)
Definition validate_subscription_filter (self : ServerCapabilities) (filter : list Z)
  : Result unit :=
  let? _ := validate_topic_filter filter in
  if starts_with (lit "$share/") filter && negb (shared_subscriptions_available self)
  then Err (InvalidOptions "broker does not support shared subscriptions")
  else if contains_wildcard filter && negb (wildcard_subscriptions_available self)
  then Err (InvalidOptions "broker does not support wildcard subscriptions")
  else Ok ().

(** [ServerCapabilities::default] *)
Definition capabilities_default : ServerCapabilities :=
  mkServerCapabilities AtLeastOnce true true true.

(** [is_connack_reason_code] *)
Definition is_connack_reason_code (code : Z) : bool :=
  one_of [0x00; 0x80; 0x81; 0x82; 0x83; 0x84; 0x85; 0x86; 0x87; 0x88; 0x89; 0x8A; 0x8C;
          0x90; 0x95; 0x97; 0x99; 0x9A; 0x9B; 0x9C; 0x9D; 0x9F] code.

(** [ConnAckPacket::decode] *)
Definition ConnAckPacket_decode (body : list Z) : Result ConnAckPacket :=
  eval_on (cursor_new body) (
    let! ack_flags := read_u8 in
    let! _ := fail_if (negb (Z.land ack_flags 0xFE =? 0))
                (MalformedPacket "CONNACK has reserved acknowledge flags") in
    let session_present := negb (Z.land ack_flags 0x01 =? 0) in
    let! reason_code := read_u8 in
    let! _ := fail_if (negb (is_connack_reason_code reason_code))
                (InvalidReasonCode reason_code) in
    let! _ := fail_if (session_present && negb (reason_code =? 0x00))
                (MalformedPacket "refused CONNACK has session present") in
    let! properties := decode_for CtxConnAck in
    let! cur := get in
    let! _ := fail_if (negb (remaining cur =? 0)) (MalformedPacket "trailing CONNACK bytes") in
    ret (mkConnAckPacket session_present reason_code properties)).
