(* ===== verification/Publish.v ===== *)
(** * PUBLISH and PUBACK (src/src/codec/publish.rs) *)

From S2P Require Import Prelude Errors Utf8 Types Decode Encode Topic Properties Packets.

Local Open Scope Z_scope.

(** The fixed-header flags: DUP(3) QoS(2-1) RETAIN(0). *)
Definition publish_flags (self : PublishPacket) : Z :=
  let flags := 0 in
  let flags := if pub_dup self then Z.lor flags 0x08 else flags in
  let flags := Z.lor flags (as_u8 (Z.shiftl (QoS_as_u8 (pub_qos self)) 1)) in
  if pub_retain self then Z.lor flags 0x01 else flags.

(** [PublishPacket::encode] *)
Definition PublishPacket_encode (self : PublishPacket) : Result (list Z) :=
  let? _ :=
    match pub_qos self, pub_packet_id self with
    | AtMostOnce, None => Ok ()
    | AtMostOnce, Some _ => Err (MalformedPacket "QoS 0 PUBLISH has packet identifier")
    | AtLeastOnce, (Some 0 | None) =>
        Err (MalformedPacket "QoS 1 PUBLISH needs non-zero packet identifier")
    | AtLeastOnce, Some _ => Ok ()
    end in
  let? body := written (
    let! _ := lift (validate_topic_name (pub_topic self)) in
    let! _ := encode_string (pub_topic self) in
    let! _ := match pub_packet_id self with
              | Some id => encode_u16 id
              | None => ret ()
              end in
    let! _ := encode_for (pub_properties self) CtxPublish in
    extend_from_slice (pub_payload self)) in
  with_fixed_header Publish (publish_flags self) body.

(** [PublishPacket::decode] *)
Definition PublishPacket_decode (flags : Z) (body : list Z) : Result PublishPacket :=
  eval_on (cursor_new body) (
    let dup := negb (Z.land flags 0x08 =? 0) in
    let! qos := lift (QoS_from_u8 (Z.land (Z.shiftr flags 1) 0x03)) in
    let retain := negb (Z.land flags 0x01 =? 0) in
    let! topic := read_string in
    let! _ := lift (validate_topic_name topic) in
    let! packet_id :=
      if negb (bool_decide (qos = AtMostOnce)) then
        let! packet_id := read_u16 in
        let! _ := fail_if (packet_id =? 0) (MalformedPacket "PUBLISH packet identifier is zero") in
        ret (Some packet_id)
      else ret None in
    let! properties := decode_for CtxPublish in
    let! payload := remaining_bytes in
    ret (mkPublishPacket topic packet_id payload qos retain dup properties)).

(** [is_puback_reason_code] *)
Definition is_puback_reason_code (code : Z) : bool :=
  one_of [0x00; 0x10; 0x80; 0x83; 0x87; 0x90; 0x91; 0x97; 0x99] code.

(** [PubAckPacket::encode] *)
Definition PubAckPacket_encode (self : PubAckPacket) : Result (list Z) :=
  if pa_packet_id self =? 0 then Err (MalformedPacket "PUBACK packet identifier is zero")
  else if negb (is_puback_reason_code (pa_reason_code self))
  then Err (InvalidReasonCode (pa_reason_code self))
  else written (
    if pa_reason_code self =? 0x00 then
      let! _ := encode_fixed_header PubAck 0 2 in
      encode_u16 (pa_packet_id self)
    else
      let! _ := encode_fixed_header PubAck 0 3 in
      let! _ := encode_u16 (pa_packet_id self) in
      push (pa_reason_code self)).

(** [PubAckPacket::decode] *)
Definition PubAckPacket_decode (body : list Z) : Result PubAckPacket :=
  eval_on (cursor_new body) (
    let! packet_id := read_u16 in
    let! _ := fail_if (packet_id =? 0) (MalformedPacket "PUBACK packet identifier is zero") in
    let! cur := get in
    let! reason_code := if 0 <? remaining cur then read_u8 else ret 0x00 in
    let! _ := fail_if (negb (is_puback_reason_code reason_code)) (InvalidReasonCode reason_code) in
    let! cur := get in
    let! _ := if 0 <? remaining cur
              then let! _ := decode_for CtxPubAck in ret ()
              else ret () in
    let! cur := get in
    let! _ := fail_if (negb (remaining cur =? 0)) (MalformedPacket "trailing PUBACK bytes") in
    ret (mkPubAckPacket packet_id reason_code)).
