(* ===== verification/Subscribe.v ===== *)
(** * SUBSCRIBE, SUBACK, UNSUBSCRIBE and UNSUBACK (src/src/codec/subscribe.rs) *)

From S2P Require Import Prelude Errors Utf8 Types Decode Encode Topic Properties Packets.

Local Open Scope Z_scope.

(** The loop of [validate_suback_codes] over the zipped codes. *)
Fixpoint validate_grants (pairs : list (Z * QoS)) : Result unit :=
  match pairs with
  | [] => Ok ()
  | (granted, requested) :: rest =>
      if 0x80 <=? granted then Err (AckRejected "SUBACK" granted)
      else if (granted =? 2) || (QoS_as_u8 requested <? granted)
      then Err (MalformedPacket "SUBACK granted unsupported or unrequested QoS")
      else validate_grants rest
  end.

(** [validate_suback_codes] *)
Definition validate_suback_codes (reason_codes : list Z) (requested_qos : list QoS) : Result unit :=
  if negb (zlen reason_codes =? zlen requested_qos)
  then Err (MalformedPacket "ack reason code count mismatch")
  else validate_grants (zip reason_codes requested_qos).

(** The payload loop of [SubscribePacket::encode]. *)
Fixpoint encode_sub_filters (filters : list (list Z * QoS)) : BufM unit :=
  match filters with
  | [] => ret ()
  | (filter, qos) :: rest =>
      let! _ := lift (validate_topic_filter filter) in
      let! _ := encode_string filter in
      let! _ := push (QoS_as_u8 qos) in
      encode_sub_filters rest
  end.

(** [SubscribePacket::encode] *)
Definition SubscribePacket_encode (self : SubscribePacket) : Result (list Z) :=
  if sub_packet_id self =? 0 then Err (MalformedPacket "SUBSCRIBE packet identifier is zero")
  else if bool_decide (sub_filters self = [])
  then Err (MalformedPacket "SUBSCRIBE has no filters")
  else
    let? body := written (
      let! _ := encode_u16 (sub_packet_id self) in
      let! _ := encode_for (sub_properties self) CtxSubscribe in
      encode_sub_filters (sub_filters self)) in
    with_fixed_header Subscribe 0x02 body.

(** [is_suback_reason_code], [is_unsuback_reason_code] *)
Definition is_suback_reason_code (code : Z) : bool :=
  one_of [0x00; 0x01; 0x02; 0x80; 0x83; 0x87; 0x8F; 0x91; 0x97; 0x9E; 0xA1; 0xA2] code.
Definition is_unsuback_reason_code (code : Z) : bool :=
  one_of [0x00; 0x11; 0x80; 0x83; 0x87; 0x8F; 0x91] code.

(** [SubAckPacket::decode] *)
Definition SubAckPacket_decode (body : list Z) : Result SubAckPacket :=
  eval_on (cursor_new body) (
    let! packet_id := read_u16 in
    let! _ := fail_if (packet_id =? 0) (MalformedPacket "SUBACK packet identifier is zero") in
    let! _ := decode_for CtxSubAck in
    let! reason_codes := remaining_bytes in
    let! _ := fail_if (bool_decide (reason_codes = []))
                (MalformedPacket "SUBACK has no reason codes") in
    match List.find (λ code, negb (is_suback_reason_code code)) reason_codes with
    | Some invalid => fail (InvalidReasonCode invalid)
    | None => ret (mkSubAckPacket packet_id reason_codes)
    end).

(** The payload loop of [UnsubscribePacket::encode]. *)
Fixpoint encode_unsub_filters (filters : list (list Z)) : BufM unit :=
  match filters with
  | [] => ret ()
  | filter :: rest =>
      let! _ := lift (validate_topic_filter filter) in
      let! _ := encode_string filter in
      encode_unsub_filters rest
  end.

(** [UnsubscribePacket::encode] *)
Definition UnsubscribePacket_encode (self : UnsubscribePacket) : Result (list Z) :=
  if uns_packet_id self =? 0 then Err (MalformedPacket "UNSUBSCRIBE packet identifier is zero")
  else if bool_decide (uns_filters self = [])
  then Err (MalformedPacket "UNSUBSCRIBE has no filters")
  else
    let? body := written (
      let! _ := encode_u16 (uns_packet_id self) in
      let! _ := encode_for (uns_properties self) CtxUnsubscribe in
      encode_unsub_filters (uns_filters self)) in
    with_fixed_header Unsubscribe 0x02 body.

(** [UnsubAckPacket::decode] *)
Definition UnsubAckPacket_decode (body : list Z) : Result UnsubAckPacket :=
  eval_on (cursor_new body) (
    let! packet_id := read_u16 in
    let! _ := fail_if (packet_id =? 0) (MalformedPacket "UNSUBACK packet identifier is zero") in
    let! _ := decode_for CtxUnsubAck in
    let! reason_codes := remaining_bytes in
    let! _ := fail_if (bool_decide (reason_codes = []))
                (MalformedPacket "UNSUBACK has no reason codes") in
    match List.find (λ code, negb (is_unsuback_reason_code code)) reason_codes with
    | Some invalid => fail (InvalidReasonCode invalid)
    | None => ret (mkUnsubAckPacket packet_id reason_codes)
    end).
