(* ===== verification/Ping.v ===== *)
(** * PINGREQ, PINGRESP and DISCONNECT (src/src/codec/ping.rs) *)

From S2P Require Import Prelude Errors Types Decode Encode Properties Packets.

Local Open Scope Z_scope.

Definition PINGREQ_BYTES : list Z := [0xC0; 0x00].
Definition PINGRESP_BYTES : list Z := [0xD0; 0x00].

(** [is_disconnect_reason_code] *)
Definition is_disconnect_reason_code (code : Z) : bool :=
  one_of [0x00; 0x04; 0x80; 0x81; 0x82; 0x83; 0x87; 0x89; 0x8B; 0x8D; 0x8E; 0x8F; 0x90;
          0x93; 0x94; 0x95; 0x96; 0x97; 0x98; 0x99; 0x9A; 0x9B; 0x9C; 0x9D; 0x9E; 0x9F;
          0xA0; 0xA1; 0xA2] code.

(** [DisconnectPacket::encode] *)
Definition DisconnectPacket_encode (self : DisconnectPacket) : Result (list Z) :=
  if negb (is_disconnect_reason_code (dis_reason_code self))
  then Err (InvalidReasonCode (dis_reason_code self))
  else written (
    if dis_reason_code self =? 0x00 then encode_fixed_header Disconnect 0 0
    else
      let! _ := encode_fixed_header Disconnect 0 1 in
      push (dis_reason_code self)).

(** [DisconnectPacket::decode] *)
Definition DisconnectPacket_decode (body : list Z) : Result DisconnectPacket :=
  eval_on (cursor_new body) (
    let! reason_code := if bool_decide (body = []) then ret 0x00 else read_u8 in
    let! _ := fail_if (negb (is_disconnect_reason_code reason_code))
                (InvalidReasonCode reason_code) in
    let! cur := get in
    let! _ := if 0 <? remaining cur
              then let! _ := decode_for CtxDisconnect in ret ()
              else ret () in
    let! cur := get in
    let! _ := fail_if (negb (remaining cur =? 0)) (MalformedPacket "trailing DISCONNECT bytes") in
    ret (mkDisconnectPacket reason_code)).
