(* ===== verification/PacketCodec.v ===== *)
(** * Packet dispatch (src/src/codec/mod.rs) *)

From S2P Require Import Prelude Errors Types Decode Encode Properties Packets Connect Publish.
From S2P Require Import Subscribe Ping.

Local Open Scope Z_scope.

(** [Packet::decode] *)
Definition Packet_decode (header : FixedHeader) (body : list Z) : Result Packet :=
  let? _ := validate_fixed_header header in
  if negb (zlen body =? fh_remaining_length header)
  then Err (MalformedPacket "body length does not match header")
  else match fh_packet_type header with
  | ConnAck => let? p := ConnAckPacket_decode body in Ok (PktConnAck p)
  | Types.Publish => let? p := PublishPacket_decode (fh_flags header) body in Ok (PktPublish p)
  | PubAck => let? p := PubAckPacket_decode body in Ok (PktPubAck p)
  | SubAck => let? p := SubAckPacket_decode body in Ok (PktSubAck p)
  | UnsubAck => let? p := UnsubAckPacket_decode body in Ok (PktUnsubAck p)
  | PingResp =>
      if bool_decide (body = []) then Ok PktPingResp
      else Err (MalformedPacket "PINGRESP body must be empty")
  | Disconnect => let? p := DisconnectPacket_decode body in Ok (PktDisconnect p)
  | PingReq =>
      if bool_decide (body = []) then Ok PktPingReq
      else Err (MalformedPacket "PINGREQ body must be empty")
  | PubRec | PubRel | PubComp => Err (UnexpectedPacket "QoS 2 not supported")
  | Auth => Err (UnexpectedPacket "AUTH not supported")
  | Types.Connect | Types.Subscribe | Unsubscribe =>
      Err (UnexpectedPacket "client-to-server packet type")
  end.
