(* ===== verification/CodecFacts.v ===== *)
(** * Correctness of the packet codecs

    The fixed header round trip, the packets that are both encoded and decoded
    (PUBLISH, PUBACK, DISCONNECT), the wire form of the packets only encoded, and the
    totality of [Packet::decode] on untrusted bytes. *)

From S2P Require Import Prelude Errors Utf8 Str Types Decode Encode Topic Properties.
From S2P Require Import PropertiesFacts Packets Connect Publish Subscribe Ping PacketCodec.

Local Open Scope Z_scope.

(** ** The fixed header *)

Definition header_bytes (t : PacketType) (flags len : Z) : list Z :=
  (PacketType_as_u8 t * 16 + flags) :: varint_bytes len.

Definition header_ok (t : PacketType) (flags : Z) : Prop :=
  0 ≤ flags ≤ 15 ∧ ∀ len, validate_fixed_header (mkFixedHeader t flags len) = Ok ().

Lemma validate_fixed_header_len t flags l1 l2 :
  validate_fixed_header (mkFixedHeader t flags l1) = validate_fixed_header (mkFixedHeader t flags l2).
Proof. done. Qed.

Lemma type_byte t flags :
  0 ≤ flags ≤ 15 →
  Z.lor (as_u8 (Z.shiftl (PacketType_as_u8 t) 4)) flags = PacketType_as_u8 t * 16 + flags.
Proof.
  intros Hf. assert (as_u8 (Z.shiftl (PacketType_as_u8 t) 4) = Z.shiftl (PacketType_as_u8 t) 4)
    as -> by (by destruct t). by rewrite lor_shiftl_add by lia.
Qed.

Lemma encode_fixed_header_ok t flags len buf :
  header_ok t flags → 0 ≤ len ≤ VARIABLE_INT_MAX →
  encode_fixed_header t flags len buf = (Ok (), buf ++ header_bytes t flags len).
Proof.
  intros [Hf Hv] Hl. unfold encode_fixed_header.
  rewrite (proj2 (Z.ltb_ge _ _)) by lia.
  erewrite bind_ok by apply fail_if_false.
  erewrite bind_ok by (unfold lift; by rewrite Hv).
  erewrite bind_ok by reflexivity. rewrite encode_variable_int_ok by done.
  by rewrite type_byte, <- app_assoc by done.
Qed.

(** What a successful [encode_fixed_header] tells. *)
Lemma encode_fixed_header_inv t flags len buf r buf' :
  0 ≤ flags → encode_fixed_header t flags len buf = (Ok r, buf') →
  header_ok t flags ∧ len ≤ VARIABLE_INT_MAX.
Proof.
  intros H0 H. unfold encode_fixed_header in H.
  apply bind_ok_inv in H as ([] & s1 & [Hf ->]%fail_if_ok & H).
  apply bind_ok_inv in H as ([] & s2 & Hv & H).
  apply bind_ok_inv in H as ([] & s3 & _ & H).
  split.
  - split; [lia|]. intros len'. injection Hv as Hv _. by rewrite <- Hv.
  - destruct (decide (VARIABLE_INT_MAX < len)) as [Hl|]; [|lia].
    by rewrite encode_variable_int_too_large in H.
Qed.

Lemma with_fixed_header_ok t flags body :
  header_ok t flags → zlen body ≤ VARIABLE_INT_MAX →
  with_fixed_header t flags body = Ok (header_bytes t flags (zlen body) ++ body).
Proof.
  intros Hh Hl. pose proof (zlen_nonneg body). apply written_ok.
  unfold VARIABLE_INT_MAX in *.
  assert (as_u32 (zlen body) = zlen body) as -> by (apply Z.mod_small; lia).
  by erewrite bind_ok by (apply encode_fixed_header_ok; [done|unfold VARIABLE_INT_MAX; lia]).
Qed.

Lemma with_fixed_header_inv t flags body w :
  0 ≤ flags → zlen body < 4294967296 → with_fixed_header t flags body = Ok w →
  header_ok t flags ∧ zlen body ≤ VARIABLE_INT_MAX ∧ w = header_bytes t flags (zlen body) ++ body.
Proof.
  intros H0 Hb Hw. pose proof Hw as Hw'. pose proof (zlen_nonneg body).
  apply written_inv, bind_ok_inv in Hw as ([] & s & He & _).
  assert (as_u32 (zlen body) = zlen body) as Hu by (apply Z.mod_small; lia). rewrite Hu in He.
  apply encode_fixed_header_inv in He as [Hh Hl]; [|done].
  rewrite with_fixed_header_ok in Hw' by done. injection Hw' as <-. done.
Qed.

Lemma header_bytes_len t flags len :
  0 ≤ len ≤ VARIABLE_INT_MAX → zlen (header_bytes t flags len) = 1 + variable_int_len len.
Proof. intros. unfold header_bytes. by rewrite zlen_cons, varint_bytes_len. Qed.

Lemma header_first_byte t flags :
  0 ≤ flags ≤ 15 →
  Z.shiftr (PacketType_as_u8 t * 16 + flags) 4 = PacketType_as_u8 t
  ∧ Z.land (PacketType_as_u8 t * 16 + flags) 0x0F = flags.
Proof.
  intros Hf. rewrite shiftr_div, land_0x0F by lia. change (2 ^ 4) with 16. split.
  - rewrite Z.div_add_l by lia. rewrite Z.div_small by lia. lia.
  - rewrite Z.add_comm, Z.mod_add by lia. by apply Z.mod_small; lia.
Qed.

Lemma decode_fixed_header_ok t flags len rest :
  header_ok t flags → 0 ≤ len ≤ VARIABLE_INT_MAX →
  decode_fixed_header (header_bytes t flags len ++ rest)
    = Ok (mkFixedHeader t flags len, 1 + variable_int_len len).
Proof.
  intros [Hf Hv] Hl. unfold decode_fixed_header, eval_on, header_bytes. cbn [app].
  rewrite cursor_new_at. destruct (header_first_byte t flags Hf) as [Ht Hfl].
  erewrite bind_ok by apply read_u8_at.
  erewrite bind_ok by (unfold lift; by rewrite Ht, PacketType_u8_roundtrip).
  erewrite bind_ok by (by apply (wire_get_ok (w := varint_wire))).
  erewrite bind_ok by (unfold lift; by rewrite Hfl, Hv).
  erewrite bind_ok by reflexivity. cbn [ret fst]. rewrite Hfl, position_at, zlen_app.
  cbn [wire_bytes varint_wire]. by rewrite varint_bytes_len.
Qed.

(** ** Inverting the field writers *)

Lemma encode_string_ok_inv s buf r buf' :
  utf8_valid s = true → encode_string s buf = (Ok r, buf') →
  string_ok s ∧ buf' = buf ++ prefixed s.
Proof.
  intros Hu H. pose proof H as [H0 Hl]%encode_string_inv.
  assert (string_ok s) as Hok by done. split; [done|].
  rewrite (wire_put_ok (w := string_wire) s buf Hok : encode_string s buf = _) in H.
  by injection H.
Qed.

Lemma encode_binary_ok_inv d buf r buf' :
  bytes_ok d → encode_binary d buf = (Ok r, buf') →
  binary_ok d ∧ buf' = buf ++ prefixed d.
Proof.
  intros Hu H. assert (Hl : zlen d ≤ 65535).
  { unfold encode_binary in H. destruct (65535 <? zlen d) eqn:Hl; [discriminate|lia]. }
  assert (binary_ok d) as Hok by done. split; [done|].
  rewrite (wire_put_ok (w := binary_wire) d buf Hok : encode_binary d buf = _) in H.
  by injection H.
Qed.

Lemma encode_for_inv p ctx buf r buf' :
  props_typed p → body_len p < 4294967296 → encode_for p ctx buf = (Ok r, buf') →
  (props_ok (Some ctx) p ∧ body_len p ≤ VARIABLE_INT_MAX) ∧ buf' = buf ++ props_bytes p.
Proof.
  intros Ht Hl H. unfold encode_for in H.
  destruct (encode_inner_cases (Some ctx) p buf Ht Hl) as [(? & ? & He)|(_ & e & He)];
    rewrite He in H; [|discriminate]. by injection H as _ <-.
Qed.

Lemma props_wire_put ctx p buf :
  wire_dom (props_wire ctx) p → encode_for p ctx buf = (Ok (), buf ++ props_bytes p).
Proof. intros [? ?]. by apply encode_inner_ok. Qed.

Lemma body_len_le p : body_len p ≤ zlen (props_bytes p).
Proof.
  unfold props_bytes. rewrite zlen_app, body_len_bytes.
  pose proof (zlen_nonneg (varint_bytes (body_len p))). lia.
Qed.

(** Split a successful run of a writer into the runs of its steps. *)
Ltac inv_write H :=
  repeat match type of H with
  | bind _ _ _ = (Ok _, _) =>
      let b := fresh "b" in let s := fresh "s" in let H1 := fresh "Hw" in
      apply bind_ok_inv in H as (b & s & H1 & H)
  end.

(** ** PUBLISH *)

(** The invariants of the Rust types in a PUBLISH. *)
Definition publish_typed (p : PublishPacket) : Prop :=
  utf8_valid (pub_topic p) = true ∧ bytes_ok (pub_payload p) ∧ props_typed (pub_properties p)
  ∧ match pub_packet_id p with Some id => is_u16 id | None => True end.

Definition publish_body (p : PublishPacket) : list Z :=
  prefixed (pub_topic p)
  ++ match pub_packet_id p with Some id => u16_to_be id | None => [] end
  ++ props_bytes (pub_properties p) ++ pub_payload p.

(** What [encode] requires of a PUBLISH. *)
Record publish_ok (p : PublishPacket) : Prop := {
  po_topic : validate_topic_name (pub_topic p) = Ok ();
  po_string : string_ok (pub_topic p);
  po_id : match pub_qos p, pub_packet_id p with
          | AtMostOnce, None => True
          | AtLeastOnce, Some id => id ≠ 0 ∧ is_u16 id
          | _, _ => False
          end;
  po_dup : pub_qos p = AtMostOnce → pub_dup p = false;
  po_props : props_ok (Some CtxPublish) (pub_properties p)
             ∧ body_len (pub_properties p) ≤ VARIABLE_INT_MAX;
  po_payload : bytes_ok (pub_payload p);
  po_len : zlen (publish_body p) ≤ VARIABLE_INT_MAX;
}.

Lemma publish_flags_ok p :
  header_ok Types.Publish (publish_flags p) ↔ (pub_qos p = AtMostOnce → pub_dup p = false).
Proof.
  unfold header_ok, validate_fixed_header, publish_flags; cbn [fh_packet_type fh_flags].
  split.
  - intros [_ H]. specialize (H 0). by destruct (pub_qos p), (pub_dup p), (pub_retain p).
  - intros H. destruct (pub_qos p), (pub_dup p), (pub_retain p);
      try (by specialize (H eq_refl)); split; try done; cbn; lia.
Qed.

Lemma publish_flags_range p : 0 ≤ publish_flags p ≤ 15.
Proof. unfold publish_flags. by destruct (pub_qos p), (pub_dup p), (pub_retain p). Qed.

Lemma publish_flags_fields p :
  negb (Z.land (publish_flags p) 0x08 =? 0) = pub_dup p
  ∧ QoS_from_u8 (Z.land (Z.shiftr (publish_flags p) 1) 0x03) = Ok (pub_qos p)
  ∧ negb (Z.land (publish_flags p) 0x01 =? 0) = pub_retain p.
Proof. unfold publish_flags. by destruct (pub_qos p), (pub_dup p), (pub_retain p). Qed.

Lemma PublishPacket_encode_ok p :
  publish_ok p →
  PublishPacket_encode p
    = Ok (header_bytes Types.Publish (publish_flags p) (zlen (publish_body p)) ++ publish_body p).
Proof.
  intros [Ht Hs Hid Hd Hp Hpl Hl]. unfold PublishPacket_encode.
  assert (match pub_qos p, pub_packet_id p with
    | AtMostOnce, None => Ok ()
    | AtMostOnce, Some _ => Err (MalformedPacket "QoS 0 PUBLISH has packet identifier")
    | AtLeastOnce, (Some 0 | None) =>
        Err (MalformedPacket "QoS 1 PUBLISH needs non-zero packet identifier")
    | AtLeastOnce, Some _ => Ok ()
    end = Ok ()) as ->.
  { destruct (pub_qos p), (pub_packet_id p) as [[]|]; naive_solver. }
  cbn [rbind].
  erewrite written_ok.
  2:{ erewrite bind_ok by (unfold lift; by rewrite Ht).
      erewrite bind_ok by (by apply (wire_put_ok (w := string_wire))).
      erewrite (bind_ok _ _ _ () (prefixed (pub_topic p) ++
        match pub_packet_id p with Some id => u16_to_be id | None => [] end)).
      2:{ destruct (pub_packet_id p); [done|]. by rewrite app_nil_r. }
      erewrite bind_ok by (by apply props_wire_put).
      reflexivity. }
  cbn [rbind]. rewrite <- !app_assoc. fold (publish_body p).
  by apply with_fixed_header_ok; [apply publish_flags_ok|].
Qed.

Lemma PublishPacket_encode_inv p w :
  publish_typed p → zlen (publish_body p) < 4294967296 → PublishPacket_encode p = Ok w →
  publish_ok p.
Proof.
  intros (Hu & Hpl & Hpt & Hid) Hlen H. unfold PublishPacket_encode in H.
  assert (Hidok : match pub_qos p, pub_packet_id p with
          | AtMostOnce, None => True
          | AtLeastOnce, Some id => id ≠ 0 ∧ is_u16 id
          | _, _ => False
          end).
  { destruct (pub_qos p), (pub_packet_id p) as [[]|]; try discriminate H; naive_solver. }
  destruct (match pub_qos p, pub_packet_id p with
    | AtMostOnce, None => Ok () | _, _ => _ end) as [[]| | |] eqn:Hm; try discriminate.
  cbn [rbind] in H. clear Hm.
  destruct (written _) as [body| | |] eqn:Hb; try discriminate. cbn [rbind] in H.
  apply written_inv in Hb. inv_write Hb.
  assert (Hbl : body_len (pub_properties p) < 4294967296).
  { pose proof (body_len_le (pub_properties p)). unfold publish_body in Hlen.
    rewrite !zlen_app in Hlen. pose proof (zlen_nonneg (prefixed (pub_topic p))).
    pose proof (zlen_nonneg (pub_payload p)).
    pose proof (zlen_nonneg (match pub_packet_id p with
                             | Some id => u16_to_be id | None => [] end)). lia. }
  destruct b. injection Hw as Ht <-.
  apply encode_string_ok_inv in Hw0 as [Hs ->]; [|done].
  apply encode_for_inv in Hw2 as [Hp ->]; [|done..].
  assert (s1 = prefixed (pub_topic p) ++
     match pub_packet_id p with Some id => u16_to_be id | None => [] end) as ->.
  { destruct (pub_packet_id p); injection Hw1; [by intros <-|]. intros <-. by rewrite app_nil_r. }
  assert (body = publish_body p) as ->.
  { injection Hb as <-. unfold publish_body. by rewrite <- !app_assoc. }
  apply with_fixed_header_inv in H as (Hh & Hl & _); [|apply publish_flags_range|done].
  split; try done. by apply publish_flags_ok.
Qed.

Lemma PublishPacket_decode_ok p :
  publish_ok p → PublishPacket_decode (publish_flags p) (publish_body p) = Ok p.
Proof.
  intros [Ht Hs Hid Hd [Hp Hpl] Hpay Hl]. unfold PublishPacket_decode, eval_on, publish_body.
  destruct (publish_flags_fields p) as (-> & -> & ->). rewrite cursor_new_at.
  erewrite bind_ok by reflexivity.
  erewrite bind_ok by (by apply (wire_get_ok (w := string_wire))).
  cbn [wire_bytes string_wire app]. erewrite bind_ok by (unfold lift; by rewrite Ht).
  erewrite (bind_ok _ _ _ (pub_packet_id p) (cursor_at (prefixed (pub_topic p) ++
        match pub_packet_id p with Some id => u16_to_be id | None => [] end)
        (props_bytes (pub_properties p) ++ pub_payload p))).
  2:{ destruct (pub_qos p), (pub_packet_id p) as [id|]; cbn [negb]; try done.
      - cbn. by rewrite app_nil_r.
      - destruct Hid as [Hz Hid]. rewrite bool_decide_eq_false_2 by done. cbn [negb].
        erewrite bind_ok by (by apply (wire_get_ok (w := u16_wire))).
        rewrite (proj2 (Z.eqb_neq _ _)) by done. done. }
  erewrite bind_ok.
  2:{ apply decode_inner_ok; [done..|].
      unfold publish_body in Hl. rewrite !zlen_app in Hl. rewrite !zlen_app.
      pose proof (zlen_nonneg (pub_payload p)). unfold VARIABLE_INT_MAX, usize_max in *. lia. }
  erewrite bind_ok by apply remaining_bytes_at. by destruct p.
Qed.

(** ** Decoding untrusted bytes *)

Section decoding.
Context (body : list Z) (Hbody : bytes_ok body).

Lemma decode_for_reads ctx : reads body 1 (decode_for ctx) (props_ok (Some ctx)).
Proof using Hbody. by apply decode_inner_reads. Qed.

Lemma remaining_bytes_reads : reads body 0 remaining_bytes bytes_ok.
Proof using Hbody.
  intros p c Hc. destruct (cursor_inv_at body Hbody p c Hc) as (pre & rest & Heq & -> & Hp & Hr).
  unfold safe, wp. rewrite remaining_bytes_at. cbn [fst snd].
  split_and!; [done|done|]. intros a [= <-]. split; [done|lia].
Qed.

#[local] Hint Resolve decode_for_reads remaining_bytes_reads : mqtt.

Lemma ConnAckPacket_decode_reads :
  returns (ConnAckPacket_decode body) ∧
  ∀ p, ConnAckPacket_decode body = Ok p →
    props_ok (Some CtxConnAck) (ca_properties p)
    ∧ is_connack_reason_code (ca_reason_code p) = true
    ∧ (ca_session_present p = true → ca_reason_code p = 0).
Proof using Hbody.
  apply (reads_eval body Hbody 0). repeat reads_step.
  cbn [ca_properties ca_reason_code ca_session_present].
  split_and!; [done|by apply negb_false_iff|]. intros Hs.
  match goal with H : _ && _ = false |- _ => rewrite Hs in H; apply negb_false_iff in H end.
  lia.
Qed.

Lemma PubAckPacket_decode_reads :
  returns (PubAckPacket_decode body) ∧
  ∀ p, PubAckPacket_decode body = Ok p →
    (is_u16 (pa_packet_id p) ∧ pa_packet_id p ≠ 0)
    ∧ is_puback_reason_code (pa_reason_code p) = true.
Proof using Hbody.
  apply (reads_eval body Hbody 0). repeat reads_step.
  all: cbn [pa_packet_id pa_reason_code]; split; [split; [done|lia]|].
  all: try done; by apply negb_false_iff.
Qed.

Lemma DisconnectPacket_decode_reads :
  returns (DisconnectPacket_decode body) ∧
  ∀ p, DisconnectPacket_decode body = Ok p →
    is_disconnect_reason_code (dis_reason_code p) = true.
Proof using Hbody.
  apply (reads_eval body Hbody 0). repeat reads_step.
  all: cbn [dis_reason_code]; try done; by apply negb_false_iff.
Qed.

Lemma find_invalid (f : Z → bool) l :
  List.find (λ c, negb (f c)) l = None → Forall (λ c, f c = true) l.
Proof.
  intros H. apply Forall_forall. intros x Hx.
  apply (find_none _ _ H) in Hx. by apply negb_false_iff.
Qed.

Lemma SubAckPacket_decode_reads :
  returns (SubAckPacket_decode body) ∧
  ∀ p, SubAckPacket_decode body = Ok p →
    (is_u16 (sa_packet_id p) ∧ sa_packet_id p ≠ 0)
    ∧ sa_reason_codes p ≠ [] ∧ Forall (λ c, is_suback_reason_code c = true) (sa_reason_codes p).
Proof using Hbody.
  apply (reads_eval body Hbody 0). repeat reads_step.
  cbn [sa_packet_id sa_reason_codes]. split_and!; [done|lia| |by apply find_invalid].
  by eapply bool_decide_eq_false.
Qed.

Lemma UnsubAckPacket_decode_reads :
  returns (UnsubAckPacket_decode body) ∧
  ∀ p, UnsubAckPacket_decode body = Ok p →
    (is_u16 (ua_packet_id p) ∧ ua_packet_id p ≠ 0)
    ∧ ua_reason_codes p ≠ []
    ∧ Forall (λ c, is_unsuback_reason_code c = true) (ua_reason_codes p).
Proof using Hbody.
  apply (reads_eval body Hbody 0). repeat reads_step.
  cbn [ua_packet_id ua_reason_codes]. split_and!; [done|lia| |by apply find_invalid].
  by eapply bool_decide_eq_false.
Qed.

(** A decoded PUBLISH: a concrete topic name, a packet identifier exactly at QoS 1
    and then non-zero, properties allowed in a PUBLISH. *)
Definition publish_sound (p : PublishPacket) : Prop :=
  (validate_topic_name (pub_topic p) = Ok () ∧ string_ok (pub_topic p))
  ∧ match pub_qos p, pub_packet_id p with
    | AtMostOnce, None => True
    | AtLeastOnce, Some id => id ≠ 0 ∧ is_u16 id
    | _, _ => False
    end
  ∧ props_ok (Some CtxPublish) (pub_properties p) ∧ bytes_ok (pub_payload p).

Lemma PublishPacket_decode_reads flags :
  returns (PublishPacket_decode flags body) ∧
  ∀ p, PublishPacket_decode flags body = Ok p → publish_sound p.
Proof using Hbody.
  apply (reads_eval body Hbody 0). repeat reads_step.
  all: destruct a as [|], a1 as []; try discriminate; split_and!; cbn; try done.
  split; [lia|done].
Qed.

(** [Packet::decode] returns, whatever the header and the bytes. *)
Lemma Packet_decode_total header : returns (Packet_decode header body).
Proof using Hbody.
  unfold Packet_decode. pose proof (validate_fixed_header_returns header).
  destruct (validate_fixed_header header) as [[]| | |]; try done. cbn [rbind].
  destruct (negb _); [done|].
  pose proof (proj1 ConnAckPacket_decode_reads).
  pose proof (proj1 (PublishPacket_decode_reads (fh_flags header))).
  pose proof (proj1 PubAckPacket_decode_reads). pose proof (proj1 SubAckPacket_decode_reads).
  pose proof (proj1 UnsubAckPacket_decode_reads). pose proof (proj1 DisconnectPacket_decode_reads).
  destruct (fh_packet_type header); try done; try (by case_match).
  all: match goal with |- returns (rbind ?r _) => by destruct r end.
Qed.
End decoding.

(** ** Encode, frame, decode *)

(** The receiver's view of a byte string: its fixed header, then its body. *)
Definition decode_packet (w : list Z) : Result Packet :=
  let? '(h, n) := decode_fixed_header w in Packet_decode h (zdrop n w).

Lemma decode_packet_frame t flags body :
  header_ok t flags → zlen body ≤ VARIABLE_INT_MAX →
  decode_packet (header_bytes t flags (zlen body) ++ body)
    = Packet_decode (mkFixedHeader t flags (zlen body)) body.
Proof.
  intros Hh Hl. unfold decode_packet. pose proof (zlen_nonneg body).
  rewrite decode_fixed_header_ok by (try done; lia). cbn [rbind].
  rewrite <- (header_bytes_len t flags) by lia. by rewrite zdrop_app_exact.
Qed.

Lemma Packet_decode_publish p :
  publish_ok p →
  Packet_decode (mkFixedHeader Types.Publish (publish_flags p) (zlen (publish_body p)))
    (publish_body p) = Ok (PktPublish p).
Proof.
  intros Hok. unfold Packet_decode. cbn [fh_remaining_length fh_packet_type fh_flags].
  pose proof (proj2 (publish_flags_ok p) (po_dup p Hok)) as [_ Hv]. rewrite Hv. cbn [rbind].
  rewrite Z.eqb_refl. cbn [negb]. by rewrite PublishPacket_decode_ok.
Qed.

(** C26. PUBLISH round trip: whatever [PublishPacket::encode] produces (for a body below
    4 GiB) is one frame that [decode_fixed_header] and [Packet::decode] turn back into
    the same packet: topic, identifier, payload, QoS, retain, dup and properties. *)
Theorem publish_roundtrip p w :
  publish_typed p → zlen (publish_body p) < 4294967296 → PublishPacket_encode p = Ok w →
  ∃ h, decode_fixed_header w = Ok (h, zlen w - zlen (publish_body p))
       ∧ fh_remaining_length h = zlen (publish_body p)
       ∧ decode_packet w = Ok (PktPublish p).
Proof.
  intros Ht Hl He. pose proof (PublishPacket_encode_inv p w Ht Hl He) as Hok.
  rewrite PublishPacket_encode_ok in He by done. apply Ok_inj in He. subst w.
  pose proof (proj2 (publish_flags_ok p) (po_dup p Hok)) as Hh.
  pose proof (po_len p Hok) as Hlen. pose proof (zlen_nonneg (publish_body p)).
  exists (mkFixedHeader Types.Publish (publish_flags p) (zlen (publish_body p))). split_and!.
  - rewrite decode_fixed_header_ok by (try done; lia).
    do 2 f_equal. rewrite zlen_app, header_bytes_len by lia. lia.
  - done.
  - rewrite decode_packet_frame by done. by apply Packet_decode_publish.
Qed.

Definition example_publish : PublishPacket :=
  mkPublishPacket (lit "a/b") (Some 42) (lit "data") AtLeastOnce true true example_props.

Lemma publish_roundtrip_witness :
  ∃ w, PublishPacket_encode example_publish = Ok w ∧
  ∃ h, decode_fixed_header w = Ok (h, zlen w - zlen (publish_body example_publish))
       ∧ fh_remaining_length h = zlen (publish_body example_publish)
       ∧ decode_packet w = Ok (PktPublish example_publish).
Proof.
  eexists. split; [vm_compute; reflexivity|].
  apply publish_roundtrip; [|vm_compute; reflexivity|vm_compute; reflexivity].
  split_and!; [vm_compute; reflexivity|repeat constructor; unfold is_u8; lia| |
               cbn; unfold is_u16; lia].
  repeat constructor; unfold is_u8; lia.
Defined.

(** C24. Decoding is total on untrusted input: for every byte string the fixed-header
    decoder returns, and for every header and body [Packet::decode] returns; no index
    is out of range, no [u32] operation overflows and every loop ends. *)
Theorem decode_total header data :
  bytes_ok data →
  returns (decode_fixed_header data) ∧ returns (Packet_decode header data)
  ∧ returns (decode_packet data).
Proof.
  intros Hb. pose proof (decode_fixed_header_returns data Hb) as Hh.
  split_and!; [done|by apply Packet_decode_total|].
  unfold decode_packet. destruct (decode_fixed_header data) as [[h n]| | |]; try done.
  by apply Packet_decode_total, Forall_drop.
Qed.

Lemma decode_total_witness :
  returns (decode_fixed_header [0x82; 0xFF; 0xFF; 0xFF; 0xFF])
  ∧ returns (Packet_decode (mkFixedHeader PubAck 0 5) [0x82; 0xFF; 0xFF; 0xFF; 0xFF])
  ∧ returns (decode_packet [0x82; 0xFF; 0xFF; 0xFF; 0xFF]).
Proof. apply decode_total. repeat constructor; unfold is_u8; lia. Defined.

(** What a decoded packet guarantees its consumer. *)
Definition packet_sound (p : Packet) : Prop :=
  match p with
  | PktPublish p => publish_sound p
  | PktPubAck p => (is_u16 (pa_packet_id p) ∧ pa_packet_id p ≠ 0)
                   ∧ is_puback_reason_code (pa_reason_code p) = true
  | PktSubAck p => (is_u16 (sa_packet_id p) ∧ sa_packet_id p ≠ 0) ∧ sa_reason_codes p ≠ []
                   ∧ Forall (λ c, is_suback_reason_code c = true) (sa_reason_codes p)
  | PktUnsubAck p => (is_u16 (ua_packet_id p) ∧ ua_packet_id p ≠ 0) ∧ ua_reason_codes p ≠ []
                   ∧ Forall (λ c, is_unsuback_reason_code c = true) (ua_reason_codes p)
  | PktConnAck p => props_ok (Some CtxConnAck) (ca_properties p)
                    ∧ is_connack_reason_code (ca_reason_code p) = true
                    ∧ (ca_session_present p = true → ca_reason_code p = 0)
  | PktDisconnect p => is_disconnect_reason_code (dis_reason_code p) = true
  | PktPingReq | PktPingResp => True
  | PktConnect _ | PktSubscribe _ | PktUnsubscribe _ => False
  end.

Lemma Packet_decode_sound header body p :
  bytes_ok body → Packet_decode header body = Ok p → packet_sound p.
Proof.
  intros Hb H. unfold Packet_decode in H.
  destruct (validate_fixed_header header) as [[]| | |]; try discriminate. cbn [rbind] in H.
  destruct (negb _); [discriminate|].
  pose proof (proj2 (ConnAckPacket_decode_reads body Hb)).
  pose proof (proj2 (PublishPacket_decode_reads body Hb (fh_flags header))).
  pose proof (proj2 (PubAckPacket_decode_reads body Hb)).
  pose proof (proj2 (SubAckPacket_decode_reads body Hb)).
  pose proof (proj2 (UnsubAckPacket_decode_reads body Hb)).
  pose proof (proj2 (DisconnectPacket_decode_reads body Hb)).
  destruct (fh_packet_type header); try discriminate.
  all: try (destruct (bool_decide (body = [])) eqn:He; [|discriminate];
            by injection H as <-).
  all: match type of H with rbind ?r _ = _ =>
         destruct r eqn:Hr; try discriminate; injection H as <- end; cbn [packet_sound]; auto.
Qed.

(** C33. What a decoded packet guarantees its consumer: an accepted PUBLISH has a
    concrete, non-empty topic name and a non-zero packet identifier exactly at QoS 1;
    an acknowledgement has a non-zero identifier and defined reason codes, at least one
    for SUBACK and UNSUBACK; a refused CONNACK never resumes a session; packets only
    clients send are never accepted. *)
Theorem decoded_packet_sound header body p :
  bytes_ok body → Packet_decode header body = Ok p → packet_sound p.
Proof. apply Packet_decode_sound. Qed.

Lemma decoded_packet_sound_witness :
  ∃ p, Packet_decode (mkFixedHeader SubAck 0 5) [0; 1; 0; 0; 1] = Ok (PktSubAck p) ∧
       (is_u16 (sa_packet_id p) ∧ sa_packet_id p ≠ 0) ∧ sa_reason_codes p ≠ []
       ∧ Forall (λ c, is_suback_reason_code c = true) (sa_reason_codes p).
Proof.
  eexists. split; [vm_compute; reflexivity|].
  apply (decoded_packet_sound (mkFixedHeader SubAck 0 5) [0; 1; 0; 0; 1] (PktSubAck _)).
  - repeat constructor; unfold is_u8; lia.
  - vm_compute. reflexivity.
Defined.

(** The [unreachable!] of [ServerCapabilities::from_connack] is unreachable: decoding
    has already restricted Maximum QoS to 0 and 1. *)
Lemma get_byte_valid ctx p id b :
  props_ok ctx p → get_byte p id = Some b → validate_property id (Byte b) = Ok () ∧ is_u8 b.
Proof.
  intros [Hok _]. unfold get_byte. induction Hok as [|[id' v] l (_ & Hv & Ho) _ IH]; [done|].
  cbn [find_map_entry]. destruct (decide (id' = id)) as [->|]; [|done].
  destruct v; try done. by intros [= <-].
Qed.

Lemma from_connack_returns c :
  props_ok (Some CtxConnAck) (ca_properties c) → ∃ caps, from_connack c = Ok caps.
Proof.
  intros Hp. unfold from_connack. destruct (get_byte (ca_properties c) MaximumQoS) as [b|] eqn:Hb;
    [|by eexists].
  destruct (get_byte_valid _ _ _ _ Hp Hb) as [Hv Hu]. cbn in Hv. unfold is_u8 in Hu.
  destruct (1 <? b) eqn:Hlt; [done|]. apply Z.ltb_ge in Hlt.
  assert (b = 0 ∨ b = 1) as [-> | ->] by lia; by eexists.
Qed.
