(* ===== verification/Writers.v ===== *)
(** * What every encoder does to its buffer

    A writer appends to the buffer, panics on no input and ends; the packets it builds
    have a minimum size. *)

From S2P Require Import Prelude Errors Utf8 Str Types Decode Encode Topic Properties.
From S2P Require Import PropertiesFacts Packets.
From S2P Require Import Connect Publish Subscribe Ping CodecFacts.

Local Open Scope Z_scope.

(** [writes k m]: [m] returns; when it succeeds it has appended at least [k] bytes. *)
Definition writes (k : Z) {A} (m : BufM A) : Prop :=
  ∀ buf, outcome m (λ _ buf', ∃ w, buf' = buf ++ w ∧ k ≤ zlen w) (λ _ _, True) buf
         ∧ returns (m buf).1.

Lemma writes_intro {A} k (m : BufM A) :
  (∀ buf, match m buf with
          | (Ok _, buf') => ∃ w, buf' = buf ++ w ∧ k ≤ zlen w
          | (Err _, _) => True
          | _ => False
          end) → writes k m.
Proof.
  intros H buf. specialize (H buf). unfold outcome. by destruct (m buf) as [[] ?].
Qed.

Lemma writes_inv {A} k (m : BufM A) buf :
  writes k m →
  match m buf with
  | (Ok _, buf') => ∃ w, buf' = buf ++ w ∧ k ≤ zlen w
  | (Err _, _) => True
  | _ => False
  end.
Proof. intros H. destruct (H buf) as [H1 H2]. unfold outcome in H1. by destruct (m buf) as [[] ?]. Qed.

Lemma writes_bind {A B} k1 k2 k (m : BufM A) (f : A → BufM B) :
  writes k1 m → (∀ a, writes k2 (f a)) → k ≤ k1 + k2 → writes k (bind m f).
Proof.
  intros Hm Hf Hk. apply writes_intro. intros buf. unfold bind. pose proof (writes_inv _ _ buf Hm) as H.
  destruct (m buf) as [[a|e|p|] buf1]; try done. destruct H as (w1 & -> & H1).
  pose proof (writes_inv _ _ (buf ++ w1) (Hf a)) as H.
  destruct (f a (buf ++ w1)) as [[b|e|p|] buf2]; try done. destruct H as (w2 & -> & H2).
  exists (w1 ++ w2). rewrite app_assoc, zlen_app. split; [done|lia].
Qed.

Lemma writes_weaken {A} k k' (m : BufM A) : writes k m → k' ≤ k → writes k' m.
Proof.
  intros H Hk. apply writes_intro. intros buf. pose proof (writes_inv _ _ buf H) as Hi.
  destruct (m buf) as [[] ?]; try done. destruct Hi as (w & ? & ?). exists w. split; [done|lia].
Qed.

Lemma writes_ret {A} (a : A) : writes 0 (ret a).
Proof. apply writes_intro. intros buf. cbn. exists []. by rewrite app_nil_r. Qed.

Lemma writes_lift {A} (r : Result A) : returns r → writes 0 (lift r).
Proof.
  intros. apply writes_intro. intros buf. cbn. destruct r; try done. exists []. by rewrite app_nil_r.
Qed.

Lemma writes_fail_if b e : writes 0 (fail_if b e).
Proof. destruct b; [by apply writes_intro|apply writes_ret]. Qed.

Lemma writes_push b : writes 1 (push b).
Proof. apply writes_intro. intros buf. cbn. by exists [b]. Qed.

Lemma writes_extend w : writes (zlen w) (extend_from_slice w).
Proof. apply writes_intro. intros buf. cbn. by exists w. Qed.

Lemma writes_u16 v : writes 2 (encode_u16 v).
Proof. apply (writes_extend (u16_to_be v)). Qed.

Lemma varint_bytes_pos v : 1 ≤ zlen (varint_bytes v).
Proof.
  unfold varint_bytes. cbn [varint_digits].
  destruct (v <? 128); rewrite zlen_cons; pose proof (zlen_nonneg (A:=Z)); [rewrite zlen_nil; lia|].
  match goal with |- 1 ≤ 1 + zlen ?l => pose proof (zlen_nonneg l); lia end.
Qed.

Lemma writes_varint v : 0 ≤ v → writes 1 (encode_variable_int v).
Proof.
  intros Hv. apply writes_intro. intros buf. destruct (decide (v ≤ VARIABLE_INT_MAX)).
  - rewrite encode_variable_int_ok by lia. exists (varint_bytes v). split; [done|].
    apply varint_bytes_pos.
  - by rewrite encode_variable_int_too_large by lia.
Qed.

Lemma writes_string s : writes 2 (encode_string s).
Proof.
  unfold encode_string. destruct (_ <? _); [by apply writes_intro|].
  destruct (contains 0 s); [by apply writes_intro|].
  eapply writes_bind; [apply writes_extend|intros; apply writes_extend|].
  pose proof (zlen_nonneg s). unfold u16_to_be. rewrite !zlen_cons, zlen_nil. lia.
Qed.

Lemma writes_binary s : writes 2 (encode_binary s).
Proof.
  unfold encode_binary. destruct (_ <? _); [by apply writes_intro|].
  eapply writes_bind; [apply writes_extend|intros; apply writes_extend|].
  pose proof (zlen_nonneg s). unfold u16_to_be. rewrite !zlen_cons, zlen_nil. lia.
Qed.

Lemma writes_value v : writes 0 (encode_value v).
Proof.
  destruct v; cbn.
  - eapply writes_weaken; [apply writes_push|lia].
  - eapply writes_weaken; [apply writes_u16|lia].
  - eapply writes_weaken; [apply writes_extend|apply zlen_nonneg].
  - eapply writes_weaken; [apply writes_string|lia].
  - eapply writes_weaken; [apply writes_binary|lia].
  - eapply writes_bind; [apply writes_string|intros; apply writes_string|lia].
Qed.

Lemma writes_entries ctx before todo : writes 0 (encode_entries ctx before todo).
Proof.
  revert before. induction todo as [|[id v] todo IH]; intros before; cbn [encode_entries];
    [apply writes_ret|].
  eapply (writes_bind 0 0); [apply writes_fail_if|intros _|lia].
  eapply (writes_bind 0 0); [apply writes_lift, validate_property_returns|intros _|lia].
  eapply (writes_bind 0 0); [apply writes_fail_if|intros _|lia].
  eapply (writes_bind 1 0); [apply writes_varint; by destruct id|intros _|lia].
  eapply (writes_bind 0 0); [apply writes_value|intros _; apply IH|lia].
Qed.

Lemma as_u32_range v : 0 ≤ as_u32 v < 4294967296.
Proof. apply Z.mod_pos_bound. lia. Qed.

Lemma writes_props p ctx : writes 1 (encode_for p ctx).
Proof.
  unfold encode_for, encode_inner. eapply (writes_bind 0 1).
  - apply writes_lift. unfold run_on. pose proof (writes_inv _ _ [] (writes_entries (Some ctx) [] (entries p))).
    by destruct (encode_entries _ _ _ _) as [[] ?].
  - intros r. eapply (writes_bind 1 0); [apply writes_varint, as_u32_range|intros _|lia].
    eapply writes_weaken; [apply writes_extend|apply zlen_nonneg].
  - lia.
Qed.

Lemma writes_fixed_header t flags len : 0 ≤ len → writes 2 (encode_fixed_header t flags len).
Proof.
  intros. unfold encode_fixed_header.
  eapply (writes_bind 0 2); [apply writes_fail_if|intros _|lia].
  eapply (writes_bind 0 2); [apply writes_lift, validate_fixed_header_returns|intros _|lia].
  eapply (writes_bind 1 1); [apply writes_push|intros _; by apply writes_varint|lia].
Qed.

(** A packet of at least [k] bytes, or an error. *)
Definition builds (k : Z) (r : Result (list Z)) : Prop :=
  match r with Ok w => k ≤ zlen w | Err _ => True | _ => False end.

Lemma builds_written k (m : BufM ()) : writes k m → builds k (written m).
Proof.
  intros H. unfold written, run_on. pose proof (writes_inv _ _ [] H) as Hi.
  destruct (m []) as [[] ?]; try done. by destruct Hi as (w & -> & ?).
Qed.

Lemma builds_framed t flags k (r : Result (list Z)) :
  builds k r → builds (k + 2) (let? body := r in with_fixed_header t flags body).
Proof.
  destruct r as [body| | |]; try done. cbn [rbind builds]. intros Hk.
  apply builds_written. eapply writes_bind; [apply writes_fixed_header, as_u32_range|intros _; apply writes_extend|].
  lia.
Qed.

Lemma builds_weaken k k' r : builds k r → k' ≤ k → builds k' r.
Proof. destruct r; cbn; intros; lia || done. Qed.

Lemma ConnectPacket_encode_builds p : builds 2 (ConnectPacket_encode p).
Proof.
  unfold ConnectPacket_encode. destruct (negb _); [done|].
  apply (builds_framed _ _ 0). apply builds_written.
  eapply (writes_bind 2 0); [apply writes_string|intros _|lia].
  eapply (writes_bind 1 0); [apply writes_push|intros _|lia].
  eapply (writes_bind 1 0); [apply writes_push|intros _|lia].
  eapply (writes_bind 2 0); [apply writes_u16|intros _|lia].
  eapply (writes_bind 0 0); [|intros _|lia].
  { destruct (_ <=? _); [|apply writes_ret]. eapply writes_weaken; [apply writes_props|lia]. }
  eapply (writes_bind 2 0); [apply writes_string|intros _|lia].
  eapply (writes_bind 0 0); [|intros _|lia].
  { destruct (con_username p); [|apply writes_ret]. eapply writes_weaken; [apply writes_string|lia]. }
  destruct (con_password p); [|apply writes_ret]. eapply writes_weaken; [apply writes_binary|lia].
Qed.

Lemma PublishPacket_encode_builds p : builds 4 (PublishPacket_encode p).
Proof.
  unfold PublishPacket_encode.
  match goal with |- builds _ (rbind ?r _) => destruct r as [[]|e|w|] eqn:Hid end; try done.
  2,3: destruct (pub_qos p), (pub_packet_id p) as [[]|]; discriminate Hid.
  cbn [rbind]. apply (builds_framed _ _ 2). apply builds_written.
  eapply (writes_bind 0 2); [apply writes_lift, validate_topic_name_returns|intros _|lia].
  eapply (writes_bind 2 0); [apply writes_string|intros _|lia].
  eapply (writes_bind 0 0); [|intros _|lia].
  { destruct (pub_packet_id p); [|apply writes_ret]. eapply writes_weaken; [apply writes_u16|lia]. }
  eapply (writes_bind 1 0); [apply writes_props|intros _|lia].
  eapply writes_weaken; [apply writes_extend|apply zlen_nonneg].
Qed.

Lemma writes_sub_filters l : writes 0 (encode_sub_filters l).
Proof.
  induction l as [|[f q] l IH]; cbn [encode_sub_filters]; [apply writes_ret|].
  eapply (writes_bind 0 0); [apply writes_lift, validate_topic_filter_returns|intros _|lia].
  eapply (writes_bind 2 0); [apply writes_string|intros _|lia].
  eapply (writes_bind 1 0); [apply writes_push|intros _; apply IH|lia].
Qed.

Lemma SubscribePacket_encode_builds p : builds 4 (SubscribePacket_encode p).
Proof.
  unfold SubscribePacket_encode. destruct (_ =? _); [done|]. destruct (bool_decide _); [done|].
  apply (builds_framed _ _ 2), builds_written.
  eapply (writes_bind 2 0); [apply writes_u16|intros _|lia].
  eapply (writes_bind 1 0); [apply writes_props|intros _; apply writes_sub_filters|lia].
Qed.

Lemma writes_unsub_filters l : writes 0 (encode_unsub_filters l).
Proof.
  induction l as [|f l IH]; cbn [encode_unsub_filters]; [apply writes_ret|].
  eapply (writes_bind 0 0); [apply writes_lift, validate_topic_filter_returns|intros _|lia].
  eapply (writes_bind 2 0); [apply writes_string|intros _; apply IH|lia].
Qed.

Lemma UnsubscribePacket_encode_builds p : builds 4 (UnsubscribePacket_encode p).
Proof.
  unfold UnsubscribePacket_encode. destruct (_ =? _); [done|]. destruct (bool_decide _); [done|].
  apply (builds_framed _ _ 2), builds_written.
  eapply (writes_bind 2 0); [apply writes_u16|intros _|lia].
  eapply (writes_bind 1 0); [apply writes_props|intros _; apply writes_unsub_filters|lia].
Qed.

(** The acknowledgement a client sends for every QoS 1 PUBLISH. *)
Lemma PubAckPacket_encode_success id :
  id ≠ 0 → ∃ w, PubAckPacket_encode (mkPubAckPacket id 0) = Ok w ∧ zlen w = 4.
Proof.
  intros Hid. unfold PubAckPacket_encode; cbn [pa_packet_id pa_reason_code].
  rewrite (proj2 (Z.eqb_neq id 0)) by done. eexists. split; [reflexivity|done].
Qed.

Lemma DisconnectPacket_encode_normal :
  DisconnectPacket_encode (mkDisconnectPacket 0) = Ok [0xE0; 0].
Proof. reflexivity. Qed.

(** A complete control packet as the client encodes it. *)
Inductive client_frame (w : list Z) : Prop :=
  | cf_connect p : ConnectPacket_encode p = Ok w → client_frame w
  | cf_publish p : PublishPacket_encode p = Ok w → client_frame w
  | cf_puback p : PubAckPacket_encode p = Ok w → client_frame w
  | cf_subscribe p : SubscribePacket_encode p = Ok w → client_frame w
  | cf_unsubscribe p : UnsubscribePacket_encode p = Ok w → client_frame w
  | cf_pingreq : w = PINGREQ_BYTES → client_frame w
  | cf_disconnect p : DisconnectPacket_encode p = Ok w → client_frame w.

Lemma PubAckPacket_encode_builds p : builds 4 (PubAckPacket_encode p).
Proof.
  unfold PubAckPacket_encode. destruct (_ =? _); [done|]. destruct (negb _); [done|].
  apply builds_written. destruct (_ =? _).
  - eapply (writes_bind 2 2); [by apply writes_fixed_header|intros _; apply writes_u16|lia].
  - eapply (writes_bind 2 3); [by apply writes_fixed_header|intros _|lia].
    eapply (writes_bind 2 1); [apply writes_u16|intros _; apply writes_push|lia].
Qed.

Lemma DisconnectPacket_encode_builds p : builds 2 (DisconnectPacket_encode p).
Proof.
  unfold DisconnectPacket_encode. destruct (negb _); [done|]. apply builds_written.
  destruct (_ =? _); [by apply writes_fixed_header|].
  eapply (writes_bind 2 1); [by apply writes_fixed_header|intros _; apply writes_push|lia].
Qed.

Lemma builds_ok k r w : builds k r → r = Ok w → k ≤ zlen w.
Proof. by intros H ->. Qed.

Lemma builds_returns k r : builds k r → returns r.
Proof. by destruct r. Qed.

(** Every packet is at least a fixed header. *)
Lemma client_frame_len w : client_frame w → 2 ≤ zlen w.
Proof.
  intros [p H|p H|p H|p H|p H| ->|p H]; [..|done|].
  all: eapply builds_ok; [|exact H].
  - apply ConnectPacket_encode_builds.
  - eapply builds_weaken; [apply PublishPacket_encode_builds|lia].
  - eapply builds_weaken; [apply PubAckPacket_encode_builds|lia].
  - eapply builds_weaken; [apply SubscribePacket_encode_builds|lia].
  - eapply builds_weaken; [apply UnsubscribePacket_encode_builds|lia].
  - apply DisconnectPacket_encode_builds.
Qed.

(** The four bytes of a PUBACK with reason code 0. *)
Definition puback_bytes (i : Z) : list Z := [0x40; 2] ++ u16_to_be i.

Lemma puback_encoded i : i ≠ 0 → PubAckPacket_encode (mkPubAckPacket i 0) = Ok (puback_bytes i).
Proof.
  intros Hi. unfold PubAckPacket_encode; cbn [pa_packet_id pa_reason_code].
  rewrite (proj2 (Z.eqb_neq _ _)) by done. reflexivity.
Qed.

(** ** The checks before a packet is built *)

Lemma validate_publish_returns caps qos retain : returns (validate_publish caps qos retain).
Proof. unfold validate_publish. by repeat case_match. Qed.

Lemma validate_subscription_filter_returns caps f : returns (validate_subscription_filter caps f).
Proof.
  unfold validate_subscription_filter. pose proof (validate_topic_filter_returns f).
  destruct (validate_topic_filter f) as [[]| | |]; try done. cbn. by repeat case_match.
Qed.

Lemma validate_suback_codes_returns l q : returns (validate_suback_codes l q).
Proof.
  unfold validate_suback_codes. destruct (negb _); [done|].
  induction (zip l q) as [|[g r] m IH]; cbn [validate_grants]; [done|].
  destruct (_ <=? _); [done|]. by destruct (_ || _).
Qed.
