(* ===== verification/Frame.v ===== *)
(** * The incremental frame parser (src/src/frame.rs)

    [FrameReader] accumulates bytes from a non-blocking socket and yields complete
    packets. Definitions first, then the abstract view of the byte stream
    ([next_frame]) that the two-state machine implements. *)

From S2P Require Import Prelude Errors Types Decode Encode Packets Publish PacketCodec.
From S2P Require Import CodecFacts.

Local Open Scope Z_scope.

(** [MQTT_MAX_PACKET_SIZE] *)
Definition MQTT_MAX_PACKET_SIZE : Z := 268435460.

Inductive FrameState : Type :=
  | ReadingHeader
  | ReadingBody (header : FixedHeader) (header_len total_len : Z).

Record FrameReader := mkFrameReader {
  fr_buf : list Z;
  fr_state : FrameState;
  fr_max_packet_size : Z;
  fr_overflow_size : option Z;
}.

(** [FrameReader::with_max_packet_size] *)
Definition FrameReader_with_max_packet_size (max : Z) : FrameReader :=
  mkFrameReader [] ReadingHeader max None.

(** [FrameReader::new] *)
Definition FrameReader_new : FrameReader :=
  FrameReader_with_max_packet_size MQTT_MAX_PACKET_SIZE.

(** [FrameReader::remaining_capacity] *)
Definition remaining_capacity (self : FrameReader) : Z :=
  let target :=
    match fr_state self with
    | ReadingHeader => fr_max_packet_size self
    | ReadingBody _ _ total_len => total_len
    end in
  saturating_sub target (zlen (fr_buf self)).

(** [FrameReader::max_packet_size] *)
Definition max_packet_size (self : FrameReader) : Z := fr_max_packet_size self.

Definition fr_extend (data : list Z) (self : FrameReader) : FrameReader :=
  mkFrameReader (fr_buf self ++ data) (fr_state self) (fr_max_packet_size self)
    (fr_overflow_size self).
Definition fr_set_state (s : FrameState) (self : FrameReader) : FrameReader :=
  mkFrameReader (fr_buf self) s (fr_max_packet_size self) (fr_overflow_size self).
Definition fr_set_overflow (n : option Z) (self : FrameReader) : FrameReader :=
  mkFrameReader (fr_buf self) (fr_state self) (fr_max_packet_size self) n.
Definition fr_set_buf (b : list Z) (self : FrameReader) : FrameReader :=
  mkFrameReader b (fr_state self) (fr_max_packet_size self) (fr_overflow_size self).

Abbreviation FrameM A := (M FrameReader A).

(** [FrameReader::push] *)
Definition FrameReader_push (data : list Z) : FrameM unit :=
  let! self := get in
  let available := remaining_capacity self in
  if available <? zlen data then
    let! kept := lift (slice_range data 0 available) in
    let! _ := modify (fr_extend kept) in
    modify (λ self, fr_set_overflow
      (Some (saturating_add (zlen (fr_buf self)) (zlen data - available))) self)
  else modify (fr_extend data).

(** The match arm [Err(Error::MalformedPacket("unexpected end of data"))]. *)
Definition is_end_of_data (e : Error) : bool :=
  match e with
  | MalformedPacket m => String.eqb m "unexpected end of data"
  | _ => false
  end.

(** The [loop] of [FrameReader::try_decode]: at most a header step and a body step. *)
Fixpoint try_decode_loop (fuel : nat) : FrameM (option Packet) :=
  match fuel with
  | O => diverge
  | S fuel' =>
      let! self := get in
      match fr_state self with
      | ReadingHeader =>
          if bool_decide (fr_buf self = []) then ret None else
          match decode_fixed_header (fr_buf self) with
          | Ok (header, header_len) =>
              let! total_len := lift
                (ok_or (checked_add header_len (fh_remaining_length header))
                       (MalformedPacket "packet length overflow")) in
              let! _ := fail_if (fr_max_packet_size self <? total_len)
                          (PacketTooLarge total_len (fr_max_packet_size self)) in
              let! _ := modify (fr_set_state (ReadingBody header header_len total_len)) in
              try_decode_loop fuel'
          | Err e => if is_end_of_data e then ret None else fail e
          | Panic w => panic w
          | Diverge => diverge
          end
      | ReadingBody header header_len total_len =>
          if zlen (fr_buf self) <? total_len then ret None else
          let! body := lift (slice_range (fr_buf self) header_len total_len) in
          let! packet := lift (Packet_decode header body) in
          let! rest := lift (slice_from (fr_buf self) total_len) in
          let! _ := modify (fr_set_buf rest) in
          let! _ := modify (fr_set_state ReadingHeader) in
          ret (Some packet)
      end
  end.

(** [FrameReader::try_decode] *)
Definition try_decode : FrameM (option Packet) :=
  let! self := get in
  match fr_overflow_size self with
  | Some size => fail (PacketTooLarge size (fr_max_packet_size self))
  | None => try_decode_loop 2
  end.

(** ** The stream the reader parses *)

(** The first frame of a byte string: not complete yet, a packet and what follows
    it, or the error that ends the stream. *)
Definition next_frame (max : Z) (buf : list Z) : Result (option (Packet * list Z)) :=
  match decode_fixed_header buf with
  | Ok (header, n) =>
      let total := n + fh_remaining_length header in
      if max <? total then Err (PacketTooLarge total max)
      else if zlen buf <? total then Ok None
      else let? p := Packet_decode header (ztake (fh_remaining_length header) (zdrop n buf)) in
           Ok (Some (p, zdrop total buf))
  | Err e => if is_end_of_data e then Ok None else Err e
  | Panic w => Panic w
  | Diverge => Diverge
  end.

(** [parses max buf ps rest]: [buf] holds the frames of [ps], then the bytes [rest]
    of an incomplete frame. *)
Inductive parses (max : Z) : list Z → list Packet → list Z → Prop :=
  | parses_end buf : next_frame max buf = Ok None → parses max buf [] buf
  | parses_frame buf p rest ps last :
      next_frame max buf = Ok (Some (p, rest)) → parses max rest ps last →
      parses max buf (p :: ps) last.

(** The caller's loop: [while let Some(packet) = reader.try_decode()?]. *)
Fixpoint drain (fuel : nat) : FrameM (list Packet) :=
  match fuel with
  | O => diverge
  | S fuel' =>
      let! next := try_decode in
      match next with
      | Some p => let! ps := drain fuel' in ret (p :: ps)
      | None => ret []
      end
  end.

(** A socket reader: for each read of at most [n] bytes (never more than
    [remaining_capacity], as the clients read), push what [stream] delivers and
    drain the complete packets. Returns them with the bytes not yet read. *)
Fixpoint pump (sizes : list Z) (stream : list Z) : FrameM (list Packet * list Z) :=
  match sizes with
  | [] => ret ([], stream)
  | n :: sizes' =>
      let! self := get in
      let k := Z.min (Z.min n (remaining_capacity self)) (zlen stream) in
      let! _ := FrameReader_push (ztake k stream) in
      let! self := get in
      let! ps := drain (S (length (fr_buf self))) in
      let! '(ps', stream') := pump sizes' (zdrop k stream) in
      ret (ps ++ ps', stream')
  end.

(** ** Invariant of the reader *)

Record reader_ok (r : FrameReader) : Prop := mk_reader_ok {
  ro_bytes : bytes_ok (fr_buf r);
  ro_max : fr_max_packet_size r ≤ usize_max;
  ro_bound : zlen (fr_buf r) ≤ fr_max_packet_size r;
  ro_state : match fr_state r with
             | ReadingHeader => True
             | ReadingBody h n total =>
                 decode_fixed_header (fr_buf r) = Ok (h, n)
                 ∧ total = n + fh_remaining_length h ∧ total ≤ fr_max_packet_size r
             end;
}.

(** ** More bytes never change what was decided *)

Abbreviation end_of_data := (Err (MalformedPacket "unexpected end of data")).

(** A length read from [rest] is the same when more bytes follow, unless the bytes
    ran out; it takes one byte at least. *)
Lemma read_variable_int_loop_prefix fuel value multiplier pre rest :
  varint_state value multiplier → multiplier * 128 ^ Z.of_nat fuel = 128 * 128 * 128 →
  bytes_ok rest →
  (read_variable_int_loop (S fuel) value multiplier (cursor_at pre rest)).1 = end_of_data ∨
  ∃ w rest' r, rest = w ++ rest' ∧ 1 ≤ zlen w ≤ Z.of_nat (S fuel)
    ∧ ∀ more, read_variable_int_loop (S fuel) value multiplier (cursor_at pre (w ++ more))
              = (r, cursor_at (pre ++ w) more).
Proof.
  revert value multiplier pre rest.
  induction fuel as [|fuel IH]; intros value multiplier pre rest Hs Hw Hb;
    (destruct rest as [|b rest];
     [cbn [read_variable_int_loop]; erewrite bind_err by apply read_u8_nil; by left|]);
    split_bytes_ok; rewrite read_variable_int_loop_at by done;
    destruct (b <? 128) eqn:Hlt.
  1,3: right; exists [b], rest, (Ok (value + b mod 128 * multiplier));
    (split; [done|split; [unfold zlen; cbn [length]; lia|]]); intros more;
    cbn [app]; rewrite read_variable_int_loop_at by done; by rewrite Hlt.
  - rewrite (proj2 (Z.ltb_lt _ _)) by lia. right.
    exists [b], rest, (Err (MalformedPacket "variable int too long")). split_and!; try done.
    intros more. cbn [app]. rewrite read_variable_int_loop_at, Hlt by done.
    by rewrite (proj2 (Z.ltb_lt _ _)) by lia.
  - pose proof (Z.pow_pos_nonneg 128 (Z.of_nat fuel)).
    rewrite Nat2Z.inj_succ, Z.pow_succ_r in Hw by lia. pose proof Hs as [? ?].
    rewrite (proj2 (Z.ltb_ge _ _)) by nia. pose proof (Z.mod_pos_bound b 128).
    destruct (IH (value + b mod 128 * multiplier) (multiplier * 128) (pre ++ [b]) rest)
      as [?|(w & rest' & r & -> & Hw' & Hm)]; [split; nia|lia|done|by left|].
    right. exists (b :: w), rest', r. split_and!; [done|rewrite zlen_cons; lia..|].
    intros more. cbn [app]. rewrite read_variable_int_loop_at, Hlt by done.
    rewrite (proj2 (Z.ltb_ge _ _)) by nia. by rewrite Hm, <- app_assoc.
Qed.

(** The bytes [w] that decide the header: none is looked at after them. *)
Lemma decode_fixed_header_prefix data :
  bytes_ok data →
  decode_fixed_header data = end_of_data ∨
  ∃ w rest, data = w ++ rest ∧ zlen w ≤ 5
    ∧ (∀ more, decode_fixed_header (w ++ more) = decode_fixed_header data)
    ∧ ∀ h n, decode_fixed_header data = Ok (h, n) →
             n = zlen w ∧ 2 ≤ n ∧ 0 ≤ fh_remaining_length h ≤ 268435455.
Proof.
  intros Hb. unfold decode_fixed_header, eval_on. rewrite cursor_new_at.
  destruct data as [|b data]; [left; by erewrite bind_err by apply read_u8_nil|].
  pose proof (λ v c, reads_inv (b :: data) 1 read_variable_int _ 0 (cursor_at [b] data) v c
                (read_variable_int_reads (b :: data) Hb)) as Hr.
  erewrite (bind_ok read_u8) by apply read_u8_at. split_bytes_ok.
  destruct (PacketType_from_u8 (Z.shiftr b 4)) as [t|e|w|] eqn:Ht;
    try (right; exists [b], data; split_and!; try done; intros; cbn [app];
         rewrite cursor_new_at; erewrite (bind_ok read_u8) by apply read_u8_at; by rewrite Ht).
  erewrite (bind_ok (lift (Ok t))) by reflexivity. cbv zeta.
  destruct (read_variable_int_loop_prefix 3 0 1 ([] ++ [b]) data)
    as [Hx|(w & rest & r & -> & Hw & Hm)]; [done..| |].
  { left. unfold bind at 1. unfold read_variable_int.
    by destruct (read_variable_int_loop 4 0 1 (cursor_at ([] ++ [b]) data)) as [[]]; cbn in Hx; simplify_eq. }
  right. exists (b :: w), rest. rewrite zlen_cons. split; [done|]. split; [lia|].
  assert (∀ A (k : Z → CurM A) more, bind read_variable_int k (cursor_at ([] ++ [b]) (w ++ more))
    = bind (lift r) k (cursor_at (([] ++ [b]) ++ w) more)) as Hbind.
  { intros. unfold bind, read_variable_int. rewrite Hm. by destruct r. }
  rewrite Hbind. split.
  - intros more. cbn [app]. rewrite cursor_new_at.
    erewrite (bind_ok read_u8) by apply read_u8_at. rewrite Ht.
    erewrite (bind_ok (lift (Ok t))) by reflexivity. cbv zeta. rewrite Hbind.
    destruct r as [len| | |]; try done.
    do 2 erewrite (bind_ok (lift (Ok len))) by reflexivity.
    by destruct (validate_fixed_header _) as [[]| | |].
  - intros h n. destruct r as [len| | |]; try done.
    erewrite (bind_ok (lift (Ok len))) by reflexivity.
    destruct (validate_fixed_header _) as [[]| | |]; try done.
    intros [= <- <-]. cbn [fh_remaining_length app]. rewrite zlen_cons.
    destruct (Hr len (cursor_at ([b] ++ w) rest)) as (Hlen & _ & _); [|apply Hm|lia].
    apply cursor_inv_intro; [by constructor|done|]. unfold zlen; cbn; lia.
Qed.

Lemma decode_fixed_header_ext data more :
  bytes_ok data →
  decode_fixed_header data = end_of_data ∨
  decode_fixed_header (data ++ more) = decode_fixed_header data ∧
  ∀ h n, decode_fixed_header data = Ok (h, n) →
         2 ≤ n ≤ Z.min 5 (zlen data) ∧ 0 ≤ fh_remaining_length h ≤ 268435455.
Proof.
  intros Hb. destruct (decode_fixed_header_prefix data Hb)
    as [?|(w & rest & -> & Hw & Hm & Hn)]; [by left|right].
  rewrite <- app_assoc, Hm. split; [done|]. intros h n H.
  destruct (Hn h n H) as (-> & ? & ?). rewrite zlen_app. pose proof (zlen_nonneg rest). lia.
Qed.

(** A header that became decodable ends past the bytes that did not suffice. *)
Lemma decode_fixed_header_late data more h n :
  bytes_ok (data ++ more) → decode_fixed_header data = end_of_data →
  decode_fixed_header (data ++ more) = Ok (h, n) →
  zlen data < n ∧ 0 ≤ fh_remaining_length h.
Proof.
  intros Hb He Ho. destruct (decode_fixed_header_prefix _ Hb)
    as [?|(w & rest & Heq & Hw & Hm & Hn)]; [congruence|].
  destruct (Hn h n Ho) as (-> & ? & ?). split; [|lia].
  destruct (decide (zlen data < zlen w)) as [|Hge]; [done|]. exfalso.
  apply app_eq_inv in Heq as [(k & -> & _)|(k & -> & _)].
  - specialize (Hm k). congruence.
  - destruct k as [|x k]; [|rewrite zlen_app, zlen_cons in Hge; pose proof (zlen_nonneg k); lia].
    rewrite app_nil_r in *. specialize (Hm []). rewrite app_nil_r in Hm. congruence.
Qed.

Lemma next_frame_ext max data more :
  bytes_ok data → next_frame max data ≠ Ok None →
  next_frame max (data ++ more) =
    match next_frame max data with
    | Ok (Some (p, rest)) => Ok (Some (p, rest ++ more))
    | r => r
    end.
Proof.
  intros Hb. unfold next_frame.
  destruct (decode_fixed_header_ext data more Hb) as [->|[-> Hn]]; [done|].
  destruct (decode_fixed_header data) as [[h n]|e|w|].
  - destruct (Hn h n eq_refl) as [? ?]. destruct (max <? _); [done|].
    destruct (zlen data <? n + fh_remaining_length h) eqn:Hl; [done|]. intros _.
    apply Z.ltb_ge in Hl. rewrite (proj2 (Z.ltb_ge _ _))
      by (rewrite zlen_app; pose proof (zlen_nonneg more); lia).
    unfold ztake, zdrop, zlen in *. rewrite (drop_app_le _ _ (Z.to_nat n)) by lia.
    rewrite take_app_le by (rewrite length_drop; lia). rewrite drop_app_le by lia.
    by destruct (Packet_decode _ _).
  - by destruct (is_end_of_data e).
  - done.
  - done.
Qed.

(** The bytes of the first frame, alone, are that frame. *)
Lemma next_frame_split max buf p rest :
  bytes_ok buf → next_frame max buf = Ok (Some (p, rest)) →
  ∃ w, buf = w ++ rest ∧ next_frame max w = Ok (Some (p, [])).
Proof.
  intros Hb Hn. unfold next_frame in Hn.
  destruct (decode_fixed_header_prefix buf Hb) as [He|(w0 & rest0 & -> & _ & Hm & Hok)].
  { rewrite He in Hn. discriminate Hn. }
  destruct (decode_fixed_header (w0 ++ rest0)) as [[h n]|e|why|] eqn:Hd;
    [|by destruct (is_end_of_data e)|done..].
  destruct (Hok h n eq_refl) as (-> & Hn2 & Hlen). cbv zeta in Hn.
  destruct (max <? zlen w0 + fh_remaining_length h) eqn:Hmax; [done|].
  destruct (zlen (w0 ++ rest0) <? zlen w0 + fh_remaining_length h) eqn:Hz; [done|]. apply Z.ltb_ge in Hz.
  set (total := zlen w0 + fh_remaining_length h) in *. rewrite zlen_app in Hz.
  assert (ztake total (w0 ++ rest0) = w0 ++ ztake (fh_remaining_length h) rest0) as Hw.
  { unfold ztake, total, zlen. rewrite take_app_ge by lia. do 2 f_equal. lia. }
  destruct (Packet_decode _ _) as [q|e|why|] eqn:Hp; try done. cbn in Hn. injection Hn as -> <-.
  exists (ztake total (w0 ++ rest0)). split; [by rewrite ztake_zdrop|]. rewrite Hw.
  unfold next_frame. rewrite Hm. cbv zeta. fold total. rewrite Hmax.
  rewrite zlen_app, zlen_ztake by lia. rewrite (proj2 (Z.ltb_ge _ total)) by (unfold total; lia).
  rewrite zdrop_app_exact in *. rewrite ztake_all_le by (rewrite zlen_ztake; lia).
  rewrite Hp. cbn. do 3 f_equal. unfold zdrop. apply drop_ge. rewrite length_app.
  unfold ztake, total, zlen in *. rewrite length_take. lia.
Qed.

(** [w] is one frame, of the packet [p]. *)
Definition frame_of (max : Z) (p : Packet) (w : list Z) : Prop := next_frame max w = Ok (Some (p, [])).

Lemma length_runs_on fuel value multiplier pre l v c :
  varint_state value multiplier → bytes_ok l → Forall (λ b, 128 ≤ b) l →
  read_variable_int_loop fuel value multiplier (cursor_at pre l) ≠ (Ok v, c).
Proof.
  revert value multiplier pre l. induction fuel as [|fuel IH]; intros value multiplier pre l Hs Hb Hl;
    [done|]. destruct l as [|b l].
  { cbn [read_variable_int_loop]. by erewrite bind_err by apply read_u8_nil. }
  split_bytes_ok. apply Forall_cons_1 in Hl as [Hge Hl].
  rewrite read_variable_int_loop_at by done. rewrite (proj2 (Z.ltb_ge _ _)) by lia.
  destruct (_ <? _) eqn:Hm; [done|]. apply Z.ltb_ge in Hm. pose proof (Z.mod_pos_bound b 128).
  destruct Hs. apply IH; [split; nia|done..].
Qed.

(** Bytes read until one without a continuation bit are a whole header or none. *)
Lemma header_whole first l b h n :
  bytes_ok (first :: l ++ [b]) → Forall (λ b, 128 ≤ b) l →
  decode_fixed_header (first :: l ++ [b]) = Ok (h, n) →
  n = zlen (first :: l ++ [b]) ∧ 0 ≤ fh_remaining_length h.
Proof.
  intros Hb Hl Hd. destruct (decode_fixed_header_prefix _ Hb) as [He|(w & rest & Heq & _ & Hm & Hok)];
    [congruence|]. destruct (Hok h n Hd) as (-> & _ & ?). split; [|lia].
  destruct rest as [|x rest] using rev_ind; [by rewrite Heq, app_nil_r|]. clear IHrest. exfalso.
  rewrite app_assoc in Heq. change (first :: l ++ [b]) with ((first :: l) ++ [b]) in Heq.
  apply app_inj_tail in Heq as [Heq _]. specialize (Hm rest). rewrite <- Heq in Hm.
  change ((first :: l) ++ [b]) with (first :: l ++ [b]) in Hm. rewrite Hd in Hm. revert Hm.
  unfold decode_fixed_header, eval_on. rewrite cursor_new_at. erewrite (bind_ok read_u8) by apply read_u8_at.
  destruct (PacketType_from_u8 _) as [t|e|why|]; try done.
  erewrite (bind_ok (lift (Ok t))) by reflexivity. cbv zeta. unfold bind at 1, read_variable_int.
  assert (bytes_ok l) as Hbl by (by apply Forall_cons_1 in Hb as [_ [? _]%Forall_app]).
  destruct (read_variable_int_loop 4 0 1 (cursor_at ([] ++ [first]) l)) as [[v|e|why|] c] eqn:Hr; try done.
  intros _. by eapply length_runs_on in Hr.
Qed.

(** ** The state machine implements [next_frame] *)

Lemma slice_range_ok (l : list Z) from to :
  0 ≤ from ≤ to → to ≤ zlen l → slice_range l from to = Ok (ztake (to - from) (zdrop from l)).
Proof. intros. unfold slice_range. by rewrite !(proj2 (Z.ltb_ge _ _)) by lia. Qed.

Lemma slice_from_ok (l : list Z) from : from ≤ zlen l → slice_from l from = Ok (zdrop from l).
Proof. intros. unfold slice_from. by rewrite (proj2 (Z.ltb_ge _ _)) by lia. Qed.

(** The error a partial header gives is not an answer yet. *)
Lemma next_frame_header_end max data :
  decode_fixed_header data = end_of_data → next_frame max data = Ok None.
Proof. intros H. unfold next_frame. by rewrite H. Qed.

(** The body step, once the header is known. *)
Lemma try_decode_body fuel r h n :
  reader_ok r → fr_overflow_size r = None →
  fr_state r = ReadingBody h n (n + fh_remaining_length h) →
  let max := fr_max_packet_size r in
  try_decode_loop (S fuel) r =
    match next_frame max (fr_buf r) with
    | Ok (Some (p, rest)) => (Ok (Some p), mkFrameReader rest ReadingHeader max None)
    | Ok None => (Ok None, r)
    | Err e => (Err e, r)
    | Panic w => (Panic w, r)
    | Diverge => (Diverge, r)
    end.
Proof.
  intros [Hb Hm Hl Hs] Ho Hst. cbv zeta. rewrite Hst in Hs. destruct Hs as (Hd & _ & Ht).
  destruct (decode_fixed_header_ext (fr_buf r) [] Hb) as [Hx|[_ Hn]]; [congruence|].
  destruct (Hn h n Hd) as [? ?]. cbn [try_decode_loop].
  erewrite bind_ok by reflexivity. rewrite Hst. unfold next_frame. rewrite Hd.
  rewrite (proj2 (Z.ltb_ge (fr_max_packet_size r) _)) by lia.
  destruct (zlen (fr_buf r) <? n + fh_remaining_length h) eqn:He; [done|].
  apply Z.ltb_ge in He. rewrite slice_range_ok by lia.
  erewrite bind_ok by reflexivity.
  replace (n + fh_remaining_length h - n) with (fh_remaining_length h) by lia.
  destruct (Packet_decode _ _) as [p|e|w|]; try done. cbn [rbind].
  erewrite bind_ok by reflexivity. rewrite slice_from_ok by lia.
  do 3 (erewrite bind_ok by reflexivity). unfold ret, fr_set_state, fr_set_buf; cbn.
  by rewrite Ho.
Qed.

(** [try_decode] as a function of the buffered bytes; the reader it leaves. *)
Definition after_decode (r : FrameReader) : FrameReader :=
  match next_frame (fr_max_packet_size r) (fr_buf r) with
  | Ok (Some (_, rest)) => mkFrameReader rest ReadingHeader (fr_max_packet_size r) None
  | _ =>
      match fr_state r, decode_fixed_header (fr_buf r) with
      | ReadingHeader, Ok (h, n) =>
          if fr_max_packet_size r <? n + fh_remaining_length h then r
          else fr_set_state (ReadingBody h n (n + fh_remaining_length h)) r
      | _, _ => r
      end
  end.

Definition frame_packet (r : option (Packet * list Z)) : option Packet := fst <$> r.

Lemma try_decode_spec r :
  reader_ok r → fr_overflow_size r = None →
  try_decode r =
    (let? o := next_frame (fr_max_packet_size r) (fr_buf r) in Ok (frame_packet o),
     after_decode r).
Proof.
  intros Hr Ho. unfold try_decode. erewrite bind_ok by reflexivity. rewrite Ho.
  pose proof Hr as [Hb Hm Hl Hs]. destruct (fr_state r) as [|h n total] eqn:Hst.
  - remember 1%nat as k eqn:Hk. cbn [try_decode_loop].
    erewrite bind_ok by reflexivity. rewrite Hst. subst k.
    unfold after_decode. rewrite Hst.
    destruct (fr_buf r) as [|b buf] eqn:Hbuf; [done|]. rewrite <- Hbuf in *.
    rewrite bool_decide_eq_false_2 by congruence.
    destruct (decode_fixed_header_ext (fr_buf r) [] Hb) as [Hx|[_ Hn]].
    { by rewrite (next_frame_header_end _ _ Hx), Hx. }
    destruct (decode_fixed_header (fr_buf r)) as [[h n]|e|w|] eqn:Hd.
    + destruct (Hn h n eq_refl) as [? ?]. unfold checked_add.
      rewrite (proj2 (Z.leb_le _ usize_max)) by (unfold usize_max in *; lia).
      erewrite bind_ok by reflexivity.
      destruct (fr_max_packet_size r <? n + fh_remaining_length h) eqn:Hmx.
      { unfold next_frame. rewrite Hd, Hmx. done. }
      erewrite bind_ok by reflexivity. erewrite bind_ok by reflexivity.
      apply Z.ltb_ge in Hmx.
      rewrite (try_decode_body 0 (fr_set_state _ r) h n) by done.
      cbn. by destruct (next_frame _ _) as [[[]|]| | |].
    + unfold next_frame. rewrite Hd. by destruct (is_end_of_data e).
    + unfold next_frame. by rewrite Hd.
    + unfold next_frame. by rewrite Hd.
  - destruct Hs as (Hd & -> & Ht).
    rewrite (try_decode_body 1 r h n) by done. unfold after_decode. rewrite Hst.
    by destruct (next_frame _ _) as [[[]|]| | |].
Qed.

Lemma Packet_frame_rest_ok max buf p rest :
  bytes_ok buf → next_frame max buf = Ok (Some (p, rest)) →
  bytes_ok rest ∧ zlen rest + 2 ≤ zlen buf.
Proof.
  intros Hb H. unfold next_frame in H.
  destruct (decode_fixed_header_ext buf [] Hb) as [Hx|[_ Hn]]; [by rewrite Hx in H|].
  destruct (decode_fixed_header buf) as [[h n]|e|w|]; [|by destruct (is_end_of_data e)|done..].
  destruct (Hn h n eq_refl) as [? ?]. destruct (max <? _); [done|].
  destruct (zlen buf <? n + fh_remaining_length h) eqn:Hl; [done|]. apply Z.ltb_ge in Hl.
  destruct (Packet_decode _ _) as [q| | |]; try done. injection H as <- <-.
  split; [by apply Forall_drop|]. rewrite zlen_zdrop by lia. lia.
Qed.

Lemma next_frame_sound max buf p rest :
  bytes_ok buf → next_frame max buf = Ok (Some (p, rest)) → packet_sound p.
Proof.
  intros Hb H. unfold next_frame in H.
  destruct (decode_fixed_header buf) as [[h n]|e|w|]; try done; [|by destruct (is_end_of_data e)].
  destruct (max <? _); [done|]. destruct (_ <? _); [done|].
  destruct (Packet_decode _ _) as [q| | |] eqn:Hd; try done. injection H as <- _.
  eapply Packet_decode_sound; [|exact Hd]. by apply Forall_take, Forall_drop.
Qed.

Lemma after_decode_ok r : reader_ok r → reader_ok (after_decode r).
Proof.
  intros Hr. pose proof Hr as [Hb Hm Hl Hs]. unfold after_decode.
  assert (Hcont : reader_ok (match fr_state r, decode_fixed_header (fr_buf r) with
    | ReadingHeader, Ok (h, n) =>
        if fr_max_packet_size r <? n + fh_remaining_length h then r
        else fr_set_state (ReadingBody h n (n + fh_remaining_length h)) r
    | _, _ => r end)).
  { destruct (fr_state r); [|done].
    destruct (decode_fixed_header (fr_buf r)) as [[h n]| | |] eqn:Hd; try done.
    destruct (_ <? _) eqn:Hmx; [done|]. apply Z.ltb_ge in Hmx. by constructor. }
  destruct (next_frame _ _) as [[[p rest]|]| | |] eqn:Hn; try done.
  apply Packet_frame_rest_ok in Hn as [? ?]; [|done].
  constructor; cbn; try done. lia.
Qed.

Lemma FrameReader_push_spec data r :
  reader_ok r → bytes_ok data →
  ∃ r', FrameReader_push data r = (Ok (), r') ∧ reader_ok r'
        ∧ fr_max_packet_size r' = fr_max_packet_size r
        ∧ if remaining_capacity r <? zlen data
          then fr_overflow_size r' ≠ None
          else r' = fr_extend data r.
Proof.
  intros Hr Hd. pose proof Hr as [Hb Hm Hl Hs].
  assert (Hext : ∀ d s, bytes_ok d → zlen d ≤ remaining_capacity r →
    reader_ok (mkFrameReader (fr_buf r ++ d) (fr_state r) (fr_max_packet_size r) s)).
  { intros d s Hdb Hdl. constructor; cbn.
    - by apply Forall_app_2.
    - done.
    - rewrite zlen_app. unfold remaining_capacity, saturating_sub in Hdl.
      destruct (fr_state r); lia.
    - destruct (fr_state r) as [|h n total]; [done|]. destruct Hs as (Hh & ? & ?).
      split; [|done]. destruct (decode_fixed_header_ext (fr_buf r) d Hb) as [Hx|[-> _]]; congruence. }
  unfold FrameReader_push. erewrite bind_ok by reflexivity.
  destruct (remaining_capacity r <? zlen data) eqn:Hc.
  - apply Z.ltb_lt in Hc. assert (0 ≤ remaining_capacity r) by
      (unfold remaining_capacity, saturating_sub; lia).
    rewrite slice_range_ok by lia. do 2 (erewrite bind_ok by reflexivity).
    eexists. split; [reflexivity|]. split; [|done]. apply Hext.
    + by apply Forall_take.
    + rewrite Z.sub_0_r. change (zdrop 0 data) with data. rewrite zlen_ztake; lia.
  - apply Z.ltb_ge in Hc. eexists. split; [reflexivity|]. split; [|done]. by apply Hext.
Qed.

(** [try_decode] as a step of a client that owns the reader. *)
Lemma next_frame_returns r : reader_ok r → returns (next_frame (fr_max_packet_size r) (fr_buf r)).
Proof.
  intros Hok. unfold next_frame. pose proof (decode_fixed_header_returns _ (ro_bytes r Hok)).
  destruct (decode_fixed_header _) as [[h n]|e| |]; try done; [|by destruct (is_end_of_data e)].
  destruct (_ <? _); [done|]. destruct (_ <? _); [done|].
  assert (bytes_ok (ztake (fh_remaining_length h) (zdrop n (fr_buf r)))) as Hb
    by (apply Forall_take, Forall_drop, Hok).
  pose proof (Packet_decode_total _ Hb h). by destruct (Packet_decode _ _).
Qed.

Record reader_live (max : Z) (r : FrameReader) : Prop := mk_reader_live {
  rl_ok : reader_ok r;
  rl_overflow : fr_overflow_size r = None;
  rl_max : fr_max_packet_size r = max;
}.

Lemma try_decode_live max r :
  reader_live max r →
  outcome try_decode
    (λ o r', reader_live max r' ∧ match o with Some p => packet_sound p | None => True end)
    (λ _ r', reader_live max r') r.
Proof.
  intros [Hr Ho Hm]. unfold outcome. rewrite (try_decode_spec r Hr Ho).
  pose proof (next_frame_returns r Hr) as Hret.
  assert (reader_live max (after_decode r)) as Hl.
  { split; [by apply after_decode_ok|unfold after_decode; by repeat case_match..]. }
  destruct (next_frame _ _) as [[[p rest]|]|e|w|] eqn:Hn; cbn; try done.
  split; [done|]. eapply next_frame_sound; [apply Hr|exact Hn].
Qed.

Lemma push_live max r data :
  reader_live max r → bytes_ok data → zlen data ≤ remaining_capacity r →
  FrameReader_push data r = (Ok (), fr_extend data r) ∧ reader_live max (fr_extend data r).
Proof.
  intros [Hr Ho Hm] Hd Hl. destruct (FrameReader_push_spec data r Hr Hd) as (r' & Hp & Hr' & Hm' & He).
  rewrite (proj2 (Z.ltb_ge _ _)) in He by lia. subst r'. split; [done|]. split; [done|by cbn..].
Qed.

Lemma after_decode_live max r : reader_live max r → reader_live max (after_decode r).
Proof.
  intros Hr. pose proof (try_decode_live max r Hr) as Hd. pose proof Hr as [Hok Ho _].
  unfold outcome in Hd. rewrite (try_decode_spec r Hok Ho) in Hd.
  pose proof (next_frame_returns r Hok). destruct (next_frame _ _); try done; apply Hd.
Qed.

Lemma after_decode_buf r :
  fr_buf (after_decode r) =
    match next_frame (fr_max_packet_size r) (fr_buf r) with
    | Ok (Some (_, rest)) => rest
    | _ => fr_buf r
    end.
Proof. unfold after_decode. by repeat case_match. Qed.

(** A reader with no complete frame has settled. *)
Lemma after_decode_settled r :
  next_frame (fr_max_packet_size r) (fr_buf r) = Ok None →
  fr_buf (after_decode r) = fr_buf r ∧ after_decode (after_decode r) = after_decode r.
Proof.
  intros Hn. split; [by rewrite after_decode_buf, Hn|]. unfold after_decode at 2 3. rewrite Hn.
  destruct (fr_state r) eqn:Hst; [|unfold after_decode; by rewrite Hn, Hst].
  destruct (decode_fixed_header (fr_buf r)) as [[h n]| | |] eqn:Hdh;
    try (unfold after_decode; by rewrite Hn, Hst, Hdh).
  destruct (_ <? _) eqn:Hmx; unfold after_decode; cbn; rewrite ?Hn, ?Hst, ?Hdh, ?Hmx; done.
Qed.

(** ** Draining and pumping *)

Lemma drain_spec max stream last fuel r ps :
  reader_ok r → fr_overflow_size r = None → fr_max_packet_size r = max →
  (length (fr_buf r) < fuel)%nat →
  parses max (fr_buf r ++ stream) ps last →
  ∃ ps1 ps2 r', drain fuel r = (Ok ps1, r') ∧ ps = ps1 ++ ps2
    ∧ parses max (fr_buf r' ++ stream) ps2 last
    ∧ next_frame max (fr_buf r') = Ok None ∧ after_decode r' = r'
    ∧ reader_ok r' ∧ fr_overflow_size r' = None ∧ fr_max_packet_size r' = max.
Proof.
  revert r ps. induction fuel as [|fuel IH]; intros r ps Hr Ho Hm Hf Hp; [lia|].
  pose proof (try_decode_spec r Hr Ho) as Hd. rewrite Hm in Hd.
  pose proof (after_decode_ok r Hr) as Ha. cbn [drain].
  destruct (next_frame max (fr_buf r)) as [[[p rest]|]|e|w|] eqn:Hn.
  2: { exists [], ps, (after_decode r). erewrite bind_ok by exact Hd.
       destruct (after_decode_live max r) as [? ? ?]; [done|].
       destruct (after_decode_settled r) as [Hb ?]; [by rewrite Hm|].
       rewrite Hb. by split_and!. }
  all: assert (Hb : bytes_ok (fr_buf r)) by apply Hr.
  all: pose proof (next_frame_ext max (fr_buf r) stream Hb) as Hx; rewrite Hn in Hx;
    specialize (Hx ltac:(discriminate)).
  all: destruct Hp as [? Hq|? q rest' ps last Hq Hp]; rewrite Hx in Hq; try discriminate Hq.
  injection Hq as <- <-.
  destruct (Packet_frame_rest_ok _ _ _ _ Hb Hn) as [Hrb Hrl].
  assert (after_decode r = mkFrameReader rest ReadingHeader max None) as Hr'
    by (unfold after_decode; by rewrite Hm, Hn).
  rewrite Hr' in *. erewrite bind_ok by exact Hd. cbn [frame_packet fmap option_fmap option_map fst].
  destruct (IH (mkFrameReader rest ReadingHeader max None) ps) as (ps1 & ps2 & r' & Hdr & -> & ?);
    try done.
  { unfold zlen in Hrl. cbn. lia. }
  exists (p :: ps1), ps2, r'. by erewrite bind_ok by exact Hdr.
Qed.

Lemma parses_inv max buf ps last :
  parses max buf ps last →
  (ps = [] ∧ last = buf) ∨
  ∃ p rest ps', ps = p :: ps' ∧ next_frame max buf = Ok (Some (p, rest)) ∧ parses max rest ps' last.
Proof. destruct 1; [by left|right; eauto 6]. Qed.

(** A drained reader with no room left has reached the end of what it can parse. *)
Lemma drained_full max stream last r ps :
  reader_ok r → fr_max_packet_size r = max → after_decode r = r → bytes_ok stream →
  next_frame max (fr_buf r) = Ok None → remaining_capacity r = 0 →
  parses max (fr_buf r ++ stream) ps last → ps = [] ∧ last = fr_buf r ++ stream.
Proof.
  intros Hr Hm Ha Hsb Hn Hc Hp. pose proof Hr as [Hb _ Hl Hs].
  assert (Hbs : bytes_ok (fr_buf r ++ stream)) by by apply Forall_app_2.
  unfold remaining_capacity, saturating_sub in Hc. unfold after_decode in Ha.
  rewrite Hm, Hn in Ha. unfold next_frame in Hn.
  destruct (fr_state r) as [|h n total] eqn:Hst.
  - destruct (decode_fixed_header (fr_buf r)) as [[h n]|e|w|] eqn:Hd; try done.
    + destruct (max <? _) eqn:Hmx; [done|]. exfalso. rewrite <- Ha in Hst. discriminate.
    + destruct (is_end_of_data e) eqn:He; [|done].
      assert (Err e = @Err Error (FixedHeader * Z) (MalformedPacket "unexpected end of data")) as He'.
      { destruct e; try done. cbn in He. apply String.eqb_eq in He. by subst. }
      rewrite He' in Hd.
      destruct (parses_inv _ _ _ _ Hp) as [?|(p & rest & ps' & _ & Hq & _)]; [done|]. exfalso.
      unfold next_frame in Hq.
      destruct (decode_fixed_header (fr_buf r ++ stream)) as [[h n]|e'|w|] eqn:Hd'; try done.
      * destruct (decode_fixed_header_late _ _ _ _ Hbs Hd Hd').
        rewrite (proj2 (Z.ltb_lt _ _)) in Hq by lia. done.
      * by destruct (is_end_of_data e').
  - exfalso. destruct Hs as (Hd & -> & ?). rewrite Hd in Hn.
    rewrite (proj2 (Z.ltb_ge _ _)) in Hn by lia.
    rewrite (proj2 (Z.ltb_ge _ _)) in Hn by lia.
    by destruct (Packet_decode _ _).
Qed.

Lemma pump_spec max last sizes stream r ps :
  reader_ok r → fr_overflow_size r = None → fr_max_packet_size r = max →
  after_decode r = r → next_frame max (fr_buf r) = Ok None →
  bytes_ok stream → Forall (λ n, 1 ≤ n) sizes → (zlen stream ≤ zlen sizes ∨ ps = []) →
  parses max (fr_buf r ++ stream) ps last →
  ∃ r' stream', pump sizes stream r = (Ok (ps, stream'), r') ∧ fr_buf r' ++ stream' = last.
Proof.
  revert stream r ps.
  induction sizes as [|n sizes IH]; intros stream r ps Hr Ho Hm Ha Hn Hb Hs Hlen Hp; cbn [pump].
  { exists r, stream. destruct (parses_inv _ _ _ _ Hp) as [[-> ->]|(p & rest & ps' & -> & Hq & _)];
      [done|]. exfalso. destruct Hlen as [Hlen|]; [|done].
    rewrite zlen_nil in Hlen. destruct stream; [|rewrite zlen_cons in Hlen; pose proof (zlen_nonneg stream); lia].
    rewrite app_nil_r in Hq. congruence. }
  apply Forall_cons_1 in Hs as [Hn1 Hs]. erewrite bind_ok by reflexivity. cbv zeta.
  set (k := Z.min (Z.min n (remaining_capacity r)) (zlen stream)).
  assert (Hc : 0 ≤ remaining_capacity r) by (unfold remaining_capacity, saturating_sub; lia).
  pose proof (zlen_nonneg stream).
  assert (Hk : zlen (ztake k stream) = k) by (apply zlen_ztake; lia).
  destruct (FrameReader_push_spec (ztake k stream) r) as (r1 & Hpush & Hr1 & Hm1 & Hr1');
    [done|by apply Forall_take|].
  rewrite (proj2 (Z.ltb_ge _ _)) in Hr1' by lia. subst r1.
  erewrite bind_ok by exact Hpush. erewrite bind_ok by reflexivity.
  assert (Hp1 : parses max (fr_buf (fr_extend (ztake k stream) r) ++ zdrop k stream) ps last).
  { cbn [fr_buf fr_extend]. by rewrite <- app_assoc, ztake_zdrop. }
  destruct (drain_spec max (zdrop k stream) last (S (length (fr_buf (fr_extend (ztake k stream) r))))
    (fr_extend (ztake k stream) r) ps) as (ps1 & ps2 & r2 & Hd & -> & Hp2 & Hn2 & Ha2 & Hr2 & Ho2 & Hm2);
    [done|done|by cbn|lia|done|].
  erewrite bind_ok by exact Hd.
  destruct (IH (zdrop k stream) r2 ps2) as (r' & stream' & Hpump & Hl'); try done.
  - by apply Forall_drop.
  - destruct Hlen as [Hlen|[-> ->]%app_eq_nil]; [|by right].
    rewrite zlen_zdrop by lia. rewrite zlen_cons in Hlen.
    destruct (decide (k = 0)) as [Hk0|]; [|left; lia].
    destruct (decide (zlen stream = 0)); [left; pose proof (zlen_nonneg sizes); lia|].
    right. destruct (drained_full max stream last r (ps1 ++ ps2)) as [Hnil _]; try done; [lia|].
    by apply app_eq_nil in Hnil as [_ ->].
  - exists r', stream'. by erewrite bind_ok by exact Hpump.
Qed.

(** ** Properties *)

Lemma new_reader_ok max :
  0 ≤ max ≤ usize_max → reader_ok (FrameReader_with_max_packet_size max).
Proof.
  intros Hm. split; cbn [fr_buf FrameReader_with_max_packet_size fr_max_packet_size fr_state].
  - apply Forall_nil_2.
  - lia.
  - rewrite zlen_nil. lia.
  - done.
Qed.

(** C28. [try_decode] implements the abstract stream parser: on every reader that
    has not overflowed it answers what [next_frame] says of the buffered bytes (no
    packet yet, the first packet, or the error), removes exactly that packet's bytes
    when it answers with a packet, and keeps every byte when it asks for more. *)
Theorem try_decode_refines r :
  reader_ok r → fr_overflow_size r = None →
  (try_decode r).1 = (let? o := next_frame (fr_max_packet_size r) (fr_buf r) in Ok (frame_packet o))
  ∧ reader_ok (try_decode r).2
  ∧ (∀ p rest, next_frame (fr_max_packet_size r) (fr_buf r) = Ok (Some (p, rest)) →
       fr_buf (try_decode r).2 = rest ∧ fr_state (try_decode r).2 = ReadingHeader)
  ∧ (next_frame (fr_max_packet_size r) (fr_buf r) = Ok None →
       fr_buf (try_decode r).2 = fr_buf r).
Proof.
  intros Hr Ho. rewrite (try_decode_spec r Hr Ho). split_and!; cbn [fst snd].
  - done.
  - by apply after_decode_ok.
  - intros p rest Hn. unfold after_decode. by rewrite Hn.
  - intros Hn. unfold after_decode. rewrite Hn. by repeat case_match.
Qed.

Definition example_reader : FrameReader :=
  mkFrameReader [0xD0; 0; 0x40; 2; 0] ReadingHeader 64 None.

Lemma example_reader_ok : reader_ok example_reader.
Proof.
  constructor; try done. repeat constructor; unfold is_u8; lia.
Qed.

Lemma try_decode_refines_witness :
  (try_decode example_reader).1 = Ok (Some PktPingResp)
  ∧ fr_buf (try_decode example_reader).2 = [0x40; 2; 0].
Proof.
  destruct (try_decode_refines example_reader example_reader_ok eq_refl) as (H1 & _ & H2 & _).
  split; [exact H1|]. apply (H2 PktPingResp [0x40; 2; 0]). vm_compute. reflexivity.
Defined.

(** C1. Framing does not depend on how the bytes arrive: whatever the sizes of the
    socket reads, each of them clamped to [remaining_capacity] as both clients clamp theirs, and
    as long as there are enough of them, the packets pushed and
    drained are exactly the frames of the stream, in order, and the bytes of the
    last, incomplete frame are kept. *)
Theorem frame_stream max sizes stream ps last :
  0 ≤ max ≤ usize_max → bytes_ok stream → Forall (λ n, 1 ≤ n) sizes →
  zlen stream ≤ zlen sizes → parses max stream ps last →
  ∃ r' stream', pump sizes stream (FrameReader_with_max_packet_size max) = (Ok (ps, stream'), r')
                ∧ fr_buf r' ++ stream' = last.
Proof.
  intros Hm Hb Hs Hl Hp. apply (pump_spec max); try done; [by apply new_reader_ok|by left].
Qed.

Lemma frame_stream_witness :
  ∃ r' stream',
    pump (replicate 7 3) [0xD0; 0; 0x40; 2; 0; 9; 0x30] (FrameReader_with_max_packet_size 64)
      = (Ok ([PktPingResp; PktPubAck (mkPubAckPacket 9 0)], stream'), r')
    ∧ fr_buf r' ++ stream' = [0x30].
Proof.
  apply frame_stream.
  - unfold usize_max. lia.
  - repeat constructor; unfold is_u8; lia.
  - repeat constructor; lia.
  - vm_compute. discriminate.
  - eapply parses_frame; [vm_compute; reflexivity|].
    eapply parses_frame; [vm_compute; reflexivity|].
    apply parses_end. vm_compute. reflexivity.
Defined.

(** The reader's users call [push] and [try_decode] in any order. *)
Inductive fr_step : FrameReader → FrameReader → Prop :=
  | step_push data r : bytes_ok data → fr_step r (FrameReader_push data r).2
  | step_decode r : fr_step r (try_decode r).2.

Lemma fr_step_ok r r' :
  fr_step r r' → reader_ok r → reader_ok r' ∧ fr_max_packet_size r' = fr_max_packet_size r.
Proof.
  intros [data r0 Hd|r0] Hr.
  - destruct (FrameReader_push_spec data r0 Hr Hd) as (r1 & -> & ? & ? & _). done.
  - destruct (fr_overflow_size r0) as [size|] eqn:Ho.
    + unfold try_decode. erewrite bind_ok by reflexivity. by rewrite Ho.
    + rewrite (try_decode_spec r0 Hr Ho). cbn [snd]. split; [by apply after_decode_ok|].
      unfold after_decode. by repeat case_match.
Qed.

Lemma fr_reachable_ok max r :
  0 ≤ max ≤ usize_max → rtc fr_step (FrameReader_with_max_packet_size max) r →
  reader_ok r ∧ fr_max_packet_size r = max.
Proof.
  intros Hm. set (r0 := FrameReader_with_max_packet_size max).
  assert (reader_ok r0 ∧ fr_max_packet_size r0 = max) as H0.
  { split; [by apply new_reader_ok|done]. }
  clearbody r0. intros Hs. revert H0. induction Hs as [|r1 r2 r3 Hst _ IH]; [done|].
  intros [Hr Hmx]. apply IH. destruct (fr_step_ok _ _ Hst Hr) as [? ?]. split; congruence.
Qed.

(** An overrun is never forgotten. *)
Lemma fr_steps_overflowed r r' :
  rtc fr_step r r' → fr_overflow_size r ≠ None → fr_overflow_size r' ≠ None.
Proof.
  induction 1 as [|r1 r2 r3 Hst _ IH]; [done|]. intros Ho. apply IH.
  destruct Hst as [data r Hd|r].
  - unfold FrameReader_push. erewrite bind_ok by reflexivity. destruct (_ <? _); [|done].
    unfold bind, lift. by destruct (slice_range _ _ _).
  - unfold try_decode. erewrite bind_ok by reflexivity. by destruct (fr_overflow_size r) eqn:?; cbn; congruence.
Qed.

(** C29. Bounded memory and no panic: whatever is pushed and however often
    [try_decode] is called, the reader never holds more than the configured maximum, and
    neither call panics or loops. A push within [remaining_capacity] buffers all its bytes and
    changes nothing else; one that overruns it makes every later [try_decode] fail with
    [PacketTooLarge], whatever is pushed and decoded in between, so that bytes
    are never dropped silently. *)
Theorem frame_reader_safe max r data :
  0 ≤ max ≤ usize_max → rtc fr_step (FrameReader_with_max_packet_size max) r → bytes_ok data →
  zlen (fr_buf r) ≤ max
  ∧ (FrameReader_push data r).1 = Ok () ∧ returns (try_decode r).1
  ∧ (zlen data ≤ remaining_capacity r → (FrameReader_push data r).2 = fr_extend data r)
  ∧ (remaining_capacity r < zlen data → ∀ r', rtc fr_step (FrameReader_push data r).2 r' →
       ∃ size, try_decode r' = (Err (PacketTooLarge size max), r')).
Proof.
  intros Hm Hr Hd. destruct (fr_reachable_ok max r Hm Hr) as [Hok Hmx].
  pose proof (ro_bound r Hok) as Hl.
  destruct (FrameReader_push_spec data r Hok Hd) as (r1 & Hpush & _ & _ & Hcase). split_and!.
  - lia.
  - by rewrite Hpush.
  - destruct (fr_overflow_size r) as [size|] eqn:Ho.
    { unfold try_decode. erewrite bind_ok by reflexivity. by rewrite Ho. }
    rewrite (try_decode_spec r Hok Ho). cbn [fst]. pose proof (next_frame_returns r Hok).
    by destruct (next_frame _ _).
  - intros Hc. rewrite (proj2 (Z.ltb_ge _ _)) in Hcase by done. by rewrite Hpush.
  - intros Hc r' Hsteps. rewrite (proj2 (Z.ltb_lt _ _)) in Hcase by done.
    assert (rtc fr_step (FrameReader_with_max_packet_size max) r') as Hr'.
    { etransitivity; [exact Hr|]. eapply rtc_l; [by apply (step_push data)|exact Hsteps]. }
    destruct (fr_reachable_ok max r' Hm Hr') as [_ Hmx']. rewrite Hpush in Hsteps.
    pose proof (fr_steps_overflowed _ _ Hsteps Hcase) as Ho.
    destruct (fr_overflow_size r') as [size|] eqn:Hsize; [|done]. exists size.
    unfold try_decode. erewrite bind_ok by reflexivity. by rewrite Hsize, Hmx'.
Qed.

(** Three bytes are pushed to a reader of two, and then one more is offered. *)
Lemma frame_reader_safe_witness :
  let r := FrameReader_with_max_packet_size 2 in
  let r1 := (FrameReader_push [0x30; 5; 0] r).2 in
  let r2 := (FrameReader_push [1] (try_decode r1).2).2 in
  zlen (fr_buf r1) ≤ 2 ∧ fr_extend [0x30; 5] r = (FrameReader_push [0x30; 5] r).2
  ∧ ∃ size, try_decode r2 = (Err (PacketTooLarge size 2), r2).
Proof.
  intros r r1 r2.
  assert (0 ≤ 2 ≤ usize_max) as Hm by (unfold usize_max; lia).
  assert (bytes_ok [0x30; 5; 0] ∧ bytes_ok [0x30; 5] ∧ bytes_ok [1]) as (Hb3 & Hb2 & Hb1)
    by (repeat split; repeat constructor; unfold is_u8; lia).
  destruct (frame_reader_safe 2 r1 [] Hm (rtc_once _ _ (step_push [0x30; 5; 0] r Hb3)) (Forall_nil_2 _))
    as (H1 & _).
  destruct (frame_reader_safe 2 r [0x30; 5] Hm (rtc_refl _ _) Hb2) as (_ & _ & _ & H2 & _).
  destruct (frame_reader_safe 2 r [0x30; 5; 0] Hm (rtc_refl _ _) Hb3) as (_ & _ & _ & _ & H3).
  split; [exact H1|]. split; [symmetry; apply H2; vm_compute; discriminate|].
  apply H3; [vm_compute; reflexivity|].
  eapply rtc_l; [apply step_decode|]. apply rtc_once. by apply step_push.
Defined.

(** C39. A push that runs past the frame being assembled poisons the reader: with a
    header decoded and its body incomplete, pushing more than the rest of that body
    makes every later [try_decode] fail with [PacketTooLarge], even when both the
    frame and everything buffered are far below the limit. The module documentation
    says to push "whatever bytes are available". *)
Theorem push_past_frame_rejected r data h n total :
  reader_ok r → bytes_ok data → fr_overflow_size r = None →
  fr_state r = ReadingBody h n total → zlen (fr_buf r) ≤ total →
  total < zlen (fr_buf r) + zlen data ≤ usize_max →
  let r' := (FrameReader_push data r).2 in
  try_decode r' =
    (Err (PacketTooLarge (zlen (fr_buf r) + zlen data) (fr_max_packet_size r)), r').
Proof.
  intros Hr Hd Ho Hst Ht Hl. cbv zeta.
  unfold FrameReader_push. erewrite bind_ok by reflexivity.
  assert (remaining_capacity r = total - zlen (fr_buf r)) as ->
    by (unfold remaining_capacity, saturating_sub; rewrite Hst; lia).
  rewrite (proj2 (Z.ltb_lt _ _)) by lia. rewrite slice_range_ok by lia.
  do 2 (erewrite bind_ok by reflexivity). unfold try_decode. cbn [modify snd].
  erewrite bind_ok by reflexivity. cbn [fr_set_overflow fr_extend fr_buf fr_overflow_size fr_max_packet_size].
  rewrite Z.sub_0_r. change (zdrop 0 data) with data. rewrite zlen_app, zlen_ztake by lia.
  unfold saturating_add, fail. do 3 f_equal. lia.
Qed.

Lemma push_past_frame_rejected_witness :
  let r := (try_decode (FrameReader_push [0x40; 2; 0] FrameReader_new).2).2 in
  let r' := (FrameReader_push [9; 0xD0; 0] r).2 in
  try_decode r' = (Err (PacketTooLarge (3 + 3) MQTT_MAX_PACKET_SIZE), r').
Proof.
  cbv zeta.
  apply (push_past_frame_rejected
           (try_decode (FrameReader_push [0x40; 2; 0] FrameReader_new).2).2
           [9; 0xD0; 0] (mkFixedHeader PubAck 0 2) 2 4).
  - constructor; vm_compute; try discriminate; [repeat constructor; discriminate|].
    split_and!; reflexivity || discriminate.
  - repeat constructor; unfold is_u8; lia.
  - vm_compute. reflexivity.
  - vm_compute. reflexivity.
  - vm_compute. discriminate.
  - vm_compute. split; [reflexivity|discriminate].
Defined.

(** The frame of an encoded PUBLISH is the packet itself, whatever follows it. *)
Lemma next_frame_publish max p w rest :
  publish_typed p → zlen (publish_body p) < 4294967296 → PublishPacket_encode p = Ok w →
  zlen w ≤ max → next_frame max (w ++ rest) = Ok (Some (PktPublish p, rest)).
Proof.
  intros Ht Hl He Hm. pose proof (PublishPacket_encode_inv p w Ht Hl He) as Hok.
  rewrite PublishPacket_encode_ok in He by done. apply Ok_inj in He. subst w.
  pose proof (proj2 (publish_flags_ok p) (po_dup p Hok)) as Hh.
  pose proof (po_len p Hok) as Hlen. pose proof (zlen_nonneg (publish_body p)).
  set (hb := header_bytes Types.Publish (publish_flags p) (zlen (publish_body p))) in *.
  assert (Hhb : zlen hb = 1 + variable_int_len (zlen (publish_body p)))
    by (apply header_bytes_len; lia).
  rewrite zlen_app in Hm. unfold next_frame. rewrite <- app_assoc.
  unfold hb at 1. rewrite decode_fixed_header_ok by (try done; lia). cbn [fh_remaining_length].
  pose proof (zlen_nonneg rest).
  rewrite <- Hhb, (proj2 (Z.ltb_ge _ _)), (proj2 (Z.ltb_ge _ _)) by (rewrite ?zlen_app; lia).
  rewrite zdrop_app_exact, ztake_app_exact, Packet_decode_publish by done. cbn [rbind].
  by rewrite app_assoc, <- zlen_app, zdrop_app_exact.
Qed.

(** C23. End to end: PUBLISH packets encoded one after the other, each of them within the maximum of
    the reader and with a body shorter than 2^32 bytes, and received through
    a [FrameReader], in socket reads of any sizes clamped to its [remaining_capacity], are
    decoded as the same packets in the same order with nothing left over. *)
Theorem publish_stream_delivered max sizes ps ws :
  0 ≤ max ≤ usize_max → Forall (λ n, 1 ≤ n) sizes → zlen (concat ws) ≤ zlen sizes →
  Forall2 (λ p w, publish_typed p ∧ zlen (publish_body p) < 4294967296
                  ∧ PublishPacket_encode p = Ok w ∧ bytes_ok w ∧ zlen w ≤ max) ps ws →
  ∃ r', pump sizes (concat ws) (FrameReader_with_max_packet_size max)
        = (Ok (map PktPublish ps, []), r') ∧ fr_buf r' = [].
Proof.
  intros Hm Hs Hl Hf.
  destruct (pump_spec max [] sizes (concat ws) (FrameReader_with_max_packet_size max)
              (map PktPublish ps)) as (r' & stream' & Hp & [? ->]%app_eq_nil); try done.
  - by apply new_reader_ok.
  - clear Hl. induction Hf as [|p w ps ws (_ & _ & _ & Hw & _) _ IH]; [constructor|].
    by apply Forall_app_2.
  - by left.
  - cbn [fr_buf FrameReader_with_max_packet_size app]. clear Hl.
    induction Hf as [|p w ps ws (Ht & Hb & He & _ & Hw) _ IH]; [by apply parses_end|].
    eapply parses_frame; [by apply next_frame_publish|done].
  - by exists r'.
Qed.

Lemma publish_stream_delivered_witness :
  ∃ w r', PublishPacket_encode example_publish = Ok w ∧
    pump (replicate 200 7) (concat [w; w]) (FrameReader_with_max_packet_size 1000)
      = (Ok ([PktPublish example_publish; PktPublish example_publish], []), r')
    ∧ fr_buf r' = [].
Proof.
  set (w := match PublishPacket_encode example_publish with Ok w => w | _ => [] end).
  assert (PublishPacket_encode example_publish = Ok w) as Hw by (vm_compute; reflexivity).
  exists w.
  destruct (publish_stream_delivered 1000 (replicate 200 7) [example_publish; example_publish]
    [w; w]) as (r' & H).
  - unfold usize_max. lia.
  - repeat constructor; lia.
  - vm_compute. discriminate.
  - assert (publish_typed example_publish ∧ zlen (publish_body example_publish) < 4294967296
      ∧ PublishPacket_encode example_publish = Ok w ∧ bytes_ok w ∧ zlen w ≤ 1000) as Hx.
    { split_and!; [|vm_compute; reflexivity|exact Hw| |vm_compute; discriminate].
      - split_and!; [vm_compute; reflexivity|repeat constructor; unfold is_u8; lia| |
                     cbn; unfold is_u16; lia].
        repeat constructor; unfold is_u8; lia.
      - vm_compute. repeat constructor; discriminate. }
    repeat first [apply Forall2_nil_2 | apply Forall2_cons_2; [exact Hx|]].
  - exists r'. split; [exact Hw|exact H].
Defined.
