(* ===== verification/Options.v ===== *)
(** * Connection and publish options (src/src/options.rs)

    Durations and instants are whole nanoseconds. The greatest representable
    [Instant] depends on the platform and is an argument where it matters. *)

From S2P Require Import Prelude Errors Utf8 Types Properties Packets Frame.

Local Open Scope Z_scope.

(** [Duration], [Instant]: nanoseconds. *)
Abbreviation Duration := Z.
Abbreviation Instant := Z.

Definition from_millis (n : Z) : Duration := n * 1000000.
Definition from_secs (n : Z) : Duration := n * 1000000000.

(** [Instant::checked_add] *)
Definition instant_checked_add (instant_max : Instant) (t : Instant) (d : Duration)
  : option Instant :=
  if t + d <=? instant_max then Some (t + d) else None.

(** [DEFAULT_MAX_PACKET_SIZE] *)
Definition DEFAULT_MAX_PACKET_SIZE : Z := 1024 * 1024.

Record ConnectOptions := mkConnectOptions {
  opt_client_id : list Z;
  opt_keep_alive_secs : Z;
  opt_clean_start : bool;
  opt_username : option (list Z);
  opt_password : option (list Z);
  opt_connect_timeout : Duration;
  opt_ack_timeout : Duration;
  opt_poll_interval : Duration;
  opt_max_packet_size : Z;
  opt_max_incoming_messages : Z;
  opt_command_capacity : Z;
  opt_event_capacity : Z;
  opt_max_outbound_queue_bytes : Z;
}.

(** [ConnectOptions::default] *)
Definition ConnectOptions_default : ConnectOptions := {|
  opt_client_id := [];
  opt_keep_alive_secs := 60;
  opt_clean_start := true;
  opt_username := None;
  opt_password := None;
  opt_connect_timeout := from_secs 10;
  opt_ack_timeout := from_secs 10;
  opt_poll_interval := from_millis 2;
  opt_max_packet_size := DEFAULT_MAX_PACKET_SIZE;
  opt_max_incoming_messages := 256;
  opt_command_capacity := 64;
  opt_event_capacity := 256;
  opt_max_outbound_queue_bytes := 4 * DEFAULT_MAX_PACKET_SIZE;
|}.

(** The builder methods: each [self.field = value; self]. *)
Definition ConnectOptions_new (client_id : list Z) : ConnectOptions :=
  let d := ConnectOptions_default in
  mkConnectOptions client_id (opt_keep_alive_secs d) (opt_clean_start d) (opt_username d)
    (opt_password d) (opt_connect_timeout d) (opt_ack_timeout d) (opt_poll_interval d)
    (opt_max_packet_size d) (opt_max_incoming_messages d) (opt_command_capacity d)
    (opt_event_capacity d) (opt_max_outbound_queue_bytes d).

Definition with_keep_alive (secs : Z) (o : ConnectOptions) : ConnectOptions :=
  mkConnectOptions (opt_client_id o) secs (opt_clean_start o) (opt_username o)
    (opt_password o) (opt_connect_timeout o) (opt_ack_timeout o) (opt_poll_interval o)
    (opt_max_packet_size o) (opt_max_incoming_messages o) (opt_command_capacity o)
    (opt_event_capacity o) (opt_max_outbound_queue_bytes o).

Definition with_credentials (user_ pass : list Z) (o : ConnectOptions) : ConnectOptions :=
  mkConnectOptions (opt_client_id o) (opt_keep_alive_secs o) (opt_clean_start o) (Some user_)
    (Some pass) (opt_connect_timeout o) (opt_ack_timeout o) (opt_poll_interval o)
    (opt_max_packet_size o) (opt_max_incoming_messages o) (opt_command_capacity o)
    (opt_event_capacity o) (opt_max_outbound_queue_bytes o).

Definition with_clean_start (clean : bool) (o : ConnectOptions) : ConnectOptions :=
  mkConnectOptions (opt_client_id o) (opt_keep_alive_secs o) clean (opt_username o)
    (opt_password o) (opt_connect_timeout o) (opt_ack_timeout o) (opt_poll_interval o)
    (opt_max_packet_size o) (opt_max_incoming_messages o) (opt_command_capacity o)
    (opt_event_capacity o) (opt_max_outbound_queue_bytes o).

Definition with_connect_timeout (timeout : Duration) (o : ConnectOptions) : ConnectOptions :=
  mkConnectOptions (opt_client_id o) (opt_keep_alive_secs o) (opt_clean_start o) (opt_username o)
    (opt_password o) timeout (opt_ack_timeout o) (opt_poll_interval o)
    (opt_max_packet_size o) (opt_max_incoming_messages o) (opt_command_capacity o)
    (opt_event_capacity o) (opt_max_outbound_queue_bytes o).

Definition with_ack_timeout (timeout : Duration) (o : ConnectOptions) : ConnectOptions :=
  mkConnectOptions (opt_client_id o) (opt_keep_alive_secs o) (opt_clean_start o) (opt_username o)
    (opt_password o) (opt_connect_timeout o) timeout (opt_poll_interval o)
    (opt_max_packet_size o) (opt_max_incoming_messages o) (opt_command_capacity o)
    (opt_event_capacity o) (opt_max_outbound_queue_bytes o).

Definition with_poll_interval (interval : Duration) (o : ConnectOptions) : ConnectOptions :=
  mkConnectOptions (opt_client_id o) (opt_keep_alive_secs o) (opt_clean_start o) (opt_username o)
    (opt_password o) (opt_connect_timeout o) (opt_ack_timeout o) interval
    (opt_max_packet_size o) (opt_max_incoming_messages o) (opt_command_capacity o)
    (opt_event_capacity o) (opt_max_outbound_queue_bytes o).

Definition with_max_packet_size (bytes : Z) (o : ConnectOptions) : ConnectOptions :=
  mkConnectOptions (opt_client_id o) (opt_keep_alive_secs o) (opt_clean_start o) (opt_username o)
    (opt_password o) (opt_connect_timeout o) (opt_ack_timeout o) (opt_poll_interval o)
    bytes (opt_max_incoming_messages o) (opt_command_capacity o)
    (opt_event_capacity o) (opt_max_outbound_queue_bytes o).

(** Sets the event capacity too. *)
Definition with_max_incoming_messages (count : Z) (o : ConnectOptions) : ConnectOptions :=
  mkConnectOptions (opt_client_id o) (opt_keep_alive_secs o) (opt_clean_start o) (opt_username o)
    (opt_password o) (opt_connect_timeout o) (opt_ack_timeout o) (opt_poll_interval o)
    (opt_max_packet_size o) count (opt_command_capacity o)
    count (opt_max_outbound_queue_bytes o).

Definition with_command_capacity (count : Z) (o : ConnectOptions) : ConnectOptions :=
  mkConnectOptions (opt_client_id o) (opt_keep_alive_secs o) (opt_clean_start o) (opt_username o)
    (opt_password o) (opt_connect_timeout o) (opt_ack_timeout o) (opt_poll_interval o)
    (opt_max_packet_size o) (opt_max_incoming_messages o) count
    (opt_event_capacity o) (opt_max_outbound_queue_bytes o).

Definition with_event_capacity (count : Z) (o : ConnectOptions) : ConnectOptions :=
  mkConnectOptions (opt_client_id o) (opt_keep_alive_secs o) (opt_clean_start o) (opt_username o)
    (opt_password o) (opt_connect_timeout o) (opt_ack_timeout o) (opt_poll_interval o)
    (opt_max_packet_size o) (opt_max_incoming_messages o) (opt_command_capacity o)
    count (opt_max_outbound_queue_bytes o).

Definition with_max_outbound_queue_bytes (bytes : Z) (o : ConnectOptions) : ConnectOptions :=
  mkConnectOptions (opt_client_id o) (opt_keep_alive_secs o) (opt_clean_start o) (opt_username o)
    (opt_password o) (opt_connect_timeout o) (opt_ack_timeout o) (opt_poll_interval o)
    (opt_max_packet_size o) (opt_max_incoming_messages o) (opt_command_capacity o)
    (opt_event_capacity o) bytes.

(** [ConnectOptions::validate], at the instant [now]. *)
Definition ConnectOptions_validate (instant_max now : Instant) (self : ConnectOptions)
  : Result unit :=
  if opt_connect_timeout self =? 0 then Err (InvalidOptions "connect timeout must be non-zero")
  else if opt_ack_timeout self =? 0 then Err (InvalidOptions "ack timeout must be non-zero")
  else if opt_poll_interval self =? 0 then Err (InvalidOptions "poll interval must be non-zero")
  else if negb ((2 <=? opt_max_packet_size self) && (opt_max_packet_size self <=? 268435460))
  then Err (InvalidOptions "invalid maximum packet size")
  else if (opt_max_incoming_messages self =? 0) || (opt_command_capacity self =? 0)
          || (opt_event_capacity self =? 0) || (opt_max_outbound_queue_bytes self =? 0)
  then Err (InvalidOptions "queue capacities must be non-zero")
  else match instant_checked_add instant_max now (opt_connect_timeout self),
             instant_checked_add instant_max now (opt_ack_timeout self) with
       | Some _, Some _ => Ok ()
       | _, _ => Err (InvalidOptions "timeout is too large")
       end.

Record PublishOptions := mkPublishOptions {
  po_qos : QoS;
  po_retain : bool;
  po_properties : Properties;
}.

(** [PublishOptions::default] and its builder methods. *)
Definition PublishOptions_default : PublishOptions :=
  mkPublishOptions AtMostOnce false properties_new.
Definition po_with_qos (qos : QoS) (o : PublishOptions) : PublishOptions :=
  mkPublishOptions qos (po_retain o) (po_properties o).
Definition po_with_retain (retain : bool) (o : PublishOptions) : PublishOptions :=
  mkPublishOptions (po_qos o) retain (po_properties o).
Definition po_with_properties (properties : Properties) (o : PublishOptions) : PublishOptions :=
  mkPublishOptions (po_qos o) (po_retain o) properties.

(** ** What validation establishes *)

(** The values a [ConnectOptions] can hold: [u16], [usize] and [Duration] fields. *)
Definition options_typed (o : ConnectOptions) : Prop :=
  is_u16 (opt_keep_alive_secs o)
  ∧ utf8_valid (opt_client_id o) = true ∧ 0 ≤ opt_connect_timeout o ∧ 0 ≤ opt_ack_timeout o
  ∧ 0 ≤ opt_poll_interval o ∧ 0 ≤ opt_max_packet_size o ≤ usize_max
  ∧ 0 ≤ opt_max_incoming_messages o ≤ usize_max ∧ 0 ≤ opt_command_capacity o ≤ usize_max
  ∧ 0 ≤ opt_event_capacity o ≤ usize_max ∧ 0 ≤ opt_max_outbound_queue_bytes o ≤ usize_max.

Record options_ok (instant_max now : Instant) (o : ConnectOptions) : Prop := mk_options_ok {
  oo_connect_timeout : 0 < opt_connect_timeout o ∧ now + opt_connect_timeout o ≤ instant_max;
  oo_ack_timeout : 0 < opt_ack_timeout o ∧ now + opt_ack_timeout o ≤ instant_max;
  oo_poll_interval : 0 < opt_poll_interval o;
  oo_max_packet_size : 2 ≤ opt_max_packet_size o ≤ MQTT_MAX_PACKET_SIZE;
  oo_incoming : 0 < opt_max_incoming_messages o;
  oo_command : 0 < opt_command_capacity o;
  oo_event : 0 < opt_event_capacity o;
  oo_outbound : 0 < opt_max_outbound_queue_bytes o;
}.

Lemma instant_checked_add_some instant_max t d r :
  instant_checked_add instant_max t d = Some r ↔ r = t + d ∧ t + d ≤ instant_max.
Proof.
  unfold instant_checked_add. destruct (t + d <=? instant_max) eqn:H.
  - apply Z.leb_le in H. naive_solver.
  - apply Z.leb_gt in H. split; [done|lia].
Qed.

(** C38. [ConnectOptions::validate] accepts exactly the usable options: positive
    timeouts whose deadlines are representable, a packet limit MQTT can express
    (2 to 268,435,460 bytes, the frame reader's own limit) and non-empty queues; it
    always answers. *)
Theorem options_validate_spec instant_max now o :
  options_typed o →
  returns (ConnectOptions_validate instant_max now o)
  ∧ (ConnectOptions_validate instant_max now o = Ok () ↔ options_ok instant_max now o).
Proof.
  intros (_ & _ & ? & ? & ? & ? & ? & ? & ? & ?). unfold ConnectOptions_validate.
  destruct (opt_connect_timeout o =? 0) eqn:E1; [split; [done|]; split; [done|]; intros []; lia|].
  destruct (opt_ack_timeout o =? 0) eqn:E2; [split; [done|]; split; [done|]; intros []; lia|].
  destruct (opt_poll_interval o =? 0) eqn:E3; [split; [done|]; split; [done|]; intros []; lia|].
  destruct (negb _) eqn:E4;
    [split; [done|]; split; [done|]; intros []; unfold MQTT_MAX_PACKET_SIZE in *; lia|].
  destruct (_ || _) eqn:E5; [split; [done|]; split; [done|]; intros []; lia|].
  destruct (instant_checked_add instant_max now (opt_connect_timeout o)) eqn:E6;
    [apply instant_checked_add_some in E6|
     split; [done|]; split; [done|]; intros [[] ]; exfalso;
     assert (Some (now + opt_connect_timeout o) = None) by (rewrite <- E6; symmetry; by apply instant_checked_add_some);
     done].
  destruct (instant_checked_add instant_max now (opt_ack_timeout o)) eqn:E7;
    [apply instant_checked_add_some in E7|
     split; [done|]; split; [done|]; intros [_ [] ]; exfalso;
     assert (Some (now + opt_ack_timeout o) = None) by (rewrite <- E7; symmetry; by apply instant_checked_add_some);
     done].
  split; [done|]. split; [|done]. intros _. constructor; unfold MQTT_MAX_PACKET_SIZE; lia.
Qed.

Lemma options_validate_spec_witness :
  ConnectOptions_validate 1000000000000 0 ConnectOptions_default = Ok ()
  ∧ options_ok 1000000000000 0 ConnectOptions_default.
Proof.
  destruct (options_validate_spec 1000000000000 0 ConnectOptions_default) as [_ H].
  - unfold options_typed, is_u16; split_and!; vm_compute; reflexivity || discriminate.
  - split; [vm_compute; reflexivity|]. apply H. vm_compute. reflexivity.
Defined.
