(* ===== verification/Format.v ===== *)
(** * Text (src/src/error.rs, and the [Debug] implementations written by hand)

    [Display] and [source] of the error type, and the [Debug] texts of [ConnectPacket]
    (codec/types.rs) and [ConnectOptions] (options.rs), which leave the credentials out.
    How [std] prints a string, a duration or an I/O error, and the derived [Debug] of
    the properties, are parameters. *)

From Stdlib Require Import Ascii.
From stdpp Require Import pretty.
From S2P Require Import Prelude Errors Types Properties Packets Options.

Local Open Scope Z_scope.

(** A lower-case hexadecimal digit. *)
Definition hex_digit (d : Z) : ascii :=
  match String.get (Z.to_nat d) "0123456789abcdef" with Some a => a | None => "?"%char end.

(** [{:02x}] of a [u8] *)
Definition hex2 (c : Z) : string := String (hex_digit (c / 16)) (String (hex_digit (c mod 16)) "").

Lemma hex_digit_inj d d' : 0 ≤ d < 16 → 0 ≤ d' < 16 → hex_digit d = hex_digit d' → d = d'.
Proof.
  intros Hd Hd' He.
  assert (∀ d, 0 ≤ d < 16 → d ∈ seqZ 0 16) as Hall by (intros; apply elem_of_seqZ; lia).
  assert (Forall (λ d, Forall (λ d', hex_digit d = hex_digit d' → d = d') (seqZ 0 16)) (seqZ 0 16)) as Hf
    by (repeat constructor; intros [=]).
  rewrite list.Forall_forall in Hf. specialize (Hf d (Hall d Hd)). rewrite list.Forall_forall in Hf.
  exact (Hf d' (Hall d' Hd') He).
Qed.

Lemma hex2_inj c c' : is_u8 c → is_u8 c' → hex2 c = hex2 c' → c = c'.
Proof.
  unfold is_u8. intros Hc Hc' [= H1 H2].
  apply hex_digit_inj in H1; [|split; [apply Z.div_pos; lia|apply Z.div_lt_upper_bound; lia]..].
  apply hex_digit_inj in H2; [|apply Z.mod_pos_bound; lia..].
  rewrite (Z.div_mod c 16), (Z.div_mod c' 16) by lia. congruence.
Qed.

(** [impl std::error::Error for Error]: [source] *)
Definition Error_source (self : Error) : option io_error :=
  match self with Io error => Some error | _ => None end.

Section display.
Context (io_display : io_error → string).

(** [impl fmt::Display for Error] *)
Definition Error_fmt (self : Error) : string :=
  match self with
  | InvalidOptions msg => "invalid options: " +:+ msg
  | MalformedPacket msg => "malformed packet: " +:+ msg
  | InvalidPacketType t => "invalid packet type: " +:+ pretty t
  | InvalidQoS q => "invalid QoS: " +:+ pretty q
  | InvalidReasonCode c => "invalid reason code: 0x" +:+ hex2 c
  | ConnectionRefused c => "connection refused: 0x" +:+ hex2 c
  | ServerDisconnected c => "server disconnected: 0x" +:+ hex2 c
  | PacketTooLarge size max =>
      "packet is " +:+ pretty size +:+ " bytes; configured maximum is " +:+ pretty max
  | StringTooLong len => "string too long: " +:+ pretty len +:+ " bytes"
  | BinaryTooLong len => "binary data too long: " +:+ pretty len +:+ " bytes"
  | ConnectionClosed => "connection closed"
  | ClientClosed => "client driver is not running"
  | Timeout operation => operation +:+ " timed out"
  | KeepAliveTimeout => "broker did not answer PINGREQ"
  | UnexpectedPacket msg => "unexpected packet: " +:+ msg
  | AckRejected packet reason_code => packet +:+ " rejected: 0x" +:+ hex2 reason_code
  | QueueFull queue => queue +:+ " queue is full"
  | Serialize msg => "serialize: " +:+ msg
  | Deserialize msg => "deserialize: " +:+ msg
  | Io e => "io: " +:+ io_display e
  end.

#[local] Instance string_app_inj s : Inj (=) (=) (String.append s).
Proof. intros t t'. induction s as [|a s IH]; [done|]. cbn. intros [= H]. by apply IH. Qed.

(** A reason code can be read off the text of its error. *)
Lemma Error_fmt_reason (wrap : Z → Error) c c' :
  wrap ∈ [InvalidReasonCode; ConnectionRefused; ServerDisconnected]
  ∨ (∃ packet, wrap = AckRejected packet) →
  is_u8 c → is_u8 c' → Error_fmt (wrap c) = Error_fmt (wrap c') → c = c'.
Proof.
  intros Hw Hc Hc' He. apply hex2_inj; [done|done|].
  destruct Hw as [Hw|[packet ->]].
  - repeat (apply elem_of_cons in Hw as [->|Hw]); [by cbn [Error_fmt] in He; apply (inj (String.append _)) in He..|].
    by apply not_elem_of_nil in Hw.
  - cbn [Error_fmt] in He. apply (inj (String.append packet)) in He.
    by apply (inj (String.append " rejected: 0x")) in He.
Qed.

(** Only an I/O error has a source, and [from_io] keeps it. *)
Lemma Error_source_from_io {A} (r : io_Result A) e :
  r = Err e → ∃ error, from_io r = Err error ∧ Error_source error = Some e.
Proof. intros ->. by eexists. Qed.
End display.

(** ** Debug texts *)

(** [formatter.debug_struct(name).field(..)...finish()] *)
Definition debug_struct (name : string) (fields : list (string * string)) : string :=
  name +:+ " { " +:+ String.concat ", " ((λ '(key, value), key +:+ ": " +:+ value) <$> fields) +:+ " }".

Definition debug_bool (b : bool) : string := if b then "true" else "false".

Section debug.
Context (debug_str : list Z → string) (debug_duration : Duration → string)
  (debug_properties : Properties → string).

(** [impl fmt::Debug for ConnectPacket] *)
Definition ConnectPacket_debug (self : ConnectPacket) : string :=
  debug_struct "ConnectPacket" [
    ("protocol_version", pretty (con_protocol_version self));
    ("clean_start", debug_bool (con_clean_start self));
    ("keep_alive", pretty (con_keep_alive self));
    ("client_id", debug_str (con_client_id self));
    ("username_set", debug_bool (bool_decide (is_Some (con_username self))));
    ("password_set", debug_bool (bool_decide (is_Some (con_password self))));
    ("properties", debug_properties (con_properties self))].

(** [impl fmt::Debug for ConnectOptions] *)
Definition ConnectOptions_debug (self : ConnectOptions) : string :=
  debug_struct "ConnectOptions" [
    ("client_id", debug_str (opt_client_id self));
    ("keep_alive_secs", pretty (opt_keep_alive_secs self));
    ("clean_start", debug_bool (opt_clean_start self));
    ("username_set", debug_bool (bool_decide (is_Some (opt_username self))));
    ("password_set", debug_bool (bool_decide (is_Some (opt_password self))));
    ("connect_timeout", debug_duration (opt_connect_timeout self));
    ("ack_timeout", debug_duration (opt_ack_timeout self));
    ("poll_interval", debug_duration (opt_poll_interval self));
    ("max_packet_size", pretty (opt_max_packet_size self));
    ("max_incoming_messages", pretty (opt_max_incoming_messages self));
    ("command_capacity", pretty (opt_command_capacity self));
    ("event_capacity", pretty (opt_event_capacity self));
    ("max_outbound_queue_bytes", pretty (opt_max_outbound_queue_bytes self))].

(** The text does not depend on the credentials beyond their presence. *)
Lemma ConnectOptions_debug_secret options username password username' password' :
  ConnectOptions_debug (with_credentials username password options)
  = ConnectOptions_debug (with_credentials username' password' options).
Proof. reflexivity. Qed.

Lemma ConnectPacket_debug_secret packet username password :
  (is_Some (con_username packet) ↔ is_Some username) →
  (is_Some (con_password packet) ↔ is_Some password) →
  ConnectPacket_debug (mkConnectPacket (con_protocol_version packet) (con_clean_start packet)
    (con_keep_alive packet) (con_client_id packet) username password (con_properties packet))
  = ConnectPacket_debug packet.
Proof.
  intros Hu Hp. unfold ConnectPacket_debug. cbn.
  by rewrite (bool_decide_ext _ _ Hu), (bool_decide_ext _ _ Hp).
Qed.
End debug.

Example refused_text :
  Error_fmt (λ _, "") (ConnectionRefused 0x87) = "connection refused: 0x87"
  ∧ Error_fmt (λ _, "") (PacketTooLarge 120 100) = "packet is 120 bytes; configured maximum is 100".
Proof. split; vm_compute; reflexivity. Qed.
