(* ===== verification/Trace.v ===== *)
(** * W3C trace context (src/src/trace.rs)

    A trace context travels as [traceparent] and [tracestate] user properties.
    [Option]-valued functions that index slices return [Err ()] for [None], so that
    an index out of range would be visible as [Panic]. *)

From S2P Require Import Prelude Errors Str Types Decode Properties.

Local Open Scope Z_scope.

Abbreviation Opt := (result unit).

Definition TRACEPARENT_KEY : list Z := lit "traceparent".
Definition TRACESTATE_KEY : list Z := lit "tracestate".
Definition VERSION : list Z := lit "00".
Definition DASH : Z := 0x2D. (* '-' *)

Record TraceContext := mkTraceContext {
  trace_id : list Z;      (* [u8; 16] *)
  span_id : list Z;       (* [u8; 8] *)
  trace_flags : Z;
  tracestate : option (list Z);
}.

(** [is_all_zero] *)
Definition is_all_zero (bytes : list Z) : bool := forallb (λ byte, byte =? 0) bytes.

(** [TraceContext::new_root] *)
Definition new_root (trace_id span_id : list Z) : option TraceContext :=
  if is_all_zero trace_id || is_all_zero span_id then None
  else Some (mkTraceContext trace_id span_id 0x01 None).

(** [TraceContext::child] *)
Definition child (self : TraceContext) (span_id : list Z) : option TraceContext :=
  if is_all_zero span_id then None
  else Some (mkTraceContext (trace_id self) span_id (trace_flags self) (tracestate self)).

Definition HEX : list Z := lit "0123456789abcdef".

(** [slice[i]] in a function that returns an [Option]. *)
Definition opt_index (l : list Z) (i : Z) : Opt Z :=
  match znth l i with Some x => Ok x | None => Panic "index out of bounds" end.

(** [hex_encode]: the characters appended to [out]. *)
Fixpoint hex_encode (bytes : list Z) (out : list Z) : Opt (list Z) :=
  match bytes with
  | [] => Ok out
  | b :: bytes' =>
      let? hi := opt_index HEX (Z.shiftr b 4) in
      let? lo := opt_index HEX (Z.land b 0x0F) in
      hex_encode bytes' (out ++ [hi; lo])
  end.

(** [hex_nibble] *)
Definition hex_nibble (c : Z) : option Z :=
  if (0x30 <=? c) && (c <=? 0x39) then Some (c - 0x30)
  else if (0x61 <=? c) && (c <=? 0x66) then Some (c - 0x61 + 10)
  else if (0x41 <=? c) && (c <=? 0x46) then Some (c - 0x41 + 10)
  else None.

(** The [for i in 0..N] loop of [hex_decode_fixed], [n] iterations from [i]. *)
Fixpoint hex_decode_loop (n : nat) (i : Z) (bytes : list Z) : Opt (list Z) :=
  match n with
  | O => Ok []
  | S n' =>
      let? b0 := opt_index bytes (i * 2) in
      let? hi := ok_or (hex_nibble b0) () in
      let? b1 := opt_index bytes (i * 2 + 1) in
      let? lo := ok_or (hex_nibble b1) () in
      let? arr := hex_decode_loop n' (i + 1) bytes in
      Ok (Z.lor (as_u8 (Z.shiftl hi 4)) lo :: arr)
  end.

(** [hex_decode_fixed::<N>] *)
Definition hex_decode_fixed (N : nat) (s : list Z) : Opt (list Z) :=
  if negb (zlen s =? Z.of_nat N * 2) then Err () else hex_decode_loop N 0 s.

(** [TraceContext::traceparent_string] *)
Definition traceparent_string (self : TraceContext) : Opt (list Z) :=
  let s := VERSION ++ [DASH] in
  let? s := hex_encode (trace_id self) s in
  let s := s ++ [DASH] in
  let? s := hex_encode (span_id self) s in
  let s := s ++ [DASH] in
  hex_encode [trace_flags self] s.

(** [parts[i]] *)
Definition part (parts : list (list Z)) (i : Z) : Opt (list Z) :=
  match znth parts i with Some x => Ok x | None => Panic "index out of bounds" end.

(** [TraceContext::parse_traceparent] *)
Definition parse_traceparent (s : list Z) (tracestate : option (list Z)) : Opt TraceContext :=
  let parts := split DASH s in
  if negb (zlen parts =? 4) then Err () else
  let? p0 := part parts 0 in
  if negb (list_eqb p0 VERSION) then Err () else
  let? p1 := part parts 1 in
  let? trace_id := hex_decode_fixed 16 p1 in
  let? p2 := part parts 2 in
  let? span_id := hex_decode_fixed 8 p2 in
  let? p3 := part parts 3 in
  let? flags_bytes := hex_decode_fixed 1 p3 in
  if is_all_zero trace_id || is_all_zero span_id then Err () else
  let? flags := opt_index flags_bytes 0 in
  Ok (mkTraceContext trace_id span_id flags tracestate).

(** The [for (key, value) in props.user_properties()] loop: the last of each key. *)
Fixpoint scan_user_properties (l : list (list Z * list Z))
    (acc : option (list Z) * option (list Z)) : option (list Z) * option (list Z) :=
  match l with
  | [] => acc
  | (key, value) :: l' =>
      scan_user_properties l'
        (if list_eqb key TRACEPARENT_KEY then (Some value, acc.2)
         else if list_eqb key TRACESTATE_KEY then (acc.1, Some value)
         else acc)
  end.

(** [TraceContext::from_properties] *)
Definition from_properties (props : Properties) : Opt TraceContext :=
  let '(traceparent, tracestate) := scan_user_properties (user_properties props) (None, None) in
  let? tp := ok_or traceparent () in
  parse_traceparent tp tracestate.

(** [TraceContext::inject] *)
Definition inject (self : TraceContext) (props : Properties) : Opt Properties :=
  let? tp := traceparent_string self in
  let props := properties_push props UserProperty (StringPair TRACEPARENT_KEY tp) in
  Ok match tracestate self with
     | Some state => properties_push props UserProperty (StringPair TRACESTATE_KEY state)
     | None => props
     end.

(** ** Hexadecimal *)

Definition hex_digit (d : Z) : Z := if d <? 10 then 0x30 + d else 0x61 + (d - 10).
Definition hex_bytes (bytes : list Z) : list Z :=
  concat (map (λ b, [hex_digit (b / 16); hex_digit (b mod 16)]) bytes).

(** [char::to_ascii_lowercase] *)
Definition to_ascii_lowercase (c : Z) : Z :=
  if (0x41 <=? c) && (c <=? 0x5A) then c + 32 else c.

Lemma zlen_hex_bytes l : zlen (hex_bytes l) = 2 * zlen l.
Proof.
  induction l as [|b l IH]; [done|]. unfold hex_bytes in *. cbn [map concat].
  rewrite zlen_app, IH, !zlen_cons, zlen_nil. lia.
Qed.

Lemma hex_index b :
  is_u8 b → opt_index HEX (Z.shiftr b 4) = Ok (hex_digit (b / 16))
            ∧ opt_index HEX (Z.land b 0x0F) = Ok (hex_digit (b mod 16)).
Proof.
  intros Hb.
  set (ok := λ i d, match opt_index HEX i with Ok x => x =? d | _ => false end).
  assert (Hok : ∀ i d, ok i d = true → opt_index HEX i = Ok d).
  { unfold ok. intros i d. destruct (opt_index HEX i); try done. by intros ->%Z.eqb_eq. }
  assert (H : ok (Z.shiftr b 4) (hex_digit (b / 16)) && ok (Z.land b 0x0F) (hex_digit (b mod 16)) = true)
    by (by_u8_cases b Hb).
  apply andb_true_iff in H as [? ?]. auto.
Qed.

Lemma hex_encode_ok bytes out :
  bytes_ok bytes → hex_encode bytes out = Ok (out ++ hex_bytes bytes).
Proof.
  intros Hb. revert out. induction Hb as [|b l Hb _ IH]; intros out; cbn [hex_encode].
  { by rewrite app_nil_r. }
  destruct (hex_index b Hb) as [-> ->]. cbn [rbind]. rewrite IH, <- app_assoc. done.
Qed.

Lemma hex_nibble_digit d : 0 ≤ d < 16 → hex_nibble (hex_digit d) = Some d.
Proof.
  intros H. unfold hex_digit, hex_nibble.
  repeat case_match; try lia; f_equal; lia.
Qed.

(** A nibble's character is the digit, up to case. *)
Lemma hex_nibble_some c d :
  hex_nibble c = Some d → 0 ≤ d < 16 ∧ to_ascii_lowercase c = hex_digit d ∧ is_u8 c.
Proof.
  unfold hex_nibble, to_ascii_lowercase, hex_digit, is_u8.
  destruct ((0x30 <=? c) && (c <=? 0x39)) eqn:E1; [intros [= <-]; repeat case_match; lia|].
  destruct ((0x61 <=? c) && (c <=? 0x66)) eqn:E2; [intros [= <-]; repeat case_match; lia|].
  destruct ((0x41 <=? c) && (c <=? 0x46)) eqn:E3; [intros [= <-]; repeat case_match; lia|done].
Qed.

Lemma nibbles_byte hi lo :
  0 ≤ hi < 16 → 0 ≤ lo < 16 → Z.lor (as_u8 (Z.shiftl hi 4)) lo = hi * 16 + lo.
Proof.
  intros. unfold as_u8. rewrite Z.shiftl_mul_pow2 by lia. rewrite Z.mod_small by lia.
  rewrite <- Z.shiftl_mul_pow2, lor_shiftl_add by lia. lia.
Qed.

Lemma opt_index_at pre (s : list Z) k x :
  0 ≤ k → znth s k = Some x → opt_index (pre ++ s) (zlen pre + k) = Ok x.
Proof. intros. unfold opt_index. by rewrite znth_app_at, H0. Qed.

Lemma two_bytes (s : list Z) n : zlen s = 2 * Z.of_nat (S n) → ∃ c0 c1 s', s = c0 :: c1 :: s' ∧ zlen s' = 2 * Z.of_nat n.
Proof.
  intros H. destruct s as [|c0 [|c1 s']]; [unfold zlen in H; cbn in H; lia..|].
  exists c0, c1, s'. rewrite !zlen_cons in H. split; [done|lia].
Qed.

Lemma hex_decode_loop_step n pre c0 c1 s' i :
  zlen pre = 2 * i →
  hex_decode_loop (S n) i (pre ++ c0 :: c1 :: s') =
    (let? hi := ok_or (hex_nibble c0) () in
     let? lo := ok_or (hex_nibble c1) () in
     let? arr := hex_decode_loop n (i + 1) ((pre ++ [c0; c1]) ++ s') in
     Ok (Z.lor (as_u8 (Z.shiftl hi 4)) lo :: arr)).
Proof.
  intros Hp. cbn [hex_decode_loop].
  replace (i * 2) with (zlen pre + 0) by lia.
  rewrite (opt_index_at _ _ 0 c0), <- Z.add_assoc by done. cbn [rbind].
  rewrite (opt_index_at _ _ (0 + 1) c1) by done. cbn [rbind]. by rewrite <- app_assoc.
Qed.

Lemma hex_decode_loop_ok l i pre :
  bytes_ok l → zlen pre = 2 * i → hex_decode_loop (length l) i (pre ++ hex_bytes l) = Ok l.
Proof.
  intros Hb. revert i pre. induction Hb as [|b l Hb _ IH]; intros i pre Hp; [done|].
  unfold hex_bytes in *. cbn [map concat length app].
  rewrite hex_decode_loop_step by done. unfold is_u8 in Hb.
  assert (0 ≤ b / 16 < 16) by (split; [apply Z.div_pos; lia|apply Z.div_lt_upper_bound; lia]).
  pose proof (Z.mod_pos_bound b 16).
  rewrite !hex_nibble_digit by lia. cbn [ok_or rbind].
  rewrite IH by (rewrite zlen_app; unfold zlen in *; cbn [length]; lia). cbn [rbind].
  rewrite nibbles_byte by lia. do 2 f_equal. pose proof (Z.div_mod b 16). lia.
Qed.

(** What the decoder accepts: two hexadecimal digits per byte, in either case. *)
Lemma hex_decode_loop_inv n i pre s :
  zlen pre = 2 * i → zlen s = 2 * Z.of_nat n →
  returns (hex_decode_loop n i (pre ++ s)) ∧
  ∀ l, hex_decode_loop n i (pre ++ s) = Ok l →
       length l = n ∧ bytes_ok l ∧ map to_ascii_lowercase s = hex_bytes l.
Proof.
  revert i pre s. induction n as [|n IH]; intros i pre s Hp Hs.
  { destruct s; [|rewrite zlen_cons in Hs; pose proof (zlen_nonneg s); lia].
    split; [done|]. intros l [= <-]. split_and!; [done|constructor|done]. }
  destruct (two_bytes s n Hs) as (c0 & c1 & s' & -> & Hs').
  rewrite hex_decode_loop_step by done.
  destruct (hex_nibble c0) as [hi|] eqn:H0; [|by split].
  destruct (hex_nibble c1) as [lo|] eqn:H1; [|by split].
  apply hex_nibble_some in H0 as (? & Hc0 & _). apply hex_nibble_some in H1 as (? & Hc1 & _).
  cbn [ok_or rbind]. destruct (IH (i + 1) (pre ++ [c0; c1]) s') as [Hr Hi];
    [rewrite zlen_app; unfold zlen in *; cbn [length]; lia|done|].
  destruct (hex_decode_loop n (i + 1) _) as [arr| | |]; try (by split).
  split; [done|]. intros l [= <-]. destruct (Hi arr eq_refl) as (<- & Hb & Hm).
  rewrite nibbles_byte by lia. split_and!; [done| |].
  - constructor; [unfold is_u8; lia|done].
  - unfold hex_bytes in *. cbn [map concat app]. rewrite Hm, Hc0, Hc1.
    rewrite Z.div_add_l by lia. rewrite (Z.add_comm (hi * 16)), Z.mod_add by lia.
    rewrite (Z.div_small lo), (Z.mod_small lo) by lia. by rewrite Z.add_0_r.
Qed.

Lemma hex_decode_fixed_ok n l :
  length l = n → bytes_ok l → hex_decode_fixed n (hex_bytes l) = Ok l.
Proof.
  intros <- Hb. unfold hex_decode_fixed. rewrite zlen_hex_bytes.
  rewrite (proj2 (Z.eqb_eq _ _)) by (unfold zlen; lia). cbn [negb].
  by apply (hex_decode_loop_ok l 0 []).
Qed.

Lemma hex_decode_fixed_inv n s :
  returns (hex_decode_fixed n s) ∧
  ∀ l, hex_decode_fixed n s = Ok l →
       length l = n ∧ bytes_ok l ∧ map to_ascii_lowercase s = hex_bytes l.
Proof.
  unfold hex_decode_fixed. destruct (zlen s =? _) eqn:H; [|by split].
  apply Z.eqb_eq in H. apply (hex_decode_loop_inv n 0 [] s); [done|lia].
Qed.

Lemma hex_bytes_no_dash l : bytes_ok l → DASH ∉ hex_bytes l.
Proof.
  induction 1 as [|b l Hb _ IH]; [apply not_elem_of_nil|]. unfold hex_bytes in *.
  cbn [map concat app]. unfold is_u8 in Hb. pose proof (Z.mod_pos_bound b 16).
  assert (0 ≤ b / 16) by (apply Z.div_pos; lia).
  rewrite !not_elem_of_cons. split_and!; [| |done]; unfold hex_digit, DASH; case_match; lia.
Qed.

(** ** Trace contexts *)

(** The values of a [TraceContext]: array sizes, bytes, and identifiers that are
    not all zero, as every constructor ensures. *)
Record context_ok (c : TraceContext) : Prop := mk_context_ok {
  co_trace_id : length (trace_id c) = 16%nat ∧ bytes_ok (trace_id c);
  co_span_id : length (span_id c) = 8%nat ∧ bytes_ok (span_id c);
  co_flags : is_u8 (trace_flags c);
  co_trace_nonzero : is_all_zero (trace_id c) = false;
  co_span_nonzero : is_all_zero (span_id c) = false;
}.

(** The text of a version 00 traceparent. *)
Definition traceparent_text (c : TraceContext) : list Z :=
  join DASH [VERSION; hex_bytes (trace_id c); hex_bytes (span_id c); hex_bytes [trace_flags c]].

Lemma bytes_ok_one b : is_u8 b → bytes_ok [b].
Proof. intros. by apply Forall_singleton. Qed.

Lemma traceparent_string_ok c : context_ok c → traceparent_string c = Ok (traceparent_text c).
Proof.
  intros [[_ ?] [_ ?] ? _ _]. unfold traceparent_string, traceparent_text.
  rewrite hex_encode_ok by done. cbn [rbind]. rewrite hex_encode_ok by done. cbn [rbind].
  rewrite hex_encode_ok by (by apply bytes_ok_one). rewrite !join_cons by done.
  cbn [join]. by rewrite <- !app_assoc.
Qed.

Lemma traceparent_split c :
  context_ok c →
  split DASH (traceparent_text c) =
    [VERSION; hex_bytes (trace_id c); hex_bytes (span_id c); hex_bytes [trace_flags c]].
Proof.
  intros [[_ ?] [_ ?] ? _ _]. apply split_join; [done|].
  repeat (apply Forall_cons_2 || apply Forall_nil_2);
    try (apply hex_bytes_no_dash; done || by apply bytes_ok_one).
  unfold VERSION, DASH. cbn. rewrite !not_elem_of_cons. split_and!; [done|done|apply not_elem_of_nil].
Qed.

Lemma parts_of_four a b c d :
  part [a; b; c; d] 0 = Ok a ∧ part [a; b; c; d] 1 = Ok b
  ∧ part [a; b; c; d] 2 = Ok c ∧ part [a; b; c; d] 3 = Ok d.
Proof. done. Qed.

Lemma parse_traceparent_text c ts :
  context_ok c →
  parse_traceparent (traceparent_text c) ts
    = Ok (mkTraceContext (trace_id c) (span_id c) (trace_flags c) ts).
Proof.
  intros Hc. pose proof Hc as [[Ht ?] [Hs ?] ? Hz1 Hz2].
  unfold parse_traceparent. rewrite traceparent_split by done.
  match goal with |- context [part [?a; ?b; ?c; ?d] _] =>
    destruct (parts_of_four a b c d) as (-> & -> & -> & ->) end.
  cbn [rbind zlen length Z.of_nat Pos.of_succ_nat Pos.succ Z.eqb Pos.eqb negb].
  rewrite (proj2 (list_eqb_true VERSION VERSION)) by done. cbn [negb].
  rewrite (hex_decode_fixed_ok 16) by done. cbn [rbind].
  rewrite (hex_decode_fixed_ok 8) by done. cbn [rbind].
  rewrite (hex_decode_fixed_ok 1) by (done || by apply bytes_ok_one). cbn [rbind].
  by rewrite Hz1, Hz2.
Qed.

Lemma list_of_four {A} (l : list A) : zlen l = 4 → ∃ a b c d, l = [a; b; c; d].
Proof.
  intros H. destruct l as [|a [|b [|c [|d [|]]]]]; unfold zlen in H; cbn in H; try lia. eauto.
Qed.

Lemma parse_traceparent_inv s ts :
  returns (parse_traceparent s ts) ∧
  ∀ c, parse_traceparent s ts = Ok c →
       context_ok c ∧ tracestate c = ts ∧ traceparent_text c = map to_ascii_lowercase s.
Proof.
  unfold parse_traceparent. destruct (zlen (split DASH s) =? 4) eqn:Hl; [|by split].
  apply Z.eqb_eq, list_of_four in Hl as (p0 & p1 & p2 & p3 & Hp). rewrite Hp.
  pose proof (join_split DASH s) as Hj. rewrite Hp in Hj. destruct (parts_of_four p0 p1 p2 p3) as (-> & -> & -> & ->).
  cbn [rbind negb]. destruct (list_eqb p0 VERSION) eqn:Hv; [|by split]. apply list_eqb_true in Hv. cbn [negb].
  destruct (hex_decode_fixed_inv 16 p1) as [R1 I1].
  destruct (hex_decode_fixed 16 p1) as [t| | |]; try (by split).
  destruct (I1 t eq_refl) as (Lt & Bt & Mt). cbn [rbind].
  destruct (hex_decode_fixed_inv 8 p2) as [R2 I2].
  destruct (hex_decode_fixed 8 p2) as [sp| | |]; try (by split).
  destruct (I2 sp eq_refl) as (Ls & Bs & Ms). cbn [rbind].
  destruct (hex_decode_fixed_inv 1 p3) as [R3 I3].
  destruct (hex_decode_fixed 1 p3) as [fl| | |]; try (by split).
  destruct (I3 fl eq_refl) as (Lf & Bf & Mf). cbn [rbind].
  destruct (is_all_zero t || is_all_zero sp) eqn:Hz; [by split|].
  apply orb_false_iff in Hz as [? ?]. destruct fl as [|f [|]]; try discriminate Lf.
  split; [done|]. change (opt_index [f] 0) with (Ok (E:=()) f). cbn [rbind].
  intros c [= <-]. split_and!; [|done|].
  - apply Forall_cons_1 in Bf as [? _]. by constructor.
  - unfold traceparent_text; cbn [trace_id span_id trace_flags].
    cbv beta in *. rewrite <- Mt, <- Ms, <- Mf, <- Hj, Hv. cbn [join].
    rewrite !map_app. cbn [map]. rewrite !map_app. cbn [map]. rewrite !map_app. done.
Qed.

(** *** The user properties that carry a context *)

Lemma scan_app l1 l2 acc :
  scan_user_properties (l1 ++ l2) acc = scan_user_properties l2 (scan_user_properties l1 acc).
Proof.
  revert acc. induction l1 as [|[k v] l1 IH]; intros acc; [done|]. cbn [app scan_user_properties].
  apply IH.
Qed.

Lemma user_properties_push_pair p k v :
  user_properties (properties_push p UserProperty (StringPair k v)) = user_properties p ++ [(k, v)].
Proof. unfold user_properties, properties_push. cbn [entries]. by rewrite omap_app. Qed.

(** The [tracestate] a receiver would read from [p]. *)
Definition last_tracestate (p : Properties) : option (list Z) :=
  (scan_user_properties (user_properties p) (None, None)).2.

(** C36. Trace round trip: a context injected into any properties is the context a
    receiver extracts from them, even when they already carry an older traceparent;
    without a tracestate of its own, the context leaves an earlier one in force. *)
Theorem inject_roundtrip c p :
  context_ok c →
  ∃ p', inject c p = Ok p' ∧
        from_properties p' =
          Ok (mkTraceContext (trace_id c) (span_id c) (trace_flags c)
                match tracestate c with Some s => Some s | None => last_tracestate p end).
Proof.
  intros Hc. unfold inject. rewrite traceparent_string_ok by done. cbn [rbind].
  eexists. split; [reflexivity|]. unfold from_properties, last_tracestate.
  destruct (tracestate c) as [ts|]; rewrite !user_properties_push_pair, !scan_app;
    destruct (scan_user_properties (user_properties p) (None, None)) as [tp0 ts0];
    cbn [scan_user_properties list_eqb].
  - rewrite (proj2 (list_eqb_true TRACEPARENT_KEY TRACEPARENT_KEY)) by done.
    replace (list_eqb TRACESTATE_KEY TRACEPARENT_KEY) with false by reflexivity.
    rewrite (proj2 (list_eqb_true TRACESTATE_KEY TRACESTATE_KEY)) by done.
    cbn [fst snd ok_or rbind]. by apply parse_traceparent_text.
  - rewrite (proj2 (list_eqb_true TRACEPARENT_KEY TRACEPARENT_KEY)) by done.
    cbn [fst snd ok_or rbind]. by apply parse_traceparent_text.
Qed.

Definition example_context : TraceContext :=
  mkTraceContext (seqZ 1 16) (seqZ 240 8) 1 (Some (lit "vendor=x")).

Lemma inject_roundtrip_witness :
  context_ok example_context ∧
  ∃ p', inject example_context (user properties_new TRACEPARENT_KEY (lit "stale")) = Ok p' ∧
        from_properties p' = Ok example_context.
Proof.
  assert (context_ok example_context) as H.
  { constructor; try (vm_compute; reflexivity).
    - split; [vm_compute; reflexivity|vm_compute; repeat constructor; discriminate].
    - split; [vm_compute; reflexivity|vm_compute; repeat constructor; discriminate].
    - vm_compute. split; [discriminate|reflexivity]. }
  split; [exact H|]. exact (inject_roundtrip example_context _ H).
Defined.

(** C37. Extraction is total and sound: on any properties it answers, and what it
    accepts is a valid context whose canonical text is the received traceparent up to
    the case of its digits (55 characters, version 00, identifiers not zero). *)
Theorem from_properties_sound p :
  returns (from_properties p) ∧
  ∀ c, from_properties p = Ok c →
       context_ok c ∧ zlen (traceparent_text c) = 55 ∧
       ∃ tp, (TRACEPARENT_KEY, tp) ∈ user_properties p
             ∧ traceparent_text c = map to_ascii_lowercase tp.
Proof.
  unfold from_properties.
  assert (Hscan : ∀ l acc tp, (scan_user_properties l acc).1 = Some tp →
    acc.1 = Some tp ∨ (TRACEPARENT_KEY, tp) ∈ l).
  { induction l as [|[k v] l IH]; intros acc tp; [by left|]. cbn [scan_user_properties].
    intros H. destruct (IH _ _ H) as [H1|H1]; [|right; by constructor].
    destruct (list_eqb k TRACEPARENT_KEY) eqn:Hk.
    - apply list_eqb_true in Hk as ->. cbn in H1. simplify_eq. right. constructor.
    - left. by destruct (list_eqb k TRACESTATE_KEY). }
  specialize (Hscan (user_properties p) (None, None)).
  destruct (scan_user_properties (user_properties p) (None, None)) as [[tp|] ts];
    cbn [ok_or rbind]; [|by split].
  destruct (parse_traceparent_inv tp ts) as [Hr Hi]. split; [done|]. intros c Hc.
  destruct (Hi c Hc) as (Hok & _ & Htext). split; [done|]. split.
  - unfold traceparent_text. destruct Hok as [[Ht _] [Hs _] _ _ _].
    rewrite !join_cons by done. cbn [join].
    rewrite !zlen_app, !zlen_cons, !zlen_app, !zlen_cons, !zlen_app, !zlen_cons, !zlen_hex_bytes.
    unfold zlen. rewrite Ht, Hs. done.
  - exists tp. split; [|done]. by destruct (Hscan tp eq_refl).
Qed.

Lemma new_root_ok t s c :
  length t = 16%nat → length s = 8%nat → bytes_ok t → bytes_ok s →
  new_root t s = Some c → context_ok c.
Proof.
  intros. unfold new_root in *. destruct (is_all_zero t) eqn:?, (is_all_zero s) eqn:?; simplify_eq/=.
  constructor; cbn; try done.
Qed.

Lemma child_ok c s c' :
  length s = 8%nat → bytes_ok s → context_ok c → child c s = Some c' →
  context_ok c' ∧ trace_id c' = trace_id c ∧ tracestate c' = tracestate c.
Proof.
  intros ? ? [] H. unfold child in H. destruct (is_all_zero s) eqn:?; simplify_eq/=.
  by split_and!; [constructor|..].
Qed.
