(* ===== verification/Transport.v ===== *)
(** * Transports (src/src/transport.rs)

    The [Transport] trait as a class over a world [W]: the byte stream with the clock
    its user reads ([Instant::now]). Sockets, TLS and the clock are not code of this
    repository: [TransportLaws] states the documented behaviour the clients rely on.
    The trait's default [write_all] is modelled and shown to keep those laws, and a
    scripted transport instantiates them. *)

From S2P Require Import Prelude Errors Types Decode Properties Packets Frame Options.

Local Open Scope Z_scope.

(** Calls that return [std::io::Result]. *)
Abbreviation IoM W A := (st W io_error A).

Class Transport (W : Type) := {
  t_write : list Z → IoM W Z;
  t_write_all : list Z → IoM W unit;
  t_flush : IoM W unit;
  (** [read(&mut bytes[..n])]: the bytes placed in the buffer *)
  t_read : Z → IoM W (list Z);
  t_set_nonblocking : bool → IoM W unit;
  t_set_read_timeout : option Duration → IoM W unit;
  t_set_write_timeout : option Duration → IoM W unit;
  t_shutdown : IoM W unit;
  (** [Instant::now] *)
  t_now : W → Instant * W;
  (** the greatest [Instant] of the platform *)
  t_instant_max : Instant;
}.

(** A call that changes nothing the peer could see. *)
Definition quiet {W A} (sent : W → list Z) (m : IoM W A) : Prop :=
  ∀ w, returns (m w).1 ∧ sent (m w).2 = sent w.

(** [sent w]: the bytes the stream has accepted so far. *)
Class TransportLaws (W : Type) {T : Transport W} := {
  sent : W → list Z;
  write_law buf w :
    match t_write buf w with
    | (Ok n, w') => 0 ≤ n ≤ zlen buf ∧ sent w' = sent w ++ ztake n buf
    | (Err _, w') => sent w' = sent w
    | _ => False
    end;
  write_all_law buf w :
    match t_write_all buf w with
    | (Ok _, w') => sent w' = sent w ++ buf
    | (Err _, w') => ∃ part rest, buf = part ++ rest ∧ sent w' = sent w ++ part
    | _ => False
    end;
  read_law n w :
    0 ≤ n →
    match t_read n w with
    | (Ok l, w') => zlen l ≤ n ∧ bytes_ok l ∧ sent w' = sent w
    | (Err _, w') => sent w' = sent w
    | _ => False
    end;
  flush_law : quiet sent t_flush;
  set_nonblocking_law b : quiet sent (t_set_nonblocking b);
  set_read_timeout_law d : quiet sent (t_set_read_timeout d);
  set_write_timeout_law d : quiet sent (t_set_write_timeout d);
  shutdown_law : quiet sent t_shutdown;
  now_law w : sent (t_now w).2 = sent w;
}.

(** A call that delivers no bytes. *)
Definition deaf {W E A} (received : W → list Z) (m : st W E A) : Prop :=
  ∀ w, received (m w).2 = received w.

(** [received w]: the bytes that reads have delivered so far. *)
Class ReceiveLaws (W : Type) {T : Transport W} := {
  received : W → list Z;
  read_received n w :
    received (t_read n w).2 = received w ++ match (t_read n w).1 with Ok l => l | _ => [] end;
  write_deaf buf : deaf received (t_write buf);
  write_all_deaf buf : deaf received (t_write_all buf);
  flush_deaf : deaf received t_flush;
  set_nonblocking_deaf b : deaf received (t_set_nonblocking b);
  set_read_timeout_deaf d : deaf received (t_set_read_timeout d);
  set_write_timeout_deaf d : deaf received (t_set_write_timeout d);
  shutdown_deaf : deaf received t_shutdown;
  now_deaf w : received (t_now w).2 = received w;
}.

(** [Transport::write_all], the default method, over any [write]; [fuel] bounds the
    iterations of the [while] loop. *)
Fixpoint write_all_default {W} (write : list Z → IoM W Z) (fuel : nat) (buf : list Z)
  : IoM W unit :=
  match buf with
  | [] => ret ()
  | _ =>
      match fuel with
      | O => diverge
      | S fuel' =>
          let! r := attempt (write buf) in
          match r with
          | Ok 0 => fail (io_of_kind WriteZero)
          | Ok written =>
              if zlen buf <? written then panic "slice start out of range"
              else write_all_default write fuel' (zdrop written buf)
          | Err error =>
              if decide (io_kind error = Interrupted) then write_all_default write fuel' buf
              else fail error
          | Panic w => panic w
          | Diverge => diverge
          end
      end
  end.

Lemma zdrop_shorter {A} (l : list A) n : 0 < n ≤ zlen l → (length (zdrop n l) < length l)%nat.
Proof. unfold zdrop, zlen. intros. rewrite length_drop. lia. Qed.

Section write_all.
Context {W : Type} (write : list Z → IoM W Z) (sent : W → list Z).
Hypothesis Hwrite : ∀ buf w,
  match write buf w with
  | (Ok n, w') => 0 ≤ n ≤ zlen buf ∧ sent w' = sent w ++ ztake n buf
  | (Err _, w') => sent w' = sent w
  | _ => False
  end.

(** What one iteration does with the outcome of [write]. *)
Lemma write_all_default_step fuel b buf w :
  write_all_default write (S fuel) (b :: buf) w =
    match write (b :: buf) w with
    | (Ok n, w') =>
        if n =? 0 then (Err (io_of_kind WriteZero), w')
        else write_all_default write fuel (zdrop n (b :: buf)) w'
    | (Err e, w') =>
        if decide (io_kind e = Interrupted) then write_all_default write fuel (b :: buf) w'
        else (Err e, w')
    | (Panic s, w') => (Panic s, w')
    | (Diverge, w') => (Diverge, w')
    end.
Proof using Hwrite.
  cbn [write_all_default]. unfold bind at 1, attempt. specialize (Hwrite (b :: buf) w).
  destruct (write (b :: buf) w) as [[n|e|s|] w']; try done.
  - destruct Hwrite as [Hn _]. destruct n as [|n|n]; [done| |lia].
    by rewrite (proj2 (Z.ltb_ge _ _)) by lia.
  - by destruct (decide _).
Qed.

Lemma write_all_default_sent fuel buf w :
  match write_all_default write fuel buf w with
  | (Ok _, w') => sent w' = sent w ++ buf
  | (Err _, w') | (Diverge, w') => ∃ part rest, buf = part ++ rest ∧ sent w' = sent w ++ part
  | (Panic _, _) => False
  end.
Proof using Hwrite.
  revert buf w. induction fuel as [|fuel IH]; intros [|b buf] w.
  1,3: cbn; by rewrite app_nil_r.
  { exists [], (b :: buf). cbn. by rewrite app_nil_r. }
  rewrite write_all_default_step. specialize (Hwrite (b :: buf) w).
  destruct (write (b :: buf) w) as [[n|e|s|] w']; try done.
  - destruct Hwrite as [Hn Hs]. destruct (n =? 0) eqn:Hz.
    { exists (ztake n (b :: buf)), (zdrop n (b :: buf)). by rewrite ztake_zdrop. }
    specialize (IH (zdrop n (b :: buf)) w'). rewrite Hs in IH.
    assert (∀ l, (sent w ++ ztake n (b :: buf)) ++ l = sent w ++ (ztake n (b :: buf) ++ l)) as Ha
      by (intros; by rewrite app_assoc).
    destruct (write_all_default _ _ _ _) as [[]].
    + by rewrite IH, Ha, ztake_zdrop.
    + destruct IH as (part & rest & Hb & ->). rewrite Ha.
      exists (ztake n (b :: buf) ++ part), rest. by rewrite <- app_assoc, <- Hb, ztake_zdrop.
    + done.
    + destruct IH as (part & rest & Hb & ->). rewrite Ha.
      exists (ztake n (b :: buf) ++ part), rest. by rewrite <- app_assoc, <- Hb, ztake_zdrop.
  - destruct (decide _).
    + specialize (IH (b :: buf) w'). by rewrite Hwrite in IH.
    + exists [], (b :: buf). by rewrite app_nil_r.
Qed.

(** A writer that is never interrupted needs one iteration per byte at most. *)
Lemma write_all_default_ends fuel buf w :
  (∀ b w, match (write b w).1 with Err e => io_kind e ≠ Interrupted | _ => True end) →
  (length buf ≤ fuel)%nat → returns (write_all_default write fuel buf w).1.
Proof using Hwrite.
  intros Hi. revert buf w. induction fuel as [|fuel IH]; intros [|b buf] w Hf;
    try done; [cbn in Hf; lia|].
  rewrite write_all_default_step. pose proof (Hwrite (b :: buf) w) as Hw.
  specialize (Hi (b :: buf) w). destruct (write (b :: buf) w) as [[n|e|s|] w']; try done.
  - destruct Hw as [Hn _]. destruct (n =? 0) eqn:Hz; [done|]. apply Z.eqb_neq in Hz.
    apply IH. pose proof (zdrop_shorter (b :: buf) n). lia.
  - cbn in Hi. by rewrite decide_False by done.
Qed.
End write_all.

(** ** A scripted transport

    A concrete peer for the examples: what each read delivers, how writes go, and a
    clock that advances with every silent read. *)

Inductive read_event : Type :=
  | Deliver (bytes : list Z)
  | Silence (d : Duration).   (* the read times out after [d] *)

Record Script := mkScript {
  sc_sent : list Z;
  sc_reads : list read_event;
  sc_write_error : option ErrorKind;
  sc_clock : Instant;
}.

Definition script_write (buf : list Z) : IoM Script Z := λ w,
  match sc_write_error w with
  | Some k => (Err (io_of_kind k), w)
  | None => (Ok (zlen buf), mkScript (sc_sent w ++ buf) (sc_reads w) None (sc_clock w))
  end.

Definition script_write_all (buf : list Z) : IoM Script unit :=
  let! _ := script_write buf in ret ().

Definition script_read (n : Z) : IoM Script (list Z) := λ w,
  match sc_reads w with
  | [] => (Ok [], w)
  | Deliver bytes :: reads =>
      (Ok (map as_u8 (ztake n bytes)),
       mkScript (sc_sent w)
         (if decide (zdrop n bytes = []) then reads else Deliver (zdrop n bytes) :: reads)
         (sc_write_error w) (sc_clock w))
  | Silence d :: reads =>
      (Err (io_of_kind TimedOut),
       mkScript (sc_sent w) reads (sc_write_error w) (sc_clock w + d))
  end.

#[export] Instance script_transport : Transport Script := {
  t_write := script_write;
  t_write_all := script_write_all;
  t_flush := ret ();
  t_read := script_read;
  t_set_nonblocking _ := ret ();
  t_set_read_timeout _ := ret ();
  t_set_write_timeout _ := ret ();
  t_shutdown := ret ();
  t_now w := (sc_clock w, w);
  t_instant_max := 1000000000000000;
}.

Lemma bytes_ok_as_u8 l : bytes_ok (map as_u8 l).
Proof.
  induction l as [|x l IH]; cbn [map]; [apply Forall_nil_2|].
  apply Forall_cons_2; [|done]. unfold is_u8, as_u8. apply Z.mod_pos_bound. lia.
Qed.

Lemma ztake_all {A} (l : list A) : ztake (zlen l) l = l.
Proof. unfold ztake, zlen. rewrite Nat2Z.id. apply firstn_all. Qed.

Lemma zlen_ztake_le {A} n (l : list A) : 0 ≤ n → zlen (ztake n l) ≤ n.
Proof. intros. unfold zlen, ztake. rewrite length_take. lia. Qed.

#[export] Program Instance script_laws : TransportLaws Script := {| sent := sc_sent |}.
Next Obligation.
  intros buf w. cbn. unfold script_write. destruct (sc_write_error w); [done|].
  rewrite ztake_all. pose proof (zlen_nonneg buf). split; [lia|done].
Qed.
Next Obligation.
  intros buf w. cbn. unfold script_write_all, script_write, bind.
  destruct (sc_write_error w); [|done]. exists [], buf. by rewrite app_nil_r.
Qed.
Next Obligation.
  intros n w Hn. cbn. unfold script_read. destruct (sc_reads w) as [|[bytes|d] reads]; cbn; [|split|done].
  - split_and!; [done|constructor|done].
  - unfold zlen. rewrite length_map. by apply zlen_ztake_le.
  - split; [|done]. apply bytes_ok_as_u8.
Qed.
Solve Obligations with done.

(** C35. The default [write_all]: over any [write] that accepts between none and all
    of the bytes it is offered, success means every byte was sent once and in order,
    and a failure leaves a prefix sent; it never reads past the buffer. If [write] is
    never interrupted it ends within one iteration per byte. *)
Theorem write_all_default_delivers {W} (write : list Z → IoM W Z) (sent : W → list Z) fuel buf w :
  (∀ buf w,
    match write buf w with
    | (Ok n, w') => 0 ≤ n ≤ zlen buf ∧ sent w' = sent w ++ ztake n buf
    | (Err _, w') => sent w' = sent w
    | _ => False
    end) →
  match write_all_default write fuel buf w with
  | (Ok _, w') => sent w' = sent w ++ buf
  | (Err _, w') | (Diverge, w') => ∃ part rest, buf = part ++ rest ∧ sent w' = sent w ++ part
  | (Panic _, _) => False
  end
  ∧ ((∀ b w, match (write b w).1 with Err e => io_kind e ≠ Interrupted | _ => True end) →
     (length buf ≤ fuel)%nat → returns (write_all_default write fuel buf w).1).
Proof.
  intros Hw. split; [by apply write_all_default_sent|].
  by apply (write_all_default_ends write sent).
Qed.

(** A writer that takes at most three bytes at a time. *)
Definition short_write (buf : list Z) : IoM (list Z) Z :=
  λ w, (Ok (Z.min 3 (zlen buf)), w ++ ztake (Z.min 3 (zlen buf)) buf).

Lemma write_all_default_delivers_witness :
  write_all_default short_write 10 [1; 2; 3; 4; 5; 6; 7] [0] = (Ok (), [0; 1; 2; 3; 4; 5; 6; 7])
  ∧ returns (write_all_default short_write 10 [1; 2; 3; 4; 5; 6; 7] [0]).1.
Proof.
  split; [vm_compute; reflexivity|].
  apply (write_all_default_delivers short_write (λ w, w) 10 [1; 2; 3; 4; 5; 6; 7] [0]).
  - intros buf w. unfold short_write. pose proof (zlen_nonneg buf). split; [lia|done].
  - intros b w. exact I.
  - cbn. lia.
Defined.

(** ** A transport with a log of what was read

    Any transport can be given one: the laws of both classes hold of it. *)

Record Logged (W : Type) := mkLogged { lg_world : W; lg_received : list Z }.
Arguments mkLogged {W}.
Arguments lg_world {W}.
Arguments lg_received {W}.

Section logged.
Context {W : Type} {T : Transport W}.

Definition logged {A} (m : IoM W A) : IoM (Logged W) A := λ w,
  let '(r, w') := m (lg_world w) in (r, mkLogged w' (lg_received w)).

Definition logged_read (n : Z) : IoM (Logged W) (list Z) := λ w,
  let '(r, w') := t_read n (lg_world w) in
  (r, mkLogged w' (lg_received w ++ match r with Ok l => l | _ => [] end)).

#[export] Instance logged_transport : Transport (Logged W) := {
  t_write buf := logged (t_write buf);
  t_write_all buf := logged (t_write_all buf);
  t_flush := logged t_flush;
  t_read := logged_read;
  t_set_nonblocking b := logged (t_set_nonblocking b);
  t_set_read_timeout d := logged (t_set_read_timeout d);
  t_set_write_timeout d := logged (t_set_write_timeout d);
  t_shutdown := logged t_shutdown;
  t_now w := let '(t, w') := t_now (lg_world w) in (t, mkLogged w' (lg_received w));
  t_instant_max := t_instant_max;
}.

Lemma logged_deaf {A} (m : IoM W A) : deaf lg_received (logged m).
Proof. intros w. unfold logged. by destruct (m _). Qed.

#[export] Instance logged_receives : ReceiveLaws (Logged W).
Proof.
  refine {| received := lg_received |}; intros; cbn; try apply logged_deaf.
  - unfold logged_read. by destruct (t_read _ _).
  - by destruct (t_now _).
Defined.

Lemma logged_quiet {A} {L : TransportLaws W} (m : IoM W A) :
  quiet sent m → quiet (λ w, sent (lg_world w)) (logged m).
Proof. intros Hq w. unfold logged. specialize (Hq (lg_world w)). by destruct (m _). Qed.

#[export] Instance logged_laws {L : TransportLaws W} : TransportLaws (Logged W).
Proof.
  refine {| sent := λ w, sent (lg_world w) |}; intros; cbn.
  - pose proof (write_law buf (lg_world w)). unfold logged. by destruct (t_write _ _) as [[] ?].
  - pose proof (write_all_law buf (lg_world w)). unfold logged. by destruct (t_write_all _ _) as [[] ?].
  - pose proof (read_law n (lg_world w) ltac:(done)). unfold logged_read. by destruct (t_read _ _) as [[] ?].
  - apply logged_quiet, flush_law.
  - apply logged_quiet, set_nonblocking_law.
  - apply logged_quiet, set_read_timeout_law.
  - apply logged_quiet, set_write_timeout_law.
  - apply logged_quiet, shutdown_law.
  - pose proof (now_law (lg_world w)). by destruct (t_now _).
Defined.
End logged.
