(* ===== verification/Client.v ===== *)
(** * The blocking client (src/src/client.rs)

    [MqttClient] over any [Transport]. Every method is a state transformer on the
    client record, whose [stream] field holds the transport's world. A loop that waits
    for the peer takes [fuel], the number of its iterations; a run that needs more is
    [Diverge], and the theorems about it say how much is enough. *)

From S2P Require Import Prelude Errors Utf8 Str Types Decode Topic Properties Packets Connect.
From S2P Require Import Publish Subscribe Ping Frame Options Transport.

Local Open Scope Z_scope.

Record MqttClient (W : Type) := mkMqttClient {
  cl_stream : W;
  cl_frame_reader : FrameReader;
  cl_incoming : list PublishPacket;
  cl_max_incoming_messages : Z;
  cl_next_packet_id : Z;
  cl_keep_alive_secs : Z;
  cl_ack_timeout : Duration;
  cl_max_outbound_packet_size : Z;
  cl_server_capabilities : ServerCapabilities;
  cl_last_read_at : Instant;
  cl_last_write_at : Instant;
  cl_ping_sent_at : option Instant;
  cl_connected : bool;
}.
Arguments mkMqttClient {W}.
Arguments cl_stream {W}.
Arguments cl_frame_reader {W}.
Arguments cl_incoming {W}.
Arguments cl_max_incoming_messages {W}.
Arguments cl_next_packet_id {W}.
Arguments cl_keep_alive_secs {W}.
Arguments cl_ack_timeout {W}.
Arguments cl_max_outbound_packet_size {W}.
Arguments cl_server_capabilities {W}.
Arguments cl_last_read_at {W}.
Arguments cl_last_write_at {W}.
Arguments cl_ping_sent_at {W}.
Arguments cl_connected {W}.

Definition Deadline : Type := Instant * string.

(** [ping_interval] *)
Definition ping_interval (keep_alive_secs : Z) : option Duration :=
  if negb (keep_alive_secs =? 0) then Some (from_secs keep_alive_secs) else None.

(** [validate_ack_code] *)
Definition validate_ack_code (packet : string) (reason_code : Z) : Result unit :=
  if 0x80 <=? reason_code then Err (AckRejected packet reason_code) else Ok ().

(** [iter().try_for_each(..)] *)
Fixpoint try_for_each_code (packet : string) (reason_codes : list Z) : Result unit :=
  match reason_codes with
  | [] => Ok ()
  | c :: rest => let? _ := validate_ack_code packet c in try_for_each_code packet rest
  end.

(** [validate_ack_codes] *)
Definition validate_ack_codes (packet : string) (reason_codes : list Z) (expected : Z)
  : Result unit :=
  if negb (zlen reason_codes =? expected)
  then Err (MalformedPacket "ack reason code count mismatch")
  else try_for_each_code packet reason_codes.

(** [map_write_result] *)
Definition map_write_result (r : io_Result unit) (operation : string) : Result unit :=
  match r with
  | Err error =>
      if decide (io_kind error = TimedOut ∨ io_kind error = WouldBlock)
      then Err (Timeout operation) else Err (Io error)
  | Ok _ => Ok ()
  | Panic w => Panic w
  | Diverge => Diverge
  end.

(** [a.duration_since(b)], [a.saturating_duration_since(b)] *)
Definition duration_since (a b : Instant) : Duration := Z.max 0 (a - b).

Section client.
Context {W : Type} {T : Transport W}.

Abbreviation Client := (MqttClient W).
Abbreviation ClientM A := (M Client A).

(** *** Field assignments *)

Definition set_stream (w : W) (c : Client) : Client :=
  mkMqttClient w (cl_frame_reader c) (cl_incoming c) (cl_max_incoming_messages c)
    (cl_next_packet_id c) (cl_keep_alive_secs c) (cl_ack_timeout c)
    (cl_max_outbound_packet_size c) (cl_server_capabilities c) (cl_last_read_at c)
    (cl_last_write_at c) (cl_ping_sent_at c) (cl_connected c).
Definition set_frame_reader (f : FrameReader) (c : Client) : Client :=
  mkMqttClient (cl_stream c) f (cl_incoming c) (cl_max_incoming_messages c)
    (cl_next_packet_id c) (cl_keep_alive_secs c) (cl_ack_timeout c)
    (cl_max_outbound_packet_size c) (cl_server_capabilities c) (cl_last_read_at c)
    (cl_last_write_at c) (cl_ping_sent_at c) (cl_connected c).
Definition set_incoming (q : list PublishPacket) (c : Client) : Client :=
  mkMqttClient (cl_stream c) (cl_frame_reader c) q (cl_max_incoming_messages c)
    (cl_next_packet_id c) (cl_keep_alive_secs c) (cl_ack_timeout c)
    (cl_max_outbound_packet_size c) (cl_server_capabilities c) (cl_last_read_at c)
    (cl_last_write_at c) (cl_ping_sent_at c) (cl_connected c).
Definition set_next_packet_id (n : Z) (c : Client) : Client :=
  mkMqttClient (cl_stream c) (cl_frame_reader c) (cl_incoming c) (cl_max_incoming_messages c)
    n (cl_keep_alive_secs c) (cl_ack_timeout c)
    (cl_max_outbound_packet_size c) (cl_server_capabilities c) (cl_last_read_at c)
    (cl_last_write_at c) (cl_ping_sent_at c) (cl_connected c).
Definition set_keep_alive (n : Z) (c : Client) : Client :=
  mkMqttClient (cl_stream c) (cl_frame_reader c) (cl_incoming c) (cl_max_incoming_messages c)
    (cl_next_packet_id c) n (cl_ack_timeout c)
    (cl_max_outbound_packet_size c) (cl_server_capabilities c) (cl_last_read_at c)
    (cl_last_write_at c) (cl_ping_sent_at c) (cl_connected c).
Definition set_max_outbound (n : Z) (c : Client) : Client :=
  mkMqttClient (cl_stream c) (cl_frame_reader c) (cl_incoming c) (cl_max_incoming_messages c)
    (cl_next_packet_id c) (cl_keep_alive_secs c) (cl_ack_timeout c)
    n (cl_server_capabilities c) (cl_last_read_at c)
    (cl_last_write_at c) (cl_ping_sent_at c) (cl_connected c).
Definition set_capabilities (s : ServerCapabilities) (c : Client) : Client :=
  mkMqttClient (cl_stream c) (cl_frame_reader c) (cl_incoming c) (cl_max_incoming_messages c)
    (cl_next_packet_id c) (cl_keep_alive_secs c) (cl_ack_timeout c)
    (cl_max_outbound_packet_size c) s (cl_last_read_at c)
    (cl_last_write_at c) (cl_ping_sent_at c) (cl_connected c).
Definition set_last_read_at (t : Instant) (c : Client) : Client :=
  mkMqttClient (cl_stream c) (cl_frame_reader c) (cl_incoming c) (cl_max_incoming_messages c)
    (cl_next_packet_id c) (cl_keep_alive_secs c) (cl_ack_timeout c)
    (cl_max_outbound_packet_size c) (cl_server_capabilities c) t
    (cl_last_write_at c) (cl_ping_sent_at c) (cl_connected c).
Definition set_last_write_at (t : Instant) (c : Client) : Client :=
  mkMqttClient (cl_stream c) (cl_frame_reader c) (cl_incoming c) (cl_max_incoming_messages c)
    (cl_next_packet_id c) (cl_keep_alive_secs c) (cl_ack_timeout c)
    (cl_max_outbound_packet_size c) (cl_server_capabilities c) (cl_last_read_at c)
    t (cl_ping_sent_at c) (cl_connected c).
Definition set_ping_sent_at (t : option Instant) (c : Client) : Client :=
  mkMqttClient (cl_stream c) (cl_frame_reader c) (cl_incoming c) (cl_max_incoming_messages c)
    (cl_next_packet_id c) (cl_keep_alive_secs c) (cl_ack_timeout c)
    (cl_max_outbound_packet_size c) (cl_server_capabilities c) (cl_last_read_at c)
    (cl_last_write_at c) t (cl_connected c).
Definition set_connected (b : bool) (c : Client) : Client :=
  mkMqttClient (cl_stream c) (cl_frame_reader c) (cl_incoming c) (cl_max_incoming_messages c)
    (cl_next_packet_id c) (cl_keep_alive_secs c) (cl_ack_timeout c)
    (cl_max_outbound_packet_size c) (cl_server_capabilities c) (cl_last_read_at c)
    (cl_last_write_at c) (cl_ping_sent_at c) b.

(** *** The transport, the clock and the frame reader *)

(** A transport call whose [io::Result] the caller matches on. *)
Definition on_stream {A} (m : IoM W A) : ClientM (io_Result A) := λ c,
  let '(r, w) := m (cl_stream c) in
  (match r with
   | Ok a => Ok (Ok a)
   | Err e => Ok (Err e)
   | Panic s => Panic s
   | Diverge => Diverge
   end, set_stream w c).

(** A transport call followed by [?]. *)
Definition try_stream {A} (m : IoM W A) : ClientM A :=
  let! r := on_stream m in lift (from_io r).

(** [Instant::now()] *)
Definition now : ClientM Instant := λ c,
  let '(t, w) := t_now (cl_stream c) in (Ok t, set_stream w c).

Definition on_reader {A} (m : FrameM A) : ClientM A := λ c,
  let '(r, f) := m (cl_frame_reader c) in (r, set_frame_reader f c).

(** [self.connected = false; return Err(error)] *)
Definition fail_closed {A} (error : Error) : ClientM A :=
  let! _ := modify (set_connected false) in fail error.

(** *** The methods *)

(** [deadline_after] *)
Definition deadline_after (timeout : Duration) (operation : string) : ClientM Deadline :=
  let! t := now in
  lift (ok_or ((λ deadline, (deadline, operation)) <$> instant_checked_add t_instant_max t timeout)
          (InvalidOptions "timeout is too large")).

(** [MqttClient::ensure_connected] *)
Definition ensure_connected : ClientM unit :=
  let! self := get in
  if cl_connected self then ret () else fail ClientClosed.

(** [MqttClient::send_encoded] *)
Definition send_encoded (bytes : list Z) (operation : string) : ClientM unit :=
  let! self := get in
  if cl_max_outbound_packet_size self <? zlen bytes
  then fail (PacketTooLarge (zlen bytes) (cl_max_outbound_packet_size self))
  else
    let! r := on_stream (t_write_all bytes) in
    match map_write_result r operation with
    | Err error => fail_closed error
    | Panic w => panic w
    | Diverge => diverge
    | Ok _ =>
        let! r := on_stream t_flush in
        match map_write_result r operation with
        | Err error => fail_closed error
        | Panic w => panic w
        | Diverge => diverge
        | Ok _ =>
            let! t := now in
            modify (set_last_write_at t)
        end
    end.

(** [MqttClient::send_puback] *)
Definition send_puback (packet_id : Z) : ClientM unit :=
  let! bytes := lift (PubAckPacket_encode (mkPubAckPacket packet_id 0x00)) in
  send_encoded bytes "PUBACK".

(** [MqttClient::next_packet_id] *)
Definition next_packet_id : ClientM Z :=
  let! self := get in
  let id := cl_next_packet_id self in
  let! _ := modify (set_next_packet_id (as_u16 (cl_next_packet_id self + 1))) in
  let! self := get in
  let! _ := if cl_next_packet_id self =? 0 then modify (set_next_packet_id 1) else ret () in
  ret id.

(** [MqttClient::accept_publish] *)
Definition accept_publish (packet : PublishPacket) : ClientM unit :=
  let! self := get in
  if cl_max_incoming_messages self <=? zlen (cl_incoming self)
  then fail (QueueFull "incoming message")
  else
    let! _ := modify (λ c, set_incoming (cl_incoming c ++ [packet]) c) in
    if bool_decide (pub_qos packet = AtLeastOnce) then
      let! packet_id := lift (ok_or (pub_packet_id packet)
                          (MalformedPacket "QoS 1 PUBLISH missing packet identifier")) in
      send_puback packet_id
    else ret ().

(** [MqttClient::service_timers] *)
Definition service_timers (deadline : option Deadline) : ClientM unit :=
  let! now_ := now in
  let! _ := match deadline with
            | Some (at_, operation) => fail_if (at_ <=? now_) (Timeout operation)
            | None => ret ()
            end in
  let! self := get in
  if negb (cl_connected self) then ret ()
  else match cl_ping_sent_at self with
  | Some sent_at =>
      if cl_ack_timeout self <=? duration_since now_ sent_at
      then fail_closed KeepAliveTimeout
      else ret ()
  | None =>
      match ping_interval (cl_keep_alive_secs self) with
      | Some interval =>
          if interval <=? duration_since now_ (cl_last_write_at self) then
            let! _ := send_encoded PINGREQ_BYTES "keepalive" in
            let! t := now in
            modify (set_ping_sent_at (Some t))
          else ret ()
      | None => ret ()
      end
  end.

(** [MqttClient::next_read_timeout] *)
Definition next_read_timeout (deadline : option Deadline) : ClientM (option Duration) :=
  let! now_ := now in
  let! self := get in
  let wake_at := fst <$> deadline in
  let wake_at :=
    if cl_connected self then
      let timer_at :=
        match cl_ping_sent_at self with
        | Some sent_at => instant_checked_add t_instant_max sent_at (cl_ack_timeout self)
        | None =>
            match ping_interval (cl_keep_alive_secs self) with
            | Some interval => instant_checked_add t_instant_max (cl_last_write_at self) interval
            | None => None
            end
        end in
      match timer_at with
      | Some timer_at =>
          Some match wake_at with
               | Some current => Z.min current timer_at
               | None => timer_at
               end
      | None => wake_at
      end
    else wake_at in
  ret ((λ at_, Z.max (duration_since at_ now_) (from_millis 1)) <$> wake_at).

(** The socket read of one iteration of [read_packet_until]; an [Ok] lets the loop
    go on. *)
Definition read_more : ClientM unit :=
  let! self := get in
  let capacity := remaining_capacity (cl_frame_reader self) in
  if capacity =? 0 then
    fail_closed (PacketTooLarge (saturating_add (max_packet_size (cl_frame_reader self)) 1)
                   (max_packet_size (cl_frame_reader self)))
  else
    let read_len := Z.min capacity 8192 in
    let! r := on_stream (t_read read_len) in
    match r with
    | Ok [] => fail_closed ConnectionClosed
    | Ok read =>
        let! t := now in
        let! _ := modify (set_last_read_at t) in
        on_reader (FrameReader_push read)
    | Err error =>
        if decide (io_kind error = Interrupted) then ret ()
        else if decide (io_kind error = TimedOut ∨ io_kind error = WouldBlock) then ret ()
        else fail_closed (Io error)
    | Panic w => panic w
    | Diverge => diverge
    end.

(** [MqttClient::read_packet_until] *)
Fixpoint read_packet_until (fuel : nat) (deadline : option Deadline) : ClientM Packet :=
  match fuel with
  | O => diverge
  | S fuel' =>
      let! decoded := attempt (on_reader try_decode) in
      match decoded with
      | Ok (Some packet) =>
          let! t := now in
          let! _ := modify (set_last_read_at t) in
          let! _ := match packet with
                    | PktPingResp => modify (set_ping_sent_at None)
                    | _ => ret ()
                    end in
          ret packet
      | Err error => fail_closed error
      | Panic w => panic w
      | Diverge => diverge
      | Ok None =>
          let! _ := service_timers deadline in
          let! timeout := next_read_timeout deadline in
          let! r := on_stream (t_set_read_timeout timeout) in
          match r with
          | Err error => fail_closed (Io error)
          | Panic w => panic w
          | Diverge => diverge
          | Ok _ =>
              let! _ := read_more in
              read_packet_until fuel' deadline
          end
      end
  end.

(** [MqttClient::ack_deadline] *)
Definition ack_deadline (packet : string) : ClientM Deadline :=
  let! self := get in deadline_after (cl_ack_timeout self) packet.

(** [MqttClient::read_ack_packet] *)
Definition read_ack_packet (fuel : nat) (deadline : Deadline) : ClientM Packet :=
  let! r := attempt (read_packet_until fuel (Some deadline)) in
  match r with
  | Err (Timeout operation) => fail_closed (Timeout operation)
  | r => lift r
  end.

(** [MqttClient::accept_publish_during_ack] *)
Definition accept_publish_during_ack (packet : PublishPacket) : ClientM unit :=
  let! r := attempt (accept_publish packet) in
  match r with
  | Err (QueueFull queue) => fail_closed (QueueFull queue)
  | r => lift r
  end.

(** [MqttClient::server_disconnect] *)
Definition server_disconnect (packet : DisconnectPacket) : ClientM unit :=
  let! _ := modify (set_connected false) in
  if dis_reason_code packet =? 0x00 then fail ConnectionClosed
  else fail (ServerDisconnected (dis_reason_code packet)).

(** [MqttClient::protocol_failure] *)
Definition protocol_failure {A} (message : string) : ClientM A :=
  fail_closed (UnexpectedPacket message).

(** The [loop] of [wait_for_puback]. *)
Fixpoint wait_for_puback_loop (fuel : nat) (deadline : Deadline) (packet_id : Z) : ClientM unit :=
  match fuel with
  | O => diverge
  | S fuel' =>
      let! packet := read_ack_packet fuel deadline in
      match packet with
      | PktPubAck ack =>
          if pa_packet_id ack =? packet_id
          then lift (validate_ack_code "PUBACK" (pa_reason_code ack))
          else protocol_failure "unexpected packet while awaiting PUBACK"
      | PktPublish packet =>
          let! _ := accept_publish_during_ack packet in
          wait_for_puback_loop fuel' deadline packet_id
      | PktDisconnect packet => server_disconnect packet
      | PktPingResp => wait_for_puback_loop fuel' deadline packet_id
      | _ => protocol_failure "unexpected packet while awaiting PUBACK"
      end
  end.

(** [MqttClient::wait_for_puback] *)
Definition wait_for_puback (fuel : nat) (packet_id : Z) : ClientM unit :=
  let! deadline := ack_deadline "PUBACK" in
  wait_for_puback_loop fuel deadline packet_id.

(** [if matches!(result, Err(Error::MalformedPacket(_))) { self.connected = false }] *)
Definition close_if_malformed (result : Result unit) : ClientM unit :=
  let! _ := match result with
            | Err (MalformedPacket _) => modify (set_connected false)
            | _ => ret ()
            end in
  lift result.

(** The [loop] of [wait_for_suback]. *)
Fixpoint wait_for_suback_loop (fuel : nat) (deadline : Deadline) (packet_id : Z)
    (requested_qos : QoS) : ClientM unit :=
  match fuel with
  | O => diverge
  | S fuel' =>
      let! packet := read_ack_packet fuel deadline in
      match packet with
      | PktSubAck ack =>
          if sa_packet_id ack =? packet_id
          then close_if_malformed (validate_suback_codes (sa_reason_codes ack) [requested_qos])
          else protocol_failure "unexpected packet while awaiting SUBACK"
      | PktPublish packet =>
          let! _ := accept_publish_during_ack packet in
          wait_for_suback_loop fuel' deadline packet_id requested_qos
      | PktDisconnect packet => server_disconnect packet
      | PktPingResp => wait_for_suback_loop fuel' deadline packet_id requested_qos
      | _ => protocol_failure "unexpected packet while awaiting SUBACK"
      end
  end.

(** [MqttClient::wait_for_suback] *)
Definition wait_for_suback (fuel : nat) (packet_id : Z) (requested_qos : QoS) : ClientM unit :=
  let! deadline := ack_deadline "SUBACK" in
  wait_for_suback_loop fuel deadline packet_id requested_qos.

(** The [loop] of [wait_for_unsuback]. *)
Fixpoint wait_for_unsuback_loop (fuel : nat) (deadline : Deadline) (packet_id : Z) : ClientM unit :=
  match fuel with
  | O => diverge
  | S fuel' =>
      let! packet := read_ack_packet fuel deadline in
      match packet with
      | PktUnsubAck ack =>
          if ua_packet_id ack =? packet_id
          then close_if_malformed (validate_ack_codes "UNSUBACK" (ua_reason_codes ack) 1)
          else protocol_failure "unexpected packet while awaiting UNSUBACK"
      | PktPublish packet =>
          let! _ := accept_publish_during_ack packet in
          wait_for_unsuback_loop fuel' deadline packet_id
      | PktDisconnect packet => server_disconnect packet
      | PktPingResp => wait_for_unsuback_loop fuel' deadline packet_id
      | _ => protocol_failure "unexpected packet while awaiting UNSUBACK"
      end
  end.

(** [MqttClient::wait_for_unsuback] *)
Definition wait_for_unsuback (fuel : nat) (packet_id : Z) : ClientM unit :=
  let! deadline := ack_deadline "UNSUBACK" in
  wait_for_unsuback_loop fuel deadline packet_id.

(** [MqttClient::publish] *)
Definition publish (fuel : nat) (topic payload : list Z) (options : PublishOptions)
  : ClientM unit :=
  let! _ := ensure_connected in
  let! _ := lift (validate_topic_name topic) in
  let! self := get in
  let! _ := lift (validate_publish (cl_server_capabilities self) (po_qos options)
                    (po_retain options)) in
  let! packet_id :=
    if negb (bool_decide (po_qos options = AtMostOnce))
    then let! id := next_packet_id in ret (Some id)
    else ret None in
  let packet := mkPublishPacket topic packet_id payload (po_qos options) (po_retain options)
                  false (po_properties options) in
  let! bytes := lift (PublishPacket_encode packet) in
  let! _ := send_encoded bytes "publish" in
  match packet_id with
  | Some packet_id => wait_for_puback fuel packet_id
  | None => ret ()
  end.

(** [MqttClient::publish_json]; [to_vec] is the serializer. *)
Definition publish_json {P} (to_vec : P → result string (list Z)) (fuel : nat)
    (topic : list Z) (payload : P) (options : PublishOptions) : ClientM unit :=
  let! bytes := lift (map_err Serialize (to_vec payload)) in
  publish fuel topic bytes options.

(** [MqttClient::subscribe] *)
Definition subscribe (fuel : nat) (filter : list Z) (qos : QoS) : ClientM unit :=
  let! _ := ensure_connected in
  let! self := get in
  let! _ := lift (validate_subscription_filter (cl_server_capabilities self) filter) in
  let! packet_id := next_packet_id in
  let! bytes := lift (SubscribePacket_encode
                        (mkSubscribePacket packet_id [(filter, qos)] properties_new)) in
  let! _ := send_encoded bytes "subscribe" in
  wait_for_suback fuel packet_id qos.

(** [MqttClient::unsubscribe] *)
Definition unsubscribe (fuel : nat) (filter : list Z) : ClientM unit :=
  let! _ := ensure_connected in
  let! _ := lift (validate_topic_filter filter) in
  let! packet_id := next_packet_id in
  let! bytes := lift (UnsubscribePacket_encode
                        (mkUnsubscribePacket packet_id [filter] properties_new)) in
  let! _ := send_encoded bytes "unsubscribe" in
  wait_for_unsuback fuel packet_id.

(** [self.incoming.pop_front()] *)
Definition pop_front : ClientM (option PublishPacket) :=
  let! self := get in
  match cl_incoming self with
  | [] => ret None
  | m :: rest => let! _ := modify (set_incoming rest) in ret (Some m)
  end.

(** The [loop] of [MqttClient::recv]. *)
Fixpoint recv_loop (fuel : nat) : ClientM (option PublishPacket) :=
  match fuel with
  | O => diverge
  | S fuel' =>
      let! packet := read_packet_until fuel None in
      match packet with
      | PktPublish packet =>
          let! _ := accept_publish packet in
          pop_front
      | PktDisconnect packet =>
          let! _ := modify (set_connected false) in
          if dis_reason_code packet =? 0x00 then ret None
          else fail (ServerDisconnected (dis_reason_code packet))
      | PktPingResp => recv_loop fuel'
      | _ => protocol_failure "unexpected packet while receiving"
      end
  end.

(** [MqttClient::recv] *)
Definition recv (fuel : nat) : ClientM (option PublishPacket) :=
  let! _ := ensure_connected in
  let! message := pop_front in
  match message with
  | Some message => ret (Some message)
  | None => recv_loop fuel
  end.

(** [MqttClient::disconnect] *)
Definition disconnect : ClientM unit :=
  let! self := get in
  let! _ :=
    if cl_connected self then
      let! bytes := lift (DisconnectPacket_encode (mkDisconnectPacket 0x00)) in
      let! _ := send_encoded bytes "disconnect" in
      modify (set_connected false)
    else ret () in
  try_stream t_shutdown.

(** [Incoming]: the blocking iterator. *)
Record Incoming := mkIncoming { in_client : Client; in_done : bool }.

(** [MqttClient::incoming] *)
Definition incoming (c : Client) : Incoming := mkIncoming c false.

(** [Incoming::next] *)
Definition incoming_next (fuel : nat) : M Incoming (option (Result PublishPacket)) := λ self,
  if in_done self then (Ok None, self)
  else
    let '(r, c) := recv fuel (in_client self) in
    match r with
    | Ok (Some message) => (Ok (Some (Ok message)), mkIncoming c (in_done self))
    | Ok None => (Ok None, mkIncoming c true)
    | Err error => (Ok (Some (Err error)), mkIncoming c true)
    | Panic w => (Panic w, mkIncoming c (in_done self))
    | Diverge => (Diverge, mkIncoming c (in_done self))
    end.

(** *** The handshake *)

(** The client [connect_with] builds before the handshake. *)
Definition new_client (stream : W) (now_ : Instant) (options : ConnectOptions) : Client :=
  mkMqttClient stream (FrameReader_with_max_packet_size (opt_max_packet_size options)) []
    (opt_max_incoming_messages options) 1 (opt_keep_alive_secs options)
    (opt_ack_timeout options) MQTT_MAX_PACKET_SIZE capabilities_default now_ now_ None false.

(** [u32::try_from(usize)] *)
Definition u32_try_from (v : Z) : option Z := if v <=? 4294967295 then Some v else None.

(** The CONNECT packet of [connect_with]. *)
Definition connect_packet (options : ConnectOptions) : Result ConnectPacket :=
  let? advertised_max := ok_or (u32_try_from (opt_max_packet_size options))
                           (InvalidOptions "maximum packet size exceeds u32") in
  let properties := properties_new in
  let properties := properties_push properties MaximumPacketSize (U32 advertised_max) in
  let properties := properties_push properties ReceiveMaximum
    (U16 (as_u16 (Z.min (opt_max_incoming_messages options) u16_max))) in
  Ok (mkConnectPacket 5 (opt_clean_start options) (opt_keep_alive_secs options)
        (opt_client_id options) (opt_username options) (opt_password options) properties).

(** [connect_with] from the CONNECT packet to the end. *)
Definition handshake (fuel : nat) (deadline : Deadline) (options : ConnectOptions)
  : ClientM unit :=
  let! connect := lift (connect_packet options) in
  let! bytes := lift (ConnectPacket_encode connect) in
  let! _ := send_encoded bytes "connect" in
  let! packet := read_packet_until fuel (Some deadline) in
  let! ack := match packet with
              | PktConnAck ack => ret ack
              | _ => fail (UnexpectedPacket "expected CONNACK")
              end in
  let! _ := fail_if (negb (ca_reason_code ack =? 0x00)) (ConnectionRefused (ca_reason_code ack)) in
  let! _ := lift (validate_connack (con_client_id connect) (con_clean_start connect) ack) in
  let! caps := lift (from_connack ack) in
  let! _ := modify (set_capabilities caps) in
  let! _ := match get_u16 (ca_properties ack) ServerKeepAlive with
            | Some server_keep_alive => modify (set_keep_alive server_keep_alive)
            | None => ret ()
            end in
  let! _ := match get_u32 (ca_properties ack) MaximumPacketSize with
            | Some server_maximum =>
                let! _ := fail_if (server_maximum =? 0)
                            (MalformedPacket "server maximum packet size must be non-zero") in
                modify (set_max_outbound server_maximum)
            | None => ret ()
            end in
  let! _ := modify (set_connected true) in
  let! _ := try_stream (t_set_read_timeout None) in
  let! self := get in
  try_stream (t_set_write_timeout (Some (cl_ack_timeout self))).

(** [MqttClient::connect_with]: on success the connected client, which owns the
    stream. *)
Definition connect_with (fuel : nat) (options : ConnectOptions) (stream : W) : Result Client :=
  (* the calls before the client exists act on the stream alone *)
  let '(t0, w) := t_now stream in
  let? _ := ConnectOptions_validate t_instant_max t0 options in
  let '(t1, w) := t_now w in
  let? deadline :=
    ok_or ((λ at_, (at_, "connect"%string)) <$> instant_checked_add t_instant_max t1
             (opt_connect_timeout options))
          (InvalidOptions "timeout is too large") in
  let '(r, w) := t_set_nonblocking false w in
  let? _ := from_io r in
  let '(r, w) := t_set_read_timeout (Some (opt_connect_timeout options)) w in
  let? _ := from_io r in
  let '(r, w) := t_set_write_timeout (Some (opt_connect_timeout options)) w in
  let? _ := from_io r in
  let '(now_, w) := t_now w in
  let? r := run_on (new_client w now_ options) (handshake fuel deadline options) in
  Ok r.2.
End client.
