(* ===== verification/ClientFacts.v ===== *)
(** * Correctness of the blocking client

    The invariant of [MqttClient], what every internal step of a call may change, and
    the outcome of every method over any transport that keeps [TransportLaws]. *)

From S2P Require Import Prelude Errors Utf8 Str Types Decode Encode Topic Properties.
From S2P Require Import PropertiesFacts Packets Connect Publish Subscribe Ping PacketCodec.
From S2P Require Import CodecFacts Writers Frame Options Transport Client.

Local Open Scope Z_scope.

Section client_facts.
Context {W : Type} {T : Transport W} {L : TransportLaws W}.

Abbreviation Client := (MqttClient W).
Abbreviation ClientM A := (M Client A).

(** What the stream has accepted is a sequence of whole control packets. *)
Definition framed (w : W) : Prop := ∃ fs, sent w = concat fs ∧ Forall client_frame fs.

Record client_ok (c : Client) : Prop := mk_client_ok {
  ok_reader : reader_live (fr_max_packet_size (cl_frame_reader c)) (cl_frame_reader c);
  ok_packet_id : 1 ≤ cl_next_packet_id c ≤ 65535;
  ok_incoming : zlen (cl_incoming c) ≤ cl_max_incoming_messages c;
  ok_messages : Forall publish_sound (cl_incoming c);
  ok_framed : cl_connected c = true → framed (cl_stream c);
}.

(** What a call may do between two states of a client: [new] messages queued at the
    back, bytes appended to the stream (none on a closed client); a closed client
    stays closed, and the configuration and the packet identifier are untouched. *)
Record evolves (new : list PublishPacket) (c c' : Client) : Prop := mk_evolves {
  ev_queue : cl_incoming c' = cl_incoming c ++ new;
  ev_packet_id : cl_next_packet_id c' = cl_next_packet_id c;
  ev_static : cl_max_incoming_messages c' = cl_max_incoming_messages c
              ∧ cl_keep_alive_secs c' = cl_keep_alive_secs c
              ∧ cl_ack_timeout c' = cl_ack_timeout c
              ∧ cl_max_outbound_packet_size c' = cl_max_outbound_packet_size c
              ∧ cl_server_capabilities c' = cl_server_capabilities c;
  ev_connected : cl_connected c' = true → cl_connected c = true;
  ev_sent : ∃ more, sent (cl_stream c') = sent (cl_stream c) ++ more
                    ∧ (cl_connected c = false → more = []);
}.

Lemma evolves_refl c : evolves [] c c.
Proof. split; try done; [by rewrite app_nil_r|]. exists []. by rewrite app_nil_r. Qed.

Lemma evolves_trans n1 n2 c c1 c2 :
  evolves n1 c c1 → evolves n2 c1 c2 → evolves (n1 ++ n2) c c2.
Proof.
  intros [Q1 I1 (?&?&?&?&?) C1 (m1 & S1 & E1)] [Q2 I2 (?&?&?&?&?) C2 (m2 & S2 & E2)]. split.
  - by rewrite Q2, Q1, app_assoc.
  - congruence.
  - split_and!; congruence.
  - auto.
  - exists (m1 ++ m2). rewrite S2, S1, app_assoc. split; [done|]. intros Hc.
    rewrite E1, E2; [done| |done]. destruct (cl_connected c1); [|done].
    specialize (C1 eq_refl). congruence.
Qed.

Lemma evolves_trans0 n c c1 c2 : evolves [] c c1 → evolves n c1 c2 → evolves n c c2.
Proof. apply evolves_trans. Qed.

Lemma evolves_trans1 n c c1 c2 : evolves n c c1 → evolves [] c1 c2 → evolves n c c2.
Proof. intros H1 H2. rewrite <- (app_nil_r n). by eapply evolves_trans. Qed.

(** A step that only touches the stream without sending. *)
Definition silent (c c' : Client) : Prop :=
  ∃ w, c' = set_stream w c ∧ sent w = sent (cl_stream c).

(** The rest of the client, its stream and its connection flag. *)
Lemma client_ok_stream c w :
  client_ok c → (cl_connected c = true → framed w) → client_ok (set_stream w c).
Proof. intros [] ?. by split. Qed.

Lemma framed_sent w w' : sent w' = sent w → framed w → framed w'.
Proof. intros Hs (fs & Hf & ?). exists fs. by rewrite Hs. Qed.

Lemma framed_app w w' f : sent w' = sent w ++ f → client_frame f → framed w → framed w'.
Proof.
  intros Hs Hf (fs & Hw & ?). exists (fs ++ [f]). rewrite Hs, Hw, concat_app. cbn [concat].
  rewrite app_nil_r. split; [done|]. apply Forall_app_2; [done|]. by apply Forall_singleton.
Qed.

Lemma silent_ok c c' : silent c c' → client_ok c → client_ok c' ∧ evolves [] c c'.
Proof.
  intros (w & -> & Hs) Hc. split.
  - apply client_ok_stream; [done|]. intros. eapply framed_sent; [done|]. by apply (ok_framed c).
  - split; try done; [by rewrite app_nil_r|]. exists []. by rewrite app_nil_r.
Qed.

(** Assignments to the timer fields change nothing the invariant sees. *)
Lemma timers_ok c c' :
  (∃ t, c' = set_last_read_at t c) ∨ (∃ t, c' = set_last_write_at t c)
    ∨ (∃ t, c' = set_ping_sent_at t c) →
  client_ok c → client_ok c' ∧ evolves [] c c'.
Proof.
  intros Hd [].
  destruct Hd as [[t ->]|[[t ->]|[t ->]]];
    (split; [by split|]); split; try done; (by rewrite app_nil_r) || (exists []; by rewrite app_nil_r).
Qed.

Lemma closed_ok c : client_ok c → client_ok (set_connected false c) ∧ evolves [] c (set_connected false c).
Proof.
  intros []. split; [by split|]. split; try done; [by rewrite app_nil_r|].
  exists []. by rewrite app_nil_r.
Qed.

Lemma reader_set_ok c f :
  reader_live (fr_max_packet_size (cl_frame_reader c)) f →
  client_ok c → client_ok (set_frame_reader f c) ∧ evolves [] c (set_frame_reader f c).
Proof.
  intros Hf []. split.
  - split; try done. cbn [cl_frame_reader set_frame_reader]. destruct Hf as [? ? Hm]. by rewrite Hm.
  - split; try done; [by rewrite app_nil_r|]. exists []. by rewrite app_nil_r.
Qed.

(** *** Transport calls *)

Lemma now_spec (c : Client) : ∃ t w, now c = (Ok t, set_stream w c) ∧ sent w = sent (cl_stream c).
Proof.
  unfold now. pose proof (now_law (cl_stream c)). destruct (t_now (cl_stream c)) as [t w]. eauto.
Qed.

Lemma outcome_now {B} (k : Instant → ClientM B) Q R c :
  (∀ t w, sent w = sent (cl_stream c) → outcome (k t) Q R (set_stream w c)) →
  outcome (bind now k) Q R c.
Proof.
  intros Hk. destruct (now_spec c) as (t & w & Hn & Hs). unfold outcome.
  rewrite (bind_ok _ _ _ _ _ Hn). by apply Hk.
Qed.

Lemma quiet_stream {A} (m : IoM W A) c :
  quiet sent m →
  ∃ r w, on_stream m c = (Ok r, set_stream w c) ∧ returns r ∧ sent w = sent (cl_stream c).
Proof.
  intros Hq. specialize (Hq (cl_stream c)) as [Hr Hs]. unfold on_stream.
  destruct (m (cl_stream c)) as [[a|e|p|] w]; try done; eexists _, _; split_and!; done.
Qed.

Lemma map_write_result_spec (r : io_Result unit) op :
  returns r → returns (map_write_result r op) ∧ (map_write_result r op = Ok () ↔ r = Ok ()).
Proof.
  destruct r as [[]|e|p|]; try done. intros _. cbn. by destruct (decide _).
Qed.

Lemma send_encoded_spec bytes op c :
  outcome (send_encoded bytes op)
    (λ _ c', zlen bytes ≤ cl_max_outbound_packet_size c ∧
             ∃ w t, c' = set_last_write_at t (set_stream w c)
                    ∧ sent w = sent (cl_stream c) ++ bytes)
    (λ e c', (c' = c ∧ e = PacketTooLarge (zlen bytes) (cl_max_outbound_packet_size c)
              ∧ cl_max_outbound_packet_size c < zlen bytes) ∨
             (zlen bytes ≤ cl_max_outbound_packet_size c ∧
              ∃ w part rest, c' = set_connected false (set_stream w c)
                ∧ bytes = part ++ rest ∧ sent w = sent (cl_stream c) ++ part)) c.
Proof.
  unfold send_encoded, outcome. erewrite bind_ok by reflexivity.
  destruct (cl_max_outbound_packet_size c <? zlen bytes) eqn:Hl.
  { left. apply Z.ltb_lt in Hl. done. }
  apply Z.ltb_ge in Hl.
  assert (∃ r w, on_stream (t_write_all bytes) c = (Ok r, set_stream w c) ∧ returns r ∧
    match r with Ok _ => sent w = sent (cl_stream c) ++ bytes
               | _ => ∃ part rest, bytes = part ++ rest ∧ sent w = sent (cl_stream c) ++ part end)
    as (r & w & Hon & Hr & Hsent).
  { unfold on_stream. pose proof (write_all_law bytes (cl_stream c)) as Hw.
    destruct (t_write_all bytes (cl_stream c)) as [[[]|e|p|] w]; try done; eexists _, w;
      split_and!; done. }
  rewrite (bind_ok _ _ _ _ _ Hon). destruct (map_write_result_spec r op Hr) as [Hm Hmok].
  destruct (map_write_result r op) as [[]|e|p|] eqn:Hmr; try done.
  2: { right. split; [done|]. destruct r; [done| |done..].
       destruct Hsent as (part & rest & ? & ?). cbn. by exists w, part, rest. }
  destruct Hmok as [Hmok _]. rewrite (Hmok eq_refl) in Hsent. clear Hmok Hmr Hm.
  destruct (quiet_stream t_flush (set_stream w c) flush_law) as (r2 & w2 & Hon2 & Hr2 & Hs2).
  rewrite (bind_ok _ _ _ _ _ Hon2). cbn [cl_stream set_stream] in Hs2.
  destruct (map_write_result_spec r2 op Hr2) as [Hm2 _].
  destruct (map_write_result r2 op) as [[]|e|p|]; try done.
  - destruct (now_spec (set_stream w2 (set_stream w c))) as (t & w3 & Hn & Hs3).
    rewrite (bind_ok _ _ _ _ _ Hn). cbn in Hs3. split; [done|].
    exists w3, t. split; [done|congruence].
  - right. split; [done|]. exists w2, bytes, []. rewrite app_nil_r. split_and!; [done..|congruence].
Qed.

Lemma ok_last_write c w t bytes :
  client_ok c → sent w = sent (cl_stream c) ++ bytes → client_frame bytes →
  cl_connected c = true →
  client_ok (set_last_write_at t (set_stream w c))
  ∧ evolves [] c (set_last_write_at t (set_stream w c)).
Proof.
  intros Hc Hs Hf Hcon. split.
  - destruct (timers_ok (set_stream w c) (set_last_write_at t (set_stream w c))) as [? _];
      [by eauto| |done].
    apply client_ok_stream; [done|]. intros _. eapply framed_app; [done..|]. by apply (ok_framed c).
  - split; try done; [by rewrite app_nil_r|]. exists bytes. split; [done|congruence].
Qed.

Lemma ok_closed_stream c w part :
  client_ok c → sent w = sent (cl_stream c) ++ part → cl_connected c = true →
  client_ok (set_connected false (set_stream w c))
  ∧ evolves [] c (set_connected false (set_stream w c)).
Proof.
  intros [] Hs Hcon. split; [by split|].
  split; try done; [by rewrite app_nil_r|]. exists part. split; [done|congruence].
Qed.

(** A complete packet sent on an open client: either it is sent, or the client is
    closed, or it exceeds what the server accepts and nothing happened. *)
Lemma send_frame bytes op c :
  client_ok c → client_frame bytes → cl_connected c = true →
  outcome (send_encoded bytes op)
    (λ _ c', client_ok c' ∧ evolves [] c c' ∧ cl_connected c' = true
             ∧ zlen bytes ≤ cl_max_outbound_packet_size c
             ∧ sent (cl_stream c') = sent (cl_stream c) ++ bytes)
    (λ e c', client_ok c' ∧ evolves [] c c' ∧
             (cl_connected c' = false ∨ (c' = c ∧ cl_max_outbound_packet_size c < zlen bytes))) c.
Proof.
  intros Hc Hf Hcon. eapply outcome_weaken; [apply send_encoded_spec|..]; cbv beta.
  - intros _ c' (Hl & w & t & -> & Hs).
    destruct (ok_last_write c w t bytes) as [? ?]; try done.
  - intros e c' [(-> & -> & Hl)|(Hl & w & part & rest & -> & _ & Hs)].
    + split_and!; [done|apply evolves_refl|by right].
    + destruct (ok_closed_stream c w part) as [? ?]; try done. split_and!; try done. by left.
Qed.

(** Why a wait for the peer may fail without closing the client: the caller's
    deadline, or a server that accepts no two-byte packet. *)
Definition read_error (deadline : option Deadline) (c : Client) (e : Error) (c' : Client) : Prop :=
  cl_connected c' = false
  ∨ (∃ at_ op, deadline = Some (at_, op) ∧ e = Timeout op)
  ∨ cl_max_outbound_packet_size c < 2.

Lemma read_error_trans n d c c1 e c' :
  evolves n c c1 → read_error d c1 e c' → read_error d c e c'.
Proof.
  intros [_ _ (_ & _ & _ & Hm & _) _ _] [?|[?|H]]; [by left|by right; left|].
  right; right. by rewrite <- Hm.
Qed.

(** The postcondition of the steps of a wait. *)
Definition stepped (c : Client) (P : Client → Prop) (c' : Client) : Prop :=
  client_ok c' ∧ evolves [] c c' ∧ P c'.

Lemma stepped_trans c c1 P Q c' :
  evolves [] c c1 → stepped c1 P c' → (P c' → Q c') → stepped c Q c'.
Proof. intros He (? & ? & ?) HPQ. split_and!; [done|by eapply evolves_trans0|auto]. Qed.

Lemma stepped_error d c c1 e c' :
  evolves [] c c1 → stepped c1 (read_error d c1 e) c' → stepped c (read_error d c e) c'.
Proof.
  intros He Hst. eapply stepped_trans; [done|exact Hst|]. by eapply read_error_trans.
Qed.

Lemma outcome_fail_closed {A} e (Q : A → Client → Prop) c d :
  client_ok c → outcome (fail_closed e) Q (λ e c', stepped c (read_error d c e) c') c.
Proof.
  intros Hc. unfold outcome, fail_closed. erewrite bind_ok by reflexivity. cbn.
  destruct (closed_ok c Hc). split_and!; try done. by left.
Qed.

Lemma now_stepped c w : client_ok c → sent w = sent (cl_stream c) →
  client_ok (set_stream w c) ∧ evolves [] c (set_stream w c).
Proof. intros. apply silent_ok; [by exists w|done]. Qed.

Lemma service_timers_spec d c :
  client_ok c →
  outcome (service_timers d)
    (λ _ c', stepped c (λ c', cl_connected c' = cl_connected c) c')
    (λ e c', stepped c (read_error d c e) c') c.
Proof.
  intros Hc. unfold service_timers. apply outcome_now. intros t w Hs.
  destruct (now_stepped c w Hc Hs) as [Hc1 He1].
  eapply (outcome_bind _ _ (λ _ c', c' = set_stream w c)).
  { destruct d as [[at_ op]|]; [|done]. apply outcome_fail_if; [done|].
    intros _. split_and!; try done. right; left. eauto. }
  intros _ ? ->. unfold outcome. erewrite bind_ok by reflexivity.
  assert (stepped c (λ c', cl_connected c' = cl_connected c) (set_stream w c)) as Hsame by done.
  destruct (negb (cl_connected (set_stream w c))) eqn:Hcon; [done|].
  apply negb_false_iff in Hcon. cbn [cl_connected set_stream] in Hcon.
  destruct (cl_ping_sent_at (set_stream w c)).
  { destruct (_ <=? _); [|done]. cbn.
    destruct (closed_ok _ Hc1). split_and!; try done; [by eapply evolves_trans0|by left]. }
  destruct (ping_interval _); [|done]. destruct (_ <=? _); [|done].
  change (outcome (let! _ := send_encoded PINGREQ_BYTES "keepalive" in
                   let! t := now in modify (set_ping_sent_at (Some t)))
    (λ _ c', stepped c (λ c', cl_connected c' = cl_connected c) c')
    (λ e c', stepped c (read_error d c e) c') (set_stream w c)).
  eapply outcome_bind.
  { eapply outcome_weaken; [apply (send_frame PINGREQ_BYTES); try done; by apply cf_pingreq| |].
    - intros u c' H; exact H.
    - intros e c' (Hc' & He' & Hbad). split_and!; [done|by eapply evolves_trans0|].
      destruct Hbad as [?|[_ Hb]]; [by left|right; right]. cbn in Hb. unfold zlen in Hb; cbn in Hb. lia. }
  cbv beta. intros _ c2 (Hc2 & He2 & Hcon2 & _). apply outcome_now. intros t3 w3 Hs3.
  destruct (now_stepped c2 w3 Hc2 Hs3) as [Hc3 He3]. unfold outcome, modify.
  destruct (timers_ok (set_stream w3 c2) (set_ping_sent_at (Some t3) (set_stream w3 c2))) as [? ?];
    [by eauto|done|].
  split_and!; [done| |by cbn; congruence].
  repeat (eapply evolves_trans0; [done|]). apply evolves_refl.
Qed.

Lemma next_read_timeout_spec d c :
  client_ok c →
  outcome (next_read_timeout d) (λ _ c', stepped c (λ c', cl_connected c' = cl_connected c) c')
    (λ _ _, False) c.
Proof.
  intros Hc. unfold next_read_timeout. apply outcome_now. intros t w Hs.
  destruct (now_stepped c w Hc Hs) as [Hc1 He1]. unfold outcome.
  erewrite bind_ok by reflexivity. by split_and!.
Qed.

Lemma on_stream_quiet_spec {A B} (m : IoM W A) (k : io_Result A → ClientM B) Q R c :
  quiet sent m →
  (∀ r w, returns r → sent w = sent (cl_stream c) → outcome (k r) Q R (set_stream w c)) →
  outcome (bind (on_stream m) k) Q R c.
Proof.
  intros Hq Hk. destruct (quiet_stream m c Hq) as (r & w & Hon & Hr & Hs).
  unfold outcome. rewrite (bind_ok _ _ _ _ _ Hon). by apply Hk.
Qed.

Lemma read_more_spec d c :
  client_ok c →
  outcome read_more (λ _ c', stepped c (λ c', cl_connected c' = cl_connected c) c')
    (λ e c', stepped c (read_error d c e) c') c.
Proof.
  intros Hc. unfold read_more, outcome. erewrite bind_ok by reflexivity. cbv zeta.
  destruct (remaining_capacity (cl_frame_reader c) =? 0) eqn:Hcap.
  { by apply outcome_fail_closed. }
  apply Z.eqb_neq in Hcap.
  assert (0 ≤ remaining_capacity (cl_frame_reader c)) by
    (unfold remaining_capacity, saturating_sub; lia).
  set (n := Z.min (remaining_capacity (cl_frame_reader c)) 8192).
  pose proof (read_law n (cl_stream c) ltac:(lia)) as Hrd.
  assert (∃ r w, on_stream (t_read n) c = (Ok r, set_stream w c) ∧ sent w = sent (cl_stream c)
    ∧ match r with Ok l => zlen l ≤ n ∧ bytes_ok l | Err _ => True | _ => False end)
    as (r & w & Hon & Hs & Hl).
  { unfold on_stream. destruct (t_read n (cl_stream c)) as [[l|e|p|] w]; try done;
      eexists _, w; split_and!; try done; by destruct Hrd as (? & ? & ?). }
  rewrite (bind_ok _ _ _ _ _ Hon). destruct (now_stepped c w Hc Hs) as [Hc1 He1].
  change (outcome (match r with
    | Ok [] => fail_closed ConnectionClosed
    | Ok read =>
        let! t := now in let! _ := modify (set_last_read_at t) in on_reader (FrameReader_push read)
    | Err error =>
        if decide (io_kind error = Interrupted) then ret ()
        else if decide (io_kind error = TimedOut ∨ io_kind error = WouldBlock) then ret ()
        else fail_closed (Io error)
    | Panic w => panic w
    | Diverge => diverge
    end) (λ _ c', stepped c (λ c', cl_connected c' = cl_connected c) c')
    (λ e c', stepped c (read_error d c e) c') (set_stream w c)).
  assert (∀ e, outcome (fail_closed e) (λ (_ : ()) c', stepped c (λ c', cl_connected c' = cl_connected c) c')
    (λ e c', stepped c (read_error d c e) c') (set_stream w c)) as Hfail.
  { intros e. eapply outcome_weaken; [by apply (outcome_fail_closed e (λ _ _, False) _ d)|done|].
    intros e' c' Hst. eapply stepped_error; [|exact Hst]; done. }
  destruct r as [l|e|p|]; [|by repeat case_match|done..].
  destruct Hl as [Hl Hb]. destruct l as [|b l]; [by apply Hfail|].
  apply outcome_now. intros t w2 Hs2. destruct (now_stepped _ w2 Hc1 Hs2) as [Hc2 He2].
  unfold outcome. erewrite bind_ok by reflexivity. unfold on_reader.
  destruct (timers_ok _ (set_last_read_at t (set_stream w2 (set_stream w c)))
              ltac:(eauto) Hc2) as [Hc3 He3].
  destruct (push_live (fr_max_packet_size (cl_frame_reader c)) (cl_frame_reader c) (b :: l))
    as [Hp Hlive]; [apply Hc|done|lia|].
  cbn [cl_frame_reader set_last_read_at set_stream]. rewrite Hp.
  destruct (reader_set_ok (set_last_read_at t (set_stream w2 (set_stream w c)))
    (fr_extend (b :: l) (cl_frame_reader c)) Hlive Hc3) as [? ?].
  split_and!; [done| |done].
  repeat (eapply evolves_trans0; [done|]). apply evolves_refl.
Qed.

(** [read_packet_until]: a sound packet, or an error that closed the client, expired
    the caller's deadline or could not be sent a PINGREQ for. *)
Lemma read_packet_until_spec fuel d c :
  client_ok c →
  outcome (read_packet_until fuel d)
    (λ p c', stepped c (λ c', cl_connected c' = cl_connected c ∧ packet_sound p) c')
    (λ e c', stepped c (read_error d c e) c') c.
Proof.
  revert c. induction fuel as [|fuel IH]; intros c Hc; [done|]. cbn [read_packet_until].
  eapply (outcome_attempt (on_reader try_decode) _
    (λ o c', stepped c (λ c', cl_connected c' = cl_connected c
               ∧ match o with Some p => packet_sound p | None => True end) c')
    (λ _ c', stepped c (λ c', cl_connected c' = cl_connected c) c')).
  - unfold outcome, on_reader. pose proof (try_decode_live _ _ (ok_reader c Hc)) as Hd.
    unfold outcome in Hd. destruct (try_decode (cl_frame_reader c)) as [[o|e|p|] f]; try done.
    + destruct Hd as [Hf Hp]. destruct (reader_set_ok c f Hf Hc). by split_and!.
    + destruct (reader_set_ok c f Hd Hc). by split_and!.
  - intros o c1 (Hc1 & He1 & Hcon1 & Ho). destruct o as [p|].
    + apply outcome_now. intros t w Hs. destruct (now_stepped c1 w Hc1 Hs) as [Hc2 He2].
      unfold outcome. erewrite bind_ok by reflexivity.
      destruct (timers_ok _ (set_last_read_at t (set_stream w c1)) ltac:(eauto) Hc2) as [Hc3 He3].
      destruct (timers_ok _ (set_ping_sent_at None (set_last_read_at t (set_stream w c1)))
                  ltac:(eauto) Hc3) as [Hc4 He4].
      pose proof (evolves_trans0 _ _ _ _ He1 (evolves_trans0 _ _ _ _ He2 He3)) as He13.
      pose proof (evolves_trans0 _ _ _ _ He13 He4) as He14.
      destruct p; (erewrite bind_ok by reflexivity);
        first [exact (conj Hc3 (conj He13 (conj Hcon1 Ho)))|exact (conj Hc4 (conj He14 (conj Hcon1 Ho)))].
    + eapply outcome_bind.
      { eapply outcome_weaken; [by apply (service_timers_spec d)|intros u c' H; exact H|].
        intros e c' Hst. eapply stepped_error; [|exact Hst]; done. }
      cbv beta. intros _ c2 (Hc2 & He2 & Hcon2). pose proof (evolves_trans0 _ _ _ _ He1 He2) as He12.
      eapply outcome_bind.
      { eapply outcome_weaken; [by apply (next_read_timeout_spec d)|intros o c' H; exact H|done]. }
      cbv beta. intros timeout c3 (Hc3 & He3 & Hcon3). pose proof (evolves_trans0 _ _ _ _ He12 He3) as He13.
      apply on_stream_quiet_spec; [apply set_read_timeout_law|]. intros r w Hr Hs.
      destruct (now_stepped c3 w Hc3 Hs) as [Hc4 He4]. pose proof (evolves_trans0 _ _ _ _ He13 He4) as He14.
      destruct r as [[]|e|p|]; try done.
      * eapply outcome_bind.
        { eapply outcome_weaken; [by apply (read_more_spec d)|intros ? c' H; exact H|].
          intros e c' Hst. eapply stepped_error; [|exact Hst]; done. }
        cbv beta. intros _ c5 (Hc5 & He5 & Hcon5). pose proof (evolves_trans0 _ _ _ _ He14 He5) as He15.
        eapply outcome_weaken; [by apply IH|..]; cbv beta.
        -- intros p c' Hst. eapply stepped_trans; [done..|]. intros [? ?]. split; [|done].
           cbn in *. congruence.
        -- intros e c' Hst. eapply stepped_error; [|exact Hst]; done.
      * eapply outcome_weaken; [by apply (outcome_fail_closed _ (λ _ _, False) _ d)|done|].
        intros e' c' Hst. eapply stepped_error; [|exact Hst]; done.
  - intros e c1 (Hc1 & He1 & _).
    eapply outcome_weaken; [by apply (outcome_fail_closed _ (λ _ _, False) _ d)|done|].
    intros e' c' Hst. eapply stepped_error; [|exact Hst]; done.
Qed.

(** *** Accepting messages and waiting for acknowledgements *)

Lemma message_ok c p :
  client_ok c → zlen (cl_incoming c) < cl_max_incoming_messages c → publish_sound p →
  client_ok (set_incoming (cl_incoming c ++ [p]) c)
  ∧ evolves [p] c (set_incoming (cl_incoming c ++ [p]) c).
Proof.
  intros [] Hl Hp. split.
  - split; try done; cbn [cl_incoming set_incoming cl_max_incoming_messages].
    + rewrite zlen_app, zlen_cons, zlen_nil. lia.
    + apply Forall_app_2; [done|]. by apply Forall_singleton.
  - split; try done. exists []. by rewrite app_nil_r.
Qed.

(** The messages a call queued, in order, at the back of the queue. *)
Definition queued (c : Client) (P : Client → Prop) (c' : Client) : Prop :=
  client_ok c' ∧ (∃ new, evolves new c c') ∧ P c'.

Lemma stepped_queued c P c' : stepped c P c' → queued c P c'.
Proof. intros (? & ? & ?). split_and!; eauto. Qed.

Lemma queued_trans n c c1 P Q c' :
  evolves n c c1 → queued c1 P c' → (P c' → Q c') → queued c Q c'.
Proof.
  intros He (? & (new & ?) & ?) HPQ. split_and!; [done| |auto].
  exists (n ++ new). by eapply evolves_trans.
Qed.

Lemma accept_publish_spec p c :
  client_ok c → publish_sound p → cl_connected c = true →
  outcome (accept_publish p)
    (λ _ c', client_ok c' ∧ evolves [p] c c' ∧ cl_connected c' = true)
    (λ e c', (e = QueueFull "incoming message" ∧ c' = c
              ∧ cl_max_incoming_messages c ≤ zlen (cl_incoming c))
             ∨ client_ok c' ∧ evolves [p] c c' ∧ (∀ q, e ≠ QueueFull q)
               ∧ (cl_connected c' = false ∨ cl_max_outbound_packet_size c < 4)) c.
Proof.
  intros Hc Hp Hcon. unfold accept_publish, outcome. erewrite bind_ok by reflexivity.
  destruct (_ <=? _) eqn:Hl; [left; apply Z.leb_le in Hl; done|]. apply Z.leb_gt in Hl.
  erewrite bind_ok by reflexivity. destruct (message_ok c p Hc Hl Hp) as [Hc1 He1].
  set (c1 := set_incoming (cl_incoming c ++ [p]) c) in *.
  destruct (bool_decide (pub_qos p = AtLeastOnce)) eqn:Hq; [|done].
  apply bool_decide_eq_true in Hq. destruct Hp as (_ & Hid & _). rewrite Hq in Hid.
  destruct (pub_packet_id p) as [id|]; [|done]. cbn [ok_or].
  erewrite bind_ok by reflexivity. unfold send_puback.
  destruct (PubAckPacket_encode_success id) as (w & Hw & Hwl); [by destruct Hid|].
  rewrite Hw. erewrite bind_ok by reflexivity.
  pose proof (send_frame w "PUBACK" c1 Hc1 (cf_puback _ _ Hw) Hcon) as Hsend.
  unfold outcome in Hsend.
  assert (∀ q, match send_encoded w "PUBACK" c1 with (Err e, _) => e ≠ QueueFull q | _ => True end) as Hnq.
  { intros q. unfold send_encoded. erewrite bind_ok by reflexivity.
    destruct (_ <? _); [done|]. unfold bind.
    destruct (on_stream _ c1) as [[r|e|q'|] c2] eqn:Hon; try done.
    2: { unfold on_stream in Hon. by destruct (t_write_all w (cl_stream c1)) as [[]]. }
    unfold map_write_result, fail_closed. destruct r; try done; [|by destruct (decide _)].
    unfold bind. destruct (on_stream t_flush c2) as [[r|e|q'|] c3] eqn:Hon3; try done.
    2: { unfold on_stream in Hon3. by destruct (t_flush (cl_stream c2)) as [[]]. }
    destruct r; try done; [|by destruct (decide _)].
    destruct (now_spec c3) as (t & w3 & -> & _). done. }
  destruct (send_encoded w "PUBACK" c1) as [[[]|e|q|] c']; try done.
  - destruct Hsend as (? & He & ? & _). split_and!; [done| |done]. by eapply evolves_trans1.
  - right. destruct Hsend as (? & He & Hbad). split_and!; [done|by eapply evolves_trans1|done|].
    destruct Hbad as [?|[-> Hm]]; [by left|right; rewrite <- Hwl; exact Hm].
Qed.

(** The errors after which a client may still be open once its packet is sent: the
    peer's refusal. *)
Definition wait_error (c : Client) (e : Error) (c' : Client) : Prop :=
  cl_connected c' = false ∨ (∃ p code, e = AckRejected p code).

Lemma accept_publish_during_ack_spec p c :
  client_ok c → publish_sound p → cl_connected c = true → 4 ≤ cl_max_outbound_packet_size c →
  outcome (accept_publish_during_ack p)
    (λ _ c', client_ok c' ∧ evolves [p] c c' ∧ cl_connected c' = true)
    (λ e c', queued c (wait_error c e) c') c.
Proof.
  intros Hc Hp Hcon Hm. unfold accept_publish_during_ack.
  eapply (outcome_attempt (accept_publish p)); [by apply accept_publish_spec| |]; cbv beta.
  - intros [] c' H. exact H.
  - intros e c' [(-> & -> & _)|(Hc' & He & Hne & Hbad)].
    + unfold outcome, fail_closed. erewrite bind_ok by reflexivity. cbn.
      destruct (closed_ok c Hc). split_and!; [done|by eexists|by left].
    + assert (outcome (lift (Err e)) (λ (_ : ()) c'0, client_ok c'0 ∧ evolves [p] c c'0 ∧ cl_connected c'0 = true)
        (λ e0 c'0, queued c (wait_error c e0) c'0) c') as Hl.
      { cbn. split_and!; [done|by eexists|]. destruct Hbad; [by left|lia]. }
      destruct e; try exact Hl. by destruct (Hne queue).
Qed.

Lemma read_ack_packet_spec fuel d c :
  client_ok c → cl_connected c = true → 4 ≤ cl_max_outbound_packet_size c →
  outcome (read_ack_packet fuel d)
    (λ p c', stepped c (λ c', cl_connected c' = true ∧ packet_sound p) c')
    (λ e c', queued c (wait_error c e) c') c.
Proof.
  intros Hc Hcon Hm. unfold read_ack_packet.
  eapply outcome_attempt; [by apply (read_packet_until_spec fuel (Some d))| |]; cbv beta.
  - intros p c' (? & ? & ? & ?). cbn. split_and!; try done. congruence.
  - intros e c' (Hc' & He & Hbad).
    assert (∀ op, e = Timeout op → outcome (fail_closed (Timeout op))
      (λ (p : Packet) c', stepped c (λ c', cl_connected c' = true ∧ packet_sound p) c')
      (λ e c', queued c (wait_error c e) c') c') as Ht.
    { intros op _. unfold outcome, fail_closed. erewrite bind_ok by reflexivity. cbn.
      destruct (closed_ok c' Hc'). split_and!; [done| |by left].
      eexists. by eapply evolves_trans0. }
    assert ((∀ op, e ≠ Timeout op) → outcome (lift (Err e))
      (λ (p : Packet) c', stepped c (λ c', cl_connected c' = true ∧ packet_sound p) c')
      (λ e c', queued c (wait_error c e) c') c') as Hl.
    { intros Hne. cbn. split_and!; [done|by eexists|]. left.
      destruct Hbad as [?|[(at_ & op & _ & ->)|?]]; [done|by destruct (Hne op)|lia]. }
    destruct e; try (apply Hl; intros; discriminate). by apply Ht.
Qed.

(** One turn of a wait loop: every packet but the awaited one is handled alike. *)
Lemma wait_turn fuel d c (k : Packet → ClientM unit) :
  client_ok c → cl_connected c = true → 4 ≤ cl_max_outbound_packet_size c →
  (∀ p c1, client_ok c1 → cl_connected c1 = true → 4 ≤ cl_max_outbound_packet_size c1 →
     packet_sound p →
     outcome (k p) (λ _ c', queued c1 (λ c', cl_connected c' = true) c')
       (λ e c', queued c1 (wait_error c1 e) c') c1) →
  outcome (let! p := read_ack_packet fuel d in k p)
    (λ _ c', queued c (λ c', cl_connected c' = true) c')
    (λ e c', queued c (wait_error c e) c') c.
Proof.
  intros Hc Hcon Hm Hk. eapply outcome_bind; [by apply read_ack_packet_spec|]; cbv beta.
  intros p c1 (Hc1 & He1 & Hcon1 & Hp).
  assert (4 ≤ cl_max_outbound_packet_size c1) by (destruct He1 as [_ _ (_ & _ & _ & -> & _) _ _]; done).
  eapply outcome_weaken; [by apply Hk|..]; cbv beta; intros; by eapply queued_trans.
Qed.

Lemma wait_publish (k : ClientM unit) p c :
  client_ok c → cl_connected c = true → 4 ≤ cl_max_outbound_packet_size c →
  publish_sound p →
  (∀ c1, client_ok c1 → cl_connected c1 = true → 4 ≤ cl_max_outbound_packet_size c1 →
     outcome k (λ _ c', queued c1 (λ c', cl_connected c' = true) c')
       (λ e c', queued c1 (wait_error c1 e) c') c1) →
  outcome (let! _ := accept_publish_during_ack p in k)
    (λ _ c', queued c (λ c', cl_connected c' = true) c')
    (λ e c', queued c (wait_error c e) c') c.
Proof.
  intros Hc Hcon Hm Hp Hk.
  eapply outcome_bind; [by apply accept_publish_during_ack_spec|]; cbv beta.
  intros _ c1 (Hc1 & He1 & Hcon1).
  assert (4 ≤ cl_max_outbound_packet_size c1) by (destruct He1 as [_ _ (_ & _ & _ & -> & _) _ _]; done).
  eapply outcome_weaken; [by apply Hk|..]; cbv beta; intros; by eapply queued_trans.
Qed.

Lemma wait_closed {A} e (Q : A → Client → Prop) c :
  client_ok c → outcome (fail_closed e) Q (λ e c', queued c (wait_error c e) c') c.
Proof.
  intros Hc. unfold outcome, fail_closed. erewrite bind_ok by reflexivity. cbn.
  destruct (closed_ok c Hc). split_and!; [done|by eexists|by left].
Qed.

Lemma server_disconnect_spec p (Q : () → Client → Prop) c :
  client_ok c → outcome (server_disconnect p) Q (λ e c', queued c (wait_error c e) c') c.
Proof.
  intros Hc. unfold outcome, server_disconnect. erewrite bind_ok by reflexivity.
  destruct (closed_ok c Hc). destruct (_ =? _); cbn; (split_and!; [done|by eexists|by left]).
Qed.

(** What an acknowledgement's reason codes decide. *)
Definition ack_verdict (r : Result unit) : Prop :=
  match r with
  | Ok _ | Err (AckRejected _ _) | Err (MalformedPacket _) => True
  | _ => False
  end.

Lemma close_if_malformed_spec r c :
  client_ok c → cl_connected c = true → ack_verdict r →
  outcome (close_if_malformed r) (λ _ c', queued c (λ c', cl_connected c' = true) c')
    (λ e c', queued c (wait_error c e) c') c.
Proof.
  intros Hc Hcon Hr. unfold close_if_malformed, outcome.
  destruct (closed_ok c Hc). pose proof (evolves_refl c).
  destruct r as [[]|e|w|]; try done.
  - erewrite bind_ok by reflexivity. cbn. split_and!; [done|by eexists|done].
  - destruct e; try done; (erewrite bind_ok by reflexivity); cbn;
      (split_and!; [done|by eexists|]); [by left|right; eauto].
Qed.

Lemma validate_ack_code_verdict p c : ack_verdict (validate_ack_code p c).
Proof. unfold validate_ack_code. by destruct (_ <=? _). Qed.

Lemma validate_ack_codes_verdict p l n : ack_verdict (validate_ack_codes p l n).
Proof.
  unfold validate_ack_codes. destruct (negb _); [done|].
  induction l as [|c l IH]; cbn; [done|]. unfold validate_ack_code. by destruct (_ <=? _).
Qed.

Lemma validate_suback_codes_verdict l q : ack_verdict (validate_suback_codes l q).
Proof.
  unfold validate_suback_codes. destruct (negb _); [done|].
  induction (zip l q) as [|[g r] m IH]; cbn [validate_grants]; [done|].
  destruct (_ <=? _); [done|]. by destruct (_ || _).
Qed.

Lemma wait_for_puback_loop_spec fuel d id c :
  client_ok c → cl_connected c = true → 4 ≤ cl_max_outbound_packet_size c →
  outcome (wait_for_puback_loop fuel d id)
    (λ _ c', queued c (λ c', cl_connected c' = true) c')
    (λ e c', queued c (wait_error c e) c') c.
Proof.
  revert c. induction fuel as [|fuel IH]; intros c Hc Hcon Hm; [done|].
  cbn [wait_for_puback_loop]. apply wait_turn; try done.
  intros p c1 Hc1 Hcon1 Hm1 Hp. destruct p; try (by apply wait_closed).
  - by apply wait_publish.
  - destruct (_ =? _); [|by apply wait_closed].
    pose proof (validate_ack_code_verdict "PUBACK" (pa_reason_code p)) as Hv.
    pose proof (evolves_refl c1). unfold outcome, lift.
    unfold validate_ack_code in *. destruct (_ <=? _); (split_and!; [done|by eexists|]); [right; eauto|done].
  - by apply IH.
  - by apply server_disconnect_spec.
Qed.

Lemma wait_for_suback_loop_spec fuel d id q c :
  client_ok c → cl_connected c = true → 4 ≤ cl_max_outbound_packet_size c →
  outcome (wait_for_suback_loop fuel d id q)
    (λ _ c', queued c (λ c', cl_connected c' = true) c')
    (λ e c', queued c (wait_error c e) c') c.
Proof.
  revert c. induction fuel as [|fuel IH]; intros c Hc Hcon Hm; [done|].
  cbn [wait_for_suback_loop]. apply wait_turn; try done.
  intros p c1 Hc1 Hcon1 Hm1 Hp. destruct p; try (by apply wait_closed).
  - by apply wait_publish.
  - destruct (_ =? _); [|by apply wait_closed].
    apply close_if_malformed_spec; try done. apply validate_suback_codes_verdict.
  - by apply IH.
  - by apply server_disconnect_spec.
Qed.

Lemma wait_for_unsuback_loop_spec fuel d id c :
  client_ok c → cl_connected c = true → 4 ≤ cl_max_outbound_packet_size c →
  outcome (wait_for_unsuback_loop fuel d id)
    (λ _ c', queued c (λ c', cl_connected c' = true) c')
    (λ e c', queued c (wait_error c e) c') c.
Proof.
  revert c. induction fuel as [|fuel IH]; intros c Hc Hcon Hm; [done|].
  cbn [wait_for_unsuback_loop]. apply wait_turn; try done.
  intros p c1 Hc1 Hcon1 Hm1 Hp. destruct p; try (by apply wait_closed).
  - by apply wait_publish.
  - destruct (_ =? _); [|by apply wait_closed].
    apply close_if_malformed_spec; try done. apply validate_ack_codes_verdict.
  - by apply IH.
  - by apply server_disconnect_spec.
Qed.
End client_facts.
