(* ===== verification/ClientHears.v ===== *)
(** * What the blocking client has read

    The bytes that the transport delivered are accounted for: each call that reads
    packets takes whole frames off the stream of the peer, in order, and keeps the bytes that follow
    them. *)

From S2P Require Import Prelude Errors Utf8 Str Types Decode Encode Topic Properties.
From S2P Require Import PropertiesFacts Packets Connect Publish Subscribe Ping PacketCodec.
From S2P Require Import CodecFacts Writers Frame Options Transport Client ClientFacts.

Local Open Scope Z_scope.

Section hears.
Context {W : Type} {T : Transport W} {L : TransportLaws W} {V : ReceiveLaws W}.

Abbreviation Client := (MqttClient W).
Abbreviation ClientM A := (M Client A).

(** Between [c] and [c'] the client read and consumed the frames of [ps], no other bytes:
    what was buffered and what was read since are those frames and what is buffered now. *)
Definition heard (max : Z) (ps : list Packet) (c c' : Client) : Prop :=
  ∃ got ws, received (cl_stream c') = received (cl_stream c) ++ got
    ∧ fr_buf (cl_frame_reader c) ++ got = concat ws ++ fr_buf (cl_frame_reader c')
    ∧ Forall2 (frame_of max) ps ws.

Lemma heard_trans max ps ps' c c1 c' :
  heard max ps c c1 → heard max ps' c1 c' → heard max (ps ++ ps') c c'.
Proof.
  intros (g1 & w1 & R1 & B1 & F1) (g2 & w2 & R2 & B2 & F2). exists (g1 ++ g2), (w1 ++ w2).
  split; [by rewrite R2, R1, app_assoc|]. split; [|by apply Forall2_app].
  by rewrite app_assoc, B1, <- app_assoc, B2, concat_app, app_assoc.
Qed.

(** *** Calls that read nothing *)

Definition unmoved (c c' : Client) : Prop :=
  received (cl_stream c') = received (cl_stream c) ∧ cl_frame_reader c' = cl_frame_reader c.

Lemma unmoved_heard max c c' : unmoved c c' → heard max [] c c'.
Proof. intros [Hr Hf]. exists [], []. by rewrite Hr, Hf, !app_nil_r. Qed.

Definition quiet_ear {E A} (m : st Client E A) : Prop := ∀ c, unmoved c (m c).2.

Lemma ear_bind {E A B} (m : st Client E A) (k : A → st Client E B) :
  quiet_ear m → (∀ a, quiet_ear (k a)) → quiet_ear (bind m k).
Proof.
  intros Hm Hk c. unfold bind. specialize (Hm c). destruct (m c) as [[a|e|w|] c1]; try exact Hm.
  destruct Hm as [Hr Hf], (Hk a c1) as [Hr' Hf']. split; cbn in *; congruence.
Qed.

Lemma ear_attempt {A} (m : ClientM A) : quiet_ear m → quiet_ear (attempt (F:=Error) m).
Proof. intros Hm c. unfold attempt. specialize (Hm c). by destruct (m c) as [[] ?]. Qed.

Lemma ear_modify {E} (f : Client → Client) : (∀ c, unmoved c (f c)) → quiet_ear (E:=E) (modify f).
Proof. done. Qed.

Lemma ear_same {E A} (r : result E A) : quiet_ear (λ c, (r, c)).
Proof. done. Qed.

Lemma ear_fail_if {E} b (e : E) : quiet_ear (fail_if b e).
Proof. by destruct b. Qed.

Lemma ear_on_stream {A} (m : IoM W A) : deaf received m → quiet_ear (on_stream m).
Proof. intros Hm c. unfold on_stream. specialize (Hm (cl_stream c)). by destruct (m _) as [[] ?]. Qed.

Lemma ear_now : quiet_ear now.
Proof. intros c. unfold now. pose proof (now_deaf (cl_stream c)). by destruct (t_now _). Qed.

Ltac ear_step :=
  lazymatch goal with
  | |- quiet_ear (bind _ _) => apply ear_bind; [|intros ?; cbn beta]
  | |- quiet_ear (on_stream _) =>
      apply ear_on_stream; first [apply write_all_deaf|apply flush_deaf|apply set_read_timeout_deaf
                                 |apply set_write_timeout_deaf|apply shutdown_deaf]
  | |- quiet_ear now => apply ear_now
  | |- quiet_ear (attempt _) => apply ear_attempt
  | |- quiet_ear (fail_if _ _) => apply ear_fail_if
  | |- quiet_ear (modify _) => apply ear_modify; intros ?; by split
  | |- quiet_ear (ret _) => apply ear_same
  | |- quiet_ear (fail _) => apply ear_same
  | |- quiet_ear (lift _) => apply ear_same
  | |- quiet_ear (panic _) => apply ear_same
  | |- quiet_ear diverge => apply ear_same
  | |- quiet_ear get => by intros ?
  | |- quiet_ear (match ?x with _ => _ end) => destruct x
  end.
Ltac ears := repeat ear_step.

Lemma send_encoded_ear bytes op : quiet_ear (send_encoded bytes op).
Proof. unfold send_encoded, fail_closed. ears. Qed.

Lemma service_timers_ear d : quiet_ear (service_timers d).
Proof. unfold service_timers, fail_closed. ears. apply send_encoded_ear. Qed.

Lemma next_read_timeout_ear d : quiet_ear (next_read_timeout d).
Proof. unfold next_read_timeout. cbv zeta. ears. Qed.

Lemma accept_publish_ear p : quiet_ear (accept_publish p).
Proof. unfold accept_publish, send_puback. ears. apply send_encoded_ear. Qed.

Lemma pop_front_ear : quiet_ear pop_front.
Proof. unfold pop_front. ears. Qed.

Lemma try_stream_ear {A} (m : IoM W A) : deaf received m → quiet_ear (try_stream m).
Proof. intros Hm. unfold try_stream. apply ear_bind; [by apply ear_on_stream|]. intros r. apply ear_same. Qed.

(** *** Reading *)

(** The reader is in use. *)
Definition listening (max : Z) (c : Client) : Prop := reader_live max (cl_frame_reader c).

Lemma unmoved_listening max c c' : unmoved c c' → listening max c → listening max c'.
Proof. intros [_ Hf]. unfold listening. by rewrite Hf. Qed.

Lemma ear_run {A} max (m : ClientM A) c r c' :
  quiet_ear m → m c = (r, c') → listening max c → listening max c' ∧ heard max [] c c'.
Proof.
  intros Hm Hrun Hc. specialize (Hm c). rewrite Hrun in Hm.
  split; [by eapply unmoved_listening|by apply unmoved_heard].
Qed.

Lemma read_more_heard max c c' :
  listening max c → read_more c = (Ok (), c') → listening max c' ∧ heard max [] c c'.
Proof.
  intros Hc Hrun. unfold read_more in Hrun. rewrite (bind_ok get _ c c c eq_refl) in Hrun. cbv zeta in Hrun.
  destruct (_ =? 0) eqn:Hcap; [by unfold fail_closed, bind, modify, fail in Hrun|]. apply Z.eqb_neq in Hcap.
  assert (0 ≤ remaining_capacity (cl_frame_reader c)) by (unfold remaining_capacity, saturating_sub; lia).
  set (n := Z.min (remaining_capacity (cl_frame_reader c)) 8192) in *.
  pose proof (read_law n (cl_stream c) ltac:(lia)) as Hl.
  pose proof (read_received n (cl_stream c)) as Hg. unfold bind at 1, on_stream in Hrun.
  destruct (t_read n (cl_stream c)) as [[l|e|p|] w]; cbn [fst snd] in Hg; try done.
  - destruct Hl as (Hl & Hb & _). destruct l as [|b l]; [by unfold fail_closed, bind, modify, fail in Hrun|].
    unfold bind at 1, now in Hrun. pose proof (now_deaf w) as Hnow.
    cbn [cl_stream set_stream] in Hrun. destruct (t_now w) as [t w']. cbn [snd] in Hnow.
    unfold bind at 1, modify, on_reader in Hrun. cbn [cl_frame_reader set_last_read_at set_stream] in Hrun.
    destruct (push_live max (cl_frame_reader c) (b :: l)) as [Hp Hlive]; [done|done|lia|].
    rewrite Hp in Hrun. injection Hrun as <-. split; [done|]. exists (b :: l), [].
    cbn. split; [congruence|done].
  - rewrite app_nil_r in Hg. repeat case_match; try discriminate Hrun; injection Hrun as <-;
      by split; [|by apply unmoved_heard].
Qed.

Lemma try_decode_heard max c o c' :
  listening max c → on_reader try_decode c = (Ok o, c') →
  listening max c' ∧ heard max (match o with Some p => [p] | None => [] end) c c'.
Proof.
  intros Hc Hrun. pose proof Hc as [Hok Ho Hm]. pose proof (after_decode_live max _ Hc) as Hlive.
  pose proof (after_decode_buf (cl_frame_reader c)) as Hbuf. unfold on_reader in Hrun.
  rewrite (try_decode_spec _ Hok Ho) in Hrun. rewrite Hm in *.
  destruct (next_frame max (fr_buf (cl_frame_reader c))) as [[[p rest]|]|e|w|] eqn:Hn; try done;
    injection Hrun as <- <-; (split; [exact Hlive|]); exists [].
  - destruct (next_frame_split max _ p rest (ro_bytes _ Hok) Hn) as (w & Hw & Hfr). exists [w].
    cbn [cl_stream set_frame_reader cl_frame_reader concat]. rewrite !app_nil_r, Hbuf.
    split; [done|]. split; [done|]. by repeat constructor.
  - exists []. cbn [cl_stream set_frame_reader cl_frame_reader concat]. by rewrite !app_nil_r, Hbuf.
Qed.

(** A packet that [read_packet_until] returns is the next frame of the stream. *)
Lemma read_packet_until_heard max fuel d c p c' :
  listening max c → read_packet_until fuel d c = (Ok p, c') → listening max c' ∧ heard max [p] c c'.
Proof.
  revert c. induction fuel as [|fuel IH]; intros c Hc Hrun; [done|]. cbn [read_packet_until] in Hrun.
  unfold bind at 1, attempt in Hrun.
  destruct (on_reader try_decode c) as [[o|e|w|] c1] eqn:Hd; try done.
  destruct (try_decode_heard max c o c1 Hc Hd) as [Hc1 H1]. destruct o as [q|].
  - assert (quiet_ear (let! t := now in let! _ := modify (set_last_read_at t) in
      let! _ := match q with PktPingResp => modify (set_ping_sent_at None) | _ => ret () end in ret q)) as Hq
      by ears.
    destruct (ear_run max _ c1 _ _ Hq Hrun Hc1) as [Hc' H'].
    apply bind_ok_inv in Hrun as (t & c2 & _ & Hrun). apply bind_ok_inv in Hrun as (_ & c3 & _ & Hrun).
    apply bind_ok_inv in Hrun as (_ & c4 & _ & Hrun). injection Hrun as -> _.
    split; [done|]. by eapply (heard_trans max [p] []).
  - apply bind_ok_inv in Hrun as (? & c2 & Hrun2 & Hrun).
    destruct (ear_run max _ _ _ _ (service_timers_ear d) Hrun2 Hc1) as [Hc2 H2].
    apply bind_ok_inv in Hrun as (timeout & c3 & Hrun3 & Hrun).
    destruct (ear_run max _ _ _ _ (next_read_timeout_ear d) Hrun3 Hc2) as [Hc3 H3].
    apply bind_ok_inv in Hrun as (r & c4 & Hrun4 & Hrun).
    destruct (ear_run max _ _ _ _ (ear_on_stream _ (set_read_timeout_deaf timeout)) Hrun4 Hc3) as [Hc4 H4].
    destruct r as [[]|e|w|]; try done.
    apply bind_ok_inv in Hrun as ([] & c5 & Hrun5 & Hrun).
    destruct (read_more_heard max c4 c5 Hc4 Hrun5) as [Hc5 H5].
    destruct (IH c5 Hc5 Hrun) as [Hc' H']. split; [done|].
    pose proof (heard_trans _ _ _ _ _ _ H1 (heard_trans _ _ _ _ _ _ H2 (heard_trans _ _ _ _ _ _ H3
      (heard_trans _ _ _ _ _ _ H4 (heard_trans _ _ _ _ _ _ H5 H'))))) as H. exact H.
Qed.

(** *** [recv] *)

(** The packets that [recv] consumes: PINGRESPs, then the message or a normal DISCONNECT. *)
Definition recv_packets (o : option PublishPacket) (ps : list Packet) : Prop :=
  ∃ n last, ps = replicate n PktPingResp ++ [last] ∧
    match o with
    | Some m => last = PktPublish m
    | None => ∃ d, last = PktDisconnect d ∧ dis_reason_code d = 0
    end.

Lemma pop_front_run (c : Client) o c' :
  pop_front c = (Ok o, c') → o = head (cl_incoming c).
Proof. unfold pop_front, bind, get, modify, ret. destruct (cl_incoming c); by intros [= <- _]. Qed.

Lemma accept_publish_queues p (c c' : Client) :
  accept_publish p c = (Ok (), c') → cl_incoming c' = cl_incoming c ++ [p].
Proof.
  unfold accept_publish. rewrite (bind_ok get _ c c c eq_refl). destruct (_ <=? _); [done|].
  unfold bind at 1, modify. set (c1 := set_incoming _ c). destruct (bool_decide _); [|by intros [= <-]].
  intros (id & c2 & Hid & Hrun)%bind_ok_inv. unfold lift in Hid. injection Hid as _ <-.
  unfold send_puback in Hrun. apply bind_ok_inv in Hrun as (w & c3 & Hw & Hrun). injection Hw as _ <-.
  pose proof (send_encoded_spec w "PUBACK" c1) as Hs. unfold outcome in Hs. rewrite Hrun in Hs.
  by destruct Hs as (_ & ? & ? & -> & _).
Qed.

Lemma recv_loop_heard max fuel c o c' :
  client_ok c → listening max c → cl_incoming c = [] → recv_loop fuel c = (Ok o, c') →
  ∃ ps, recv_packets o ps ∧ heard max ps c c'.
Proof.
  revert c. induction fuel as [|fuel IH]; intros c Hok Hc Hi Hrun; [done|]. cbn [recv_loop] in Hrun.
  apply bind_ok_inv in Hrun as (p & c1 & Hrun1 & Hrun).
  destruct (read_packet_until_heard max _ _ _ _ _ Hc Hrun1) as [Hc1 H1].
  pose proof (read_packet_until_spec (S fuel) None c Hok) as Hst. unfold outcome in Hst.
  rewrite Hrun1 in Hst. destruct Hst as (Hok1 & [Hi1 _ _ _ _] & _). rewrite Hi in Hi1. cbn in Hi1.
  destruct p; try (unfold protocol_failure, fail_closed, bind, modify, fail in Hrun; done).
  - apply bind_ok_inv in Hrun as ([] & c2 & Hrun2 & Hrun).
    destruct (ear_run max _ _ _ _ (accept_publish_ear p) Hrun2 Hc1) as [Hc2 H2].
    destruct (ear_run max _ _ _ _ pop_front_ear Hrun Hc2) as [_ H3].
    apply pop_front_run in Hrun as ->. rewrite (accept_publish_queues _ _ _ Hrun2), Hi1.
    exists [PktPublish p]. split; [by exists 0%nat, (PktPublish p)|].
    by eapply (heard_trans max [PktPublish p] []), (heard_trans max [] []).
  - destruct (IH c1 Hok1 Hc1 Hi1 Hrun) as (ps & (n & last & -> & Hlast) & H2).
    exists (replicate (S n) PktPingResp ++ [last]). split; [by exists (S n), last|].
    by eapply (heard_trans max [PktPingResp]).
  - unfold bind, modify in Hrun. destruct (dis_reason_code p =? 0) eqn:Hz; [|done].
    injection Hrun as <- <-. exists [PktDisconnect p]. split; [|exact H1].
    exists 0%nat, (PktDisconnect p). split; [done|]. exists p. split; [done|lia].
Qed.
End hears.
