(* ===== verification/ClientProps.v ===== *)
(** * Properties of the blocking client *)

From S2P Require Import Prelude Errors Utf8 Str Types Decode Encode Topic Properties.
From S2P Require Import PropertiesFacts Packets Connect Publish Subscribe Ping PacketCodec.
From S2P Require Import CodecFacts Writers Frame Options Transport Client ClientFacts ClientHears.

Local Open Scope Z_scope.

(** ** Requests that wait for an acknowledgement *)

(** A call of one of the three requests of the client. *)
Inductive request : Type :=
  | RPublish (topic payload : list Z) (options : PublishOptions)
  | RSubscribe (filter : list Z) (qos : QoS)
  | RUnsubscribe (filter : list Z).

Section client_props.
Context {W : Type} {T : Transport W} {L : TransportLaws W} {V : ReceiveLaws W}.

Abbreviation Client := (MqttClient W).
Abbreviation ClientM A := (M Client A).

Definition run_request (fuel : nat) (r : request) : ClientM unit :=
  match r with
  | RPublish topic payload options => publish fuel topic payload options
  | RSubscribe filter qos => subscribe fuel filter qos
  | RUnsubscribe filter => unsubscribe fuel filter
  end.

(** What a call may change: an identifier taken, then what [evolves] allows. *)
Definition progress (c c' : Client) : Prop :=
  ∃ n new, evolves new (set_next_packet_id n c) c'.

Definition next_id (id : Z) : Z := if id =? 65535 then 1 else id + 1.

Lemma next_packet_id_run (c : Client) :
  1 ≤ cl_next_packet_id c ≤ 65535 →
  next_packet_id c = (Ok (cl_next_packet_id c), set_next_packet_id (next_id (cl_next_packet_id c)) c).
Proof.
  intros Hid. unfold next_packet_id, next_id, as_u16. erewrite bind_ok by reflexivity.
  erewrite bind_ok by reflexivity. erewrite bind_ok by reflexivity.
  cbn [cl_next_packet_id set_next_packet_id].
  destruct (cl_next_packet_id c =? 65535) eqn:He.
  - apply Z.eqb_eq in He. rewrite He. erewrite bind_ok by reflexivity. by destruct c.
  - apply Z.eqb_neq in He. rewrite Z.mod_small by lia.
    rewrite (proj2 (Z.eqb_neq _ 0)) by lia. by erewrite bind_ok by reflexivity.
Qed.

Lemma next_id_range id : 1 ≤ id ≤ 65535 → 1 ≤ next_id id ≤ 65535.
Proof. unfold next_id. destruct (id =? 65535) eqn:?; lia. Qed.

Lemma set_next_ok n (c : Client) : 1 ≤ n ≤ 65535 → client_ok c → client_ok (set_next_packet_id n c).
Proof. intros ? []. by split. Qed.

Lemma progress_refl (c : Client) : progress c c.
Proof. exists (cl_next_packet_id c), []. destruct c; apply evolves_refl. Qed.

(** Why a request may fail: it closed the client, it was refused by the server, it
    was rejected before anything was sent, or the deadline is not representable. *)
Definition request_error (c : Client) (e : Error) (c' : Client) : Prop :=
  cl_connected c' = false
  ∨ (∃ p code, e = AckRejected p code)
  ∨ sent (cl_stream c') = sent (cl_stream c)
  ∨ e = InvalidOptions "timeout is too large".

Lemma request_rejected (e : Error) (c : Client) :
  client_ok c → client_ok c ∧ progress c c ∧ request_error c e c.
Proof. intros. split_and!; [done|apply progress_refl|]. right; right; by left. Qed.

Lemma lift_rejected {A B} (r : Result A) (k : A → ClientM B) Q c :
  client_ok c → returns r → (∀ a, r = Ok a → outcome (k a) Q (λ e c', client_ok c' ∧ progress c c' ∧ request_error c e c') c) →
  outcome (bind (lift r) k) Q (λ e c', client_ok c' ∧ progress c c' ∧ request_error c e c') c.
Proof.
  intros Hc Hr Hk. eapply (outcome_bind _ _ (λ a c', r = Ok a ∧ c' = c)).
  - apply outcome_lift; [done|done|]. intros e _. by apply request_rejected.
  - intros a ? [? ->]. by apply Hk.
Qed.

(** After the packet is built: send it, then wait. *)
Lemma send_and_wait n bytes op (wait : ClientM unit) c :
  client_ok c → cl_connected c = true → 1 ≤ n ≤ 65535 →
  client_frame bytes →
  (∀ c1, client_ok c1 → cl_connected c1 = true → zlen bytes ≤ cl_max_outbound_packet_size c1 →
     outcome wait (λ _ c', queued c1 (λ c', cl_connected c' = true) c')
       (λ e c', queued c1 (λ c', wait_error c1 e c' ∨ e = InvalidOptions "timeout is too large") c') c1) →
  outcome (let! _ := send_encoded bytes op in wait)
    (λ _ c', client_ok c' ∧ progress c c' ∧ cl_connected c' = true)
    (λ e c', client_ok c' ∧ progress c c' ∧ request_error c e c') (set_next_packet_id n c).
Proof.
  intros Hc Hcon Hn Hf Hwait.
  assert (Hc0 : client_ok (set_next_packet_id n c)) by by apply set_next_ok.
  eapply outcome_bind.
  { eapply outcome_weaken; [by apply (send_frame bytes op _ Hc0 Hf)|intros u c' H; exact H|].
    cbv beta. intros e c' (Hc' & He & Hbad). split; [done|]. split; [by exists n, []|].
    destruct Hbad as [?|[-> _]]; [by left|]. right; right; left. done. }
  cbv beta. intros _ c1 (Hc1 & He1 & Hcon1 & Hm1 & _).
  assert (zlen bytes ≤ cl_max_outbound_packet_size c1).
  { destruct He1 as [_ _ (_ & _ & _ & -> & _) _ _]. done. }
  eapply outcome_weaken; [by apply Hwait|..]; cbv beta.
  - intros _ c' (? & (new & ?) & ?). split_and!; [done| |done]. exists n, new. by eapply evolves_trans0.
  - intros e c' (? & (new & ?) & Hbad). split; [done|]. split; [exists n, new; by eapply evolves_trans0|].
    destruct Hbad as [[?|?]|?]; [by left|by right; left|by right; right; right].
Qed.

Lemma with_deadline op (loop : Deadline → ClientM unit) c :
  client_ok c → cl_connected c = true → 4 ≤ cl_max_outbound_packet_size c →
  (∀ d c1, client_ok c1 → cl_connected c1 = true → 4 ≤ cl_max_outbound_packet_size c1 →
     outcome (loop d) (λ _ c', queued c1 (λ c', cl_connected c' = true) c')
       (λ e c', queued c1 (wait_error c1 e) c') c1) →
  outcome (let! d := ack_deadline op in loop d)
    (λ _ c', queued c (λ c', cl_connected c' = true) c')
    (λ e c', queued c (λ c', wait_error c e c' ∨ e = InvalidOptions "timeout is too large") c') c.
Proof.
  intros Hc Hcon Hm Hloop. eapply (outcome_bind _ _ (λ d c1, ∃ w, c1 = set_stream w c ∧ sent w = sent (cl_stream c))).
  - unfold ack_deadline, outcome. erewrite bind_ok by reflexivity. unfold deadline_after.
    destruct (now_spec c) as (t & w & Hn & Hs). rewrite (bind_ok _ _ _ _ _ Hn).
    destruct (now_stepped c w Hc Hs) as [? ?].
    destruct (instant_checked_add _ _ _); cbn; [by exists w|]. split_and!; [done|by eexists|by right].
  - intros d c1 (w & -> & Hs). destruct (now_stepped c w Hc Hs) as [Hc1 He1].
    eapply outcome_weaken; [by apply Hloop|..]; cbv beta; intros; eapply queued_trans; try done.
    intros; by left.
Qed.

Lemma if_connected {A} (k : () → ClientM A) c :
  cl_connected c = true → bind ensure_connected k c = k () c.
Proof. intros Hc. unfold ensure_connected, bind, get. by rewrite Hc. Qed.

Lemma get_run {A} (k : Client → ClientM A) c : bind get k c = k c c.
Proof. done. Qed.

Lemma outcome_eq {A} (m m' : ClientM A) Q R c c' : m c = m' c' → outcome m' Q R c' → outcome m Q R c.
Proof. unfold outcome. by intros ->. Qed.

(** A built packet is a client frame of at least four bytes. *)
Lemma built_frame k r w : builds k r → r = Ok w → k ≤ zlen w.
Proof. intros H ->. done. Qed.

Lemma publish_outcome fuel topic payload options (c : Client) :
  client_ok c → cl_connected c = true →
  outcome (publish fuel topic payload options)
    (λ _ c', client_ok c' ∧ progress c c' ∧ cl_connected c' = true)
    (λ e c', client_ok c' ∧ progress c c' ∧ request_error c e c') c.
Proof.
  intros Hc Hcon. unfold publish. eapply outcome_eq; [by apply if_connected|].
  apply lift_rejected; [done|apply validate_topic_name_returns|]. intros _ _.
  eapply outcome_eq; [apply get_run|].
  apply lift_rejected; [done|unfold validate_publish; by repeat case_match|]. intros _ _.
  destruct (bool_decide (po_qos options = AtMostOnce)); cbn [negb].
  - eapply outcome_eq; [apply bind_ret|]. cbv zeta.
    set (p := mkPublishPacket _ _ _ _ _ _ _). pose proof (PublishPacket_encode_builds p) as Hb.
    apply lift_rejected; [done|by destruct (PublishPacket_encode p)|]. intros w Hw.
    assert (set_next_packet_id (cl_next_packet_id c) c = c) as Hid by by destruct c.
    eapply outcome_eq; [by rewrite <- Hid at 1|].
    apply send_and_wait; [done|done|apply Hc|by apply (cf_publish w p)|].
    intros c1 Hc1 Hcon1 _. cbn. split_and!; [done|eexists; apply evolves_refl|done].
  - eapply outcome_eq.
    { rewrite bind_assoc. rewrite (bind_ok _ _ _ _ _ (next_packet_id_run c (ok_packet_id c Hc))).
      rewrite bind_ret. reflexivity. }
    cbv beta. set (p := mkPublishPacket _ _ _ _ _ _ _). pose proof (PublishPacket_encode_builds p) as Hb.
    pose proof (next_id_range _ (ok_packet_id c Hc)) as Hn.
    destruct (PublishPacket_encode p) as [w|e|s|] eqn:Hw; try done.
    + eapply outcome_eq; [apply bind_ret|]. apply send_and_wait; [done..|by apply (cf_publish w p)|].
      intros c1 Hc1 Hcon1 Hm1. apply with_deadline; [done|done|cbn in Hb; lia|].
      intros. by apply wait_for_puback_loop_spec.
    + cbn. split; [by apply set_next_ok|]. split; [eexists _, []; apply evolves_refl|].
      right; right; by left.
Qed.

(** The two requests that always take an identifier. *)
Lemma identified_request (encode : Z → Result (list Z)) op op' (loop : Z → Deadline → ClientM unit)
    (c : Client) :
  client_ok c → cl_connected c = true →
  (∀ id, builds 4 (encode id)) → (∀ id w, encode id = Ok w → client_frame w) →
  (∀ id d c1, client_ok c1 → cl_connected c1 = true → 4 ≤ cl_max_outbound_packet_size c1 →
     outcome (loop id d) (λ _ c', queued c1 (λ c', cl_connected c' = true) c')
       (λ e c', queued c1 (wait_error c1 e) c') c1) →
  outcome (let! packet_id := next_packet_id in
           let! bytes := lift (encode packet_id) in
           let! _ := send_encoded bytes op in
           let! d := ack_deadline op' in loop packet_id d)
    (λ _ c', client_ok c' ∧ progress c c' ∧ cl_connected c' = true)
    (λ e c', client_ok c' ∧ progress c c' ∧ request_error c e c') c.
Proof.
  intros Hc Hcon Hb Hf Hloop. eapply outcome_eq.
  { rewrite (bind_ok _ _ _ _ _ (next_packet_id_run c (ok_packet_id c Hc))). reflexivity. }
  pose proof (next_id_range _ (ok_packet_id c Hc)) as Hn.
  specialize (Hb (cl_next_packet_id c)).
  destruct (encode (cl_next_packet_id c)) as [w|e|s|] eqn:Hw; try done.
  - eapply outcome_eq; [apply bind_ret|]. apply send_and_wait; [done..|by eapply Hf|].
    intros c1 Hc1 Hcon1 Hm1. apply with_deadline; [done|done|cbn in Hb; lia|].
    intros. by apply Hloop.
  - cbn. split; [by apply set_next_ok|]. split; [eexists _, []; apply evolves_refl|].
    right; right; by left.
Qed.

Lemma subscribe_outcome fuel filter qos (c : Client) :
  client_ok c → cl_connected c = true →
  outcome (subscribe fuel filter qos)
    (λ _ c', client_ok c' ∧ progress c c' ∧ cl_connected c' = true)
    (λ e c', client_ok c' ∧ progress c c' ∧ request_error c e c') c.
Proof.
  intros Hc Hcon. unfold subscribe. eapply outcome_eq; [by apply if_connected|].
  eapply outcome_eq; [apply get_run|].
  apply lift_rejected; [done|apply validate_subscription_filter_returns|]. intros _ _.
  unfold wait_for_suback.
  apply (identified_request (λ id, SubscribePacket_encode (mkSubscribePacket id [(filter, qos)] properties_new))
           "subscribe" "SUBACK" (λ id d, wait_for_suback_loop fuel d id qos)); try done.
  - intros. apply SubscribePacket_encode_builds.
  - intros id w Hw. by eapply cf_subscribe.
  - intros. by apply wait_for_suback_loop_spec.
Qed.

Lemma unsubscribe_outcome fuel filter (c : Client) :
  client_ok c → cl_connected c = true →
  outcome (unsubscribe fuel filter)
    (λ _ c', client_ok c' ∧ progress c c' ∧ cl_connected c' = true)
    (λ e c', client_ok c' ∧ progress c c' ∧ request_error c e c') c.
Proof.
  intros Hc Hcon. unfold unsubscribe. eapply outcome_eq; [by apply if_connected|].
  apply lift_rejected; [done|apply validate_topic_filter_returns|]. intros _ _.
  unfold wait_for_unsuback.
  apply (identified_request (λ id, UnsubscribePacket_encode (mkUnsubscribePacket id [filter] properties_new))
           "unsubscribe" "UNSUBACK" (λ id d, wait_for_unsuback_loop fuel d id)); try done.
  - intros. apply UnsubscribePacket_encode_builds.
  - intros id w Hw. by eapply cf_unsubscribe.
  - intros. by apply wait_for_unsuback_loop_spec.
Qed.

(** *** Receiving *)

Lemma pop_ok (c : Client) m rest :
  client_ok c → cl_incoming c = m :: rest →
  pop_front c = (Ok (Some m), set_incoming rest c) ∧ client_ok (set_incoming rest c) ∧ publish_sound m.
Proof.
  intros [Hr Hid Hin Hmsg Hf] Hi. unfold pop_front. split.
  { erewrite bind_ok by reflexivity. by rewrite Hi. }
  rewrite Hi in *. apply Forall_cons_1 in Hmsg as [? ?]. split; [|done].
  split; try done. cbn [cl_incoming set_incoming cl_max_incoming_messages].
  rewrite zlen_cons in Hin. lia.
Qed.

(** What [recv] may find: a message, or the server's normal DISCONNECT. *)
Definition recv_result (o : option PublishPacket) (c' : Client) : Prop :=
  match o with
  | Some m => publish_sound m ∧ cl_connected c' = true
  | None => cl_connected c' = false
  end.

Lemma recv_loop_spec fuel (c : Client) :
  client_ok c → cl_connected c = true → cl_incoming c = [] → 0 < cl_max_incoming_messages c →
  outcome (recv_loop fuel)
    (λ o c', client_ok c' ∧ cl_incoming c' = [] ∧ recv_result o c')
    (λ e c', client_ok c' ∧ (cl_connected c' = false ∨ cl_max_outbound_packet_size c < 4)) c.
Proof.
  revert c. induction fuel as [|fuel IH]; intros c Hc Hcon Hi Hmax; [done|]. cbn [recv_loop].
  eapply outcome_bind.
  { eapply outcome_weaken; [by apply (read_packet_until_spec (S fuel) None)|intros p c' H; exact H|].
    cbv beta. intros e c' (? & _ & [?|[(? & ? & [=] & _)|?]]); (split; [done|]); [by left|right; lia]. }
  cbv beta. intros p c1 (Hc1 & He1 & Hcon1 & Hp). rewrite Hcon in Hcon1.
  assert (Hi1 : cl_incoming c1 = []) by (destruct He1 as [-> _ _ _ _]; by rewrite Hi).
  assert (cl_max_incoming_messages c1 = cl_max_incoming_messages c
          ∧ cl_max_outbound_packet_size c1 = cl_max_outbound_packet_size c) as [Hmi Hmo]
    by (by destruct He1 as [_ _ (? & _ & _ & ? & _) _ _]).
  assert (∀ e, outcome (fail_closed e)
    (λ (o : option PublishPacket) c', client_ok c' ∧ cl_incoming c' = [] ∧ recv_result o c')
    (λ e c', client_ok c' ∧ (cl_connected c' = false ∨ cl_max_outbound_packet_size c < 4)) c1) as Hclose.
  { intros e. unfold outcome, fail_closed. erewrite bind_ok by reflexivity. cbn.
    destruct (closed_ok c1 Hc1). split; [done|by left]. }
  destruct p; try (by apply Hclose).
  - eapply (outcome_bind _ _ (λ _ c', client_ok c' ∧ cl_incoming c' = [p] ∧ cl_connected c' = true)).
    { eapply outcome_weaken; [by apply (accept_publish_spec p)|..]; cbv beta.
      - intros _ c' (? & He & ?). split_and!; try done. destruct He as [-> _ _ _ _]. by rewrite Hi1.
      - intros e c' [(_ & _ & Hfull)|(? & _ & _ & Hbad)].
        + rewrite Hi1, zlen_nil in Hfull. lia.
        + split; [done|]. rewrite Hmo in Hbad. done. }
    cbv beta. intros _ c2 (Hc2 & Hi2 & Hcon2). destruct (pop_ok c2 p [] Hc2 Hi2) as (Hpop & ? & ?).
    unfold outcome. by rewrite Hpop.
  - eapply outcome_weaken; [apply IH; try done; lia|done|]; cbv beta. intros e c'. by rewrite Hmo.
  - unfold outcome. erewrite bind_ok by reflexivity. destruct (closed_ok c1 Hc1).
    destruct (_ =? _); cbn; [done|]. split; [done|by left].
Qed.

(** C30. [recv] delivers in order and never loses its place: with a queued message it
    returns the oldest one without touching the transport; with none the bytes that it takes off
    the stream of the peer, those already buffered and then those it reads, are the frames of some PINGRESPs
    and of the PUBLISH that it returns, or of the normal DISCONNECT for which it returns [None]
    and closes the client, and the bytes that follow stay buffered: nothing is skipped, read twice or
    lost. It never panics, and a failure closes the client (a server
    that accepts no four-byte packet aside, which no PUBACK can reach). *)
Theorem recv_outcome fuel (c : Client) :
  client_ok c → cl_connected c = true → 0 < cl_max_incoming_messages c →
  match cl_incoming c with
  | m :: rest => recv fuel c = (Ok (Some m), set_incoming rest c)
                 ∧ client_ok (set_incoming rest c) ∧ publish_sound m
  | [] =>
      outcome (recv fuel)
        (λ o c', client_ok c' ∧ cl_incoming c' = [] ∧ recv_result o c'
                 ∧ ∃ ps, recv_packets o ps ∧ heard (fr_max_packet_size (cl_frame_reader c)) ps c c')
        (λ e c', client_ok c' ∧ (cl_connected c' = false ∨ cl_max_outbound_packet_size c < 4)) c
  end.
Proof.
  intros Hc Hcon Hmax. unfold recv. destruct (cl_incoming c) as [|m rest] eqn:Hi.
  - eapply outcome_eq; [by apply if_connected|].
    eapply (outcome_eq _ (recv_loop fuel)).
    { unfold pop_front. rewrite bind_assoc. rewrite get_run, Hi. done. }
    eapply outcome_weaken;
      [apply (outcome_also _ _ (λ o c', ∃ ps, recv_packets o ps
                ∧ heard (fr_max_packet_size (cl_frame_reader c)) ps c c') _ _
                (recv_loop_spec fuel c Hc Hcon Hi Hmax)); intros o c' Hrun;
       exact (recv_loop_heard _ fuel c o c' Hc (ok_reader c Hc) Hi Hrun)| |done].
    cbv beta. tauto.
  - destruct (pop_ok c m rest Hc Hi) as (Hpop & ? & ?). split; [|done].
    rewrite if_connected by done. by rewrite (bind_ok _ _ _ _ _ Hpop).
Qed.

(** C2. Every request ends in a consistent client over any transport: no panic; the
    queue keeps its messages in order and its bound, identifiers stay in 1..65535,
    everything accepted by an open stream is a sequence of whole control packets; a
    success leaves the client connected, and a failure after the request was sent
    (timeout, malformed or mismatched packet, full queue, I/O) has closed it, the
    server's refusal (and an unrepresentable deadline) excepted. *)
Theorem request_outcome fuel r (c : Client) :
  client_ok c → cl_connected c = true →
  outcome (run_request fuel r)
    (λ _ c', client_ok c' ∧ progress c c' ∧ cl_connected c' = true)
    (λ e c', client_ok c' ∧ progress c c' ∧ request_error c e c') c.
Proof.
  destruct r; cbn.
  - apply publish_outcome.
  - apply subscribe_outcome.
  - apply unsubscribe_outcome.
Qed.

(** A closed client is inert: every operation reports [ClientClosed] and leaves
    the client, its stream and its queue as they were. *)
Theorem closed_client_inert fuel r (c : Client) :
  cl_connected c = false →
  run_request fuel r c = (Err ClientClosed, c) ∧ recv fuel c = (Err ClientClosed, c).
Proof.
  intros Hc. assert (∀ A (k : () → ClientM A), bind ensure_connected k c = (Err ClientClosed, c)) as H.
  { intros. unfold ensure_connected, bind, get. by rewrite Hc. }
  split; [destruct r|]; apply H.
Qed.

(** *** Packet identifiers *)

(** [n] consecutive identifiers. *)
Fixpoint take_ids (n : nat) : ClientM (list Z) :=
  match n with
  | O => ret []
  | S n' =>
      let! id := next_packet_id in
      let! ids := take_ids n' in
      ret (id :: ids)
  end.

Lemma next_id_mod id : 1 ≤ id ≤ 65535 → next_id id = 1 + id mod 65535.
Proof.
  intros. unfold next_id. destruct (id =? 65535) eqn:He.
  - apply Z.eqb_eq in He. by subst.
  - apply Z.eqb_neq in He. rewrite Z.mod_small; lia.
Qed.

Lemma take_ids_run n (c : Client) :
  1 ≤ cl_next_packet_id c ≤ 65535 →
  (take_ids n c).1 = Ok (map (λ k, 1 + (cl_next_packet_id c - 1 + k) mod 65535) (seqZ 0 (Z.of_nat n))).
Proof.
  revert c. induction n as [|n IH]; intros c Hid; [done|]. cbn [take_ids].
  rewrite (bind_ok _ _ _ _ _ (next_packet_id_run c Hid)).
  specialize (IH (set_next_packet_id (next_id (cl_next_packet_id c)) c) (next_id_range _ Hid)).
  unfold bind. destruct (take_ids n _) as [r c']. cbn [fst] in IH. subst r. cbn [fst ret].
  rewrite Nat2Z.inj_succ, (seqZ_cons 0 (Z.succ (Z.of_nat n))) by lia. cbn [map cl_next_packet_id set_next_packet_id].
  f_equal. f_equal.
  - rewrite Z.mod_small; lia.
  - rewrite Z.pred_succ. change (Z.succ 0) with (0 + 1). rewrite <- (fmap_add_seqZ 1 0).
    rewrite map_map. apply map_ext. intros k. f_equal. rewrite next_id_mod by done.
    replace (1 + cl_next_packet_id c mod 65535 - 1 + k) with (cl_next_packet_id c mod 65535 + k) by lia.
    rewrite Z.add_mod_idemp_l by lia. f_equal. lia.
Qed.

(** Packet identifiers: any 65535 consecutive ones are distinct, and none is 0. *)
Theorem packet_ids_distinct n (c : Client) :
  client_ok c → Z.of_nat n ≤ 65535 →
  ∃ ids, (take_ids n c).1 = Ok ids ∧ length ids = n ∧ NoDup ids ∧ Forall (λ id, 1 ≤ id ≤ 65535) ids.
Proof.
  intros Hc Hn. rewrite take_ids_run by apply Hc. eexists. split; [reflexivity|].
  set (start := cl_next_packet_id c - 1). split_and!.
  - rewrite length_map, length_seqZ. lia.
  - apply NoDup_fmap_2_strong; [|apply NoDup_seqZ].
    intros x y Hx%elem_of_seqZ Hy%elem_of_seqZ He.
    assert ((start + x) mod 65535 = (start + y) mod 65535) as Hm by lia.
    pose proof (Z.div_mod (start + x) 65535 ltac:(lia)).
    pose proof (Z.div_mod (start + y) 65535 ltac:(lia)). lia.
  - apply Forall_forall. intros id (k & <- & _)%in_map_iff.
    pose proof (Z.mod_pos_bound (start + k) 65535). lia.
Qed.

(** *** The handshake *)

(** What the server's answer settles. *)
Record negotiated (options : ConnectOptions) (ack : ConnAckPacket) (c : Client) : Prop := {
  ng_ack : packet_sound (PktConnAck ack) ∧ ca_reason_code ack = 0;
  ng_session : validate_connack (opt_client_id options) (opt_clean_start options) ack = Ok ();
  ng_capabilities : from_connack ack = Ok (cl_server_capabilities c);
  ng_keep_alive : cl_keep_alive_secs c =
    default (opt_keep_alive_secs options) (get_u16 (ca_properties ack) ServerKeepAlive);
  ng_max_outbound : cl_max_outbound_packet_size c =
    default MQTT_MAX_PACKET_SIZE (get_u32 (ca_properties ack) MaximumPacketSize);
  ng_ack_timeout : cl_ack_timeout c = opt_ack_timeout options;
  ng_max_incoming : cl_max_incoming_messages c = opt_max_incoming_messages options;
  ng_packet_id : cl_next_packet_id c = 1;
  ng_incoming : cl_incoming c = [];
}.

Lemma outcome_true {A} (m : ClientM A) Q (R : Error → Client → Prop) c :
  outcome m Q R c → outcome m Q (λ _ _, True) c.
Proof. intros H. by eapply outcome_weaken. Qed.

Lemma try_stream_spec {A} (m : IoM W A) (P : Client → Prop) c :
  quiet sent m → deaf received m →
  (∀ w, sent w = sent (cl_stream c) → received w = received (cl_stream c) → P (set_stream w c)) →
  outcome (try_stream m) (λ _ c', P c') (λ _ _, True) c.
Proof.
  intros Hq Hd HP. specialize (Hq (cl_stream c)) as [Hr Hs]. specialize (Hd (cl_stream c)).
  unfold outcome, try_stream, bind, on_stream.
  destruct (m (cl_stream c)) as [[a|e| |] w]; try done. by apply HP.
Qed.

Lemma outcome_lift_step {A B} (r : Result A) (k : A → ClientM B) Q c :
  returns r → (∀ a, r = Ok a → outcome (k a) Q (λ _ _, True) c) →
  outcome (bind (lift r) k) Q (λ _ _, True) c.
Proof.
  intros Hr Hk. eapply (outcome_bind _ _ (λ a c', r = Ok a ∧ c' = c)).
  - by apply outcome_lift.
  - intros a ? [? ->]. by apply Hk.
Qed.

Lemma outcome_fail_if_step {B} b e (k : () → ClientM B) Q c :
  (b = false → outcome (k ()) Q (λ _ _, True) c) →
  outcome (bind (fail_if b e) k) Q (λ _ _, True) c.
Proof. intros Hk. destruct b; [done|]. by apply Hk. Qed.

Lemma validate_connack_returns id clean ack : returns (validate_connack id clean ack).
Proof. unfold validate_connack. by repeat case_match. Qed.

Lemma connect_packet_inv options p :
  connect_packet options = Ok p →
  con_client_id p = opt_client_id options ∧ con_clean_start p = opt_clean_start options.
Proof.
  unfold connect_packet. destruct (u32_try_from _); [|done]. cbn. by intros [= <-].
Qed.

(** After [before], the stream delivered the frame of [ack] and then what is buffered. *)
Definition answered (before : list Z) (options : ConnectOptions) (ack : ConnAckPacket) (c : Client) : Prop :=
  ∃ w, frame_of (opt_max_packet_size options) (PktConnAck ack) w
    ∧ received (cl_stream c) = before ++ w ++ fr_buf (cl_frame_reader c).

(** The client of an accepted CONNECT. *)
Definition established (before : list Z) (options : ConnectOptions) (c : Client) : Prop :=
  client_ok c ∧ cl_connected c = true
  ∧ (∃ p, connect_packet options = Ok p ∧ ConnectPacket_encode p = Ok (sent (cl_stream c)))
  ∧ ∃ ack, answered before options ack c ∧ negotiated options ack c.

Lemma established_stream before options (c : Client) w :
  established before options c → sent w = sent (cl_stream c) → received w = received (cl_stream c) →
  established before options (set_stream w c).
Proof.
  intros (Hok & Hcon & (p & ? & Hp) & (ack & (w1 & Hw1 & Hr1) & Hack)) Hsw Hrw.
  unfold established. split_and!.
  - apply client_ok_stream; [done|]. intros _. eapply framed_sent; [done|]. by apply (ok_framed c).
  - done.
  - exists p. cbn. by rewrite Hsw.
  - exists ack. split; [exists w1; cbn; by rewrite Hrw|by destruct Hack].
Qed.

(** What the CONNACK changes. *)
Definition keep_alive_granted (ack : ConnAckPacket) (c : Client) : Client :=
  match get_u16 (ca_properties ack) ServerKeepAlive with
  | Some k => set_keep_alive k c | None => c end.
Definition granted (ack : ConnAckPacket) (caps : ServerCapabilities) (c : Client) : Client :=
  let c := keep_alive_granted ack (set_capabilities caps c) in
  match get_u32 (ca_properties ack) MaximumPacketSize with
  | Some m => set_max_outbound m c | None => c end.

Lemma granted_established before options p ack caps (c : Client) :
  connect_packet options = Ok p → ConnectPacket_encode p = Ok (sent (cl_stream c)) →
  client_ok c → packet_sound (PktConnAck ack) → ca_reason_code ack = 0 →
  validate_connack (opt_client_id options) (opt_clean_start options) ack = Ok () →
  from_connack ack = Ok caps → cl_keep_alive_secs c = opt_keep_alive_secs options →
  cl_max_outbound_packet_size c = MQTT_MAX_PACKET_SIZE →
  cl_ack_timeout c = opt_ack_timeout options →
  cl_max_incoming_messages c = opt_max_incoming_messages options →
  cl_next_packet_id c = 1 → cl_incoming c = [] → answered before options ack c →
  established before options (set_connected true (granted ack caps c)).
Proof.
  intros Hp Hw Hc Hs Hrc Hval Hcaps Hka Hmo Hat Hmi Hid Hq Hans.
  assert (cl_stream (granted ack caps c) = cl_stream c
    ∧ cl_frame_reader (granted ack caps c) = cl_frame_reader c) as [Hst Hfr]
    by (unfold granted, keep_alive_granted; by repeat case_match).
  unfold established. split_and!.
  - destruct Hc as [Hr Hi Hn Hms _]. unfold granted, keep_alive_granted.
    repeat case_match; (split; [done..|]); intros _; exists [sent (cl_stream c)]; cbn;
      rewrite app_nil_r; (split; [done|]); by apply Forall_singleton, (cf_connect _ p).
  - unfold granted, keep_alive_granted; by repeat case_match.
  - exists p. cbn. by rewrite Hst.
  - exists ack. split; [unfold answered; cbn; by rewrite Hst, Hfr|].
    unfold granted, keep_alive_granted;
      destruct (get_u16 (ca_properties ack) ServerKeepAlive) eqn:Hk,
        (get_u32 (ca_properties ack) MaximumPacketSize) eqn:Hm;
      split; rewrite ?Hk, ?Hm; cbn; try done.
Qed.

(** [handshake] after the CONNACK is checked. *)
Lemma handshake_end before options ack caps (c : Client) :
  established before options (set_connected true (granted ack caps c)) →
  outcome
    (let! _ := modify (set_capabilities caps) in
     let! _ := match get_u16 (ca_properties ack) ServerKeepAlive with
               | Some server_keep_alive => modify (set_keep_alive server_keep_alive)
               | None => ret ()
               end in
     let! _ := match get_u32 (ca_properties ack) MaximumPacketSize with
               | Some server_maximum =>
                   let! _ := fail_if (server_maximum =? 0)
                               (MalformedPacket "server maximum packet size must be non-zero") in
                   modify (set_max_outbound server_maximum)
               | None => ret ()
               end in
     let! _ := modify (set_connected true) in
     let! _ := try_stream (t_set_read_timeout None) in
     let! self := get in
     try_stream (t_set_write_timeout (Some (cl_ack_timeout self))))
    (λ _, established before options) (λ _ _, True) c.
Proof.
  intros Hdone.
  eapply outcome_eq; [by apply (bind_ok _ _ _ () (set_capabilities caps c))|].
  eapply outcome_eq.
  { apply (bind_ok _ _ _ () (keep_alive_granted ack (set_capabilities caps c))).
    unfold keep_alive_granted. by destruct (get_u16 _ _). }
  eapply (outcome_bind _ _ (λ _ c', c' = granted ack caps c)).
  { unfold granted. destruct (get_u32 _ _) as [m|]; [|done]. by apply outcome_fail_if_step. }
  intros _ ? ->. eapply outcome_eq; [by apply (bind_ok _ _ _ () (set_connected true (granted ack caps c)))|].
  eapply outcome_bind.
  { apply (try_stream_spec _ (established before options));
      [apply set_read_timeout_law|apply set_read_timeout_deaf|]. intros. by apply established_stream. }
  cbv beta. intros _ c1 Hc1. eapply outcome_eq; [apply get_run|].
  apply (try_stream_spec _ (established before options));
    [apply set_write_timeout_law|apply set_write_timeout_deaf|]. intros. by apply established_stream.
Qed.

Lemma handshake_spec fuel d options w0 now_ :
  sent w0 = [] → 0 ≤ opt_max_packet_size options ≤ usize_max →
  0 ≤ opt_max_incoming_messages options →
  outcome (handshake fuel d options) (λ _, established (received w0) options) (λ _ _, True)
    (new_client w0 now_ options).
Proof.
  intros Hs0 Hmax Hinc. set (c0 := new_client w0 now_ options).
  assert (Hc0 : client_ok c0).
  { split; cbn; [|lia|rewrite zlen_nil; lia|apply Forall_nil_2|done].
    split; [by apply new_reader_ok|done|done]. }
  unfold handshake. apply outcome_lift_step.
  { unfold connect_packet. by destruct (u32_try_from _). }
  intros p Hp. destruct (connect_packet_inv _ _ Hp) as [Hcid Hclean].
  pose proof (ConnectPacket_encode_builds p) as Hb.
  apply outcome_lift_step; [by destruct (ConnectPacket_encode p)|]. intros w Hw.
  eapply (outcome_bind _ _ (λ _ c1, ∃ w1 t, c1 = set_last_write_at t (set_stream w1 c0) ∧ sent w1 = w
    ∧ received w1 = received w0)).
  { eapply outcome_weaken.
    - apply (outcome_also _ _ (λ _, unmoved c0) _ _ (send_encoded_spec w "connect" c0)).
      intros a c' Hrun. pose proof (send_encoded_ear w "connect" c0) as He. by rewrite Hrun in He.
    - cbv beta. intros _ c' [(_ & w1 & t & -> & Hsw) [Hrw _]]. exists w1, t. split; [done|].
      cbn [cl_stream c0 new_client] in Hsw. split; [by rewrite Hsw, Hs0|exact Hrw].
    - done. }
  intros _ c1 (w1 & t & -> & Hs1 & Hr1). set (c1 := set_last_write_at t (set_stream w1 c0)).
  assert (Hc1 : client_ok c1) by (destruct Hc0; by split).
  eapply outcome_bind.
  { apply outcome_true with (R := λ e c', stepped c1 (read_error (Some d) c1 e) c').
    apply outcome_also; [by apply read_packet_until_spec|]. intros p' c'. apply read_packet_until_heard.
    apply (ok_reader c1 Hc1). }
  cbv beta. intros pk c2 [(Hc2 & He2 & _ & Hpk) [_ (got & ws & Hgot & Hbuf & Hws)]].
  destruct pk as [ | ack | | | | | | | | |]; try done.
  eapply outcome_eq; [apply bind_ret|].
  apply outcome_fail_if_step. intros Hrc%negb_false_iff%Z.eqb_eq.
  apply outcome_lift_step; [apply validate_connack_returns|]. intros [] Hval.
  pose proof Hpk as (Hprops & _). destruct (from_connack_returns ack Hprops) as [caps Hcaps].
  rewrite Hcaps. apply outcome_lift_step; [done|]. intros ? [= <-].
  destruct He2 as [Hq2 Hid2 (Hmi2 & Hka2 & Hat2 & Hmo2 & _) _ (more & Hs2 & Hmore)].
  rewrite (Hmore eq_refl), app_nil_r in Hs2. cbn [cl_stream c1 set_last_write_at set_stream] in Hs2.
  rewrite Hcid, Hclean in Hval.
  apply handshake_end, (granted_established _ _ p); try done; [by rewrite Hs2, Hs1|].
  inversion Hws as [|? w' ? ws' Hw' Hnil]; subst. inversion Hnil; subst. exists w'.
  split; [exact Hw'|]. cbn in Hgot, Hbuf. rewrite app_nil_r in Hbuf. by rewrite Hgot, Hr1, Hbuf.
Qed.

Lemma connect_with_spec fuel options stream :
  options_typed options → sent stream = [] →
  match connect_with fuel options stream with
  | Ok c => client_ok c ∧ cl_connected c = true
            ∧ (∃ p, connect_packet options = Ok p
                    ∧ ConnectPacket_encode p = Ok (sent (cl_stream c)))
            ∧ ∃ ack, answered (received stream) options ack c ∧ negotiated options ack c
  | Err _ | Diverge => True
  | Panic _ => False
  end.
Proof.
  intros (_ & _ & _ & _ & _ & Hmax & [Hinc _] & _) Hs. unfold connect_with.
  pose proof (now_law stream) as H0. pose proof (now_deaf stream) as D0.
  destruct (t_now stream) as [t0 w]. cbn in H0, D0.
  destruct (ConnectOptions_validate _ _ _) as [[]| | |] eqn:Hv; try done.
  2: exfalso; unfold ConnectOptions_validate in Hv; repeat case_match; discriminate.
  cbn [rbind]. pose proof (now_law w) as H1. pose proof (now_deaf w) as D1.
  destruct (t_now w) as [t1 w1]. cbn in H1, D1.
  destruct (instant_checked_add _ _ _) as [at_|]; [|done]. cbn [fmap option_fmap option_map ok_or rbind].
  pose proof (set_nonblocking_law false w1) as [R2 H2]. pose proof (set_nonblocking_deaf false w1) as D2.
  destruct (t_set_nonblocking false w1) as [[[]|e| |] w2]; try done.
  cbn [from_io map_err rbind snd] in *.
  pose proof (set_read_timeout_law (Some (opt_connect_timeout options)) w2) as [R3 H3].
  pose proof (set_read_timeout_deaf (Some (opt_connect_timeout options)) w2) as D3.
  destruct (t_set_read_timeout _ w2) as [[[]|e| |] w3]; try done. cbn [from_io map_err rbind snd] in *.
  pose proof (set_write_timeout_law (Some (opt_connect_timeout options)) w3) as [R4 H4].
  pose proof (set_write_timeout_deaf (Some (opt_connect_timeout options)) w3) as D4.
  destruct (t_set_write_timeout _ w3) as [[[]|e| |] w4]; try done. cbn [from_io map_err rbind snd] in *.
  pose proof (now_law w4) as H5. pose proof (now_deaf w4) as D5.
  destruct (t_now w4) as [now_ w5]. cbn in H5, D5.
  pose proof (handshake_spec fuel (at_, "connect"%string) options w5 now_ ltac:(congruence) Hmax Hinc) as Hh.
  rewrite D5, D4, D3, D2, D1, D0 in Hh. unfold outcome in Hh. unfold run_on. by destruct (handshake _ _ _ _) as [[[]|e|s|] c].
Qed.

(** C25. The handshake: with validated options and a fresh stream, [connect_with]
    never panics, and a client it returns is connected and consistent, has sent
    exactly one packet, the CONNECT of its options, and runs with what the server answered: the bytes
    read from the stream are the frame of a CONNACK and then what the frame reader still holds, that
    CONNACK accepts the connection (reason code 0) and matches the request's session state, and
    capabilities, keep-alive and maximum packet size are its own, the defaults where it is silent. *)
Theorem connect_with_outcome fuel options stream :
  options_typed options → sent stream = [] →
  match connect_with fuel options stream with
  | Ok c => client_ok c ∧ cl_connected c = true
            ∧ (∃ p, connect_packet options = Ok p
                    ∧ ConnectPacket_encode p = Ok (sent (cl_stream c)))
            ∧ ∃ ack, answered (received stream) options ack c ∧ negotiated options ack c
  | Err _ | Diverge => True
  | Panic _ => False
  end.
Proof. apply connect_with_spec. Qed.
End client_props.

(** ** Examples: a client connected over a scripted transport *)

Definition ex_options : ConnectOptions := ConnectOptions_new (lit "cli").

Lemma ex_options_typed : options_typed ex_options.
Proof. unfold options_typed, is_u16; split_and!; vm_compute; reflexivity || discriminate. Qed.

(** CONNACK, a QoS 1 PUBLISH with identifier 7, PUBACK for identifier 1, a PINGRESP. *)
Definition ex_stream (reads : list read_event) : Logged Script :=
  mkLogged (mkScript [] (Deliver [0x20; 3; 0; 0; 0] :: reads) None 0) [].
Definition ex_publish : list Z := [0x32; 7; 0; 1; 97; 0; 7; 0; 42].
Definition ex_puback : list Z := [0x40; 2; 0; 1].

Definition ex_client (reads : list read_event) : MqttClient (Logged Script) :=
  match connect_with 5 ex_options (ex_stream reads) with
  | Ok c => c
  | _ => new_client (ex_stream reads) 0 ex_options
  end.

Lemma ex_connect_run : connect_with 5 ex_options (ex_stream []) = Ok (ex_client []).
Proof. vm_compute. reflexivity. Qed.

Lemma connect_with_outcome_witness :
  connect_with 5 ex_options (ex_stream []) = Ok (ex_client [])
  ∧ client_ok (ex_client []) ∧ cl_connected (ex_client []) = true
  ∧ ∃ ack, answered [] ex_options ack (ex_client []) ∧ negotiated ex_options ack (ex_client []).
Proof.
  pose proof (connect_with_outcome 5 ex_options (ex_stream []) ex_options_typed eq_refl) as H.
  rewrite ex_connect_run in H. destruct H as (H1 & H2 & _ & H3).
  exact (conj ex_connect_run (conj H1 (conj H2 H3))).
Defined.

Lemma ex_client_ok reads :
  is_some (match connect_with 5 ex_options (ex_stream reads) with Ok c => Some c | _ => None end) = true →
  client_ok (ex_client reads) ∧ cl_connected (ex_client reads) = true.
Proof.
  pose proof (connect_with_spec 5 ex_options (ex_stream reads) ex_options_typed eq_refl) as H.
  unfold ex_client. destruct (connect_with _ _ _) as [c| | |]; cbn; [|discriminate..].
  by destruct H as (? & ? & _).
Qed.

Definition ex_acked : MqttClient (Logged Script) := ex_client [Deliver (ex_publish ++ ex_puback)].

Lemma ex_acked_ok : client_ok ex_acked ∧ cl_connected ex_acked = true.
Proof. apply ex_client_ok. vm_compute. reflexivity. Qed.

Definition ex_request : request :=
  RPublish (lit "a/b") [1; 2] (mkPublishOptions AtLeastOnce false properties_new).

Lemma request_outcome_witness :
  (run_request 5 ex_request ex_acked).1 = Ok ()
  ∧ client_ok (run_request 5 ex_request ex_acked).2
  ∧ cl_connected (run_request 5 ex_request ex_acked).2 = true.
Proof.
  assert ((run_request 5 ex_request ex_acked).1 = Ok ()) as Hr by (vm_compute; reflexivity).
  split; [exact Hr|].
  destruct (outcome_ok _ _ _ _ _
    (request_outcome 5 ex_request ex_acked (proj1 ex_acked_ok) (proj2 ex_acked_ok)) Hr)
    as (H1 & _ & H2).
  exact (conj H1 H2).
Defined.

Definition ex_waiting : MqttClient (Logged Script) := ex_client [Silence 5; Deliver ex_publish].

Lemma ex_waiting_ok : client_ok ex_waiting ∧ cl_connected ex_waiting = true.
Proof. apply ex_client_ok. vm_compute. reflexivity. Qed.

Lemma ex_waiting_run :
  (recv 5 ex_waiting).1
    = Ok (Some (mkPublishPacket [97] (Some 7) [42] AtLeastOnce false false properties_new)).
Proof. vm_compute. reflexivity. Qed.

Lemma ex_waiting_empty : cl_incoming ex_waiting = [] ∧ 0 < cl_max_incoming_messages ex_waiting.
Proof. vm_compute. split; reflexivity. Qed.

Lemma recv_outcome_witness :
  ∃ m, (recv 5 ex_waiting).1 = Ok (Some m) ∧ pub_payload m = [42]
       ∧ client_ok (recv 5 ex_waiting).2 ∧ publish_sound m
       ∧ ∃ ps, recv_packets (Some m) ps
           ∧ heard (fr_max_packet_size (cl_frame_reader ex_waiting)) ps ex_waiting (recv 5 ex_waiting).2.
Proof.
  pose proof (recv_outcome 5 ex_waiting (proj1 ex_waiting_ok) (proj2 ex_waiting_ok)
                (proj2 ex_waiting_empty)) as H.
  rewrite (proj1 ex_waiting_empty) in H.
  destruct (outcome_ok _ _ _ _ _ H ex_waiting_run) as (H1 & _ & (H2 & _) & H3).
  eexists. split; [exact ex_waiting_run|]. split; [reflexivity|]. exact (conj H1 (conj H2 H3)).
Defined.

Lemma closed_client_inert_witness :
  run_request 5 (RUnsubscribe (lit "a/#")) (set_connected false ex_acked)
    = (Err ClientClosed, set_connected false ex_acked)
  ∧ recv 5 (set_connected false ex_acked) = (Err ClientClosed, set_connected false ex_acked).
Proof. apply closed_client_inert. reflexivity. Defined.

Definition ex_wrapping : MqttClient (Logged Script) := set_next_packet_id 65534 ex_acked.

Lemma ex_wrapping_ok : client_ok ex_wrapping.
Proof. apply set_next_ok; [lia|apply ex_acked_ok]. Qed.

Lemma ex_wrapping_run : (take_ids 3 ex_wrapping).1 = Ok [65534; 65535; 1].
Proof. vm_compute. reflexivity. Qed.

Lemma packet_ids_distinct_witness :
  (take_ids 3 ex_wrapping).1 = Ok [65534; 65535; 1] ∧ NoDup [65534; 65535; 1].
Proof.
  destruct (packet_ids_distinct 3 ex_wrapping ex_wrapping_ok) as (ids & Hids & _ & Hnd & _);
    [lia|].
  rewrite ex_wrapping_run in Hids. injection Hids as <-. exact (conj ex_wrapping_run Hnd).
Defined.
