(* ===== verification/ClientLive.v ===== *)
(** * The blocking client makes progress

    Against a broker that answers, over a stream that delivers the answer in pieces of any
    size, a publish and a subscription succeed: the waits of client.rs end with the
    acknowledgement, and the messages that arrive before it are queued. *)

From S2P Require Import Prelude Errors Utf8 Str Types Decode Encode Topic Properties.
From S2P Require Import PropertiesFacts Packets Connect Publish Subscribe Ping PacketCodec.
From S2P Require Import CodecFacts Writers Frame Options Transport Client ClientFacts ClientProps.

Local Open Scope Z_scope.

(** In the worlds of [R q s] the bytes [q] are what the peer has sent and the client has not read,
    and [s] is what the client has written: every call succeeds, a write adds its bytes to [s] and the
    peer's [reply] to [q], a read takes some of [q] if there are any, and the clock reads an
    instant of [lo, hi). *)
Record attentive {W} {T : Transport W} (R : list Z → list Z → W → Prop) (reply : list Z → list Z)
    (lo hi : Instant) : Prop := {
  at_write buf q s w : R q s w →
    ∃ w', t_write_all buf w = (Ok (), w') ∧ R (q ++ reply buf) (s ++ buf) w';
  at_flush q s w : R q s w → ∃ w', t_flush w = (Ok (), w') ∧ R q s w';
  at_timeout d q s w : R q s w → ∃ w', t_set_read_timeout d w = (Ok (), w') ∧ R q s w';
  at_read n q s w : R q s w → q ≠ [] → 0 < n →
    ∃ k w', t_read n w = (Ok (ztake k q), w') ∧ 0 < k ≤ n ∧ k ≤ zlen q ∧ R (zdrop k q) s w';
  at_now q s w : R q s w → ∃ t w', t_now w = (t, w') ∧ lo ≤ t < hi ∧ R q s w';
}.

Section live.
Context {W : Type} {T : Transport W}.
Context (R : list Z → list Z → W → Prop) (reply : list Z → list Z) (lo hi : Instant).
Context (HR : attentive R reply lo hi) (max : Z).

Abbreviation Client := (MqttClient W).

(** A connected client, with no keep-alive due in the window and the bytes [q] to read, that
    has written [s]. *)
Record awaiting (q s : list Z) (c : Client) : Prop := {
  aw_connected : cl_connected c = true;
  aw_ping : cl_ping_sent_at c = None;
  aw_reader : reader_live max (cl_frame_reader c);
  aw_bytes : bytes_ok q;
  aw_stream : R q s (cl_stream c);
  aw_written : lo ≤ cl_last_write_at c;
  aw_keep : match ping_interval (cl_keep_alive_secs c) with Some i => hi - lo ≤ i | None => True end;
}.

(** What waiting leaves alone. *)
Definition kept (c : Client) :=
  (cl_max_incoming_messages c, cl_next_packet_id c, cl_ack_timeout c,
   cl_max_outbound_packet_size c, cl_server_capabilities c).

(** The packets the client is going to read. *)
Definition ahead (q : list Z) (c : Client) (ps : list Packet) (last : list Z) : Prop :=
  parses max (fr_buf (cl_frame_reader c) ++ q) ps last.

(** *** One iteration of the wait *)

Lemma awaiting_stream q s q' s' w c :
  awaiting q s c → bytes_ok q' → R q' s' w → awaiting q' s' (set_stream w c).
Proof. intros [] ??. by split. Qed.

Lemma now_awaiting q s c :
  awaiting q s c →
  ∃ t w, now c = (Ok t, set_stream w c) ∧ lo ≤ t < hi ∧ awaiting q s (set_stream w c).
Proof.
  intros Hc. destruct (at_now _ _ _ _ HR q _ _ (aw_stream q s c Hc)) as (t & w & Hn & Ht & Hw).
  exists t, w. unfold now. rewrite Hn. split; [done|]. split; [done|].
  apply (awaiting_stream q s); [done|apply Hc|done].
Qed.

Lemma service_timers_awaiting at_ op q s c :
  awaiting q s c → hi ≤ at_ →
  ∃ w, service_timers (Some (at_, op)) c = (Ok (), set_stream w c) ∧ awaiting q s (set_stream w c).
Proof.
  intros Hc Hat. destruct (now_awaiting q s c Hc) as (t & w & Hn & Ht & Hw). exists w.
  split; [|done]. unfold service_timers. rewrite (bind_ok _ _ _ _ _ Hn).
  rewrite (proj2 (Z.leb_gt _ _)) by lia. rewrite (bind_ok (fail_if false _) _ _ () _ eq_refl).
  rewrite (bind_ok get _ _ _ _ eq_refl), (aw_connected _ _ _ Hw), (aw_ping _ _ _ Hw). cbn [negb].
  pose proof (aw_keep _ _ _ Hw). pose proof (aw_written _ _ _ Hw).
  destruct (ping_interval _) as [i|]; [|done]. unfold duration_since.
  by rewrite (proj2 (Z.leb_gt _ _)) by lia.
Qed.

Lemma next_read_timeout_awaiting d q s c :
  awaiting q s c →
  ∃ o w, next_read_timeout d c = (Ok o, set_stream w c) ∧ awaiting q s (set_stream w c).
Proof.
  intros Hc. destruct (now_awaiting q s c Hc) as (t & w & Hn & Ht & Hw). eexists _, w.
  split; [|done]. unfold next_read_timeout. rewrite (bind_ok _ _ _ _ _ Hn).
  by rewrite (bind_ok get _ _ _ _ eq_refl).
Qed.

Lemma set_read_timeout_awaiting d q s c :
  awaiting q s c →
  ∃ w, on_stream (t_set_read_timeout d) c = (Ok (Ok ()), set_stream w c) ∧ awaiting q s (set_stream w c).
Proof.
  intros Hc. destruct (at_timeout _ _ _ _ HR d q _ _ (aw_stream q s c Hc)) as (w & Hw & HRw).
  exists w. unfold on_stream. rewrite Hw. split; [done|]. apply (awaiting_stream q s); [done|apply Hc|done].
Qed.

Lemma read_more_awaiting q s c :
  awaiting q s c → q ≠ [] → remaining_capacity (cl_frame_reader c) ≠ 0 →
  ∃ k c', read_more c = (Ok (), c') ∧ 0 < k ≤ zlen q ∧ awaiting (zdrop k q) s c'
    ∧ kept c' = kept c ∧ cl_incoming c' = cl_incoming c
    ∧ fr_buf (cl_frame_reader c') = fr_buf (cl_frame_reader c) ++ ztake k q.
Proof.
  intros Hc Hq Hcap. unfold read_more. rewrite (bind_ok get _ _ _ _ eq_refl). cbv zeta.
  rewrite (proj2 (Z.eqb_neq _ _)) by done.
  assert (0 ≤ remaining_capacity (cl_frame_reader c)) by (unfold remaining_capacity, saturating_sub; lia).
  destruct (at_read _ _ _ _ HR (Z.min (remaining_capacity (cl_frame_reader c)) 8192) q _ _
    (aw_stream q s c Hc) Hq) as (k & w & Hr & Hk & Hkq & Hw); [lia|].
  assert (on_stream (t_read (Z.min (remaining_capacity (cl_frame_reader c)) 8192)) c
          = (Ok (Ok (ztake k q)), set_stream w c)) as Hon by (unfold on_stream; by rewrite Hr).
  rewrite (bind_ok _ _ _ _ _ Hon).
  assert (awaiting (zdrop k q) s (set_stream w c)) as Hc1
    by (apply (awaiting_stream q s); [done|apply Forall_drop, Hc|done]).
  destruct (now_awaiting _ _ _ Hc1) as (t & w1 & Hn & _ & Hc2).
  destruct (push_live max (cl_frame_reader c) (ztake k q)) as [Hpush Hlive];
    [apply Hc|apply Forall_take, Hc|rewrite zlen_ztake by lia; lia|].
  assert (ztake k q ≠ []) as Hne.
  { intros Hnil%(f_equal zlen). rewrite zlen_ztake, zlen_nil in Hnil by lia. lia. }
  exists k, (set_frame_reader (fr_extend (ztake k q) (cl_frame_reader c))
              (set_last_read_at t (set_stream w1 (set_stream w c)))).
  split; [|split; [lia|split; [|done]]].
  - destruct (ztake k q) as [|b l] eqn:Ht; [done|]. rewrite (bind_ok _ _ _ _ _ Hn).
    unfold bind at 1, modify at 1, on_reader. cbn [cl_frame_reader set_last_read_at set_stream].
    by rewrite Hpush.
  - destruct Hc2. by split.
Qed.

(** *** The wait for a packet *)

Lemma next_frame_ahead buf q p ps last :
  bytes_ok buf → parses max (buf ++ q) (p :: ps) last →
  match next_frame max buf with
  | Ok (Some (p', rest)) => p' = p ∧ parses max (rest ++ q) ps last
  | Ok None => q ≠ []
  | _ => False
  end.
Proof.
  intros Hb Hp. inversion Hp as [|buf' p' rest ps' last' Hn Hrest]; subst.
  pose proof (next_frame_ext max buf q Hb) as Hx.
  destruct (next_frame max buf) as [[[p' rest']|]|e|w|] eqn:Hf.
  2: { intros ->. rewrite app_nil_r in Hn. congruence. }
  all: rewrite Hx in Hn by discriminate; try discriminate Hn. by injection Hn as <- <-.
Qed.

Lemma read_packet_delivers fuel at_ op q s c p ps last :
  awaiting q s c → hi ≤ at_ → p ≠ PktPingResp → ahead q c (p :: ps) last → (length q < fuel)%nat →
  ∃ q' c', read_packet_until fuel (Some (at_, op)) c = (Ok p, c')
    ∧ awaiting q' s c' ∧ kept c' = kept c ∧ cl_incoming c' = cl_incoming c
    ∧ ahead q' c' ps last ∧ (length q' ≤ length q)%nat.
Proof.
  intros Hc Hat Hping. revert q c Hc. induction fuel as [|fuel IH]; intros q c Hc Hp Hf; [lia|].
  cbn [read_packet_until]. pose proof (aw_reader _ _ _ Hc) as Hlive. pose proof Hlive as [Hok Ho Hm].
  pose proof (next_frame_ahead _ _ _ _ _ (ro_bytes _ Hok) Hp) as Hnext.
  pose proof (after_decode_live max _ Hlive) as Hlive1. pose proof (after_decode_buf (cl_frame_reader c)) as Hbuf.
  pose proof (after_decode_settled (cl_frame_reader c)) as Hset.
  set (r1 := after_decode (cl_frame_reader c)) in *. rewrite Hm in *.
  assert (on_reader try_decode c = (let? o := next_frame max (fr_buf (cl_frame_reader c)) in Ok (frame_packet o),
    set_frame_reader r1 c)) as Hd by (unfold on_reader; by rewrite (try_decode_spec _ Hok Ho), Hm).
  assert (awaiting q s (set_frame_reader r1 c)) as Hc1 by (destruct Hc; by split).
  unfold bind at 1, attempt. rewrite Hd.
  destruct (next_frame max (fr_buf (cl_frame_reader c))) as [[[p' rest]|]|e|w|] eqn:Hnf; [| |done..].
  - destruct Hnext as [-> Hrest]. cbn [rbind frame_packet fmap option_fmap option_map fst].
    destruct (now_awaiting _ _ _ Hc1) as (t & w & Hn & _ & Hc2). rewrite (bind_ok _ _ _ _ _ Hn).
    unfold bind at 1, modify at 1.
    set (c3 := set_last_read_at t (set_stream w (set_frame_reader r1 c))).
    exists q, c3. split; [by destruct p|]. split; [destruct Hc2; by split|].
    split; [done|]. split; [done|]. split; [|lia]. unfold ahead. cbn. by rewrite Hbuf.
  - cbn [rbind frame_packet fmap option_fmap option_map]. destruct (Hset eq_refl) as [Hb Hs].
    destruct (service_timers_awaiting at_ op _ _ _ Hc1 Hat) as (w2 & H2 & Hc2).
    rewrite (bind_ok _ _ _ _ _ H2).
    destruct (next_read_timeout_awaiting (Some (at_, op)) _ _ _ Hc2) as (o & w3 & H3 & Hc3).
    rewrite (bind_ok _ _ _ _ _ H3).
    destruct (set_read_timeout_awaiting o _ _ _ Hc3) as (w4 & H4 & Hc4). rewrite (bind_ok _ _ _ _ _ H4).
    destruct (read_more_awaiting _ _ _ Hc4 Hnext) as (k & c5 & H5 & Hk & Hc5 & Hkept & Hinc & Hbuf5).
    { cbn [cl_frame_reader set_stream set_frame_reader]. intros Hcap. destruct Hlive1 as [Hok1 _ Hm1].
      destruct (drained_full max q last r1 (p :: ps)) as [? _]; try done;
        [apply Hc|by rewrite Hb..]. }
    rewrite (bind_ok _ _ _ _ _ H5). cbn in Hbuf5.
    destruct (IH (zdrop k q) c5 Hc5) as (q' & c' & Hrun & Hc' & Hkept' & Hinc' & Ha & Hl).
    + unfold ahead. rewrite Hbuf5, Hb, <- app_assoc, ztake_zdrop. exact Hp.
    + unfold zdrop, zlen in *. rewrite length_drop. lia.
    + exists q', c'. split; [exact Hrun|]. split; [done|]. split; [by rewrite Hkept', Hkept|].
      split; [by rewrite Hinc', Hinc|]. split; [done|]. unfold zdrop in Hl. rewrite length_drop in Hl. lia.
Qed.

(** *** Sending *)

Lemma send_encoded_awaiting bytes op q s c :
  awaiting q s c → zlen bytes ≤ cl_max_outbound_packet_size c → bytes_ok (reply bytes) →
  ∃ t w, send_encoded bytes op c = (Ok (), set_last_write_at t (set_stream w c))
    ∧ awaiting (q ++ reply bytes) (s ++ bytes) (set_last_write_at t (set_stream w c)).
Proof.
  intros Hc Hl Hb. unfold send_encoded. rewrite (bind_ok get _ _ _ _ eq_refl).
  rewrite (proj2 (Z.ltb_ge _ _)) by done.
  destruct (at_write _ _ _ _ HR bytes q _ _ (aw_stream q s c Hc)) as (w1 & Hw1 & HR1).
  assert (on_stream (t_write_all bytes) c = (Ok (Ok ()), set_stream w1 c)) as Hon1
    by (unfold on_stream; by rewrite Hw1).
  rewrite (bind_ok _ _ _ _ _ Hon1). cbn [map_write_result].
  destruct (at_flush _ _ _ _ HR _ _ _ HR1) as (w2 & Hw2 & HR2).
  assert (on_stream t_flush (set_stream w1 c) = (Ok (Ok ()), set_stream w2 c)) as Hon2
    by (unfold on_stream; cbn; by rewrite Hw2).
  rewrite (bind_ok _ _ _ _ _ Hon2). cbn [map_write_result].
  assert (awaiting (q ++ reply bytes) (s ++ bytes) (set_stream w2 c)) as Hc2
    by (apply (awaiting_stream q s); [done|apply Forall_app_2; [apply Hc|done]|done]).
  destruct (now_awaiting _ _ _ Hc2) as (t & w3 & Hn & Ht & Hc3). rewrite (bind_ok _ _ _ _ _ Hn).
  exists t, w3. split; [done|]. destruct Hc3. split; try done. cbn. lia.
Qed.

(** A message that comes before the acknowledgement: acknowledged in turn at QoS 1, which
    the broker does not answer. *)
Definition unanswered (m : PublishPacket) : Prop :=
  match pub_qos m with
  | AtMostOnce => True
  | AtLeastOnce => ∃ i, pub_packet_id m = Some i ∧ i ≠ 0 ∧ reply (puback_bytes i) = []
  end.

(** The bytes of its acknowledgement. *)
Definition puback_of (m : PublishPacket) : list Z :=
  match pub_qos m, pub_packet_id m with
  | AtLeastOnce, Some i => puback_bytes i
  | _, _ => []
  end.

Lemma accept_publish_awaiting m q s c :
  awaiting q s c → unanswered m → zlen (cl_incoming c) < cl_max_incoming_messages c →
  4 ≤ cl_max_outbound_packet_size c →
  ∃ c', accept_publish_during_ack m c = (Ok (), c') ∧ awaiting q (s ++ puback_of m) c' ∧ kept c' = kept c
    ∧ cl_incoming c' = cl_incoming c ++ [m] ∧ cl_frame_reader c' = cl_frame_reader c.
Proof.
  intros Hc Hm Hroom Hout.
  assert (∃ c', accept_publish m c = (Ok (), c') ∧ awaiting q (s ++ puback_of m) c' ∧ kept c' = kept c
    ∧ cl_incoming c' = cl_incoming c ++ [m] ∧ cl_frame_reader c' = cl_frame_reader c)
    as (c' & Hrun & Hc'); [|exists c'; split; [|done]; unfold accept_publish_during_ack;
      unfold bind at 1, attempt; by rewrite Hrun].
  unfold accept_publish. rewrite (bind_ok get _ _ _ _ eq_refl).
  rewrite (proj2 (Z.leb_gt _ _)) by done. unfold bind at 1, modify at 1.
  set (c1 := set_incoming (cl_incoming c ++ [m]) c).
  assert (awaiting q s c1) as Hc1 by (destruct Hc; by split).
  unfold unanswered in Hm. unfold puback_of. destruct (pub_qos m) eqn:Hq.
  { rewrite bool_decide_eq_false_2, app_nil_r by done. by exists c1. }
  destruct Hm as (i & Hid & Hi & Hrep). rewrite bool_decide_eq_true_2 by done.
  rewrite Hid. rewrite (bind_ok (lift (ok_or (Some i) _)) _ c1 i c1 eq_refl). unfold send_puback.
  rewrite puback_encoded by done. rewrite (bind_ok (lift (Ok _)) _ c1 (puback_bytes i) c1 eq_refl).
  destruct (send_encoded_awaiting (puback_bytes i) "PUBACK" q s c1 Hc1) as (t & w & Hs & Hc2);
    [exact Hout|rewrite Hrep; apply Forall_nil_2|].
  rewrite Hrep, app_nil_r in Hc2. eexists. split; [exact Hs|done].
Qed.

(** *** The wait for an acknowledgement *)

Lemma read_ack_run fuel d c p (c' : Client) :
  read_packet_until fuel (Some d) c = (Ok p, c') → read_ack_packet fuel d c = (Ok p, c').
Proof. intros Hr. unfold read_ack_packet, bind at 1, attempt. by rewrite Hr. Qed.

Section waiting.
Context (loop : nat → M Client unit) (ack : Packet) (finish : M Client unit) (at_ : Instant) (op : string).

(** [loop] queues the messages it reads and ends with [finish] at [ack]. *)
Definition waits_for : Prop :=
  ∀ n c c' p, read_ack_packet (S n) (at_, op) c = (Ok p, c') →
    (∀ m, p = PktPublish m →
       loop (S n) c = bind (accept_publish_during_ack m) (λ _, loop n) c')
    ∧ (p = ack → loop (S n) c = finish c').

Lemma wait_answered msgs : waits_for → ack ≠ PktPingResp → ∀ fuel q s c last,
  awaiting q s c → hi ≤ at_ → ahead q c ((PktPublish <$> msgs) ++ [ack]) last →
  Forall unanswered msgs → zlen (cl_incoming c) + zlen msgs ≤ cl_max_incoming_messages c →
  4 ≤ cl_max_outbound_packet_size c → (length q + length msgs < fuel)%nat →
  ∃ q' c', loop fuel c = finish c' ∧ awaiting q' (s ++ (msgs ≫= puback_of)) c' ∧ kept c' = kept c
    ∧ cl_incoming c' = cl_incoming c ++ msgs ∧ ahead q' c' [] last.
Proof.
  intros Hloop Hack. induction msgs as [|m msgs IH]; intros fuel q s c last Hc Hat Hp Hmsgs Hroom Hout Hf;
    (destruct fuel as [|fuel]; [cbn in Hf; lia|]).
  - destruct (read_packet_delivers (S fuel) at_ op q s c ack [] last Hc Hat Hack Hp) as
      (q' & c' & Hrun & Hc' & Hk & Hi & Ha & _); [cbn in Hf; lia|].
    destruct (Hloop fuel c c' ack) as [_ Hend]; [by apply read_ack_run|].
    exists q', c'. rewrite !app_nil_r. split; [by apply Hend|done].
  - cbn in Hf. rewrite zlen_cons in Hroom. pose proof (zlen_nonneg msgs).
    apply Forall_cons_1 in Hmsgs as [Hm Hmsgs]. rewrite fmap_cons in Hp. cbn [app] in Hp.
    destruct (read_packet_delivers (S fuel) at_ op q s c (PktPublish m) ((PktPublish <$> msgs) ++ [ack]) last Hc Hat) as
      (q1 & c1 & Hrun & Hc1 & Hk1 & Hi1 & Ha1 & Hl1); [done|exact Hp|lia|].
    destruct (Hloop fuel c c1 (PktPublish m)) as [Hmsg _];
      [by apply read_ack_run|]. rewrite (Hmsg m eq_refl).
    pose proof Hk1 as Hk1'. injection Hk1' as Hmax1 _ _ Hout1 _.
    destruct (accept_publish_awaiting m q1 s c1 Hc1 Hm) as (c2 & H2 & Hc2 & Hk2 & Hi2 & Hr2);
      [rewrite Hi1, Hmax1; lia|by rewrite Hout1|].
    rewrite (bind_ok _ _ _ _ _ H2). pose proof Hk2 as Hk2'. injection Hk2' as Hmax2 _ _ Hout2 _.
    destruct (IH fuel q1 (s ++ puback_of m) c2 last Hc2 Hat) as (q' & c' & Hend & Hc' & Hk' & Hi' & Ha').
    + unfold ahead. by rewrite Hr2.
    + done.
    + rewrite Hi2, Hi1, Hmax2, Hmax1, zlen_app, zlen_cons, zlen_nil. lia.
    + by rewrite Hout2, Hout1.
    + lia.
    + exists q', c'. split; [exact Hend|]. split; [cbn; by rewrite app_assoc|]. split.
      { by rewrite Hk', Hk2. }
      split; [|done]. by rewrite Hi', Hi2, Hi1, <- app_assoc.
Qed.
End waiting.

(** *** The requests *)

(** What is checked before a request is sent, and the bytes of its packet. *)
Definition sendable (r : request) (c : Client) (bytes : list Z) : Prop :=
  match r with
  | RPublish topic payload options =>
      po_qos options = AtLeastOnce
      ∧ validate_topic_name topic = Ok ()
      ∧ validate_publish (cl_server_capabilities c) AtLeastOnce (po_retain options) = Ok ()
      ∧ PublishPacket_encode (mkPublishPacket topic (Some (cl_next_packet_id c)) payload AtLeastOnce
          (po_retain options) false (po_properties options)) = Ok bytes
  | RSubscribe filter qos =>
      validate_subscription_filter (cl_server_capabilities c) filter = Ok ()
      ∧ SubscribePacket_encode (mkSubscribePacket (cl_next_packet_id c) [(filter, qos)] properties_new)
        = Ok bytes
  | RUnsubscribe filter =>
      validate_topic_filter filter = Ok ()
      ∧ UnsubscribePacket_encode (mkUnsubscribePacket (cl_next_packet_id c) [filter] properties_new)
        = Ok bytes
  end.

(** The acknowledgement that grants a request sent with the identifier [id]. *)
Definition grants (r : request) (id : Z) (ack : Packet) : Prop :=
  match r with
  | RPublish _ _ _ => ∃ code, ack = PktPubAck (mkPubAckPacket id code) ∧ code < 0x80
  | RSubscribe _ qos => ∃ codes, ack = PktSubAck (mkSubAckPacket id codes)
      ∧ validate_suback_codes codes [qos] = Ok ()
  | RUnsubscribe _ => ∃ codes, ack = PktUnsubAck (mkUnsubAckPacket id codes)
      ∧ validate_ack_codes "UNSUBACK" codes 1 = Ok ()
  end.

(** The wait that follows a request. *)
Definition wait_for (fuel : nat) (r : request) (id : Z) : M Client unit :=
  match r with
  | RPublish _ _ _ => wait_for_puback fuel id
  | RSubscribe _ qos => wait_for_suback fuel id qos
  | RUnsubscribe _ => wait_for_unsuback fuel id
  end.

Lemma wait_for_answered r ack id q s c msgs last fuel :
  awaiting q s c → grants r id ack →
  hi - lo ≤ cl_ack_timeout c → hi + cl_ack_timeout c ≤ t_instant_max →
  ahead q c ((PktPublish <$> msgs) ++ [ack]) last →
  Forall unanswered msgs → zlen (cl_incoming c) + zlen msgs ≤ cl_max_incoming_messages c →
  4 ≤ cl_max_outbound_packet_size c → (length q + length msgs < fuel)%nat →
  ∃ q' c', wait_for fuel r id c = (Ok (), c') ∧ awaiting q' (s ++ (msgs ≫= puback_of)) c'
    ∧ kept c' = kept c
    ∧ cl_incoming c' = cl_incoming c ++ msgs ∧ ahead q' c' [] last.
Proof.
  intros Hc Hg Hwin Hmax Hp Hmsgs Hroom Hout Hf.
  destruct (now_awaiting _ _ _ Hc) as (t & w & Hn & Ht & Hc1).
  assert (∀ op, ack_deadline op c = (Ok (t + cl_ack_timeout c, op), set_stream w c)) as Hdl.
  { intros op. unfold ack_deadline. rewrite (bind_ok get _ _ _ _ eq_refl). unfold deadline_after.
    rewrite (bind_ok _ _ _ _ _ Hn). unfold instant_checked_add.
    by rewrite (proj2 (Z.leb_le _ _)) by lia. }
  assert (∀ loop finish op, waits_for loop ack finish (t + cl_ack_timeout c) op →
    ack ≠ PktPingResp → (∀ c', finish c' = (Ok (), c')) →
    ∃ q' c', loop fuel (set_stream w c) = (Ok (), c') ∧ awaiting q' (s ++ (msgs ≫= puback_of)) c'
      ∧ kept c' = kept c
      ∧ cl_incoming c' = cl_incoming c ++ msgs ∧ ahead q' c' [] last) as Hwait.
  { intros loop finish op Hloop Hack Hfin.
    destruct (wait_answered loop ack finish _ op msgs Hloop Hack fuel q s (set_stream w c) last Hc1)
      as (q' & c' & Hrun & Hrest); [lia|done..|]. exists q', c'. by rewrite Hrun, Hfin. }
  destruct r as [topic payload options|filter qos|filter]; cbn [wait_for grants] in *;
    unfold wait_for_puback, wait_for_suback, wait_for_unsuback; rewrite (bind_ok _ _ _ _ _ (Hdl _)).
  - destruct Hg as (code & -> & Hcode).
    eapply (Hwait (λ n, wait_for_puback_loop n _ id) (ret ())); [|done|done].
    intros n c1 c2 p Hread. split; [intros m ->|intros ->]; cbn [wait_for_puback_loop];
      rewrite (bind_ok _ _ _ _ _ Hread); [done|]. cbn. rewrite Z.eqb_refl.
    unfold lift, validate_ack_code. by rewrite (proj2 (Z.leb_gt _ _)) by done.
  - destruct Hg as (codes & -> & Hcodes).
    eapply (Hwait (λ n, wait_for_suback_loop n _ id qos) (ret ())); [|done|done].
    intros n c1 c2 p Hread. split; [intros m ->|intros ->]; cbn [wait_for_suback_loop];
      rewrite (bind_ok _ _ _ _ _ Hread); [done|]. cbn. by rewrite Z.eqb_refl, Hcodes.
  - destruct Hg as (codes & -> & Hcodes).
    eapply (Hwait (λ n, wait_for_unsuback_loop n _ id) (ret ())); [|done|done].
    intros n c1 c2 p Hread. split; [intros m ->|intros ->]; cbn [wait_for_unsuback_loop];
      rewrite (bind_ok _ _ _ _ _ Hread); [done|]. cbn. by rewrite Z.eqb_refl, Hcodes.
Qed.

(** A request up to its wait. *)
Lemma run_request_sends fuel r bytes q s c :
  awaiting q s c → 1 ≤ cl_next_packet_id c ≤ 65535 → sendable r c bytes →
  zlen bytes ≤ cl_max_outbound_packet_size c → bytes_ok (reply bytes) →
  ∃ c', run_request fuel r c = wait_for fuel r (cl_next_packet_id c) c'
    ∧ awaiting (q ++ reply bytes) (s ++ bytes) c' ∧ kept c' = kept (set_next_packet_id (next_id (cl_next_packet_id c)) c)
    ∧ cl_incoming c' = cl_incoming c ∧ cl_frame_reader c' = cl_frame_reader c.
Proof.
  intros Hc Hid Hs Hl Hb. pose proof (next_packet_id_run c Hid) as Hnext.
  set (c1 := set_next_packet_id (next_id (cl_next_packet_id c)) c) in *.
  assert (awaiting q s c1) as Hc1 by (destruct Hc; by split).
  assert (ensure_connected c = (Ok (), c)) as He.
  { unfold ensure_connected. rewrite (bind_ok get _ _ _ _ eq_refl). by rewrite (aw_connected _ _ _ Hc). }
  assert (∀ op, ∃ t w, send_encoded bytes op c1 = (Ok (), set_last_write_at t (set_stream w c1))
    ∧ awaiting (q ++ reply bytes) (s ++ bytes) (set_last_write_at t (set_stream w c1))) as Hsend
    by (intros op; by apply send_encoded_awaiting).
  destruct r as [topic payload options|filter qos|filter]; cbn [run_request sendable wait_for] in *.
  - destruct Hs as (Hq & Ht & Hv & Henc). destruct (Hsend "publish"%string) as (t & w & Hrun & Haw).
    exists (set_last_write_at t (set_stream w c1)). split; [|done]. unfold publish.
    rewrite (bind_ok _ _ _ _ _ He), Ht. rewrite (bind_ok (lift (Ok ())) _ c () c eq_refl).
    rewrite (bind_ok get _ c c c eq_refl), Hq, Hv. rewrite (bind_ok (lift (Ok ())) _ c () c eq_refl).
    rewrite bool_decide_eq_false_2 by done. cbn [negb].
    rewrite (bind_ok (let! id := next_packet_id in ret (Some id)) _ c (Some (cl_next_packet_id c)) c1)
      by (by rewrite (bind_ok _ _ _ _ _ Hnext)). cbv zeta.
    rewrite Henc. rewrite (bind_ok (lift (Ok bytes)) _ c1 bytes c1 eq_refl).
    by rewrite (bind_ok _ _ _ _ _ Hrun).
  - destruct Hs as (Hv & Henc). destruct (Hsend "subscribe"%string) as (t & w & Hrun & Haw).
    exists (set_last_write_at t (set_stream w c1)). split; [|done]. unfold subscribe.
    rewrite (bind_ok _ _ _ _ _ He), (bind_ok get _ c c c eq_refl), Hv.
    rewrite (bind_ok (lift (Ok ())) _ c () c eq_refl), (bind_ok _ _ _ _ _ Hnext), Henc.
    rewrite (bind_ok (lift (Ok bytes)) _ c1 bytes c1 eq_refl). by rewrite (bind_ok _ _ _ _ _ Hrun).
  - destruct Hs as (Hv & Henc). destruct (Hsend "unsubscribe"%string) as (t & w & Hrun & Haw).
    exists (set_last_write_at t (set_stream w c1)). split; [|done]. unfold unsubscribe.
    rewrite (bind_ok _ _ _ _ _ He), Hv. rewrite (bind_ok (lift (Ok ())) _ c () c eq_refl).
    rewrite (bind_ok _ _ _ _ _ Hnext), Henc. rewrite (bind_ok (lift (Ok bytes)) _ c1 bytes c1 eq_refl).
    by rewrite (bind_ok _ _ _ _ _ Hrun).
Qed.

(** C3. Requests succeed against a broker that answers. The client is connected, no keep-alive falls due
    within the time the answer takes, which is at most an acknowledgement timeout, its queue has room
    for the messages that come first, and the server accepts packets of four bytes, the size of a PUBACK.
    When what the client has yet to read, followed by the broker's reply to the packet of a QoS 1
    publish, a subscription or an unsubscription, holds some messages, whose PUBACKs the broker
    does not answer, and then the acknowledgement that grants the request, the call
    returns [Ok], however small the pieces in which the stream delivers them: it has written its
    packet and then one PUBACK for each message of QoS 1, in the order of the messages, and nothing
    else; the messages are queued in order, the client stays connected
    with the next identifier, and what follows the acknowledgement is left unread or buffered. *)
Theorem requests_answered fuel r ack bytes msgs q s c last :
  awaiting q s c → 1 ≤ cl_next_packet_id c ≤ 65535 → sendable r c bytes →
  4 ≤ cl_max_outbound_packet_size c → zlen bytes ≤ cl_max_outbound_packet_size c →
  hi - lo ≤ cl_ack_timeout c → hi + cl_ack_timeout c ≤ t_instant_max →
  bytes_ok (reply bytes) → grants r (cl_next_packet_id c) ack →
  ahead (q ++ reply bytes) c ((PktPublish <$> msgs) ++ [ack]) last →
  Forall unanswered msgs → zlen (cl_incoming c) + zlen msgs ≤ cl_max_incoming_messages c →
  (length q + length (reply bytes) + length msgs < fuel)%nat →
  ∃ q' c', run_request fuel r c = (Ok (), c')
    ∧ awaiting q' (s ++ bytes ++ (msgs ≫= puback_of)) c' ∧ cl_incoming c' = cl_incoming c ++ msgs
    ∧ cl_next_packet_id c' = next_id (cl_next_packet_id c)
    ∧ ahead q' c' [] last.
Proof using HR.
  intros Hc Hid Hs Hout Hl Hwin Hmax Hb Hg Hp Hmsgs Hroom Hf.
  destruct (run_request_sends fuel r bytes q s c Hc Hid Hs Hl Hb) as (c1 & Hrun & Hc1 & Hk1 & Hi1 & Hr1).
  rewrite Hrun. injection Hk1 as Hm1 Hn1 Ha1 Ho1 _.
  destruct (wait_for_answered r ack (cl_next_packet_id c) (q ++ reply bytes) (s ++ bytes) c1 msgs last fuel)
    as (q' & c' & Hw & Hc' & Hk' & Hi' & Ha'); rewrite ?Hi1, ?Hm1, ?Ha1, ?Ho1, ?length_app; try done.
  - unfold ahead. by rewrite Hr1.
  - exists q', c'. injection Hk' as _ Hn' _ _ _. rewrite Hi', Hn', Hn1, Hi1. by rewrite app_assoc.
Qed.
End live.

(** ** Example: a broker that answers one byte at a time

    To a PUBLISH at QoS 1 it sends a message of its own, at QoS 1, and the PUBACK of
    identifier 1; to anything else it sends nothing. *)

Definition broker_reply (buf : list Z) : list Z :=
  match buf with
  | 0x32 :: _ => ex_publish ++ ex_puback
  | _ => []
  end.

(** What the broker has sent and the client has not read, and what the client has written. *)
Record Broker := mkBroker { bk_unread : list Z; bk_written : list Z }.

Definition broker_write (buf : list Z) (w : Broker) : Broker :=
  mkBroker (bk_unread w ++ broker_reply buf) (bk_written w ++ buf).

#[export] Instance broker_transport : Transport Broker := {
  t_write buf w := (Ok (zlen buf), broker_write buf w);
  t_write_all buf w := (Ok (), broker_write buf w);
  t_flush := ret ();
  t_read n w := let k := Z.min n 1 in
    (Ok (ztake k (bk_unread w)), mkBroker (zdrop k (bk_unread w)) (bk_written w));
  t_set_nonblocking _ := ret ();
  t_set_read_timeout _ := ret ();
  t_set_write_timeout _ := ret ();
  t_shutdown := ret ();
  t_now w := (0, w);
  t_instant_max := 1000000000000000;
}.

Definition broker_at (q s : list Z) (w : Broker) : Prop := bk_unread w = q ∧ bk_written w = s.

Lemma broker_attentive : attentive broker_at broker_reply 0 1.
Proof.
  split; cbn.
  - intros buf q s w [<- <-]. by eexists.
  - intros q s w Hw. by exists w.
  - intros d q s w Hw. by exists w.
  - intros n q s w [<- <-] Hq Hn. exists (Z.min n 1). eexists. split; [done|]. split; [lia|]. split; [|done].
    destruct (bk_unread w); [done|]. rewrite zlen_cons. pose proof (zlen_nonneg l). lia.
  - intros q s w Hw. exists 0, w. split; [done|]. split; [lia|done].
Qed.

Definition ex_sender : MqttClient Broker := set_connected true (new_client (mkBroker [] []) 0 ex_options).

Definition ex_sent : list Z := [0x32; 10; 0; 3; 97; 47; 98; 0; 1; 0; 1; 2].

Definition ex_message : PublishPacket :=
  mkPublishPacket [97] (Some 7) [42] AtLeastOnce false false properties_new.

Lemma ex_sender_awaiting :
  awaiting broker_at 0 1 (opt_max_packet_size ex_options) [] [] ex_sender.
Proof.
  split; try reflexivity; try (apply Forall_nil_2); try (vm_compute; discriminate); [|by split].
  split; [|reflexivity..]. apply new_reader_ok. split; vm_compute; discriminate.
Qed.

Lemma requests_answered_witness :
  ∃ q' c', run_request 20 ex_request ex_sender = (Ok (), c')
    ∧ awaiting broker_at 0 1 (opt_max_packet_size ex_options) q' (ex_sent ++ [0x40; 2; 0; 7]) c'
    ∧ cl_incoming c' = [ex_message] ∧ cl_next_packet_id c' = 2
    ∧ ahead (opt_max_packet_size ex_options) q' c' [] [].
Proof.
  apply (requests_answered _ _ _ _ broker_attentive _ 20 ex_request (PktPubAck (mkPubAckPacket 1 0))
    ex_sent [ex_message] [] []).
  - exact ex_sender_awaiting.
  - vm_compute. split; discriminate.
  - repeat split; vm_compute; reflexivity.
  - vm_compute. discriminate.
  - vm_compute. discriminate.
  - vm_compute. discriminate.
  - vm_compute. discriminate.
  - repeat constructor; unfold is_u8; lia.
  - exists 0. split; [reflexivity|lia].
  - eapply parses_frame; [vm_compute; reflexivity|].
    eapply parses_frame; [vm_compute; reflexivity|].
    apply parses_end. vm_compute. reflexivity.
  - apply Forall_singleton. exists 7. repeat split; vm_compute; reflexivity || discriminate.
  - vm_compute. discriminate.
  - vm_compute. lia.
Defined.
