(* ===== verification/AsyncTypes.v ===== *)
(** * Data of the async client (src/src/async_client.rs, src/src/request_response.rs)

    Events, commands, queued frames and pending operations, with the tokio channels
    they travel on. A [oneshot::Sender] is the number of its channel; what each sender
    was used for is recorded in [Oneshots], together with the receivers that have been
    dropped. A [mpsc] channel is its queue, its capacity and whether its ends are alive. *)

From S2P Require Import Prelude Errors Types Decode Properties Packets Options.
From coqutil Require Export Datatypes.RecordSettersUsingExistingGetters.

Local Open Scope Z_scope.

(** A field set by [:=] computes. *)
#[global] Arguments const {E} newValue _ /.

(** ** Results and events *)

Inductive DisconnectReason : Type :=
  | ClientInitiated
  | Server (reason_code : Z)
  | TransportClosed.

Inductive Event : Type :=
  | Event_Publish (packet : PublishPacket)
  | Event_Disconnected (reason : DisconnectReason).

Record PublishAck := mkPublishAck { ack_packet_id : option Z; ack_reason_code : option Z }.

Record SubscriptionAck := mkSubscriptionAck { sack_packet_id : Z; sack_reason_codes : list Z }.

(** ** Channels *)

(** The values of the oneshot channels of the crate. *)
Inductive Reply : Type :=
  | Reply_Publish (r : Result PublishAck)
  | Reply_Subscription (r : Result SubscriptionAck)
  | Reply_Disconnect (r : Result unit)
  | Reply_Request (r : Result PublishPacket).

Abbreviation Sender := nat.

Record Oneshots := mkOneshots {
  os_next : Sender;                     (* channels created so far *)
  os_closed : gset Sender;              (* receivers dropped *)
  os_sent : list (Sender * Reply);      (* sends, oldest first *)
}.

(** [let _ = sender.send(reply)] *)
Definition oneshot_send (id : Sender) (r : Reply) (o : Oneshots) : Oneshots :=
  o <| os_sent ::= λ l, l ++ [(id, r)] |>.

(** [Sender::is_closed] *)
Definition is_closed (o : Oneshots) (id : Sender) : bool := bool_decide (id ∈ os_closed o).

Record Channel (A : Type) := mkChannel {
  ch_queue : list A;
  ch_capacity : Z;
  ch_senders : bool;      (* a sender is alive *)
  ch_receiver : bool;     (* the receiver is alive *)
}.
Arguments mkChannel {A}.
Arguments ch_queue {A}.
Arguments ch_capacity {A}.
Arguments ch_senders {A}.
Arguments ch_receiver {A}.

(** A new channel. *)
Definition channel {A} (capacity : Z) : Channel A := mkChannel [] capacity true true.

(** [Semaphore::MAX_PERMITS]: [usize::MAX >> 3] *)
Definition max_permits : Z := Z.shiftr usize_max 3.

(** [mpsc::channel], which panics on a capacity of zero or above [max_permits]. *)
Definition mpsc_channel {S E A} (capacity : Z) : st S E (Channel A) :=
  if capacity =? 0 then panic "mpsc bounded channel requires buffer > 0"
  else if max_permits <? capacity
  then panic "a semaphore may not have more than MAX_PERMITS permits"
  else ret (channel capacity).

Inductive TrySendError : Type := Full | Closed.

(** [Sender::try_send] *)
Definition try_send {A} (a : A) (c : Channel A) : result TrySendError (Channel A) :=
  if negb (ch_receiver c) then Err Closed
  else if ch_capacity c <=? zlen (ch_queue c) then Err Full
  else Ok (c <| ch_queue ::= λ q, q ++ [a] |>).

(** ** The request lifecycle shared by the handles and the driver *)

Record RequestLifecycle := mkRequestLifecycle {
  rl_active : gset (list Z);
  rl_cancelled : gset (list Z);
  rl_max_active : Z;
}.

(** [RequestLifecycle::new] *)
Definition RequestLifecycle_new (max_active : Z) : RequestLifecycle :=
  mkRequestLifecycle ∅ ∅ max_active.

(** [RequestLifecycle::register] *)
Definition register (correlation_data : list Z) : M RequestLifecycle unit := λ self,
  if rl_max_active self <=? Z.of_nat (size (rl_active self))
  then (Err (QueueFull "pending request"), self)
  else if decide (correlation_data ∈ rl_active self)
  then (Err (InvalidOptions "duplicate request correlation data"), self)
  else (Ok (), self <| rl_active ::= union {[ correlation_data ]} |>).

(** [RequestLifecycle::cancel] *)
Definition cancel (correlation_data : list Z) (self : RequestLifecycle) : RequestLifecycle :=
  if decide (correlation_data ∈ rl_active self)
  then self <| rl_cancelled ::= union {[ correlation_data ]} |>
  else self.

(** [RequestLifecycle::consume_cancellation] *)
Definition consume_cancellation (correlation_data : list Z) (self : RequestLifecycle)
  : bool * RequestLifecycle :=
  if decide (correlation_data ∈ rl_cancelled self)
  then (true, self <| rl_cancelled ::= λ s, s ∖ {[ correlation_data ]} |>
                   <| rl_active ::= λ s, s ∖ {[ correlation_data ]} |>)
  else (false, self).

(** [RequestLifecycle::finish] *)
Definition finish (correlation_data : list Z) (self : RequestLifecycle) : RequestLifecycle :=
  self <| rl_active ::= λ s, s ∖ {[ correlation_data ]} |>
       <| rl_cancelled ::= λ s, s ∖ {[ correlation_data ]} |>.

(** ** Commands *)

Record RequestCommand := mkRequestCommand {
  rc_topic : list Z;
  rc_payload : list Z;
  rc_response_topic : list Z;
  rc_correlation_data : list Z;
  rc_qos : QoS;
  rc_timeout : Duration;
  rc_properties : Properties;
}.

Inductive Command : Type :=
  | Command_Publish (topic payload : list Z) (options : PublishOptions) (result : Sender)
  | Command_Subscribe (filter : list Z) (qos : QoS) (result : Sender)
  | Command_Unsubscribe (filter : list Z) (result : Sender)
  | Command_Disconnect (result : Sender)
  | Command_Request (request : RequestCommand) (result : Sender).

(** [Command::fail] *)
Definition Command_fail (self : Command) (error : Error) : Oneshots → Oneshots :=
  match self with
  | Command_Publish _ _ _ result => oneshot_send result (Reply_Publish (Err error))
  | Command_Subscribe _ _ result | Command_Unsubscribe _ result =>
      oneshot_send result (Reply_Subscription (Err error))
  | Command_Disconnect result => oneshot_send result (Reply_Disconnect (Err error))
  | Command_Request _ result => oneshot_send result (Reply_Request (Err error))
  end.

(** ** Outbound frames *)

Inductive WrittenAction : Type :=
  | WA_None
  | WA_PublishQos0 (result : Sender)
  | WA_PingReq
  | WA_Disconnect (result : Sender)
  | WA_AbandonedDisconnect.

(** [WrittenAction::fail] *)
Definition WrittenAction_fail (self : WrittenAction) (error : Error) : Oneshots → Oneshots :=
  match self with
  | WA_PublishQos0 result => oneshot_send result (Reply_Publish (Err error))
  | WA_Disconnect result => oneshot_send result (Reply_Disconnect (Err error))
  | WA_None | WA_PingReq | WA_AbandonedDisconnect => id
  end.

Record OutboundFrame := mkOutboundFrame {
  of_bytes : list Z;
  of_offset : Z;
  of_action : WrittenAction;
  of_request_correlation : option (list Z);
}.

Record PendingFlush := mkPendingFlush { pf_bytes : Z; pf_action : WrittenAction }.

(** ** Pending acknowledgements *)

Inductive AckClass : Type := Ack_Publish | Ack_Subscribe | Ack_Unsubscribe.

#[export] Instance AckClass_eq_dec : EqDecision AckClass.
Proof. solve_decision. Defined.

Inductive PendingAckKind : Type :=
  | PK_Publish (result : Sender)
  | PK_Subscribe (requested_qos : QoS) (result : Sender)
  | PK_Unsubscribe (filter : list Z) (result : Sender)
  | PK_RequestPublish (correlation_data : list Z)
  | PK_ResponseSubscribe (response_topic : list Z)
  | PK_Tombstone (expected_ack : AckClass) (counts_toward_receive_maximum : bool).

(** [PendingAckKind::is_cancelled] *)
Definition is_cancelled (o : Oneshots) (self : PendingAckKind) : bool :=
  match self with
  | PK_Publish result | PK_Subscribe _ result | PK_Unsubscribe _ result => is_closed o result
  | PK_Tombstone _ _ | PK_RequestPublish _ | PK_ResponseSubscribe _ => false
  end.

(** [PendingAckKind::fail] *)
Definition PendingAckKind_fail (self : PendingAckKind) (error : Error) : Oneshots → Oneshots :=
  match self with
  | PK_Publish result => oneshot_send result (Reply_Publish (Err error))
  | PK_Subscribe _ result | PK_Unsubscribe _ result =>
      oneshot_send result (Reply_Subscription (Err error))
  | PK_Tombstone _ _ | PK_RequestPublish _ | PK_ResponseSubscribe _ => id
  end.

(** [PendingAckKind::is_qos1_publish] *)
Definition is_qos1_publish (self : PendingAckKind) : bool :=
  match self with
  | PK_Publish _ | PK_RequestPublish _ => true
  | PK_Tombstone _ counts => counts
  | _ => false
  end.

(** [PendingAckKind::is_tombstone] *)
Definition is_tombstone (self : PendingAckKind) : bool :=
  match self with PK_Tombstone _ _ => true | _ => false end.

(** [PendingAckKind::ack_class] *)
Definition ack_class (self : PendingAckKind) : AckClass :=
  match self with
  | PK_Publish _ | PK_RequestPublish _ => Ack_Publish
  | PK_Subscribe _ _ | PK_ResponseSubscribe _ => Ack_Subscribe
  | PK_Unsubscribe _ _ => Ack_Unsubscribe
  | PK_Tombstone expected_ack _ => expected_ack
  end.

Record PendingAck := mkPendingAck {
  pk_deadline : Instant;
  pk_timeout_label : string;
  pk_kind : PendingAckKind;
}.

Record PendingInsertError := mkPendingInsertError {
  pie_error : Error;
  pie_kind : PendingAckKind;
}.

(** ** Requests *)

Record PendingRequest := mkPendingRequest {
  pr_topic : list Z;
  pr_payload : list Z;
  pr_response_topic : list Z;
  pr_qos : QoS;
  pr_properties : Properties;
  pr_deadline : Instant;
  pr_result : Sender;
  pr_publish_packet_id : option Z;
  pr_published : bool;
}.

Inductive ResponseSubscription : Type := Subscribing | Ready.

(** ** Free functions *)

(** [keep_alive_interval]: [Duration::from_secs((secs / 2).max(1))] *)
Definition keep_alive_interval (keep_alive_secs : Z) : option Duration :=
  if negb (keep_alive_secs =? 0) then Some (from_secs (Z.max (keep_alive_secs / 2) 1)) else None.

(** [iter().find(..)] *)
Fixpoint find_code (reason_codes : list Z) : option Z :=
  match reason_codes with
  | [] => None
  | c :: rest => if 0x80 <=? c then Some c else find_code rest
  end.

(** [validate_reason_codes] *)
Definition validate_reason_codes (packet : string) (reason_codes : list Z) (expected : Z)
  : Result unit :=
  if negb (zlen reason_codes =? expected)
  then Err (MalformedPacket "ack reason code count mismatch")
  else match find_code reason_codes with
       | Some reason_code => Err (AckRejected packet reason_code)
       | None => Ok ()
       end.

(** [duplicate_error]: an error value has no identity in the model, and a copied I/O
    error keeps its kind and its text. *)
Definition duplicate_error (error : Error) : Error :=
  match error with
  | InvalidOptions message => InvalidOptions message
  | MalformedPacket message => MalformedPacket message
  | InvalidPacketType value => InvalidPacketType value
  | InvalidQoS value => InvalidQoS value
  | InvalidReasonCode value => InvalidReasonCode value
  | ConnectionRefused value => ConnectionRefused value
  | ServerDisconnected value => ServerDisconnected value
  | PacketTooLarge size max => PacketTooLarge size max
  | StringTooLong length => StringTooLong length
  | BinaryTooLong length => BinaryTooLong length
  | Timeout operation => Timeout operation
  | KeepAliveTimeout => KeepAliveTimeout
  | UnexpectedPacket message => UnexpectedPacket message
  | AckRejected packet reason_code => AckRejected packet reason_code
  | QueueFull queue => QueueFull queue
  | ClientClosed => ClientClosed
  | Serialize message => Serialize message
  | Deserialize message => Deserialize message
  | ConnectionClosed => ConnectionClosed
  | Io error => Io (mk_io (io_kind error) (io_msg error))
  end.

Lemma duplicate_error_id error : duplicate_error error = error.
Proof. by destruct error as [| | | | | | | | | | | | | | | | | | |[]]. Qed.
