(* ===== verification/AsyncDriver.v ===== *)
(** * The connection driver (src/src/async_client.rs)

    [MqttConnection], method by method, over any [Transport]. The state is the
    driver's record; its channel fields are the two ends of the channels it shares
    with the client handles, and [mc_oneshots] the results of operations. The order in
    which a [HashMap] or [HashSet] is walked is not specified by Rust: [HashOrder]
    lets the world choose it. *)

From S2P Require Import Prelude Errors Utf8 Types Decode Topic Properties Packets Connect.
From S2P Require Import Publish Subscribe Ping Frame Options Transport AsyncTypes.

Local Open Scope Z_scope.

Record MqttConnection (W : Type) := mkMqttConnection {
  mc_stream : W;
  mc_frame_reader : FrameReader;
  mc_commands : Channel Command;
  mc_events : Channel Event;
  mc_request_lifecycle : RequestLifecycle;
  mc_outbound : list OutboundFrame;
  mc_outbound_bytes : Z;
  mc_pending_acks : gmap Z PendingAck;
  mc_next_packet_id : Z;
  mc_last_write_at : Instant;
  mc_ping_outstanding_since : option Instant;
  mc_keep_alive_secs : Z;
  mc_peer_max_packet_size : Z;
  mc_peer_receive_maximum : Z;
  mc_server_capabilities : ServerCapabilities;
  mc_max_outbound_queue_bytes : Z;
  mc_max_pending_operations : Z;
  mc_ack_timeout : Duration;
  mc_poll_interval : Duration;
  mc_closing : bool;
  mc_command_channel_closed : bool;
  mc_needs_flush : bool;
  mc_flush_actions : list PendingFlush;
  mc_ping_queued : bool;
  mc_terminal_event_sent : bool;
  mc_pending_requests : gmap (list Z) PendingRequest;
  mc_response_subscriptions : gmap (list Z) ResponseSubscription;
  (** the oneshot channels, which the driver and the handles share *)
  mc_oneshots : Oneshots;
}.
Arguments mkMqttConnection {W}.
Arguments mc_stream {W}.
Arguments mc_frame_reader {W}.
Arguments mc_commands {W}.
Arguments mc_events {W}.
Arguments mc_request_lifecycle {W}.
Arguments mc_outbound {W}.
Arguments mc_outbound_bytes {W}.
Arguments mc_pending_acks {W}.
Arguments mc_next_packet_id {W}.
Arguments mc_last_write_at {W}.
Arguments mc_ping_outstanding_since {W}.
Arguments mc_keep_alive_secs {W}.
Arguments mc_peer_max_packet_size {W}.
Arguments mc_peer_receive_maximum {W}.
Arguments mc_server_capabilities {W}.
Arguments mc_max_outbound_queue_bytes {W}.
Arguments mc_max_pending_operations {W}.
Arguments mc_ack_timeout {W}.
Arguments mc_poll_interval {W}.
Arguments mc_closing {W}.
Arguments mc_command_channel_closed {W}.
Arguments mc_needs_flush {W}.
Arguments mc_flush_actions {W}.
Arguments mc_ping_queued {W}.
Arguments mc_terminal_event_sent {W}.
Arguments mc_pending_requests {W}.
Arguments mc_response_subscriptions {W}.
Arguments mc_oneshots {W}.

(** The order of hash-table iteration: any permutation, chosen by the world. *)
Class HashOrder (W : Type) := {
  reorder : W → ∀ A : Type, list A → list A;
  reorder_perm w A (l : list A) : reorder w A l ≡ₚ l;
}.

(** [a.saturating_duration_since(b)], [a.duration_since(b)] *)
Definition saturating_duration_since (a b : Instant) : Duration := Z.max 0 (a - b).

(** [kind] with the fields of a tombstone for the operation it stood for. *)
Definition tombstone_of (kind : PendingAckKind) : PendingAckKind :=
  PK_Tombstone (ack_class kind) (is_qos1_publish kind).

Section driver.
Context {W : Type} {T : Transport W} {H : HashOrder W}.

Abbreviation Conn := (MqttConnection W).
Abbreviation ConnM A := (M Conn A).

(** *** The transport, the clock, the channels *)

(** A transport call whose [io::Result] the caller matches on. *)
Definition on_stream {A} (m : IoM W A) : ConnM (io_Result A) := λ c,
  let '(r, w) := m (mc_stream c) in
  (match r with
   | Ok a => Ok (Ok a)
   | Err e => Ok (Err e)
   | Panic s => Panic s
   | Diverge => Diverge
   end, c <| mc_stream := w |>).

(** [Instant::now()] *)
Definition now {E} : st Conn E Instant := λ c,
  let '(t, w) := t_now (mc_stream c) in (Ok t, c <| mc_stream := w |>).

(** [instant + duration]: panics past the greatest instant. *)
Definition instant_add {E} (t : Instant) (d : Duration) : st Conn E Instant :=
  match instant_checked_add t_instant_max t d with
  | Some t' => ret t'
  | None => panic "overflow when adding duration to instant"
  end.

Definition on_reader {A} (m : FrameM A) : ConnM A := λ c,
  let '(r, f) := m (mc_frame_reader c) in (r, c <| mc_frame_reader := f |>).

(** [let _ = result.send(..)] *)
Definition send (result : Sender) (r : Reply) : ConnM unit :=
  modify (λ c, c <| mc_oneshots ::= oneshot_send result r |>).

(** [x.fail(error)], for the types that carry a sender. *)
Definition fails (f : Oneshots → Oneshots) : ConnM unit :=
  modify (λ c, c <| mc_oneshots ::= f |>).

(** [self.events.try_send(event)] *)
Definition try_send_event (event : Event) : st Conn TrySendError unit := λ c,
  match try_send event (mc_events c) with
  | Ok events => (Ok (), c <| mc_events := events |>)
  | Err e => (Err e, c)
  | Panic w => (Panic w, c)
  | Diverge => (Diverge, c)
  end.

(** [let _ = self.events.try_send(event)] *)
Definition notify (event : Event) : ConnM unit :=
  match_result (try_send_event event) (λ _, ret ()) ret.

(** [pending_acks.iter()], [pending_requests.iter()], in the order of the world *)
Definition hash_iter {K A} `{Countable K} (m : gmap K A) (self : Conn) : list (K * A) :=
  reorder (mc_stream self) _ (map_to_list m).

(** [for x in list { body(x) }] *)
Fixpoint for_each {A} (l : list A) (body : A → ConnM unit) : ConnM unit :=
  match l with
  | [] => ret ()
  | x :: rest => let! _ := body x in for_each rest body
  end.

(** *** Packet identifiers and the outbound queue *)

(** The [for _ in 0..u16::MAX] loop of [reserve_packet_id]. *)
Fixpoint reserve_loop (n : nat) : ConnM Z :=
  match n with
  | O => fail (QueueFull "packet identifiers")
  | S n' =>
      let! self := get in
      let packet_id := mc_next_packet_id self in
      let! _ := modify (λ c, c <| mc_next_packet_id := as_u16 (packet_id + 1) |>) in
      let! self := get in
      let! _ := if mc_next_packet_id self =? 0
                then modify (λ c, c <| mc_next_packet_id := 1 |>) else ret () in
      if decide (is_Some (mc_pending_acks self !! packet_id))
      then reserve_loop n' else ret packet_id
  end.

(** [MqttConnection::reserve_packet_id] *)
Definition reserve_packet_id : ConnM Z := reserve_loop (Z.to_nat u16_max).

(** [MqttConnection::outgoing_qos1_count] *)
Definition outgoing_qos1_count (self : Conn) : Z :=
  zlen (filter (λ p : Z * PendingAck, is_qos1_publish (pk_kind p.2) = true)
          (map_to_list (mc_pending_acks self))).

(** [MqttConnection::insert_pending_ack] *)
Definition insert_pending_ack (packet_id : Z) (kind : PendingAckKind) (timeout_label : string)
  : st Conn PendingInsertError unit :=
  let! self := get in
  if mc_max_pending_operations self <=? Z.of_nat (size (mc_pending_acks self))
  then fail (mkPendingInsertError (QueueFull "pending operation") kind)
  else
    let! t := now in
    let! deadline := instant_add t (mc_ack_timeout self) in
    modify (λ c, c <| mc_pending_acks ::=
                        <[ packet_id := mkPendingAck deadline timeout_label kind ]> |>).

(** [MqttConnection::enqueue_with_action] *)
Definition enqueue_with_action (bytes : list Z) (action : WrittenAction)
    (request_correlation : option (list Z)) : st Conn (Error * WrittenAction) unit :=
  let! self := get in
  if mc_peer_max_packet_size self <? zlen bytes
  then fail (PacketTooLarge (zlen bytes) (mc_peer_max_packet_size self), action)
  else
    match checked_add (mc_outbound_bytes self) (zlen bytes) with
    | None => fail (QueueFull "outbound bytes", action)
    | Some next_size =>
        if mc_max_outbound_queue_bytes self <? next_size
        then fail (QueueFull "outbound bytes", action)
        else
          modify (λ c, c <| mc_outbound_bytes := next_size |>
            <| mc_outbound ::= λ q, q ++ [mkOutboundFrame bytes 0 action request_correlation] |>)
    end.

(** [MqttConnection::enqueue] *)
Definition enqueue (bytes : list Z) (action : WrittenAction)
    (request_correlation : option (list Z)) : ConnM unit :=
  map_error fst (enqueue_with_action bytes action request_correlation).

(** [if let Some(pending) = self.pending_acks.remove(&packet_id) { pending.fail(error) }] *)
Definition withdraw_ack (packet_id : Z) (error : Error) : ConnM unit :=
  let! self := get in
  match mc_pending_acks self !! packet_id with
  | Some pending =>
      let! _ := modify (λ c, c <| mc_pending_acks ::= delete packet_id |>) in
      fails (PendingAckKind_fail (pk_kind pending) error)
  | None => ret ()
  end.

(** *** Commands *)

(** [MqttConnection::begin_publish] *)
Definition begin_publish (topic payload : list Z) (options : PublishOptions) (result : Sender)
  : ConnM unit :=
  let refuse error := send result (Reply_Publish (Err error)) in
  let! self := get in
  match_result
    (lift (let? _ := validate_topic_name topic in
           validate_publish (mc_server_capabilities self) (po_qos options) (po_retain options)))
    refuse (λ _,
  match_result
    (if bool_decide (po_qos options = AtLeastOnce)
     then let! id := reserve_packet_id in ret (Some id) else ret None)
    refuse (λ packet_id,
  match_result
    (lift (PublishPacket_encode (mkPublishPacket topic packet_id payload (po_qos options)
                                   (po_retain options) false (po_properties options))))
    refuse (λ bytes,
  match packet_id with
  | Some packet_id =>
      let! self := get in
      if mc_peer_receive_maximum self <=? outgoing_qos1_count self
      then refuse (QueueFull "broker receive maximum")
      else
        match_result (insert_pending_ack packet_id (PK_Publish result) "publish acknowledgement")
          (λ error, match pie_kind error with
                    | PK_Publish result => send result (Reply_Publish (Err (pie_error error)))
                    | _ => ret ()
                    end)
          (λ _, match_result (enqueue bytes WA_None None) (withdraw_ack packet_id) ret)
  | None =>
      match_result (enqueue_with_action bytes (WA_PublishQos0 result) None)
        (λ '(error, action), fails (WrittenAction_fail action error)) ret
  end))).

(** [MqttConnection::begin_subscribe] *)
Definition begin_subscribe (filter : list Z) (qos : QoS) (result : Sender) : ConnM unit :=
  let refuse error := send result (Reply_Subscription (Err error)) in
  let! self := get in
  match_result (lift (validate_subscription_filter (mc_server_capabilities self) filter))
    refuse (λ _,
  match_result reserve_packet_id refuse (λ packet_id,
  match_result
    (lift (SubscribePacket_encode (mkSubscribePacket packet_id [(filter, qos)] properties_new)))
    refuse (λ bytes,
  match_result
    (insert_pending_ack packet_id (PK_Subscribe qos result) "subscription acknowledgement")
    (λ error, match pie_kind error with
              | PK_Subscribe _ result => send result (Reply_Subscription (Err (pie_error error)))
              | _ => ret ()
              end)
    (λ _, match_result (enqueue bytes WA_None None) (withdraw_ack packet_id) ret)))).

(** [MqttConnection::begin_unsubscribe] *)
Definition begin_unsubscribe (filter : list Z) (result : Sender) : ConnM unit :=
  let refuse error := send result (Reply_Subscription (Err error)) in
  match_result (lift (validate_topic_filter filter)) refuse (λ _,
  match_result reserve_packet_id refuse (λ packet_id,
  match_result
    (lift (UnsubscribePacket_encode (mkUnsubscribePacket packet_id [filter] properties_new)))
    refuse (λ bytes,
  match_result
    (insert_pending_ack packet_id (PK_Unsubscribe filter result) "unsubscribe acknowledgement")
    (λ error, match pie_kind error with
              | PK_Unsubscribe _ result => send result (Reply_Subscription (Err (pie_error error)))
              | _ => ret ()
              end)
    (λ _, match_result (enqueue bytes WA_None None) (withdraw_ack packet_id) ret)))).

(** [MqttConnection::begin_disconnect] *)
Definition begin_disconnect (result : Sender) : ConnM unit :=
  let! _ := modify (λ c, c <| mc_closing := true |>) in
  let! bytes := lift (DisconnectPacket_encode (mkDisconnectPacket 0x00)) in
  match_result (enqueue_with_action bytes (WA_Disconnect result) None)
    (λ '(error, action),
      let! _ := fails (WrittenAction_fail action error) in
      modify (λ c, c <| mc_closing := false |>))
    ret.

(** [MqttConnection::begin_abandoned_disconnect] *)
Definition begin_abandoned_disconnect : ConnM unit :=
  let! self := get in
  if mc_closing self || negb (mc_command_channel_closed self) then ret ()
  else
    let! _ := modify (λ c, c <| mc_closing := true |>) in
    let! bytes := lift (DisconnectPacket_encode (mkDisconnectPacket 0x00)) in
    enqueue bytes WA_AbandonedDisconnect None.

(** *** Requests *)

(** [MqttConnection::finish_request_lifecycle] *)
Definition finish_request_lifecycle (correlation_data : list Z) : ConnM unit :=
  modify (λ c, c <| mc_request_lifecycle ::= finish correlation_data |>).

(** The frame of a request that nothing was written of. *)
Definition unsent_of (correlation_data : list Z) (frame : OutboundFrame) : bool :=
  (of_offset frame =? 0) && bool_decide (of_request_correlation frame = Some correlation_data).

(** The [while] loop of [remove_request]: what is retained, the bytes still queued and
    whether a frame was removed. *)
Fixpoint retain_frames (correlation_data : list Z) (outbound : list OutboundFrame)
    (outbound_bytes : Z) (removed : bool) : list OutboundFrame * Z * bool :=
  match outbound with
  | [] => ([], outbound_bytes, removed)
  | frame :: rest =>
      if unsent_of correlation_data frame
      then retain_frames correlation_data rest
             (saturating_sub outbound_bytes (zlen (of_bytes frame))) true
      else
        let '(retained, n, b) := retain_frames correlation_data rest outbound_bytes removed in
        (frame :: retained, n, b)
  end.

(** [MqttConnection::remove_request] *)
Definition remove_request (correlation_data : list Z) : ConnM (option PendingRequest) :=
  let! self := get in
  match mc_pending_requests self !! correlation_data with
  | None => ret None
  | Some pending =>
      let! _ := modify (λ c, c <| mc_pending_requests ::= delete correlation_data |>) in
      let! _ := finish_request_lifecycle correlation_data in
      let '(retained, bytes, removed_unsent_publish) :=
        retain_frames correlation_data (mc_outbound self) (mc_outbound_bytes self) false in
      let! _ := modify (λ c, c <| mc_outbound := retained |> <| mc_outbound_bytes := bytes |>) in
      let! _ :=
        match pr_publish_packet_id pending with
        | Some packet_id =>
            if removed_unsent_publish
            then modify (λ c, c <| mc_pending_acks ::= delete packet_id |>)
            else modify (λ c, c <| mc_pending_acks ::=
                   alter (λ ack, ack <| pk_kind := PK_Tombstone Ack_Publish true |>) packet_id |>)
        | None => ret ()
        end in
      ret (Some pending)
  end.

(** [MqttConnection::fail_request] *)
Definition fail_request (correlation_data : list Z) (error : Error) : ConnM unit :=
  let! pending := remove_request correlation_data in
  match pending with
  | Some pending => send (pr_result pending) (Reply_Request (Err error))
  | None => ret ()
  end.

(** The requests waiting on [response_topic], in iteration order. *)
Definition requests_on (response_topic : list Z) (keep : PendingRequest → bool) (self : Conn)
  : list (list Z) :=
  fst <$> filter (λ p : list Z * PendingRequest,
            keep p.2 = true ∧ pr_response_topic p.2 = response_topic)
          (hash_iter (mc_pending_requests self) self).

(** [MqttConnection::fail_requests_for_topic] *)
Definition fail_requests_for_topic (response_topic : list Z) (error : Error) : ConnM unit :=
  let! self := get in
  for_each (requests_on response_topic (λ _, true) self)
    (λ correlation, fail_request correlation (duplicate_error error)).

(** [MqttConnection::publish_request] *)
Definition publish_request (correlation_data : list Z) : ConnM unit :=
  let! self := get in
  match mc_pending_requests self !! correlation_data with
  | None => ret ()
  | Some pending =>
      if pr_published pending then ret () else
      let! packet_id :=
        if bool_decide (pr_qos pending = AtLeastOnce) then
          if mc_peer_receive_maximum self <=? outgoing_qos1_count self
          then fail (QueueFull "broker receive maximum")
          else let! id := reserve_packet_id in ret (Some id)
        else ret None in
      let! bytes := lift (PublishPacket_encode
        (mkPublishPacket (pr_topic pending) packet_id (pr_payload pending) (pr_qos pending)
           false false (pr_properties pending))) in
      let! _ :=
        match packet_id with
        | Some packet_id =>
            map_error pie_error
              (insert_pending_ack packet_id (PK_RequestPublish correlation_data)
                 "request publish acknowledgement")
        | None => ret ()
        end in
      match_result (enqueue bytes WA_None (Some correlation_data))
        (λ error,
          let! _ := match packet_id with
                    | Some packet_id => modify (λ c, c <| mc_pending_acks ::= delete packet_id |>)
                    | None => ret ()
                    end in
          fail error)
        (λ _, modify (λ c, c <| mc_pending_requests ::=
            alter (λ pending, pending <| pr_published := true |>
                                      <| pr_publish_packet_id := packet_id |>)
                  correlation_data |>))
  end.

(** [MqttConnection::publish_waiting_requests] *)
Definition publish_waiting_requests (response_topic : list Z) : ConnM unit :=
  let! self := get in
  for_each (requests_on response_topic (λ pending, negb (pr_published pending)) self)
    (λ correlation,
      match_result (publish_request correlation) (fail_request correlation) ret).

(** [MqttConnection::subscribe_for_responses] *)
Definition subscribe_for_responses (response_topic : list Z) : ConnM unit :=
  let! packet_id := reserve_packet_id in
  let! bytes := lift (SubscribePacket_encode
    (mkSubscribePacket packet_id [(response_topic, AtLeastOnce)] properties_new)) in
  let! _ := map_error pie_error
    (insert_pending_ack packet_id (PK_ResponseSubscribe response_topic)
       "request subscription acknowledgement") in
  let! _ := modify (λ c, c <| mc_response_subscriptions ::= <[ response_topic := Subscribing ]> |>) in
  match_result (enqueue bytes WA_None None)
    (λ error,
      let! _ := modify (λ c, c <| mc_pending_acks ::= delete packet_id |>
                               <| mc_response_subscriptions ::= delete response_topic |>) in
      fail error)
    ret.

(** [MqttConnection::begin_request] *)
Definition begin_request (request : RequestCommand) (result : Sender) : ConnM unit :=
  let correlation_data := rc_correlation_data request in
  let refuse error :=
    let! _ := finish_request_lifecycle correlation_data in
    send result (Reply_Request (Err error)) in
  let! self := get in
  let '(cancelled, lifecycle) :=
    consume_cancellation correlation_data (mc_request_lifecycle self) in
  let! _ := modify (λ c, c <| mc_request_lifecycle := lifecycle |>) in
  if cancelled then ret () else
  if rc_timeout request =? 0 then refuse (InvalidOptions "request timeout must be non-zero") else
  match_result
    (lift (let? _ := validate_topic_name (rc_topic request) in
           validate_publish (mc_server_capabilities self) (rc_qos request) false))
    refuse (λ _,
  if mc_max_pending_operations self <=? Z.of_nat (size (mc_pending_requests self))
  then refuse (QueueFull "pending request") else
  if decide (is_Some (mc_pending_requests self !! correlation_data))
  then refuse (MalformedPacket "duplicate request correlation data") else
  let! t := now in
  match instant_checked_add t_instant_max t (rc_timeout request) with
  | None => refuse (InvalidOptions "request timeout is too large")
  | Some deadline =>
      let response_topic := rc_response_topic request in
      let! _ := modify (λ c, c <| mc_pending_requests ::= <[ correlation_data :=
        mkPendingRequest (rc_topic request) (rc_payload request) response_topic (rc_qos request)
          (rc_properties request) deadline result None false ]> |>) in
      match mc_response_subscriptions self !! response_topic with
      | Some Ready => publish_request correlation_data
      | Some Subscribing => ret ()
      | None =>
          if mc_max_pending_operations self <=? Z.of_nat (size (mc_response_subscriptions self))
          then fail (QueueFull "response subscriptions")
          else subscribe_for_responses response_topic
      end
  end).

(** [MqttConnection::try_complete_request] *)
Definition try_complete_request (packet : PublishPacket) : ConnM bool :=
  match get_binary (pub_properties packet) CorrelationData with
  | None => ret false
  | Some correlation_data =>
      let! self := get in
      match mc_pending_requests self !! correlation_data with
      | Some pending =>
          if decide (pr_response_topic pending = pub_topic packet) then
            let! pending := remove_request correlation_data in
            let! _ := match pending with
                      | Some pending => send (pr_result pending) (Reply_Request (Ok packet))
                      | None => ret ()
                      end in
            ret true
          else ret false
      | None => ret false
      end
  end.

(** [MqttConnection::drain_cancellations] *)
Definition drain_cancellations : ConnM unit :=
  let! self := get in
  let cancellations :=
    filter (λ correlation_data, is_Some (mc_pending_requests self !! correlation_data))
      (reorder (mc_stream self) _ (elements (rl_cancelled (mc_request_lifecycle self)))) in
  for_each cancellations
    (λ correlation_data, let! _ := remove_request correlation_data in ret ()).

(** [MqttConnection::process_command] *)
Definition process_command (command : Command) : ConnM unit :=
  let! self := get in
  if mc_closing self then fails (Command_fail command ClientClosed)
  else
    match command with
    | Command_Publish topic payload options result => begin_publish topic payload options result
    | Command_Subscribe filter qos result => begin_subscribe filter qos result
    | Command_Unsubscribe filter result => begin_unsubscribe filter result
    | Command_Disconnect result => begin_disconnect result
    | Command_Request request result =>
        match_result (begin_request request result)
          (fail_request (rc_correlation_data request)) ret
    end.

(** The [for] loop of [MqttConnection::drain_commands]. *)
Fixpoint drain_commands_loop (n : nat) : ConnM unit :=
  match n with
  | O => ret ()
  | S n' =>
      let! self := get in
      match ch_queue (mc_commands self) with
      | command :: rest =>
          let! _ := modify (λ c, c <| mc_commands ::= λ ch, ch <| ch_queue := rest |> |>) in
          let! _ := process_command command in
          drain_commands_loop n'
      | [] =>
          if ch_senders (mc_commands self) then ret ()
          else
            let! _ := modify (λ c, c <| mc_command_channel_closed := true |>) in
            begin_abandoned_disconnect
      end
  end.

(** [MqttConnection::drain_commands] *)
Definition drain_commands : ConnM unit :=
  let! self := get in drain_commands_loop (Z.to_nat (mc_max_pending_operations self)).

(** *** Writing *)

(** [MqttConnection::complete_written] *)
Definition complete_written (action : WrittenAction) : ConnM unit :=
  match action with
  | WA_None | WA_AbandonedDisconnect => ret ()
  | WA_PublishQos0 result => send result (Reply_Publish (Ok (mkPublishAck None None)))
  | WA_PingReq =>
      let! _ := modify (λ c, c <| mc_ping_queued := false |>) in
      let! t := now in
      modify (λ c, c <| mc_ping_outstanding_since := Some t |>)
  | WA_Disconnect result =>
      let! _ := send result (Reply_Disconnect (Ok ())) in
      let! _ := notify (Event_Disconnected ClientInitiated) in
      modify (λ c, c <| mc_terminal_event_sent := true |>)
  end.

(** The [while let Some(flush) = self.flush_actions.pop_front()] loop, over the
    actions queued when it starts. *)
Fixpoint complete_flushes (actions : list PendingFlush) : ConnM unit :=
  match actions with
  | [] => ret ()
  | flush :: rest =>
      let! _ := modify (λ c, c <| mc_flush_actions := rest |>
        <| mc_outbound_bytes ::= λ n, saturating_sub n (pf_bytes flush) |>) in
      let! _ := complete_written (pf_action flush) in
      complete_flushes rest
  end.

(** [MqttConnection::flush_accepted] *)
Definition flush_accepted : ConnM bool :=
  let! r := on_stream t_flush in
  match r with
  | Ok _ =>
      let! _ := modify (λ c, c <| mc_needs_flush := false |>) in
      let! self := get in
      let! _ := complete_flushes (mc_flush_actions self) in
      ret true
  | Err error =>
      if decide (io_kind error = Interrupted ∨ io_kind error = WouldBlock) then ret false
      else fail (Io error)
  | Panic w => panic w
  | Diverge => diverge
  end.

(** The [loop] of [flush_outbound]. *)
Fixpoint write_loop (fuel : nat) : ConnM unit :=
  match fuel with
  | O => diverge
  | S fuel' =>
      let! self := get in
      match mc_outbound self with
      | [] => ret ()
      | frame :: rest =>
          let! unwritten := lift (slice_from (of_bytes frame) (of_offset frame)) in
          let! r := on_stream (t_write unwritten) in
          match r with
          | Ok written =>
              if written =? 0 then fail (Io (io_of_kind WriteZero)) else
              if zlen (of_bytes frame) - of_offset frame <? written
              then fail (Io (mk_io InvalidData "transport reported an oversized write")) else
              let frame := frame <| of_offset := of_offset frame + written |> in
              let! _ := modify (λ c, c <| mc_outbound := frame :: rest |>) in
              let! t := now in
              let! _ := modify (λ c, c <| mc_last_write_at := t |> <| mc_needs_flush := true |>) in
              let! _ :=
                if of_offset frame =? zlen (of_bytes frame) then
                  modify (λ c, c <| mc_outbound := rest |>
                    <| mc_flush_actions ::= λ q,
                         q ++ [mkPendingFlush (zlen (of_bytes frame)) (of_action frame)] |>)
                else ret () in
              write_loop fuel'
          | Err error =>
              if decide (io_kind error = Interrupted) then write_loop fuel'
              else if decide (io_kind error = WouldBlock) then ret ()
              else fail (Io error)
          | Panic w => panic w
          | Diverge => diverge
          end
      end
  end.

(** [MqttConnection::flush_outbound] *)
Definition flush_outbound (fuel : nat) : ConnM unit :=
  let! self := get in
  let! blocked :=
    if mc_needs_flush self then let! flushed := flush_accepted in ret (negb flushed)
    else ret false in
  if blocked then ret () else
  let! _ := write_loop fuel in
  let! self := get in
  if mc_needs_flush self then let! _ := flush_accepted in ret () else ret ().

(** *** Reading *)

(** The [for _ in 0..64] loop of [MqttConnection::read_available]. *)
Fixpoint read_loop (n : nat) : ConnM unit :=
  match n with
  | O => ret ()
  | S n' =>
      let! self := get in
      let capacity := Z.min (remaining_capacity (mc_frame_reader self)) 8192 in
      if capacity =? 0 then ret () else
      let! r := on_stream (t_read capacity) in
      match r with
      | Ok [] =>
          let! _ := notify (Event_Disconnected TransportClosed) in
          let! _ := modify (λ c, c <| mc_terminal_event_sent := true |>) in
          fail ConnectionClosed
      | Ok read =>
          let! _ := on_reader (FrameReader_push read) in
          read_loop n'
      | Err error =>
          if decide (io_kind error = Interrupted) then read_loop n'
          else if decide (io_kind error = WouldBlock) then ret ()
          else fail (Io error)
      | Panic w => panic w
      | Diverge => diverge
      end
  end.

(** [MqttConnection::read_available] *)
Definition read_available : ConnM unit := read_loop 64.

(** *** Dispatch *)

(** [MqttConnection::fail_pending] *)
Definition fail_pending : ConnM unit :=
  let! self := get in
  let! _ := modify (λ c, c <| mc_pending_acks := ∅ |>) in
  let! _ := for_each (hash_iter (mc_pending_acks self) self)
    (λ '(_, pending), fails (PendingAckKind_fail (pk_kind pending) ConnectionClosed)) in
  let! _ := modify (λ c, c <| mc_outbound := [] |>) in
  let! _ := for_each (mc_outbound self)
    (λ frame, fails (WrittenAction_fail (of_action frame) ConnectionClosed)) in
  let! _ := modify (λ c, c <| mc_flush_actions := [] |>) in
  let! _ := for_each (mc_flush_actions self)
    (λ flush, fails (WrittenAction_fail (pf_action flush) ConnectionClosed)) in
  let! _ := modify (λ c, c <| mc_outbound_bytes := 0 |> <| mc_pending_requests := ∅ |>) in
  for_each (hash_iter (mc_pending_requests self) self)
    (λ '(correlation_data, pending),
      let! _ := finish_request_lifecycle correlation_data in
      send (pr_result pending) (Reply_Request (Err ConnectionClosed))).

(** [MqttConnection::take_pending_ack] *)
Definition take_pending_ack (packet_id : Z) (received : AckClass) : ConnM (option PendingAck) :=
  let! self := get in
  match mc_pending_acks self !! packet_id with
  | None => ret None
  | Some pending =>
      if decide (ack_class (pk_kind pending) = received) then
        let! _ := modify (λ c, c <| mc_pending_acks ::= delete packet_id |>) in
        ret (Some pending)
      else fail (UnexpectedPacket "acknowledgement type does not match pending packet id")
  end.

(** [MqttConnection::complete_subscribe] *)
Definition complete_subscribe (ack : SubAckPacket) (requested_qos : QoS) (result : Sender)
  : ConnM unit :=
  match validate_suback_codes (sa_reason_codes ack) [requested_qos] with
  | Ok _ =>
      send result (Reply_Subscription
        (Ok (mkSubscriptionAck (sa_packet_id ack) (sa_reason_codes ack))))
  | Err (AckRejected packet code) =>
      send result (Reply_Subscription (Err (AckRejected packet code)))
  | Err error =>
      let! _ := send result (Reply_Subscription (Err (duplicate_error error))) in
      fail error
  | Panic w => panic w
  | Diverge => diverge
  end.

(** [MqttConnection::dispatch_publish] *)
Definition dispatch_publish (packet : PublishPacket) : ConnM unit :=
  let! _ :=
    if bool_decide (pub_qos packet = AtLeastOnce) then
      let! packet_id := lift (ok_or (pub_packet_id packet)
                                (MalformedPacket "QoS 1 PUBLISH missing packet id")) in
      let! ack := lift (PubAckPacket_encode (mkPubAckPacket packet_id 0x00)) in
      enqueue ack WA_None None
    else ret () in
  let! completed := try_complete_request packet in
  if completed then ret ()
  else map_error (λ error, match error with Full => QueueFull "event" | Closed => ClientClosed end)
         (try_send_event (Event_Publish packet)).

(** [MqttConnection::dispatch_puback] *)
Definition dispatch_puback (ack : PubAckPacket) : ConnM unit :=
  let! pending := take_pending_ack (pa_packet_id ack) Ack_Publish in
  match pending with
  | None => ret ()
  | Some pending =>
      match pk_kind pending with
      | PK_Publish result =>
          if 0x80 <=? pa_reason_code ack
          then send result (Reply_Publish (Err (AckRejected "PUBACK" (pa_reason_code ack))))
          else send result (Reply_Publish
                 (Ok (mkPublishAck (Some (pa_packet_id ack)) (Some (pa_reason_code ack)))))
      | PK_RequestPublish correlation_data =>
          if 0x80 <=? pa_reason_code ack
          then fail_request correlation_data (AckRejected "PUBACK" (pa_reason_code ack))
          else ret ()
      | other =>
          fails (PendingAckKind_fail other (UnexpectedPacket "PUBACK packet id type mismatch"))
      end
  end.

(** [MqttConnection::dispatch_suback] *)
Definition dispatch_suback (ack : SubAckPacket) : ConnM unit :=
  let! pending := take_pending_ack (sa_packet_id ack) Ack_Subscribe in
  match pending with
  | None => ret ()
  | Some pending =>
      match pk_kind pending with
      | PK_Subscribe requested_qos result => complete_subscribe ack requested_qos result
      | PK_ResponseSubscribe response_topic =>
          match validate_suback_codes (sa_reason_codes ack) [AtLeastOnce] with
          | Ok _ =>
              let! _ := modify (λ c, c <| mc_response_subscriptions ::=
                                            <[ response_topic := Ready ]> |>) in
              publish_waiting_requests response_topic
          | Err (AckRejected packet code) =>
              let! _ := modify (λ c, c <| mc_response_subscriptions ::= delete response_topic |>) in
              fail_requests_for_topic response_topic (AckRejected packet code)
          | Err error =>
              let! _ := modify (λ c, c <| mc_response_subscriptions ::= delete response_topic |>) in
              let! _ := fail_requests_for_topic response_topic (duplicate_error error) in
              fail error
          | Panic w => panic w
          | Diverge => diverge
          end
      | other =>
          fails (PendingAckKind_fail other (UnexpectedPacket "SUBACK packet id type mismatch"))
      end
  end.

(** [MqttConnection::dispatch_unsuback] *)
Definition dispatch_unsuback (ack : UnsubAckPacket) : ConnM unit :=
  let! pending := take_pending_ack (ua_packet_id ack) Ack_Unsubscribe in
  match pending with
  | None => ret ()
  | Some pending =>
      match pk_kind pending with
      | PK_Unsubscribe filter result =>
          let response :=
            let? _ := validate_reason_codes "UNSUBACK" (ua_reason_codes ack) 1 in
            Ok (mkSubscriptionAck (ua_packet_id ack) (ua_reason_codes ack)) in
          let! _ :=
            match response with
            | Ok _ => modify (λ c, c <| mc_response_subscriptions ::= delete filter |>)
            | _ => ret ()
            end in
          send result (Reply_Subscription response)
      | other =>
          fails (PendingAckKind_fail other (UnexpectedPacket "UNSUBACK packet id type mismatch"))
      end
  end.

(** [MqttConnection::dispatch_packet] *)
Definition dispatch_packet (packet : Packet) : ConnM unit :=
  match packet with
  | PktPublish packet => dispatch_publish packet
  | PktPubAck ack => dispatch_puback ack
  | PktSubAck ack => dispatch_suback ack
  | PktUnsubAck ack => dispatch_unsuback ack
  | PktPingResp => modify (λ c, c <| mc_ping_outstanding_since := None |>)
  | PktDisconnect disconnect =>
      let! _ := fail_pending in
      let! _ := notify (Event_Disconnected (Server (dis_reason_code disconnect))) in
      let! _ := modify (λ c, c <| mc_terminal_event_sent := true |>) in
      fail (ServerDisconnected (dis_reason_code disconnect))
  | PktPingReq => fail (UnexpectedPacket "broker sent PINGREQ")
  | PktConnAck _ => fail (UnexpectedPacket "duplicate CONNACK")
  | PktConnect _ | PktSubscribe _ | PktUnsubscribe _ =>
      fail (UnexpectedPacket "server sent client-only packet")
  end.

(** The [while let] loop of [decode_and_dispatch]. *)
Fixpoint dispatch_loop (fuel : nat) : ConnM unit :=
  match fuel with
  | O => diverge
  | S fuel' =>
      let! packet := on_reader try_decode in
      match packet with
      | Some packet =>
          let! _ := dispatch_packet packet in
          dispatch_loop fuel'
      | None => ret ()
      end
  end.

(** [MqttConnection::decode_and_dispatch]: every packet takes at least two of the
    buffered bytes, so the loop needs no more iterations than there are bytes. *)
Definition decode_and_dispatch : ConnM unit :=
  let! self := get in
  dispatch_loop (S (length (fr_buf (mc_frame_reader self)))).

(** *** Timers *)

(** The body of the loop over the expired acknowledgements. *)
Definition expire_ack (packet_id : Z) : ConnM unit :=
  let! self := get in
  match mc_pending_acks self !! packet_id with
  | None => ret ()
  | Some pending =>
      let kind := pk_kind pending in
      let! _ := modify (λ c, c <| mc_pending_acks ::=
                  <[ packet_id := pending <| pk_kind := tombstone_of kind |> ]> |>) in
      match kind with
      | PK_ResponseSubscribe response_topic =>
          let! _ := modify (λ c, c <| mc_response_subscriptions ::= delete response_topic |>) in
          fail_requests_for_topic response_topic (Timeout (pk_timeout_label pending))
      | PK_RequestPublish correlation_data =>
          fail_request correlation_data (Timeout (pk_timeout_label pending))
      | other => fails (PendingAckKind_fail other (Timeout (pk_timeout_label pending)))
      end
  end.

(** The body of the loop over the expired requests. *)
Definition expire_request (correlation_data : list Z) : ConnM unit :=
  let! self := get in
  let cancelled :=
    match mc_pending_requests self !! correlation_data with
    | Some pending => is_closed (mc_oneshots self) (pr_result pending)
    | None => false
    end in
  if cancelled then let! _ := remove_request correlation_data in ret ()
  else fail_request correlation_data (Timeout "request response").

(** A cancelled waiter becomes a tombstone. *)
Definition bury_cancelled (o : Oneshots) (pending : PendingAck) : PendingAck :=
  if is_cancelled o (pk_kind pending)
  then pending <| pk_kind := tombstone_of (pk_kind pending) |> else pending.

(** [MqttConnection::expire_operations] *)
Definition expire_operations : ConnM unit :=
  let! now_ := now in
  let! _ := modify (λ c, c <| mc_pending_acks ::= fmap (bury_cancelled (mc_oneshots c)) |>) in
  let! self := get in
  let expired_acks :=
    fst <$> filter (λ p : Z * PendingAck,
              pk_deadline p.2 ≤ now_ ∧ is_tombstone (pk_kind p.2) = false)
            (hash_iter (mc_pending_acks self) self) in
  let! _ := for_each expired_acks expire_ack in
  let! self := get in
  let expired_requests :=
    fst <$> filter (λ p : list Z * PendingRequest,
              pr_deadline p.2 ≤ now_ ∨ is_closed (mc_oneshots self) (pr_result p.2) = true)
            (hash_iter (mc_pending_requests self) self) in
  for_each expired_requests expire_request.

(** [MqttConnection::maintain_keep_alive] *)
Definition maintain_keep_alive : ConnM unit :=
  let! self := get in
  match keep_alive_interval (mc_keep_alive_secs self) with
  | None => ret ()
  | Some interval =>
      let! now_ := now in
      match mc_ping_outstanding_since self with
      | Some sent_at =>
          fail_if (from_secs (mc_keep_alive_secs self) <=? saturating_duration_since now_ sent_at)
            KeepAliveTimeout
      | None =>
          if negb (mc_ping_queued self)
             && (interval <=? saturating_duration_since now_ (mc_last_write_at self)) then
            let! _ := enqueue PINGREQ_BYTES WA_PingReq None in
            modify (λ c, c <| mc_ping_queued := true |>)
          else ret ()
      end
  end.

(** [MqttConnection::next_wait_duration] *)
Definition next_wait_duration : ConnM Duration :=
  let! now_ := now in
  let! self := get in
  let wait := mc_poll_interval self in
  let wait := fold_left (λ wait p, Z.min wait (saturating_duration_since (pk_deadline p.2) now_))
                (hash_iter (mc_pending_acks self) self) wait in
  let wait := fold_left (λ wait p, Z.min wait (saturating_duration_since (pr_deadline p.2) now_))
                (hash_iter (mc_pending_requests self) self) wait in
  match keep_alive_interval (mc_keep_alive_secs self) with
  | None => ret wait
  | Some interval =>
      match mc_ping_outstanding_since self with
      | Some sent =>
          let! deadline := instant_add sent (from_secs (mc_keep_alive_secs self)) in
          ret (Z.min wait (saturating_duration_since deadline now_))
      | None =>
          if negb (mc_ping_queued self) then
            let! at_ := instant_add (mc_last_write_at self) interval in
            ret (Z.min wait (saturating_duration_since at_ now_))
          else ret wait
      end
  end.

(** *** The run loop *)

(** [self.closing && self.outbound.is_empty() && !self.needs_flush] *)
Definition finished (self : Conn) : bool :=
  mc_closing self && bool_decide (mc_outbound self = []) && negb (mc_needs_flush self).
End driver.
