(* ===== verification/AsyncClient.v ===== *)
(** * The async client (src/src/async_client.rs, src/src/request_response.rs)

    The client handles, the request helper and its cancellation guard, the driver's run
    loop with the tasks that run between its turns, and the handshake that creates the
    handle and the driver. The handle's channel ends and lifecycle are those of the
    connection, so its methods act on the driver's record; an operation's future is the
    number of its oneshot channel. *)

From S2P Require Import Prelude Errors Utf8 Str Types Decode Topic Properties Packets Connect.
From S2P Require Import Publish Subscribe Ping PacketCodec Frame Options Transport.
From S2P Require Import AsyncTypes AsyncDriver.

Local Open Scope Z_scope.

(** ** Request options (request_response.rs) *)

Record RequestOptions := mkRequestOptions {
  ro_response_topic : list Z;
  ro_qos : QoS;
  ro_timeout : Duration;
  ro_properties : Properties;
  ro_correlation_data : option (list Z);
}.

(** [RequestOptions::new] and the builder methods. *)
Definition RequestOptions_new (response_topic : list Z) : RequestOptions :=
  mkRequestOptions response_topic AtLeastOnce (from_secs 30) properties_new None.
Definition ro_with_qos (qos : QoS) (o : RequestOptions) : RequestOptions := o <| ro_qos := qos |>.
Definition ro_with_timeout (timeout : Duration) (o : RequestOptions) : RequestOptions :=
  o <| ro_timeout := timeout |>.
Definition ro_with_properties (properties : Properties) (o : RequestOptions) : RequestOptions :=
  o <| ro_properties := properties |>.
Definition ro_with_correlation_data (data : list Z) (o : RequestOptions) : RequestOptions :=
  o <| ro_correlation_data := Some data |>.

(** [RequestOptions::validate], at the instant [now]. *)
Definition RequestOptions_validate (instant_max now : Instant) (self : RequestOptions)
  : Result unit :=
  if is_empty (ro_response_topic self)
  then Err (InvalidOptions "response topic must not be empty")
  else if contains_wildcard (ro_response_topic self)
  then Err (InvalidOptions "response topic must not contain wildcards")
  else if starts_with (lit "$share/") (ro_response_topic self)
  then Err (InvalidOptions "response topic must not use the shared-subscription prefix")
  else if ro_timeout self =? 0
  then Err (InvalidOptions "request timeout must be non-zero")
  else match instant_checked_add instant_max now (ro_timeout self) with
       | None => Err (InvalidOptions "request timeout is too large")
       | Some _ => Ok ()
       end.

(** The request and its properties that [AsyncMqttClient::request] builds; [uuid] are
    the bytes of the identifier it generates when the caller gives none. *)
Definition request_command (uuid topic payload : list Z) (options : RequestOptions)
  : RequestCommand :=
  let correlation_data := default uuid (ro_correlation_data options) in
  let properties := ro_properties options in
  let properties := set_response_topic properties (ro_response_topic options) in
  let properties := set_correlation_data properties correlation_data in
  mkRequestCommand topic payload (ro_response_topic options) correlation_data
    (ro_qos options) (ro_timeout options) properties.

(** [RequestCancellation]: the guard of a request future. *)
Record RequestCancellation := mkRequestCancellation { rcn_correlation_data : option (list Z) }.

(** [RequestCancellation::new] *)
Definition RequestCancellation_new (correlation_data : list Z) : RequestCancellation :=
  mkRequestCancellation (Some correlation_data).

(** [RequestCancellation::finish], on the lifecycle the guard points to. *)
Definition RequestCancellation_finish (self : RequestCancellation) (l : RequestLifecycle)
  : RequestCancellation * RequestLifecycle :=
  match rcn_correlation_data self with
  | Some correlation_data => (mkRequestCancellation None, finish correlation_data l)
  | None => (self, l)
  end.

(** [Drop for RequestCancellation] *)
Definition RequestCancellation_drop (self : RequestCancellation) (l : RequestLifecycle)
  : RequestLifecycle :=
  match rcn_correlation_data self with
  | Some correlation_data => cancel correlation_data l
  | None => l
  end.

(** ** The client handle *)

Record AsyncMqttClient := mkAsyncMqttClient { ac_max_packet_size : Z }.

Section client.
Context {W : Type} {T : Transport W} {H : HashOrder W}.

Abbreviation Conn := (MqttConnection W).
Abbreviation ConnM A := (M Conn A).

(** [oneshot::channel] *)
Definition oneshot_channel : ConnM Sender := λ c,
  (Ok (os_next (mc_oneshots c)), c <| mc_oneshots ::= λ o, o <| os_next ::= S |> |>).

(** [AsyncMqttClient::send_command] *)
Definition send_command (command : Command) : ConnM unit := λ c,
  match try_send command (mc_commands c) with
  | Ok commands => (Ok (), c <| mc_commands := commands |>)
  | Err Full => (Err (QueueFull "command"), c)
  | Err Closed => (Err ClientClosed, c)
  | Panic w => (Panic w, c)
  | Diverge => (Diverge, c)
  end.

(** [AsyncMqttClient::publish], up to its await. *)
Definition client_publish (self : AsyncMqttClient) (topic payload : list Z)
    (options : PublishOptions) : ConnM Sender :=
  let! _ := fail_if (ac_max_packet_size self <? zlen payload)
              (PacketTooLarge (zlen payload) (ac_max_packet_size self)) in
  let! result := oneshot_channel in
  let! _ := send_command (Command_Publish topic payload options result) in
  ret result.

(** [AsyncMqttClient::publish_json]; [to_vec] is the serializer. *)
Definition client_publish_json {P} (to_vec : P → result string (list Z)) (self : AsyncMqttClient)
    (topic : list Z) (payload : P) (options : PublishOptions) : ConnM Sender :=
  let! bytes := lift (map_err Serialize (to_vec payload)) in
  client_publish self topic bytes options.

(** [AsyncMqttClient::subscribe], up to its await. *)
Definition client_subscribe (filter : list Z) (qos : QoS) : ConnM Sender :=
  let! result := oneshot_channel in
  let! _ := send_command (Command_Subscribe filter qos result) in
  ret result.

(** [AsyncMqttClient::unsubscribe], up to its await. *)
Definition client_unsubscribe (filter : list Z) : ConnM Sender :=
  let! result := oneshot_channel in
  let! _ := send_command (Command_Unsubscribe filter result) in
  ret result.

(** [AsyncMqttClient::disconnect], up to its await. *)
Definition client_disconnect : ConnM Sender :=
  let! result := oneshot_channel in
  let! _ := send_command (Command_Disconnect result) in
  ret result.

(** [AsyncMqttClient::next_event], polled once: [None] is [Poll::Pending], and
    [Some None] the end of the stream. *)
Definition next_event : ConnM (option (option Event)) :=
  let! self := get in
  match ch_queue (mc_events self) with
  | [] => ret (if ch_senders (mc_events self) then None else Some None)
  | event :: rest =>
      let! _ := modify (λ c, c <| mc_events ::= λ ch, ch <| ch_queue := rest |> |>) in
      ret (Some (Some event))
  end.

(** [AsyncMqttClient::start_request] *)
Definition start_request (self : AsyncMqttClient) (request : RequestCommand) : ConnM Sender :=
  let! _ := fail_if (ac_max_packet_size self <? zlen (rc_payload request))
              (PacketTooLarge (zlen (rc_payload request)) (ac_max_packet_size self)) in
  let correlation_data := rc_correlation_data request in
  let! _ := λ c, let '(r, l) := register correlation_data (mc_request_lifecycle c) in
                 (r, c <| mc_request_lifecycle := l |>) in
  let! result := oneshot_channel in
  match_result (send_command (Command_Request request result))
    (λ error,
      let! _ := modify (λ c, c <| mc_request_lifecycle ::= finish correlation_data |>) in
      fail error)
    (λ _, ret result).

(** [AsyncMqttClient::request], up to its await: the future waits on the channel and
    holds the guard. *)
Definition client_request (self : AsyncMqttClient) (uuid topic payload : list Z)
    (options : RequestOptions) : ConnM (Sender * RequestCancellation) :=
  let! t := now in
  let! _ := lift (RequestOptions_validate t_instant_max t options) in
  let command := request_command uuid topic payload options in
  let! response := start_request self command in
  ret (response, RequestCancellation_new (rc_correlation_data command)).

(** *** What the futures of the operations see *)

(** The senders a part of the driver holds. *)
Definition command_sender (c : Command) : Sender :=
  match c with
  | Command_Publish _ _ _ r | Command_Subscribe _ _ r | Command_Unsubscribe _ r
  | Command_Disconnect r | Command_Request _ r => r
  end.
Definition action_senders (a : WrittenAction) : list Sender :=
  match a with WA_PublishQos0 r | WA_Disconnect r => [r] | _ => [] end.
Definition kind_senders (k : PendingAckKind) : list Sender :=
  match k with PK_Publish r | PK_Subscribe _ r | PK_Unsubscribe _ r => [r] | _ => [] end.

Definition ack_senders (self : Conn) : list Sender :=
  map_to_list (mc_pending_acks self) ≫= λ p, kind_senders (pk_kind p.2).
Definition request_senders (self : Conn) : list Sender :=
  (λ p, pr_result p.2) <$> map_to_list (mc_pending_requests self).

(** The senders alive: every operation the driver still owes an answer. *)
Definition senders (self : Conn) : list Sender :=
  (command_sender <$> ch_queue (mc_commands self))
  ++ (mc_outbound self ≫= λ f, action_senders (of_action f))
  ++ (mc_flush_actions self ≫= λ f, action_senders (pf_action f))
  ++ ack_senders self ++ request_senders self.

(** The first reply sent on a channel. *)
Definition reply_on (id : Sender) (o : Oneshots) : option Reply :=
  snd <$> head (filter (λ p : Sender * Reply, p.1 = id) (os_sent o)).

(** [receive_result]: what polling the future of channel [id] gives; the outer [None]
    is [Poll::Pending], the inner one the [ClientClosed] of a dropped sender. *)
Definition receive_result (id : Sender) (self : Conn) : option (option Reply) :=
  match reply_on id (mc_oneshots self) with
  | Some r => Some (Some r)
  | None => if decide (id ∈ senders self) then None else Some None
  end.

(** *** The tasks that run while the driver waits *)

(** What the application does between two turns of the driver. *)
Inductive handle_action : Type :=
  | HPublish (topic payload : list Z) (options : PublishOptions)
  | HSubscribe (filter : list Z) (qos : QoS)
  | HUnsubscribe (filter : list Z)
  | HDisconnect
  | HRequest (uuid topic payload : list Z) (options : RequestOptions)
  | HNextEvent
  (** the future of an operation is dropped, and with it its receiver *)
  | HDropOperation (id : Sender)
  (** the future of a request is dropped, or returns its result *)
  | HDropRequest (id : Sender) (guard : RequestCancellation)
  | HFinishRequest (guard : RequestCancellation)
  (** the last handle is dropped *)
  | HDropHandles.

Definition close_receiver (id : Sender) (c : Conn) : Conn :=
  c <| mc_oneshots ::= λ o, o <| os_closed ::= union {[ id ]} |> |>.

Definition handle_step (client : AsyncMqttClient) (a : handle_action) (c : Conn) : Conn :=
  match a with
  | HPublish topic payload options => (client_publish client topic payload options c).2
  | HSubscribe filter qos => (client_subscribe filter qos c).2
  | HUnsubscribe filter => (client_unsubscribe filter c).2
  | HDisconnect => (client_disconnect c).2
  | HRequest uuid topic payload options => (client_request client uuid topic payload options c).2
  | HNextEvent => (next_event c).2
  | HDropOperation id => close_receiver id c
  | HDropRequest id guard =>
      close_receiver id c <| mc_request_lifecycle ::= RequestCancellation_drop guard |>
  | HFinishRequest guard =>
      c <| mc_request_lifecycle ::= λ l, (RequestCancellation_finish guard l).2 |>
  | HDropHandles => c <| mc_commands ::= λ ch, ch <| ch_senders := false |> |>
                      <| mc_events ::= λ ch, ch <| ch_receiver := false |> |>
  end.

Definition handle_steps (client : AsyncMqttClient) (actions : list handle_action) (c : Conn)
  : Conn :=
  fold_left (λ c a, handle_step client a c) actions c.

(** *** The run loop *)

(** One iteration of the [loop] of [run_inner], up to its await: [None] when the
    connection is done. *)
Definition turn (fuel : nat) : ConnM (option Duration) :=
  let! _ := drain_cancellations in
  let! _ := drain_commands in
  let! _ := flush_outbound fuel in
  let! self := get in
  if finished self then ret None else
  let! _ := read_available in
  let! _ := decode_and_dispatch in
  let! _ := expire_operations in
  let! _ := maintain_keep_alive in
  let! _ := flush_outbound fuel in
  let! self := get in
  if finished self then ret None else
  let! wait := next_wait_duration in
  ret (Some wait).

(** [match timeout(wait, self.commands.recv()).await], once it resolves. *)
Definition receive_command : ConnM unit :=
  let! self := get in
  match ch_queue (mc_commands self) with
  | command :: rest =>
      let! _ := modify (λ c, c <| mc_commands ::= λ ch, ch <| ch_queue := rest |> |>) in
      process_command command
  | [] =>
      if ch_senders (mc_commands self) then ret ()
      else
        let! _ := modify (λ c, c <| mc_command_channel_closed := true |>) in
        begin_abandoned_disconnect
  end.

(** [MqttConnection::run_inner]: [tasks] are the actions of the application during
    each await; the driver still waits when they run out. *)
Fixpoint run_inner (client : AsyncMqttClient) (fuel : nat) (tasks : list (list handle_action))
  : ConnM unit :=
  let! wait := turn fuel in
  match wait with
  | None => ret ()
  | Some _ =>
      match tasks with
      | [] => diverge
      | actions :: tasks' =>
          let! _ := modify (handle_steps client actions) in
          let! _ := receive_command in
          run_inner client fuel tasks'
      end
  end.

(** [drop(self)]: the driver's channel ends go, with the commands not received. *)
Definition drop_driver (c : Conn) : Conn :=
  c <| mc_commands ::= λ ch, ch <| ch_queue := [] |> <| ch_receiver := false |> |>
    <| mc_events ::= λ ch, ch <| ch_senders := false |> |>.

(** [MqttConnection::run] *)
Definition run (client : AsyncMqttClient) (fuel : nat) (tasks : list (list handle_action))
  : ConnM unit :=
  let! result := attempt (run_inner client fuel tasks) in
  let! _ := fail_pending in
  let! self := get in
  let! _ :=
    match result with
    | Err _ => if mc_terminal_event_sent self then ret ()
               else notify (Event_Disconnected TransportClosed)
    | _ => ret ()
    end in
  let! _ := on_stream t_shutdown in
  let! _ := modify drop_driver in
  lift result.
End client.
