(* ===== verification/AsyncConnect.v ===== *)
(** * Establishing a connection

    The synchronous handshake of the async client (src/src/async_client.rs), and the
    TCP connection loops of both clients (src/src/async_client.rs, src/src/client.rs)
    and of the TLS transport (src/src/tls.rs). Name resolution and
    [TcpStream::connect_timeout] are parameters: what they do to the world. *)

From S2P Require Import Prelude Errors Utf8 Str Types Decode Topic Properties Packets Connect.
From S2P Require Import Publish Subscribe Ping PacketCodec Frame Options Transport.
From S2P Require Import AsyncTypes AsyncDriver AsyncClient.
From S2P Require Import Client.

Local Open Scope Z_scope.

Section connect.
Context {W : Type} {T : Transport W}.

(** Calls on the stream before any client exists. *)
Abbreviation WorldM A := (M W A).

(** [stream.call()?] *)
Definition try_io {A} (m : IoM W A) : WorldM A := map_error Io m.

(** [Instant::now()] *)
Definition world_now {E} : st W E Instant := λ w, let '(t, w) := t_now w in (Ok t, w).

(** [connect_deadline] *)
Definition connect_deadline (timeout : Duration) : WorldM Instant :=
  let! t := world_now in
  lift (ok_or (instant_checked_add t_instant_max t timeout)
          (InvalidOptions "connect timeout is too large")).

(** [connect_remaining] *)
Definition connect_remaining (deadline : Instant) : WorldM Duration :=
  let! t := world_now in
  if t <? deadline then ret (deadline - t) else fail (Timeout "connect").

(** [map_connect_io] *)
Definition map_connect_io {A} (result : io_Result A) : Result A :=
  match result with
  | Err error =>
      if decide (io_kind error = TimedOut ∨ io_kind error = WouldBlock)
      then Err (Timeout "connect") else Err (Io error)
  | Ok value => Ok value
  | Panic w => Panic w
  | Diverge => Diverge
  end.

(** [set_connect_timeouts] *)
Definition set_connect_timeouts (deadline : Instant) : WorldM unit :=
  let! remaining := connect_remaining deadline in
  let! _ := try_io (t_set_read_timeout (Some remaining)) in
  let! remaining := connect_remaining deadline in
  try_io (t_set_write_timeout (Some remaining)).

(** [write_all_until]; [fuel] bounds the iterations of its loop. *)
Fixpoint write_all_until (fuel : nat) (bytes : list Z) (deadline : Instant) : WorldM unit :=
  match bytes with
  | [] => ret ()
  | _ =>
      match fuel with
      | O => diverge
      | S fuel' =>
          let! remaining := connect_remaining deadline in
          let! _ := try_io (t_set_write_timeout (Some remaining)) in
          match_result (t_write bytes)
            (λ error,
              if decide (io_kind error = Interrupted) then write_all_until fuel' bytes deadline
              else lift (map_connect_io (Err error)))
            (λ written,
              if written =? 0 then fail (Io (io_of_kind WriteZero))
              else if written <=? zlen bytes then
                let! _ := connect_remaining deadline in
                write_all_until fuel' (zdrop written bytes) deadline
              else fail (Io (mk_io InvalidData "transport reported an oversized write")))
      end
  end.

(** [read_exact_until], which fills a buffer of [n] bytes. *)
Fixpoint read_exact_until (fuel : nat) (n : Z) (deadline : Instant) : WorldM (list Z) :=
  if n =? 0 then ret [] else
  match fuel with
  | O => diverge
  | S fuel' =>
      let! remaining := connect_remaining deadline in
      let! _ := try_io (t_set_read_timeout (Some remaining)) in
      match_result (t_read n)
        (λ error,
          if decide (io_kind error = Interrupted) then read_exact_until fuel' n deadline
          else lift (map_connect_io (Err error)))
        (λ bytes,
          match bytes with
          | [] => fail ConnectionClosed
          | _ =>
              if zlen bytes <=? n then
                let! _ := connect_remaining deadline in
                let! more := read_exact_until fuel' (n - zlen bytes) deadline in
                ret (bytes ++ more)
              else fail (Io (mk_io InvalidData "transport reported an oversized read"))
          end)
  end.

(** The [loop] of [read_packet_blocking] over the bytes of the Remaining Length: the
    multiplier bounds it to four iterations. *)
Fixpoint read_header_loop (n fuel : nat) (multiplier : Z) (header_bytes : list Z)
    (deadline : Instant) : WorldM (list Z) :=
  match n with
  | O => diverge
  | S n' =>
      let! byte := read_exact_until fuel 1 deadline in
      let header_bytes := header_bytes ++ byte in
      if Z.land (default 0 (head byte)) 0x80 =? 0 then ret header_bytes
      else if multiplier =? 128 * 128 * 128 then fail (MalformedPacket "variable int too long")
      else read_header_loop n' fuel (multiplier * 128) header_bytes deadline
  end.

(** [read_packet_blocking] *)
Definition read_packet_blocking (fuel : nat) (max_packet_size : Z) (deadline : Instant)
  : WorldM Packet :=
  let! first := read_exact_until fuel 1 deadline in
  let! header_bytes := read_header_loop 4 fuel 1 first deadline in
  let! '(header, header_len) := lift (decode_fixed_header header_bytes) in
  let remaining_length := fh_remaining_length header in
  let! total_size := lift (ok_or (checked_add header_len remaining_length)
                             (MalformedPacket "packet size overflow")) in
  let! _ := fail_if (max_packet_size <? total_size) (PacketTooLarge total_size max_packet_size) in
  let! body := read_exact_until fuel remaining_length deadline in
  lift (Packet_decode header body).

(** The CONNECT packet of [connect_with_deadline]. *)
Definition async_connect_packet (options : ConnectOptions) : Result ConnectPacket :=
  let? advertised_max := ok_or (u32_try_from (opt_max_packet_size options))
                           (MalformedPacket "maximum packet size exceeds MQTT limit") in
  let properties := properties_new in
  let properties := properties_push properties MaximumPacketSize (U32 advertised_max) in
  let properties := properties_push properties ReceiveMaximum
    (U16 (as_u16 (Z.min (opt_event_capacity options) u16_max))) in
  Ok (mkConnectPacket 5 (opt_clean_start options) (opt_keep_alive_secs options)
        (opt_client_id options) (opt_username options) (opt_password options) properties).

(** The handshake part of [connect_with_deadline]: everything before the channels. *)
Definition async_handshake (fuel : nat) (options : ConnectOptions) (deadline : Instant)
  : WorldM ConnAckPacket :=
  let! _ := try_io (t_set_nonblocking false) in
  let! _ := set_connect_timeouts deadline in
  let! connect := lift (async_connect_packet options) in
  let! connect_bytes := lift (ConnectPacket_encode connect) in
  let! _ := write_all_until fuel connect_bytes deadline in
  let! remaining := connect_remaining deadline in
  let! _ := try_io (t_set_write_timeout (Some remaining)) in
  let! r := attempt t_flush in
  let! _ := lift (map_connect_io r) in
  let! _ := connect_remaining deadline in
  let! packet := read_packet_blocking fuel (opt_max_packet_size options) deadline in
  let! connack := match packet with
                  | PktConnAck connack =>
                      if ca_reason_code connack <? 0x80 then ret connack
                      else fail (ConnectionRefused (ca_reason_code connack))
                  | _ => fail (UnexpectedPacket "expected CONNACK")
                  end in
  let! _ := connect_remaining deadline in
  let! _ := lift (validate_connack (con_client_id connect) (con_clean_start connect) connack) in
  ret connack.

(** The driver [connect_with_deadline] builds. *)
Definition new_connection (stream : W) (now_ : Instant) (options : ConnectOptions)
    (connack : ConnAckPacket) (capabilities : ServerCapabilities)
    (commands : Channel Command) (events : Channel Event) : MqttConnection W := {|
  mc_stream := stream;
  mc_frame_reader := FrameReader_with_max_packet_size (opt_max_packet_size options);
  mc_commands := commands;
  mc_events := events;
  mc_request_lifecycle := RequestLifecycle_new (opt_command_capacity options);
  mc_outbound := [];
  mc_outbound_bytes := 0;
  mc_pending_acks := ∅;
  mc_next_packet_id := 1;
  mc_last_write_at := now_;
  mc_ping_outstanding_since := None;
  mc_keep_alive_secs :=
    default (opt_keep_alive_secs options) (get_u16 (ca_properties connack) ServerKeepAlive);
  mc_peer_max_packet_size :=
    default 268435460 (get_u32 (ca_properties connack) MaximumPacketSize);
  mc_peer_receive_maximum := default u16_max (get_u16 (ca_properties connack) ReceiveMaximum);
  mc_server_capabilities := capabilities;
  mc_max_outbound_queue_bytes := opt_max_outbound_queue_bytes options;
  mc_max_pending_operations := opt_command_capacity options;
  mc_ack_timeout := opt_ack_timeout options;
  mc_poll_interval := opt_poll_interval options;
  mc_closing := false;
  mc_command_channel_closed := false;
  mc_needs_flush := false;
  mc_flush_actions := [];
  mc_ping_queued := false;
  mc_terminal_event_sent := false;
  mc_pending_requests := ∅;
  mc_response_subscriptions := ∅;
  mc_oneshots := mkOneshots 0 ∅ [];
|}.

(** [AsyncMqttClient::connect_with_deadline] *)
Definition connect_with_deadline (fuel : nat) (options : ConnectOptions) (deadline : Instant)
  : WorldM (AsyncMqttClient * MqttConnection W) :=
  let! connack := async_handshake fuel options deadline in
  let! capabilities := lift (from_connack connack) in
  let! _ := try_io (t_set_read_timeout None) in
  let! _ := try_io (t_set_write_timeout None) in
  let! _ := try_io (t_set_nonblocking true) in
  let! commands := mpsc_channel (opt_command_capacity options) in
  let! events := mpsc_channel (opt_event_capacity options) in
  let! now_ := world_now in
  let! stream := get in
  let connection := new_connection stream now_ options connack capabilities commands events in
  ret (mkAsyncMqttClient (mc_peer_max_packet_size connection), connection).

(** [options.validate()?] *)
Definition validate_options (options : ConnectOptions) : WorldM unit :=
  let! t := world_now in lift (ConnectOptions_validate t_instant_max t options).

(** [AsyncMqttClient::connect_with] *)
Definition async_connect_with (fuel : nat) (options : ConnectOptions)
  : WorldM (AsyncMqttClient * MqttConnection W) :=
  let! _ := validate_options options in
  let! deadline := connect_deadline (opt_connect_timeout options) in
  connect_with_deadline fuel options deadline.

(** ** TCP connection loops *)

Section tcp.
Context {Addr : Type}.
Variable to_socket_addrs : IoM W (list Addr).
Variable tcp_connect_timeout : Addr → Duration → IoM W unit.

(** The [for] loop of [connect_tcp_until]: whether an address answered, and the last
    error otherwise. *)
Fixpoint connect_until_loop (addresses : list Addr) (deadline : Instant)
    (last_error : option io_error) : WorldM (bool * option io_error) :=
  match addresses with
  | [] => ret (false, last_error)
  | socket_addr :: rest =>
      let! remaining := connect_remaining deadline in
      match_result (tcp_connect_timeout socket_addr remaining)
        (λ error, connect_until_loop rest deadline (Some error))
        (λ _, ret (true, None))
  end.

(** [connect_tcp_until] *)
Definition connect_tcp_until (deadline : Instant) : WorldM unit :=
  let! addresses := attempt to_socket_addrs in
  let! _ := connect_remaining deadline in
  let! addresses := lift (from_io addresses) in
  let! '(connected, last_error) := connect_until_loop addresses deadline None in
  if connected then ret () else
  let! _ := connect_remaining deadline in
  match addresses with
  | [] => fail (Io (mk_io InvalidInput "address resolved to no endpoints"))
  | _ =>
      lift (map_connect_io
        (Err (default (mk_io ConnectionRefused_ "TCP connect failed") last_error)))
  end.

(** [AsyncMqttClient::connect] *)
Definition async_connect (fuel : nat) (options : ConnectOptions)
  : WorldM (AsyncMqttClient * MqttConnection W) :=
  let! _ := validate_options options in
  let! deadline := connect_deadline (opt_connect_timeout options) in
  let! _ := connect_tcp_until deadline in
  connect_with_deadline fuel options deadline.

(** The [for] loop of [connect_tcp] (client.rs). *)
Fixpoint connect_tcp_loop (addresses : list Addr) (deadline : Instant)
    (last_error : option io_error) : IoM W (bool * option io_error) :=
  match addresses with
  | [] => ret (false, last_error)
  | socket_addr :: rest =>
      let! now_ := world_now in
      if deadline <=? now_ then fail (mk_io TimedOut "TCP connect timed out") else
      match_result (tcp_connect_timeout socket_addr (saturating_duration_since deadline now_))
        (λ error, connect_tcp_loop rest deadline (Some error))
        (λ _, ret (true, None))
  end.

(** [connect_tcp] (client.rs) *)
Definition connect_tcp (deadline : Instant) : IoM W unit :=
  let! addresses := to_socket_addrs in
  let! '(connected, last_error) := connect_tcp_loop addresses deadline None in
  if connected then ret () else
  match addresses with
  | [] => fail (mk_io InvalidInput "address resolved to no socket addresses")
  | _ => fail (default (mk_io ConnectionRefused_ "TCP connect failed") last_error)
  end.

(** [MqttClient::connect]: the options it hands to [connect_with]. *)
Definition sync_connect (options : ConnectOptions) : WorldM ConnectOptions :=
  let! _ := validate_options options in
  let! t := world_now in
  let! deadline := lift (ok_or (instant_checked_add t_instant_max t (opt_connect_timeout options))
                           (InvalidOptions "timeout is too large")) in
  let! r := attempt (connect_tcp deadline) in
  let! _ := match r with
            | Err error => if decide (io_kind error = TimedOut) then fail (Timeout "connect")
                           else fail (Io error)
            | r => lift (from_io r)
            end in
  let! remaining := connect_remaining deadline in
  ret (with_connect_timeout remaining options).

(** [MqttClient::connect] *)
Definition client_connect (fuel : nat) (options : ConnectOptions) (w : W)
  : Result (Client.MqttClient W) :=
  let? '(options, stream) := run_on w (sync_connect options) in
  Client.connect_with fuel options stream.

(** The [for] loop of [connect_tcp_with_deadline] (tls.rs). *)
Fixpoint tls_connect_loop (addresses : list Addr) (deadline : Instant)
    (last_error : option io_error) : IoM W (bool * option io_error) :=
  match addresses with
  | [] => ret (false, last_error)
  | address :: rest =>
      let! now_ := world_now in
      let remaining := saturating_duration_since deadline now_ in
      if remaining =? 0 then fail (mk_io TimedOut "TLS TCP connection deadline elapsed") else
      match_result (tcp_connect_timeout address remaining)
        (λ error, tls_connect_loop rest deadline (Some error))
        (λ _, ret (true, None))
  end.

(** [connect_tcp_with_deadline] (tls.rs) *)
Definition connect_tcp_with_deadline (timeout : Duration) : IoM W unit :=
  if timeout =? 0 then fail (mk_io InvalidInput "TLS connect timeout must be non-zero") else
  let! t := world_now in
  match instant_checked_add t_instant_max t timeout with
  | None => fail (mk_io InvalidInput "TLS connect timeout is too large")
  | Some deadline =>
      let! addresses := to_socket_addrs in
      let! '(connected, last_error) := tls_connect_loop addresses deadline None in
      if connected then ret () else
      match addresses with
      | [] => fail (mk_io InvalidInput "address resolved to no endpoints")
      | _ => fail (default (mk_io NotConnected "unable to connect to TLS endpoint") last_error)
      end
  end.
End tcp.
End connect.
