(* ===== verification/Tls.v ===== *)
(** * Addresses of the TLS transport (src/src/tls.rs)

    The host and port syntax [TlsTransport] accepts, and the order of its connection
    steps. [ServerName::try_from], [ClientConnection::new] and the default root
    certificates are code of rustls: parameters of the model. *)

From S2P Require Import Prelude Errors Utf8 Str Topic Options Transport AsyncTypes AsyncDriver.
From S2P Require Import AsyncClient AsyncConnect.

Local Open Scope Z_scope.

(** ** [str::parse::<u16>] *)

Definition digit (c : Z) : option Z :=
  if (48 <=? c) && (c <=? 57) then Some (c - 48) else None.

(** The digits of an integer, most significant first, with overflow checked at each. *)
Fixpoint parse_digits (acc : Z) (s : list Z) : option Z :=
  match s with
  | [] => Some acc
  | c :: rest =>
      match digit c with
      | Some d => if acc * 10 + d <=? u16_max then parse_digits (acc * 10 + d) rest else None
      | None => None
      end
  end.

(** A [+] sign is accepted in front of at least one digit. *)
Definition parse_u16 (s : list Z) : option Z :=
  match strip_prefix [43] s with
  | Some [] => None
  | Some rest => parse_digits 0 rest
  | None => if is_empty s then None else parse_digits 0 s
  end.

(** ** [host_from_address] *)

(** [invalid_address] *)
Definition invalid_address (message : string) : io_error := mk_io InvalidInput message.

(** The host and the port, around the last colon or the bracket; 43, 58, 91 and 93 are the
    characters +, :, [ and ]. *)
Definition split_address (addr : list Z) : io_Result (list Z * list Z) :=
  match strip_prefix [91] addr with
  | Some bracketed =>
      let? '(host, after) := ok_or (split_once 93 bracketed)
                               (invalid_address "missing closing ']'") in
      let? port := ok_or (strip_prefix [58] after)
                     (invalid_address "missing port after bracketed host") in
      Ok (host, port)
  | None =>
      let? '(host, port) := ok_or (rsplit_once 58 addr)
                              (invalid_address "address must be host:port") in
      if decide (58 ∈ host)
      then Err (invalid_address "IPv6 addresses must be enclosed in brackets")
      else Ok (host, port)
  end.

(** [host_from_address] *)
Definition host_from_address (addr : list Z) : io_Result (list Z) :=
  let? '(host, port) := split_address addr in
  if is_empty host then Err (invalid_address "host must not be empty")
  else match parse_u16 port with
       | None => Err (invalid_address "port must be an unsigned 16-bit integer")
       | Some _ => Ok host
       end.

(** ** Connecting *)

Section tls.
Context {W : Type} {T : Transport W} {Addr Config Name Session : Type}.
Variable to_socket_addrs : list Z → IoM W (list Addr).
Variable tcp_connect_timeout : Addr → Duration → IoM W unit.
(** [ServerName::try_from], [ClientConnection::new] and [default_tls_config], with the
    text of their errors. *)
Variable server_name_try_from : list Z → result string Name.
Variable client_connection_new : Config → Name → result string Session.
Variable default_tls_config : result string Config.

(** [DEFAULT_TLS_CONNECT_TIMEOUT] *)
Definition DEFAULT_TLS_CONNECT_TIMEOUT : Duration := from_secs 10.

(** [TlsTransport::connect_with_config_and_timeout]: the session over the TCP stream
    of the world. *)
Definition connect_with_config_and_timeout (addr : list Z) (config : Config)
    (timeout : Duration) : IoM W Session :=
  let! host := lift (host_from_address addr) in
  let! server_name := lift (map_err (mk_io InvalidInput) (server_name_try_from host)) in
  let! _ := connect_tcp_with_deadline (to_socket_addrs addr) tcp_connect_timeout timeout in
  lift (map_err (mk_io Other) (client_connection_new config server_name)).

(** [TlsTransport::connect_with_config] *)
Definition connect_with_config (addr : list Z) (config : Config) : IoM W Session :=
  connect_with_config_and_timeout addr config DEFAULT_TLS_CONNECT_TIMEOUT.

(** [TlsTransport::connect_with_timeout] *)
Definition connect_with_timeout (addr : list Z) (timeout : Duration) : IoM W Session :=
  let! config := lift (map_err (mk_io Other) default_tls_config) in
  connect_with_config_and_timeout addr config timeout.

(** [TlsTransport::connect] *)
Definition tls_connect (addr : list Z) : IoM W Session :=
  connect_with_timeout addr DEFAULT_TLS_CONNECT_TIMEOUT.
End tls.

(** ** The address grammar *)

#[local] Arguments strip_prefix : simpl never.

(** The value of a string of decimal digits. *)
Definition decimal (ds : list Z) : Z := fold_left (λ n c, n * 10 + (c - 48)) ds 0.

(** An unsigned 16-bit integer: digits, perhaps after a plus sign. *)
Definition port_syntax (s : list Z) : Prop :=
  ∃ ds, (s = ds ∨ s = 43 :: ds) ∧ ds ≠ [] ∧ Forall (λ c, 48 ≤ c ≤ 57) ds ∧ decimal ds ≤ 65535.

(** [host:port] without further colons, or [\[host\]:port]. *)
Definition address_syntax (addr host : list Z) : Prop :=
  host ≠ [] ∧ ∃ port, port_syntax port ∧
    (addr = 91 :: host ++ 93 :: 58 :: port ∧ 93 ∉ host
     ∨ addr = host ++ 58 :: port ∧ 58 ∉ host ∧ head host ≠ Some 91).

Lemma digit_some c d : digit c = Some d ↔ 48 ≤ c ≤ 57 ∧ d = c - 48.
Proof.
  unfold digit. destruct (48 <=? c) eqn:H1, (c <=? 57) eqn:H2; cbn;
    rewrite ?Z.leb_le, ?Z.leb_gt in *; (split; [|intros [??]]; intros; simplify_eq; lia || done).
Qed.

Lemma fold_decimal_ge ds n :
  Forall (λ c, 48 ≤ c ≤ 57) ds → 0 ≤ n → n ≤ fold_left (λ n c, n * 10 + (c - 48)) ds n.
Proof.
  intros Hd. revert n. induction Hd as [|c ds Hc Hd IH]; intros n Hn; cbn [fold_left]; [lia|].
  specialize (IH (n * 10 + (c - 48))). lia.
Qed.

Lemma parse_digits_some s acc :
  0 ≤ acc ≤ u16_max →
  is_Some (parse_digits acc s) ↔
    Forall (λ c, 48 ≤ c ≤ 57) s ∧ fold_left (λ n c, n * 10 + (c - 48)) s acc ≤ u16_max.
Proof.
  revert acc. induction s as [|c s IH]; intros acc Hacc; cbn [parse_digits fold_left].
  { split; [intros; split; [constructor|lia]|by eexists]. }
  destruct (digit c) as [d|] eqn:Hc.
  - apply digit_some in Hc as [Hc ->]. destruct (_ <=? u16_max) eqn:Hle.
    + apply Z.leb_le in Hle. rewrite IH by lia. rewrite Forall_cons_iff. naive_solver.
    + apply Z.leb_gt in Hle. split; [by intros []|]. intros [[_ Hf]%Forall_cons_1 Hd].
      pose proof (fold_decimal_ge s (acc * 10 + (c - 48)) Hf). lia.
  - split; [by intros []|]. intros [[Hd _]%Forall_cons_1 _].
    assert (digit c = Some (c - 48)) by (by apply digit_some). congruence.
Qed.

Lemma parse_u16_spec s : is_Some (parse_u16 s) ↔ port_syntax s.
Proof.
  unfold parse_u16, port_syntax. change u16_max with 65535 in *.
  assert (∀ ds, ds ≠ [] → is_Some (parse_digits 0 ds) ↔
            Forall (λ c, 48 ≤ c ≤ 57) ds ∧ decimal ds ≤ 65535) as Hp.
  { intros. by rewrite parse_digits_some. }
  destruct (strip_prefix [43] s) as [r|] eqn:Hs.
  - apply strip_prefix_some in Hs. cbn in Hs. subst s. destruct r as [|c r].
    + split; [by intros []|]. intros (ds & [<-|[= <-]] & Hne & Hd & _); [|done].
      apply Forall_cons_1 in Hd as [? _]. lia.
    + rewrite Hp by done. split.
      * intros [? ?]. by exists (c :: r); auto.
      * intros (ds & [<-|[= <-]] & Hne & Hd & ?); [|done].
        apply Forall_cons_1 in Hd as [? _]. lia.
  - destruct s as [|c s]; cbn [is_empty].
    + split; [by intros []|]. intros (ds & [<-|?] & Hne & _); done.
    + rewrite Hp by done. split.
      * intros [? ?]. by exists (c :: s); auto.
      * intros (ds & [<-|Hc] & Hne & Hd & ?); [done|].
        exfalso. rewrite Hc in Hs. done.
Qed.

Lemma rsplit_once_some sep l a b :
  rsplit_once sep l = Some (a, b) ↔ l = a ++ sep :: b ∧ sep ∉ b.
Proof.
  unfold rsplit_once. split.
  - destruct (split_once sep (reverse l)) as [[x y]|] eqn:Hs; intros [= <- <-].
    apply split_once_some in Hs as [Hl Hx]. split; [|by rewrite elem_of_reverse].
    by rewrite <- (reverse_involutive l), Hl, reverse_app, reverse_cons, <- app_assoc.
  - intros [-> Hb]. assert (split_once sep (reverse (a ++ sep :: b)) = Some (reverse b, reverse a)) as ->.
    { apply split_once_some. split; [|by rewrite elem_of_reverse].
      by rewrite reverse_app, reverse_cons, <- app_assoc. }
    by rewrite !reverse_involutive.
Qed.

Lemma port_no_colon s : port_syntax s → 58 ∉ s.
Proof.
  intros (ds & Hs & _ & Hd & _) Hin%list_elem_of_In.
  assert (Forall (λ c, c ≠ 58) s) as Hf.
  { assert (Forall (λ c, c ≠ 58) ds) by (revert Hd; apply List.Forall_impl; cbn; lia).
    destruct Hs as [-> | ->]; [done|by constructor]. }
  rewrite List.Forall_forall in Hf. by apply (Hf 58 Hin).
Qed.

Lemma split_address_spec addr host port :
  split_address addr = Ok (host, port) ↔
    addr = 91 :: host ++ 93 :: 58 :: port ∧ 93 ∉ host
    ∨ head addr ≠ Some 91 ∧ addr = host ++ 58 :: port ∧ 58 ∉ host ∧ 58 ∉ port.
Proof.
  unfold split_address. destruct (strip_prefix [91] addr) as [b|] eqn:Hb.
  - apply strip_prefix_some in Hb. cbn in Hb. subst addr. split.
    + destruct (split_once 93 b) as [[h after]|] eqn:Hs; [|done]. cbn.
      apply split_once_some in Hs as [-> Hh].
      destruct (strip_prefix [58] after) as [p|] eqn:Hp; [|done].
      apply strip_prefix_some in Hp. cbn in Hp. subst after. intros [= -> ->]. by left.
    + intros [[[= ->] Hh]|[? _]]; [|done].
      assert (split_once 93 (host ++ 93 :: 58 :: port) = Some (host, 58 :: port)) as ->
        by by apply split_once_some.
      done.
  - assert (head addr ≠ Some 91) as Hd.
    { destruct addr as [|c addr]; [done|]. intros [= ->].
      by assert (strip_prefix [91] (91 :: addr) = Some addr) by by apply strip_prefix_some. }
    split.
    + destruct (rsplit_once 58 addr) as [[h p]|] eqn:Hr; [|done]. cbn.
      apply rsplit_once_some in Hr as [Ha Hp]. destruct (decide (58 ∈ h)); [done|].
      intros [= -> ->]. by right.
    + intros [[-> _]|(_ & Ha & Hh & Hp)]; [done|].
      assert (rsplit_once 58 addr = Some (host, port)) as -> by by apply rsplit_once_some.
      cbn. by destruct (decide (58 ∈ host)).
Qed.

Lemma split_address_error addr :
  (∃ p, split_address addr = Ok p) ∨ ∃ m, split_address addr = Err (invalid_address m).
Proof.
  unfold split_address. destruct (strip_prefix _ _).
  - destruct (split_once _ _) as [[h a]|]; cbn; [|by eauto].
    destruct (strip_prefix _ _); cbn; by eauto.
  - destruct (rsplit_once _ _) as [[h a]|]; cbn; [|by eauto]. destruct (decide _); by eauto.
Qed.

(** C40. [host_from_address] decides the address grammar: it returns a host exactly when the
    address is [host:port] with no further colon, or a bracketed host followed by a colon
    and a port, where the host is not empty and the port is an unsigned 16-bit decimal
    integer (with Rust's optional plus sign); every other address is an
    [InvalidInput] error, and the host is the one written in the address. *)
Theorem host_from_address_grammar addr :
  (∀ host, host_from_address addr = Ok host ↔ address_syntax addr host)
  ∧ ((¬ ∃ host, address_syntax addr host) →
     ∃ e, host_from_address addr = Err e ∧ io_kind e = InvalidInput).
Proof.
  unfold host_from_address. destruct (split_address_error addr) as [[[h p] Hs]|[m Hs]].
  - rewrite Hs. cbn. pose proof (proj1 (split_address_spec addr h p) Hs) as Ha.
    assert (∀ host, (if is_empty h then Err (invalid_address "host must not be empty")
      else match parse_u16 p with
           | None => Err (invalid_address "port must be an unsigned 16-bit integer")
           | Some _ => Ok h end) = Ok host ↔ address_syntax addr host) as Hok.
    { intros host. split.
      - destruct h as [|c h]; [done|]. cbn. destruct (parse_u16 p) as [n|] eqn:Hp; [|done].
        intros [= <-]. split; [done|]. exists p. split; [apply parse_u16_spec; by eexists|].
        destruct Ha as [[-> ?]|(Hd & -> & ? & _)]; [by left|right]. by split_and!.
      - intros [Hne (port & Hport & Hform)].
        assert (split_address addr = Ok (host, port)) as Hs'.
        { apply split_address_spec. destruct Hform as [?|(-> & ? & Hd)]; [by left|right].
          split_and!; [by destruct host|done..|by apply port_no_colon]. }
        rewrite Hs in Hs'. injection Hs' as -> ->. apply parse_u16_spec in Hport as [n ->].
        by destruct host. }
    split; [exact Hok|]. intros Hno. destruct (is_empty h) eqn:He; [by eexists|].
    destruct (parse_u16 p) eqn:Hp; [|by eexists].
    exfalso. apply Hno. exists h. by apply Hok.
  - rewrite Hs. cbn. split; [|by eexists]. intros host. split; [done|].
    intros [Hne (port & Hport & Hform)].
    assert (split_address addr = Ok (host, port)) as Hs'; [|congruence].
    apply split_address_spec. destruct Hform as [?|(-> & ? & Hd)]; [by left|right].
    split_and!; [by destruct host|done..|by apply port_no_colon].
Qed.

Lemma host_from_address_grammar_witness :
  host_from_address (lit "[2001:db8::1]:8883") = Ok (lit "2001:db8::1")
  ∧ address_syntax (lit "[2001:db8::1]:8883") (lit "2001:db8::1")
  ∧ host_from_address (lit "2001:db8::1:8883")
    = Err (invalid_address "IPv6 addresses must be enclosed in brackets").
Proof.
  split; [vm_compute; reflexivity|]. split; [|vm_compute; reflexivity].
  apply (proj1 (host_from_address_grammar (lit "[2001:db8::1]:8883"))). vm_compute. reflexivity.
Defined.
