(* ===== verification/TlsStream.v ===== *)
(** * The TLS stream as a transport (src/src/tls.rs)

    [TlsTransport] forwards [Transport] to a [StreamOwned], a rustls session over a socket:
    data through the session, the socket's own settings around it. Given the documented
    behaviour of the session and the socket, the result keeps the laws of a transport, so
    that every theorem about the clients holds over TLS, for the plaintext. *)

From S2P Require Import Prelude Errors Types Decode Options Transport.

Local Open Scope Z_scope.

(** [rustls::StreamOwned<ClientConnection, TcpStream>]: a session [S] and a socket [K]. The
    methods of [Write] and [Read] may use both, the methods of the socket only the socket. *)
Class StreamOwned (S K : Type) := {
  so_write : list Z → IoM (S * K) Z;
  so_write_all : list Z → IoM (S * K) unit;
  so_flush : IoM (S * K) unit;
  so_read : Z → IoM (S * K) (list Z);
  tcp_set_nonblocking : bool → IoM K unit;
  tcp_set_read_timeout : option Duration → IoM K unit;
  tcp_set_write_timeout : option Duration → IoM K unit;
  (** [TcpStream::shutdown(Shutdown::Both)] *)
  tcp_shutdown_both : IoM K unit;
  (** the clock, read around the socket *)
  tcp_now : K → Instant * K;
  tcp_instant_max : Instant;
}.

(** [plaintext s]: the bytes the session has accepted so far. *)
Class StreamOwnedLaws (S K : Type) {O : StreamOwned S K} := {
  plaintext : S → list Z;
  so_write_law buf w :
    match so_write buf w with
    | (Ok n, w') => 0 ≤ n ≤ zlen buf ∧ plaintext w'.1 = plaintext w.1 ++ ztake n buf
    | (Err _, w') => plaintext w'.1 = plaintext w.1
    | _ => False
    end;
  so_write_all_law buf w :
    match so_write_all buf w with
    | (Ok _, w') => plaintext w'.1 = plaintext w.1 ++ buf
    | (Err _, w') => ∃ part rest, buf = part ++ rest ∧ plaintext w'.1 = plaintext w.1 ++ part
    | _ => False
    end;
  so_flush_law : quiet (λ w, plaintext w.1) so_flush;
  so_read_law n w :
    0 ≤ n →
    match so_read n w with
    | (Ok l, w') => zlen l ≤ n ∧ bytes_ok l ∧ plaintext w'.1 = plaintext w.1
    | (Err _, w') => plaintext w'.1 = plaintext w.1
    | _ => False
    end;
  tcp_set_nonblocking_law b k : returns (tcp_set_nonblocking b k).1;
  tcp_set_read_timeout_law d k : returns (tcp_set_read_timeout d k).1;
  tcp_set_write_timeout_law d k : returns (tcp_set_write_timeout d k).1;
  tcp_shutdown_both_law k : returns (tcp_shutdown_both k).1;
}.

(** [TlsTransport] *)
Record TlsTransport (S K : Type) := mkTlsTransport { tls_stream : S * K }.
Arguments mkTlsTransport {S K} tls_stream.
Arguments tls_stream {S K} t.

Section forwarding.
Context {S K : Type} {O : StreamOwned S K}.

Abbreviation Tls := (TlsTransport S K).

(** A call on [&mut self.stream]. *)
Definition on_tls {A} (m : IoM (S * K) A) : IoM Tls A := λ self,
  let '(r, stream) := m (tls_stream self) in (r, mkTlsTransport stream).

(** A call on [self.tcp()], the socket behind the session. *)
Definition on_tcp {A} (m : IoM K A) : IoM Tls A := λ self,
  let '(r, socket) := m (tls_stream self).2 in (r, mkTlsTransport ((tls_stream self).1, socket)).

(** [impl Transport for TlsTransport] *)
#[export] Instance tls_transport : Transport Tls := {
  t_write buf := on_tls (so_write buf);
  t_write_all buf := on_tls (so_write_all buf);
  t_flush := on_tls so_flush;
  t_read n := on_tls (so_read n);
  t_set_nonblocking nonblocking := on_tcp (tcp_set_nonblocking nonblocking);
  t_set_read_timeout dur := on_tcp (tcp_set_read_timeout dur);
  t_set_write_timeout dur := on_tcp (tcp_set_write_timeout dur);
  t_shutdown := on_tcp tcp_shutdown_both;
  t_now self :=
    let '(t, socket) := tcp_now (tls_stream self).2 in
    (t, mkTlsTransport ((tls_stream self).1, socket));
  t_instant_max := tcp_instant_max;
}.

Context {L : StreamOwnedLaws S K}.

Definition tls_sent (self : Tls) : list Z := plaintext (tls_stream self).1.

Lemma on_tcp_quiet {A} (m : IoM K A) : (∀ k, returns (m k).1) → quiet tls_sent (on_tcp m).
Proof.
  intros Hm [[s k]]. unfold on_tcp. cbn. specialize (Hm k). by destruct (m k) as [r k'].
Qed.

(** The stream over a well-behaved session is a well-behaved transport. *)
#[export] Program Instance tls_laws : TransportLaws Tls := {| sent := tls_sent |}.
Next Obligation.
  intros buf [w]. cbn. unfold on_tls. pose proof (so_write_law buf w) as Hw. cbn.
  by destruct (so_write buf w) as [[] ?].
Qed.
Next Obligation.
  intros buf [w]. cbn. unfold on_tls. pose proof (so_write_all_law buf w) as Hw. cbn.
  by destruct (so_write_all buf w) as [[] ?].
Qed.
Next Obligation.
  intros n [w] Hn. cbn. unfold on_tls. pose proof (so_read_law n w Hn) as Hw. cbn.
  by destruct (so_read n w) as [[] ?].
Qed.
Next Obligation.
  intros [w]. cbn. unfold on_tls. pose proof (so_flush_law w) as Hw. cbn.
  by destruct (so_flush w) as [[] ?].
Qed.
Next Obligation. intros b. apply on_tcp_quiet, tcp_set_nonblocking_law. Qed.
Next Obligation. intros d. apply on_tcp_quiet, tcp_set_read_timeout_law. Qed.
Next Obligation. intros d. apply on_tcp_quiet, tcp_set_write_timeout_law. Qed.
Next Obligation. apply on_tcp_quiet, tcp_shutdown_both_law. Qed.
Next Obligation. intros [[s k]]. unfold tls_sent. cbn. by destruct (tcp_now k). Qed.
End forwarding.

(** A session that keeps what it is given, over a socket that is a clock. *)
#[local] Instance example_session : StreamOwned (list Z) Instant := {
  so_write buf := λ w, (Ok (zlen buf), (w.1 ++ buf, w.2));
  so_write_all buf := λ w, (Ok (), (w.1 ++ buf, w.2));
  so_flush := ret ();
  so_read _ := fail (io_of_kind WouldBlock);
  tcp_set_nonblocking _ := ret ();
  tcp_set_read_timeout _ := ret ();
  tcp_set_write_timeout _ := ret ();
  tcp_shutdown_both := ret ();
  tcp_now k := (k, k + 1);
  tcp_instant_max := 1000000;
}.

#[local] Program Instance example_session_laws : StreamOwnedLaws (list Z) Instant :=
  {| plaintext := id |}.
Next Obligation.
  intros buf [s k]. cbn. pose proof (zlen_nonneg buf). by rewrite ztake_all.
Qed.
Solve Obligations with done.

Example tls_sends_plaintext :
  sent (t_shutdown (W := TlsTransport (list Z) Instant)
          (t_write [1; 2] (mkTlsTransport ([0], 5))).2).2 = [0; 1; 2].
Proof. reflexivity. Qed.
