(* ===== verification/AsyncFacts.v ===== *)
(** * Invariants of the connection driver

    [conn_ok] is the invariant of [MqttConnection] between two statements of its methods:
    the bytes accounted for are the bytes queued, the stream carries whole packets and
    the written prefix of the first frame, every table is within its bound, and the
    reader is live. [keeps m s] says that the call [m], started in [s], neither panics
    nor breaks the invariant nor changes the configuration, whether it fails or not. *)

From S2P Require Import Prelude Errors Utf8 Str Types Decode Encode Topic Properties.
From S2P Require Import PropertiesFacts Packets Connect Publish Subscribe Ping PacketCodec.
From S2P Require Import CodecFacts Writers Frame Options Transport AsyncTypes AsyncDriver.

Local Open Scope Z_scope.

(** The clock never comes near the greatest instant. *)
Class ClockLaws (W : Type) {T : Transport W} := {
  clock_end : Instant;
  clock_law w : (t_now w).1 ≤ clock_end;
  clock_room : clock_end + from_secs 65535 ≤ t_instant_max;
}.

(** ** The outbound queue *)

Definition frames_bytes (q : list OutboundFrame) : Z :=
  foldr (λ f n, zlen (of_bytes f) + n) 0 q.
Definition flushes_bytes (q : list PendingFlush) : Z := foldr (λ f n, pf_bytes f + n) 0 q.

#[global] Arguments frames_bytes : simpl never.
#[global] Arguments flushes_bytes : simpl never.

Lemma frames_bytes_nil : frames_bytes [] = 0.
Proof. done. Qed.

Lemma flushes_bytes_nil : flushes_bytes [] = 0.
Proof. done. Qed.

(** What was written of the frame at the front. *)
Definition partial (q : list OutboundFrame) : list Z :=
  match q with [] => [] | f :: _ => ztake (of_offset f) (of_bytes f) end.

(** Complete packets, of which only the first can be partly written. *)
Definition queue_ok (q : list OutboundFrame) : Prop :=
  Forall (λ f, client_frame (of_bytes f)) q
  ∧ match q with
    | [] => True
    | f :: rest => 0 ≤ of_offset f < zlen (of_bytes f) ∧ Forall (λ g, of_offset g = 0) rest
    end.

Lemma frames_bytes_cons f q : frames_bytes (f :: q) = zlen (of_bytes f) + frames_bytes q.
Proof. done. Qed.

Lemma flushes_bytes_cons f q : flushes_bytes (f :: q) = pf_bytes f + flushes_bytes q.
Proof. done. Qed.

Lemma frames_bytes_app a b : frames_bytes (a ++ b) = frames_bytes a + frames_bytes b.
Proof.
  induction a as [|f a IH]; [done|]. rewrite <- app_comm_cons, !frames_bytes_cons, IH. lia.
Qed.

Lemma frames_bytes_nonneg q : 0 ≤ frames_bytes q.
Proof.
  induction q as [|f q IH]; [done|]. rewrite frames_bytes_cons.
  pose proof (zlen_nonneg (of_bytes f)). lia.
Qed.

Lemma flushes_bytes_app a b : flushes_bytes (a ++ b) = flushes_bytes a + flushes_bytes b.
Proof.
  induction a as [|f a IH]; [done|]. rewrite <- app_comm_cons, !flushes_bytes_cons, IH. lia.
Qed.

(** A new frame at the back. *)
Lemma queue_ok_snoc q bytes action k :
  queue_ok q → client_frame bytes → queue_ok (q ++ [mkOutboundFrame bytes 0 action k])
  ∧ partial (q ++ [mkOutboundFrame bytes 0 action k]) = partial q.
Proof.
  intros [Hf Hq] Hb. pose proof (client_frame_len _ Hb). split; [split|].
  - apply Forall_app_2; [done|]. by apply Forall_singleton.
  - destruct q as [|f q]; cbn.
    + split; [cbn; lia|constructor].
    + destruct Hq as [? Hq]. split; [done|]. apply Forall_app_2; [done|]. by apply Forall_singleton.
  - by destruct q.
Qed.

(** What [remove_request] leaves in the queue. *)
Lemma retain_frames_spec k q n b :
  frames_bytes q ≤ n →
  let kept := filter (λ f, unsent_of k f = false) q in
  retain_frames k q n b =
    (kept, n - (frames_bytes q - frames_bytes kept), b || existsb (unsent_of k) q)
  ∧ frames_bytes kept ≤ frames_bytes q.
Proof.
  cbv zeta. revert n b. induction q as [|f q IH]; intros n b Hn; cbn [retain_frames existsb].
  { rewrite orb_false_r. split; [|done]. by rewrite Z.sub_diag, Z.sub_0_r. }
  rewrite frames_bytes_cons in *. pose proof (frames_bytes_nonneg q).
  pose proof (zlen_nonneg (of_bytes f)). destruct (unsent_of k f) eqn:Hu.
  - rewrite filter_cons_False by congruence.
    unfold saturating_sub. rewrite Z.max_r by lia.
    destruct (IH (n - zlen (of_bytes f)) true) as [-> ?]; [lia|].
    split; [|lia]. rewrite orb_true_r. cbn. f_equal. f_equal. lia.
  - rewrite filter_cons_True, frames_bytes_cons by done. destruct (IH n b) as [-> ?]; [lia|].
    split; [|lia]. cbn. f_equal. f_equal. lia.
Qed.

Lemma Forall_filter_of {A} (P Q : A → Prop) `{!∀ x, Decision (Q x)} l :
  Forall P l → Forall P (filter Q l).
Proof.
  induction 1 as [|x l Hx Hl IH]; [constructor|]. rewrite filter_cons.
  destruct (decide _); [by constructor|done].
Qed.

Lemma queue_ok_retain k q :
  queue_ok q →
  let kept := filter (λ f, unsent_of k f = false) q in
  queue_ok kept ∧ partial kept = partial q.
Proof.
  intros [Hf Hq]. split; [split|].
  - by apply Forall_filter_of.
  - destruct q as [|f q]; [done|]. destruct Hq as [Ho Hq]. rewrite filter_cons.
    destruct (decide _); [split; [done|by apply Forall_filter_of]|].
    pose proof (Forall_filter_of _ (λ f, unsent_of k f = false) _ Hq) as Hk.
    apply Forall_cons_1 in Hf as [_ Hf].
    pose proof (Forall_filter_of _ (λ f, unsent_of k f = false) _ Hf) as Hfk.
    destruct (filter _ q) as [|g kept]; [done|]. apply Forall_cons_1 in Hk as [Hg Hk].
    split; [|done]. rewrite Hg. apply Forall_cons_1 in Hfk as [Hgf _].
    pose proof (client_frame_len _ Hgf). lia.
  - destruct q as [|f q]; [done|]. destruct Hq as [Ho Hq]. rewrite filter_cons.
    destruct (decide _) as [|Hu]; [done|]. apply not_false_is_true in Hu.
    unfold unsent_of in Hu. apply andb_true_iff in Hu as [Hz%Z.eqb_eq _]. cbn [partial].
    rewrite Hz. pose proof (Forall_filter_of _ (λ f, unsent_of k f = false) _ Hq) as Hk.
    destruct (filter _ q) as [|g kept]; [done|]. apply Forall_cons_1 in Hk as [Hg _].
    cbn [partial]. by rewrite Hg.
Qed.

Lemma ztake_more {A} a b (l : list A) :
  0 ≤ a → 0 ≤ b → ztake a l ++ ztake b (zdrop a l) = ztake (a + b) l.
Proof. intros. unfold ztake, zdrop. rewrite take_take_drop. f_equal. lia. Qed.

Lemma partial_rest rest : Forall (λ g, of_offset g = 0) rest → partial rest = [].
Proof. destruct rest as [|g rest]; [done|]. intros [Hg _]%Forall_cons_1. cbn in *. by rewrite Hg. Qed.

(** The queue after [n] more bytes of its first frame. *)
Definition advanced (f : OutboundFrame) (rest : list OutboundFrame) (n : Z) : list OutboundFrame :=
  if of_offset f + n =? zlen (of_bytes f) then rest
  else f <| of_offset := of_offset f + n |> :: rest.

Lemma advanced_ok f rest n fs :
  queue_ok (f :: rest) → 0 < n ≤ zlen (of_bytes f) - of_offset f → Forall client_frame fs →
  queue_ok (advanced f rest n)
  ∧ ∃ fs', concat fs ++ partial (f :: rest) ++ ztake n (zdrop (of_offset f) (of_bytes f))
           = concat fs' ++ partial (advanced f rest n) ∧ Forall client_frame fs'.
Proof.
  intros [Hf [Ho Hr]] Hn Hfs. apply Forall_cons_1 in Hf as [Hf Hfr].
  cbn [partial]. rewrite ztake_more by lia. unfold advanced.
  destruct (of_offset f + n =? zlen (of_bytes f)) eqn:He.
  - apply Z.eqb_eq in He. split.
    + split; [done|]. destruct rest as [|g rest]; [done|].
      apply Forall_cons_1 in Hr as [Hg Hr]. apply Forall_cons_1 in Hfr as [Hgf _].
      pose proof (client_frame_len _ Hgf). split; [lia|done].
    + exists (fs ++ [of_bytes f]). rewrite He, ztake_all, partial_rest, concat_app by done.
      cbn. rewrite !app_nil_r. split; [done|]. apply Forall_app_2; [done|]. by apply Forall_singleton.
  - apply Z.eqb_neq in He. split.
    + split; [by constructor|]. cbn. split; [lia|done].
    + by exists fs.
Qed.

Lemma advanced_bytes f rest n :
  frames_bytes (advanced f rest n)
  = frames_bytes (f :: rest) - (if of_offset f + n =? zlen (of_bytes f) then zlen (of_bytes f) else 0).
Proof. unfold advanced. destruct (_ =? _); rewrite !frames_bytes_cons; cbn; lia. Qed.

(** ** The invariant *)

Section driver_facts.
Context {W : Type} {T : Transport W} {L : TransportLaws W} {H : HashOrder W} {C : ClockLaws W}.

Abbreviation Conn := (MqttConnection W).
Abbreviation ConnM A := (M Conn A).

(** What never changes once the connection is established. *)
Definition config (s : Conn) :=
  (mc_keep_alive_secs s, mc_peer_max_packet_size s, mc_peer_receive_maximum s,
   mc_server_capabilities s, mc_max_outbound_queue_bytes s, mc_max_pending_operations s,
   mc_ack_timeout s, mc_poll_interval s, fr_max_packet_size (mc_frame_reader s)).

Definition clocks_ok (s : Conn) : Prop :=
  clock_end + mc_ack_timeout s ≤ t_instant_max
  ∧ 0 ≤ mc_keep_alive_secs s ≤ 65535
  ∧ mc_last_write_at s ≤ clock_end
  ∧ ∀ t, mc_ping_outstanding_since s = Some t → t ≤ clock_end.

Definition bounded {A} (ch : Channel A) : Prop := zlen (ch_queue ch) ≤ ch_capacity ch.

Record conn_ok (s : Conn) : Prop := mk_conn_ok {
  ok_queue : queue_ok (mc_outbound s);
  ok_wire : ∃ fs, sent (mc_stream s) = concat fs ++ partial (mc_outbound s) ∧ Forall client_frame fs;
  ok_bytes : mc_outbound_bytes s = frames_bytes (mc_outbound s) + flushes_bytes (mc_flush_actions s);
  ok_flushes : Forall (λ f, 0 ≤ pf_bytes f) (mc_flush_actions s);
  ok_limit : mc_outbound_bytes s ≤ mc_max_outbound_queue_bytes s;
  ok_ids : map_Forall (λ id _, 1 ≤ id ≤ 65535) (mc_pending_acks s);
  ok_acks : Z.of_nat (size (mc_pending_acks s)) ≤ mc_max_pending_operations s;
  ok_next : 1 ≤ mc_next_packet_id s ≤ 65535;
  ok_requests : Z.of_nat (size (mc_pending_requests s)) ≤ mc_max_pending_operations s;
  ok_reader : reader_live (fr_max_packet_size (mc_frame_reader s)) (mc_frame_reader s);
  ok_events : bounded (mc_events s);
  ok_commands : bounded (mc_commands s);
  ok_clocks : clocks_ok s;
}.

(** A step that keeps the invariant and the configuration. *)
Definition good (s s' : Conn) : Prop := conn_ok s' ∧ config s' = config s.

Definition keeps {E A} (m : st Conn E A) (s : Conn) : Prop :=
  conn_ok s → outcome m (λ _, good s) (λ _, good s) s.

Lemma good_refl s : conn_ok s → good s s.
Proof. done. Qed.

Lemma good_trans s s1 s2 : good s s1 → good s1 s2 → good s s2.
Proof. intros [? ?] [? ?]. split; [done|congruence]. Qed.

Section keeps_rules.
Context {E : Type}.

Lemma keeps_ret {A} (a : A) s : keeps (E:=E) (ret a) s.
Proof. intros ?. by apply good_refl. Qed.

Lemma keeps_with {A} (m : st Conn E A) s : (conn_ok s → keeps m s) → keeps m s.
Proof. intros Hm Hs. by apply Hm. Qed.

Lemma keeps_fail {A} (e : E) s : keeps (A:=A) (fail e) s.
Proof. intros ?. by apply good_refl. Qed.

Lemma keeps_diverge {A} s : keeps (E:=E) (A:=A) diverge s.
Proof. done. Qed.

Lemma keeps_lift {A} (r : result E A) s : returns r → keeps (lift r) s.
Proof. intros ??. apply outcome_lift; auto using good_refl. Qed.

Lemma keeps_fail_if b (e : E) s : keeps (fail_if b e) s.
Proof. by destruct b; [apply keeps_fail|apply keeps_ret]. Qed.

Lemma keeps_get {A} (k : Conn → st Conn E A) s : keeps (k s) s → keeps (bind get k) s.
Proof. done. Qed.

Lemma keeps_modify f s : (conn_ok s → good s (f s)) → keeps (E:=E) (modify f) s.
Proof. done. Qed.

Lemma keeps_modify_comp f g s :
  keeps (E:=E) (modify f) s → (∀ s', keeps (E:=E) (modify g) s') →
  keeps (E:=E) (modify (λ c, g (f c))) s.
Proof. intros Hf Hg Hs. specialize (Hf Hs). eapply good_trans; [exact Hf|]. apply Hg, Hf. Qed.

Lemma keeps_bind {A B} (m : st Conn E A) (k : A → st Conn E B) s :
  keeps m s → (∀ a s', m s = (Ok a, s') → good s s' → keeps (k a) s') → keeps (bind m k) s.
Proof.
  intros Hm Hk Hs. specialize (Hm Hs). unfold outcome, bind in *.
  destruct (m s) as [[a|e|w|] s'] eqn:Hr; try done.
  specialize (Hk a s' eq_refl Hm (proj1 Hm)). unfold outcome in Hk.
  destruct (k a s') as [[b|e|w|] s'']; try done; by eapply good_trans.
Qed.

Lemma keeps_match {F A B} (m : st Conn F A) (h : F → st Conn E B) (k : A → st Conn E B) s :
  keeps m s →
  (∀ a s', m s = (Ok a, s') → good s s' → keeps (k a) s') →
  (∀ e s', m s = (Err e, s') → good s s' → keeps (h e) s') →
  keeps (match_result m h k) s.
Proof.
  intros Hm Hk Hh Hs. specialize (Hm Hs). unfold outcome, match_result in *.
  destruct (m s) as [[a|e|w|] s'] eqn:Hr; try done.
  - specialize (Hk a s' eq_refl Hm (proj1 Hm)). unfold outcome in Hk.
    destruct (k a s') as [[b|e|w|] s'']; try done; by eapply good_trans.
  - specialize (Hh e s' eq_refl Hm (proj1 Hm)). unfold outcome in Hh.
    destruct (h e s') as [[b|e'|w|] s'']; try done; by eapply good_trans.
Qed.

Lemma keeps_map_error {F A} (f : F → E) (m : st Conn F A) s : keeps m s → keeps (map_error f m) s.
Proof. intros. apply keeps_match; [done|intros; apply keeps_ret|intros; apply keeps_fail]. Qed.

Lemma keeps_if {A} (b : bool) (m1 m2 : st Conn E A) s :
  (b = true → keeps m1 s) → (b = false → keeps m2 s) → keeps (if b then m1 else m2) s.
Proof. destruct b; auto. Qed.
End keeps_rules.

Lemma keeps_for_each {A} (l : list A) body s :
  (∀ x s', x ∈ l → keeps (body x) s') → keeps (for_each l body) s.
Proof.
  revert s. induction l as [|x l IH]; intros s Hb; cbn [for_each]; [apply keeps_ret|].
  apply keeps_bind; [apply Hb; left|]. intros _ s' _ _. apply IH. intros. apply Hb. by right.
Qed.

(** *** Assignments *)

(** Fields the invariant does not look at. *)
Record same_core (s s' : Conn) : Prop := mk_same_core {
  sc_stream : sent (mc_stream s') = sent (mc_stream s);
  sc_reader : mc_frame_reader s' = mc_frame_reader s;
  sc_out : mc_outbound s' = mc_outbound s ∧ mc_outbound_bytes s' = mc_outbound_bytes s
           ∧ mc_flush_actions s' = mc_flush_actions s;
  sc_tables : mc_pending_acks s' = mc_pending_acks s
              ∧ mc_pending_requests s' = mc_pending_requests s;
  sc_next : mc_next_packet_id s' = mc_next_packet_id s;
  sc_channels : bounded (mc_events s') ∧ bounded (mc_commands s');
  sc_clocks : mc_last_write_at s' ≤ clock_end
              ∧ ∀ t, mc_ping_outstanding_since s' = Some t → t ≤ clock_end;
  sc_config : config s' = config s;
}.

Lemma same_core_good s s' : conn_ok s → same_core s s' → good s s'.
Proof.
  intros Hs [Hst Hr (Ho & Hb & Hf) (Ha & Hq) Hn (He & Hc) Hcl Hcf]. split; [|done].
  destruct Hs as [????????????(?&?&_)]. unfold config in Hcf. injection Hcf as Hka Hpm Hpr Hsc Hmo Hmp Hat Hpi Hfr.
  split; rewrite ?Hst, ?Hr, ?Ho, ?Hb, ?Hf, ?Ha, ?Hq, ?Hn, ?Hmo, ?Hmp; try done.
  unfold clocks_ok. by rewrite Hat, Hka.
Qed.

(** Close a goal [good s (s <| .. |>)] where no field of the core moved. *)
Ltac untouched :=
  let Hs := fresh "Hs" in
  intros Hs; apply same_core_good; [exact Hs|];
  destruct Hs as [????????????(?&?&?&?)]; split; cbn; try done.

Lemma keeps_send r x s : keeps (send r x) s.
Proof. apply keeps_modify. untouched. Qed.

Lemma keeps_fails f s : keeps (fails f) s.
Proof. apply keeps_modify. untouched. Qed.

Lemma keeps_response_subscriptions {E} f s :
  keeps (E:=E) (modify (λ c : Conn, c <| mc_response_subscriptions ::= f |>)) s.
Proof. apply keeps_modify. untouched. Qed.

Lemma keeps_lifecycle {E} f s :
  keeps (E:=E) (modify (λ c : Conn, c <| mc_request_lifecycle ::= f |>)) s.
Proof. apply keeps_modify. untouched. Qed.

Lemma finish_request_lifecycle_keeps k s : keeps (finish_request_lifecycle k) s.
Proof. apply keeps_lifecycle. Qed.

Lemma keeps_set_lifecycle {E} l s :
  keeps (E:=E) (modify (λ c : Conn, c <| mc_request_lifecycle := l |>)) s.
Proof. apply keeps_modify. untouched. Qed.

Lemma keeps_closing {E} b s : keeps (E:=E) (modify (λ c : Conn, c <| mc_closing := b |>)) s.
Proof. apply keeps_modify. untouched. Qed.

Lemma keeps_channel_closed {E} b s :
  keeps (E:=E) (modify (λ c : Conn, c <| mc_command_channel_closed := b |>)) s.
Proof. apply keeps_modify. untouched. Qed.

Lemma keeps_terminal {E} b s :
  keeps (E:=E) (modify (λ c : Conn, c <| mc_terminal_event_sent := b |>)) s.
Proof. apply keeps_modify. untouched. Qed.

Lemma keeps_needs_flush {E} b s : keeps (E:=E) (modify (λ c : Conn, c <| mc_needs_flush := b |>)) s.
Proof. apply keeps_modify. untouched. Qed.

Lemma keeps_ping_queued {E} b s : keeps (E:=E) (modify (λ c : Conn, c <| mc_ping_queued := b |>)) s.
Proof. apply keeps_modify. untouched. Qed.

Lemma keeps_ping_answered {E} s :
  keeps (E:=E) (modify (λ c : Conn, c <| mc_ping_outstanding_since := None |>)) s.
Proof. apply keeps_modify. untouched. Qed.

Lemma keeps_ping_sent {E} t s :
  t ≤ clock_end → keeps (E:=E) (modify (λ c : Conn, c <| mc_ping_outstanding_since := Some t |>)) s.
Proof. intros Ht. apply keeps_modify. untouched. split; [done|]. by intros ? [= <-]. Qed.

Lemma keeps_pop_command {E} x rest s :
  ch_queue (mc_commands s) = x :: rest →
  keeps (E:=E) (modify (λ c : Conn, c <| mc_commands ::= λ ch, ch <| ch_queue := rest |> |>)) s.
Proof.
  intros Hq. apply keeps_modify. intros Hs. pose proof (ok_commands s Hs) as Hc.
  unfold bounded in Hc. rewrite Hq, zlen_cons in Hc. revert Hs. untouched.
  split; [done|]. unfold bounded; cbn. lia.
Qed.

(** *** The clock and the stream *)

Lemma good_stream w (s : Conn) : conn_ok s → sent w = sent (mc_stream s) → good s (s <| mc_stream := w |>).
Proof. intros Hs Hw. revert Hs. untouched. Qed.

Lemma keeps_now {E B} (k : Instant → st Conn E B) s :
  (∀ t w, t ≤ clock_end → sent w = sent (mc_stream s) → keeps (k t) (s <| mc_stream := w |>)) →
  keeps (bind now k) s.
Proof.
  intros Hk Hs. unfold outcome, bind, now. pose proof (now_law (mc_stream s)) as Hw.
  pose proof (clock_law (mc_stream s)) as Hc. destruct (t_now (mc_stream s)) as [t w]. cbn in *.
  pose proof (good_stream w s Hs Hw) as Hg. specialize (Hk t w Hc Hw (proj1 Hg)).
  unfold outcome in Hk. destruct (k t _) as [[]]; try done; by eapply good_trans.
Qed.

Lemma keeps_instant_add {E} t d s :
  t + d ≤ t_instant_max → keeps (E:=E) (instant_add t d) s.
Proof.
  intros Ht. unfold instant_add, instant_checked_add. rewrite (proj2 (Z.leb_le _ _)) by done.
  apply keeps_ret.
Qed.

Lemma keeps_on_stream {A B} (m : IoM W A) (k : io_Result A → ConnM B) s :
  quiet sent m →
  (∀ r w, returns r → sent w = sent (mc_stream s) → keeps (k r) (s <| mc_stream := w |>)) →
  keeps (bind (on_stream m) k) s.
Proof.
  intros Hq Hk Hs. specialize (Hq (mc_stream s)) as [Hr Hw]. unfold outcome, bind, on_stream.
  destruct (m (mc_stream s)) as [r w]. cbn in *. pose proof (good_stream w s Hs Hw) as Hg.
  destruct r as [a|e|p|]; try done;
    [specialize (Hk (Ok a) w I Hw (proj1 Hg))|specialize (Hk (Err e) w I Hw (proj1 Hg))];
    unfold outcome in Hk; destruct (k _ _) as [[]]; try done; by eapply good_trans.
Qed.

(** *** Channels *)

Lemma keeps_try_send_event ev s : keeps (try_send_event ev) s.
Proof.
  intros Hs. unfold outcome, try_send_event, try_send. destruct (negb _); [done|].
  destruct (_ <=? _) eqn:Hl; [done|]. apply Z.leb_gt in Hl. revert Hs. untouched.
  split; [|done]. unfold bounded; cbn. rewrite zlen_app, zlen_cons, zlen_nil. lia.
Qed.

Lemma keeps_notify ev s : keeps (notify ev) s.
Proof.
  apply keeps_match; [apply keeps_try_send_event|intros; apply keeps_ret|intros; apply keeps_ret].
Qed.

(** *** Packet identifiers and acknowledgements *)

Lemma good_next n (s : Conn) : 1 ≤ n ≤ 65535 → conn_ok s → good s (s <| mc_next_packet_id := n |>).
Proof. intros Hn []. split; [|done]. by split. Qed.

(** The identifier after [id]. *)
Definition id_after (id : Z) : Z := if id =? 65535 then 1 else id + 1.

Lemma id_after_range id : 1 ≤ id ≤ 65535 → 1 ≤ id_after id ≤ 65535.
Proof. unfold id_after. destruct (id =? 65535) eqn:?; lia. Qed.

(** One iteration of [reserve_packet_id]. *)
Lemma reserve_loop_step n (s : Conn) :
  1 ≤ mc_next_packet_id s ≤ 65535 →
  reserve_loop (S n) s =
    let s' := s <| mc_next_packet_id := id_after (mc_next_packet_id s) |> in
    if decide (is_Some (mc_pending_acks s !! mc_next_packet_id s))
    then reserve_loop n s' else (Ok (mc_next_packet_id s), s').
Proof.
  intros Hn. cbn [reserve_loop]. unfold bind at 1, get. cbn beta iota.
  unfold bind at 1, modify at 1. unfold bind at 1. cbn -[reserve_loop as_u16].
  unfold id_after, as_u16. destruct (mc_next_packet_id s =? 65535) eqn:He.
  - apply Z.eqb_eq in He. rewrite He. cbn -[reserve_loop]. by case_decide.
  - apply Z.eqb_neq in He. rewrite Z.mod_small by lia.
    rewrite (proj2 (Z.eqb_neq _ 0)) by lia. unfold bind, ret. by case_decide.
Qed.

Lemma reserve_loop_keeps n s : keeps (reserve_loop n) s.
Proof.
  revert s. induction n as [|n IH]; intros s Hs; [by apply keeps_fail|].
  pose proof (ok_next s Hs) as Hn. unfold outcome. rewrite reserve_loop_step by done. cbv zeta.
  pose proof (good_next _ s (id_after_range _ Hn) Hs) as Hg. case_decide; [|done].
  specialize (IH _ (proj1 Hg)). unfold outcome in IH.
  destruct (reserve_loop n _) as [[]]; try done; by eapply good_trans.
Qed.

(** An identifier it returns is free. *)
Lemma reserve_loop_fresh n (s : Conn) id s' :
  1 ≤ mc_next_packet_id s ≤ 65535 → reserve_loop n s = (Ok id, s') →
  1 ≤ id ≤ 65535 ∧ mc_pending_acks s !! id = None ∧ ∃ m, s' = s <| mc_next_packet_id := m |>.
Proof.
  revert s. induction n as [|n IH]; intros s Hn; [done|].
  rewrite reserve_loop_step by done. cbv zeta. case_decide as Hd.
  - intros (? & ? & m & ->)%IH; [|by apply id_after_range]. split; [done|]. split; [done|]. by exists m.
  - intros [= <- <-]. split_and!; [lia..| |by eexists]. by apply eq_None_not_Some.
Qed.

Lemma reserve_keeps s : keeps reserve_packet_id s.
Proof. apply reserve_loop_keeps. Qed.

Lemma good_acks f (s : Conn) :
  map_Forall (λ id _, 1 ≤ id ≤ 65535) (f (mc_pending_acks s)) →
  Z.of_nat (size (f (mc_pending_acks s))) ≤ mc_max_pending_operations s →
  conn_ok s → good s (s <| mc_pending_acks ::= f |>).
Proof. intros ?? []. split; [|done]. by split. Qed.

(** A table with the same identifiers or fewer. *)
Lemma keeps_fewer_acks {E} f s :
  (∀ id, is_Some (f (mc_pending_acks s) !! id) → is_Some (mc_pending_acks s !! id)) →
  (size (f (mc_pending_acks s)) ≤ size (mc_pending_acks s))%nat →
  keeps (E:=E) (modify (λ c : Conn, c <| mc_pending_acks ::= f |>)) s.
Proof.
  intros Hd Hz. apply keeps_modify. intros Hs. apply good_acks; [| |done].
  - intros id x Hx. destruct (Hd id) as [y Hy]; [by eexists|]. by apply (ok_ids s Hs id y).
  - pose proof (ok_acks s Hs). lia.
Qed.

Lemma keeps_delete_ack {E} id s :
  keeps (E:=E) (modify (λ c : Conn, c <| mc_pending_acks ::= delete id |>)) s.
Proof.
  apply keeps_fewer_acks; [|apply size_delete_le].
  intros i [x Hx]. apply lookup_delete_Some in Hx as [_ ?]. by eexists.
Qed.

Lemma keeps_alter_ack {E} f id s :
  keeps (E:=E) (modify (λ c : Conn, c <| mc_pending_acks ::= alter f id |>)) s.
Proof.
  apply keeps_fewer_acks; [|by rewrite size_alter].
  intros i [x Hx]. apply lookup_alter_Some in Hx as [(-> & y & ? & _)|[_ ?]]; by eexists.
Qed.

Lemma keeps_update_ack {E} id x y s :
  mc_pending_acks s !! id = Some x →
  keeps (E:=E) (modify (λ c : Conn, c <| mc_pending_acks ::= <[ id := y ]> |>)) s.
Proof.
  intros Hx. apply keeps_fewer_acks.
  - intros i [z Hz]. destruct (decide (i = id)) as [->|]; [by eexists|].
    rewrite lookup_insert_ne in Hz by done. by eexists.
  - by rewrite map_size_insert, Hx.
Qed.

Lemma keeps_bury_cancelled {E} s :
  keeps (E:=E) (modify (λ c : Conn, c <| mc_pending_acks ::= fmap (bury_cancelled (mc_oneshots c)) |>)) s.
Proof.
  intros Hs. apply (good_acks (fmap (bury_cancelled (mc_oneshots s)))); [| |done].
  - intros id x Hx. rewrite lookup_fmap in Hx. apply fmap_Some in Hx as (y & Hy & _).
    by apply (ok_ids s Hs id y).
  - rewrite map_size_fmap. by apply ok_acks.
Qed.

Lemma insert_pending_ack_keeps id kind label s :
  1 ≤ id ≤ 65535 → keeps (insert_pending_ack id kind label) s.
Proof.
  intros Hid. unfold insert_pending_ack. apply keeps_get.
  destruct (_ <=? _) eqn:Hl; [apply keeps_fail|]. apply Z.leb_gt in Hl.
  apply keeps_now. intros t w Ht Hw Hs. pose proof (ok_clocks _ Hs) as (Hc & _). revert Hs.
  apply keeps_bind; [apply keeps_instant_add; cbn in *; lia|].
  intros deadline s' Hd _. unfold instant_add, instant_checked_add in Hd.
  destruct (_ <=? _); [|done]. injection Hd as <- <-.
  apply keeps_modify. intros Hs. apply good_acks; [| |done].
  - apply map_Forall_insert_2; [done|apply Hs].
  - pose proof (size_insert_le id (mkPendingAck (t + mc_ack_timeout s) label kind) (mc_pending_acks s)).
    cbn in *. lia.
Qed.

(** *** The outbound queue *)

(** A frame queued: the state after a successful [enqueue]. *)
Definition enqueued (bytes : list Z) (action : WrittenAction) (k : option (list Z)) (s : Conn)
  : Conn :=
  s <| mc_outbound_bytes := mc_outbound_bytes s + zlen bytes |>
    <| mc_outbound ::= λ q, q ++ [mkOutboundFrame bytes 0 action k] |>.

Lemma enqueued_good bytes action k s :
  client_frame bytes → mc_outbound_bytes s + zlen bytes ≤ mc_max_outbound_queue_bytes s →
  conn_ok s → good s (enqueued bytes action k s).
Proof.
  intros Hf Hl []. destruct (queue_ok_snoc (mc_outbound s) bytes action k) as [Hq Hp]; [done..|].
  split; [|done]. unfold enqueued. split; cbn; try done.
  - by rewrite Hp.
  - rewrite frames_bytes_app, frames_bytes_cons, frames_bytes_nil. cbn. lia.
Qed.

(** What [enqueue_with_action] does: the frame is queued whole, or nothing happens and
    the action comes back with the reason. *)
Lemma enqueue_with_action_spec bytes action k (s : Conn) :
  enqueue_with_action bytes action k s =
    if mc_peer_max_packet_size s <? zlen bytes
    then (Err (PacketTooLarge (zlen bytes) (mc_peer_max_packet_size s), action), s)
    else if Z.min usize_max (mc_max_outbound_queue_bytes s) <? mc_outbound_bytes s + zlen bytes
    then (Err (QueueFull "outbound bytes", action), s)
    else (Ok (), enqueued bytes action k s).
Proof.
  unfold enqueue_with_action, bind, get. destruct (_ <? _); [done|].
  unfold checked_add. destruct (_ <=? usize_max) eqn:Hu.
  - apply Z.leb_le in Hu. destruct (mc_max_outbound_queue_bytes s <? _) eqn:Hm.
    + apply Z.ltb_lt in Hm. rewrite (proj2 (Z.ltb_lt _ _)) by lia. done.
    + apply Z.ltb_ge in Hm. rewrite (proj2 (Z.ltb_ge _ _)) by lia. done.
  - apply Z.leb_gt in Hu. rewrite (proj2 (Z.ltb_lt _ _)) by lia. done.
Qed.

Lemma enqueue_with_action_keeps bytes action k s :
  client_frame bytes → keeps (enqueue_with_action bytes action k) s.
Proof.
  intros Hf Hs. unfold outcome. rewrite enqueue_with_action_spec.
  destruct (_ <? _); [done|]. destruct (Z.min _ _ <? _) eqn:Hl; [done|]. apply Z.ltb_ge in Hl.
  apply enqueued_good; [done|lia|done].
Qed.

Lemma enqueue_keeps bytes action k s : client_frame bytes → keeps (enqueue bytes action k) s.
Proof. intros. by apply keeps_map_error, enqueue_with_action_keeps. Qed.

Lemma withdraw_ack_keeps id e s : keeps (withdraw_ack id e) s.
Proof.
  unfold withdraw_ack. apply keeps_get. destruct (_ !! _); [|apply keeps_ret].
  apply keeps_bind; [apply keeps_delete_ack|]. intros _ s' _ _. apply keeps_fails.
Qed.

Lemma good_requests f (s : Conn) :
  (size (f (mc_pending_requests s)) ≤ size (mc_pending_requests s))%nat →
  conn_ok s → good s (s <| mc_pending_requests ::= f |>).
Proof. intros Hz []. split; [|done]. split; cbn; try done. lia. Qed.

(** What [remove_request] leaves in the outbound queue. *)
Lemma good_retain k (s : Conn) :
  let kept := filter (λ f, unsent_of k f = false) (mc_outbound s) in
  conn_ok s →
  good s (s <| mc_outbound := kept |>
            <| mc_outbound_bytes := mc_outbound_bytes s
                 - (frames_bytes (mc_outbound s) - frames_bytes kept) |>).
Proof.
  cbv zeta. intros []. destruct (queue_ok_retain k (mc_outbound s)) as [Hq Hp]; [done|].
  destruct (retain_frames_spec k (mc_outbound s) _ false (Z.le_refl _)) as [_ Hle].
  split; [|done]. split; cbn; try done; [by rewrite Hp|lia..].
Qed.

Lemma flushes_bytes_nonneg q : Forall (λ f, 0 ≤ pf_bytes f) q → 0 ≤ flushes_bytes q.
Proof. induction 1 as [|f q Hf Hq IH]; [done|]. rewrite flushes_bytes_cons. lia. Qed.

Lemma remove_request_keeps k s : keeps (remove_request k) s.
Proof.
  unfold remove_request. apply keeps_get. intros Hs0.
  pose proof (ok_bytes s Hs0) as Hb. pose proof (flushes_bytes_nonneg _ (ok_flushes s Hs0)).
  destruct (retain_frames_spec k (mc_outbound s) (mc_outbound_bytes s) false) as [Hret _]; [lia|].
  cbv zeta in Hret. destruct (_ !! k) as [pending|]; [|done].
  apply (keeps_bind _ _ _ (keeps_modify _ _ (good_requests (delete k) s (size_delete_le _ _)))); [|done].
  intros _ s1 [= _ <-] _. unfold finish_request_lifecycle.
  apply keeps_bind; [apply keeps_lifecycle|]. intros _ s2 [= _ <-] _. rewrite Hret.
  apply keeps_bind.
  { apply keeps_modify. exact (good_retain k _). }
  intros _ s3 _ _. apply keeps_bind; [|intros; apply keeps_ret].
  destruct (pr_publish_packet_id pending); [|apply keeps_ret].
  destruct (existsb _ _); [apply keeps_delete_ack|apply keeps_alter_ack].
Qed.

Lemma fail_request_keeps k e s : keeps (fail_request k e) s.
Proof.
  apply keeps_bind; [apply remove_request_keeps|]. intros [pending|] s' _ _;
    [apply keeps_send|apply keeps_ret].
Qed.

Lemma fail_requests_for_topic_keeps topic e s : keeps (fail_requests_for_topic topic e) s.
Proof. apply keeps_get, keeps_for_each. intros. apply fail_request_keeps. Qed.
(** *** Commands *)

Create HintDb keeps discriminated.
#[local] Hint Constants Opaque : keeps.
#[local] Hint Variables Opaque : keeps.
#[local] Hint Resolve keeps_ret keeps_fail keeps_diverge keeps_send keeps_fails
  keeps_response_subscriptions keeps_lifecycle finish_request_lifecycle_keeps
  keeps_set_lifecycle keeps_closing
  keeps_channel_closed keeps_terminal keeps_needs_flush keeps_ping_queued keeps_ping_answered
  keeps_notify keeps_try_send_event keeps_delete_ack keeps_bury_cancelled reserve_keeps
  withdraw_ack_keeps remove_request_keeps fail_request_keeps fail_requests_for_topic_keeps
  insert_pending_ack_keeps enqueue_keeps enqueue_with_action_keeps : keeps.

(** Walk a method: the rule of its head, or the lemma of the call. *)
Ltac keeps_step :=
  lazymatch goal with
  | |- keeps (bind get _) _ => apply keeps_get
  | |- keeps (bind now _) _ => apply keeps_now; intros ? ? ? _
  | |- keeps (bind _ _) _ => apply keeps_bind; [|intros ? ? ? _]
  | |- keeps (match_result _ _ _) _ => apply keeps_match; [|intros ? ? ? _|intros ? ? ? _]
  | |- keeps (map_error _ _) _ => apply keeps_map_error
  | |- keeps (for_each _ _) _ => apply keeps_for_each; intros
  | |- keeps (match ?x with _ => _ end) _ => destruct x eqn:?
  | |- keeps _ _ => solve [eauto 3 with keeps]
  end.
Ltac keep := repeat keeps_step.

Lemma keeps_lift_match {A B} k (r : Result A) (h : Error → ConnM B) (m : A → ConnM B) s :
  (∀ a, r = Ok a → keeps (m a) s) → (∀ e, keeps (h e) s) → returns r → k = r →
  keeps (match_result (lift k) h m) s.
Proof. intros Hm Hh Hr ->. destruct r; try done; [by apply Hm|by apply Hh]. Qed.

Lemma reserve_fresh (s : Conn) id s' :
  conn_ok s → reserve_packet_id s = (Ok id, s') → 1 ≤ id ≤ 65535 ∧ mc_pending_acks s' !! id = None.
Proof.
  intros Hs Hr. destruct (reserve_loop_fresh _ s id s' (ok_next s Hs) Hr) as (? & ? & m & ->). done.
Qed.

(** A packet identifier taken, for one arm of a match. *)
Lemma keeps_reserve {B} (h : Error → ConnM B) (k : Z → ConnM B) s :
  (∀ id s', 1 ≤ id ≤ 65535 → mc_pending_acks s' !! id = None → keeps (k id) s') →
  (∀ e s', keeps (h e) s') → keeps (match_result reserve_packet_id h k) s.
Proof.
  intros Hk Hh. apply keeps_with. intros Hs. apply keeps_match; [apply reserve_keeps| |by intros].
  intros id s' Hr _. destruct (reserve_fresh s id s' Hs Hr). by apply Hk.
Qed.

Lemma begin_publish_keeps topic payload options result s :
  keeps (begin_publish topic payload options result) s.
Proof.
  unfold begin_publish. apply keeps_get.
  eapply keeps_lift_match; [|intros; apply keeps_send| |reflexivity].
  2: { pose proof (validate_topic_name_returns topic). destruct (validate_topic_name _); try done.
       apply validate_publish_returns. }
  intros _ _. apply keeps_with. intros Hs.
  apply keeps_match; [|intros packet_id s1 Hid _|intros; apply keeps_send].
  { keep. }
  assert (∀ id, packet_id = Some id → 1 ≤ id ≤ 65535) as Hr.
  { intros id ->. destruct (bool_decide _); [|done].
    apply bind_ok_inv in Hid as (id' & s' & Hid & [= -> ->]). by eapply reserve_fresh. }
  eapply keeps_lift_match; [|intros; apply keeps_send| |reflexivity].
  2: { eapply builds_returns, PublishPacket_encode_builds. }
  intros bytes Hb. apply cf_publish in Hb. destruct packet_id as [id|]; [|keep].
  specialize (Hr id eq_refl). keep.
Qed.
Lemma begin_subscribe_keeps filter qos result s : keeps (begin_subscribe filter qos result) s.
Proof.
  unfold begin_subscribe. apply keeps_get.
  eapply keeps_lift_match; [|intros; apply keeps_send| |reflexivity];
    [|apply validate_subscription_filter_returns].
  intros _ _. apply keeps_reserve; [|intros; apply keeps_send]. intros id s1 Hid _.
  eapply keeps_lift_match; [|intros; apply keeps_send| |reflexivity];
    [|eapply builds_returns, SubscribePacket_encode_builds].
  intros bytes Hb. apply cf_subscribe in Hb. keep.
Qed.

Lemma begin_unsubscribe_keeps filter result s : keeps (begin_unsubscribe filter result) s.
Proof.
  unfold begin_unsubscribe.
  eapply keeps_lift_match; [|intros; apply keeps_send| |reflexivity];
    [|apply validate_topic_filter_returns].
  intros _ _. apply keeps_reserve; [|intros; apply keeps_send]. intros id s1 Hid _.
  eapply keeps_lift_match; [|intros; apply keeps_send| |reflexivity];
    [|eapply builds_returns, UnsubscribePacket_encode_builds].
  intros bytes Hb. apply cf_unsubscribe in Hb. keep.
Qed.

Lemma disconnect_frame : client_frame [0xE0; 0].
Proof. exact (cf_disconnect _ _ DisconnectPacket_encode_normal). Qed.

Lemma begin_disconnect_keeps result s : keeps (begin_disconnect result) s.
Proof.
  unfold begin_disconnect. rewrite DisconnectPacket_encode_normal. pose proof disconnect_frame.
  apply keeps_bind; [keep|intros _ s1 _ _]. apply keeps_bind; [by apply keeps_lift|].
  intros bytes s2 [= <- <-] _. keep.
Qed.

Lemma begin_abandoned_disconnect_keeps s : keeps begin_abandoned_disconnect s.
Proof.
  unfold begin_abandoned_disconnect. rewrite DisconnectPacket_encode_normal.
  pose proof disconnect_frame. apply keeps_get. destruct (_ || _); [keep|].
  apply keeps_bind; [keep|intros _ s1 _ _]. apply keeps_bind; [by apply keeps_lift|].
  intros bytes s2 [= <- <-] _. keep.
Qed.

(** *** Requests *)

Lemma keeps_alter_request {E} f k s :
  keeps (E:=E) (modify (λ c : Conn, c <| mc_pending_requests ::= alter f k |>)) s.
Proof. apply keeps_modify, good_requests. by rewrite size_alter. Qed.

Lemma keeps_new_request {E} k p s :
  Z.of_nat (size (mc_pending_requests s)) < mc_max_pending_operations s →
  keeps (E:=E) (modify (λ c : Conn, c <| mc_pending_requests ::= <[ k := p ]> |>)) s.
Proof.
  intros Hz. apply keeps_modify. intros []. split; [|done]. split; cbn; try done.
  pose proof (size_insert_le k p (mc_pending_requests s)). lia.
Qed.

Lemma keeps_lift_bind {A B} (r : Result A) (k : A → ConnM B) s :
  returns r → (∀ a, r = Ok a → keeps (k a) s) → keeps (bind (lift r) k) s.
Proof.
  intros Hr Hk. apply keeps_bind; [by apply keeps_lift|]. intros a s' [= -> <-] _. by apply Hk.
Qed.

#[local] Hint Resolve keeps_alter_request : keeps.

Lemma publish_request_keeps k s : keeps (publish_request k) s.
Proof.
  unfold publish_request. apply keeps_get. destruct (_ !! k) as [pending|]; [|keep].
  destruct (pr_published pending); [keep|]. apply keeps_with. intros Hs.
  apply keeps_bind; [keep|]. intros packet_id s1 Hid _.
  assert (∀ id, packet_id = Some id → 1 ≤ id ≤ 65535) as Hr.
  { intros id ->. destruct (bool_decide _); [|done]. destruct (_ <=? _); [done|].
    apply bind_ok_inv in Hid as (id' & s' & Hid & [= -> ->]). by eapply reserve_fresh. }
  apply keeps_lift_bind; [eapply builds_returns, PublishPacket_encode_builds|].
  intros bytes Hb. apply cf_publish in Hb.
  apply keeps_bind; [|intros _ s2 _ _].
  - destruct packet_id as [id|]; [|keep]. specialize (Hr id eq_refl). keep.
  - apply keeps_match; [by apply enqueue_keeps|intros; apply keeps_alter_request|].
    intros e s3 _ _. apply keeps_bind; [|intros; apply keeps_fail]. destruct packet_id; keep.
Qed.

#[local] Hint Resolve publish_request_keeps : keeps.

Lemma publish_waiting_requests_keeps topic s : keeps (publish_waiting_requests topic) s.
Proof. unfold publish_waiting_requests. keep. Qed.

Lemma subscribe_for_responses_keeps topic s : keeps (subscribe_for_responses topic) s.
Proof.
  unfold subscribe_for_responses. apply keeps_with. intros Hs.
  apply keeps_bind; [apply reserve_keeps|]. intros id s1 Hid _. apply reserve_fresh in Hid as [Hid _]; [|done].
  apply keeps_lift_bind; [eapply builds_returns, SubscribePacket_encode_builds|].
  intros bytes Hb. apply cf_subscribe in Hb. keep.
  eapply (keeps_modify_comp (λ c, c <| mc_pending_acks ::= delete id |>)
            (λ c, c <| mc_response_subscriptions ::= delete topic |>)); intros; keep.
Qed.

#[local] Hint Resolve publish_waiting_requests_keeps subscribe_for_responses_keeps : keeps.

Lemma begin_request_keeps request result s : keeps (begin_request request result) s.
Proof.
  unfold begin_request. apply keeps_get. destruct (consume_cancellation _ _) as [cancelled l].
  apply keeps_bind; [keep|]. intros _ s1 [= _ <-] _. destruct cancelled; [keep|].
  destruct (rc_timeout request =? 0); [keep|].
  eapply keeps_lift_match; [|intros; keep| |reflexivity].
  2: { pose proof (validate_topic_name_returns (rc_topic request)).
       destruct (validate_topic_name _); try done. apply validate_publish_returns. }
  intros _ _. destruct (_ <=? _) eqn:Hz; [keep|]. apply Z.leb_gt in Hz.
  destruct (decide _); [keep|]. apply keeps_now. intros t w _ _.
  destruct (instant_checked_add _ _ _); [|keep].
  apply keeps_bind; [by apply keeps_new_request|]. intros _ s2 _ _. keep.
Qed.

Lemma try_complete_request_keeps packet s : keeps (try_complete_request packet) s.
Proof.
  unfold try_complete_request. destruct (get_binary _ _); [|keep]. apply keeps_get. keep.
Qed.

Lemma drain_cancellations_keeps s : keeps drain_cancellations s.
Proof. unfold drain_cancellations. keep. Qed.

#[local] Hint Resolve begin_publish_keeps begin_subscribe_keeps begin_unsubscribe_keeps
  begin_disconnect_keeps begin_abandoned_disconnect_keeps begin_request_keeps
  try_complete_request_keeps drain_cancellations_keeps : keeps.

Lemma process_command_keeps command s : keeps (process_command command) s.
Proof. unfold process_command. keep. Qed.

#[local] Hint Resolve process_command_keeps : keeps.

Lemma drain_commands_keeps s : keeps drain_commands s.
Proof.
  unfold drain_commands. apply keeps_get. generalize (Z.to_nat (mc_max_pending_operations s)).
  intros n. revert s. induction n as [|n IH]; intros s; cbn [drain_commands_loop]; [keep|].
  apply keeps_get. destruct (ch_queue (mc_commands s)) eqn:Hq; [keep|].
  apply keeps_bind; [by eapply keeps_pop_command|]. intros _ s1 _ _. keep.
Qed.
(** *** Writing *)

Lemma complete_written_keeps action s : keeps (complete_written action) s.
Proof.
  destruct action; cbn [complete_written]; keep. by apply keeps_ping_sent.
Qed.

Lemma complete_written_flushes action (s : Conn) :
  mc_flush_actions (complete_written action s).2 = mc_flush_actions s.
Proof.
  destruct action; cbn [complete_written]; try done.
  - unfold bind, modify, now. cbn. by destruct (t_now _).
  - unfold bind, modify, send, notify, match_result, try_send_event. cbn.
    by destruct (try_send _ _).
Qed.

Lemma complete_flushes_keeps actions s :
  mc_flush_actions s = actions → keeps (complete_flushes actions) s.
Proof.
  revert s. induction actions as [|flush rest IH]; intros s Hf; cbn [complete_flushes]; [keep|].
  apply keeps_bind.
  { apply keeps_modify. intros []. rewrite Hf in *. rewrite flushes_bytes_cons in *.
    apply Forall_cons_1 in ok_flushes0 as [? Hrest]. pose proof (flushes_bytes_nonneg _ Hrest).
    pose proof (frames_bytes_nonneg (mc_outbound s)).
    split; [|done]. unfold saturating_sub. split; cbn; try done; lia. }
  intros _ s1 [= _ <-] _. apply keeps_bind; [apply complete_written_keeps|].
  intros u s2 H2 _. apply IH. pose proof (complete_written_flushes (pf_action flush)) as Hw.
  specialize (Hw (s <| mc_flush_actions := rest |>
        <| mc_outbound_bytes ::= λ n, saturating_sub n (pf_bytes flush) |>)).
  rewrite H2 in Hw. exact Hw.
Qed.

Lemma flush_accepted_keeps s : keeps flush_accepted s.
Proof.
  unfold flush_accepted. apply keeps_on_stream; [apply flush_law|]. intros r w Hr _.
  destruct r; try done; [|keep]. apply keeps_bind; [keep|]. intros _ s1 _ _. apply keeps_get.
  apply keeps_bind; [by apply complete_flushes_keeps|]. intros. keep.
Qed.

(** The state after [n] bytes of the first frame are written. *)
Definition wrote (f : OutboundFrame) (rest : list OutboundFrame) (n : Z) (t : Instant) (w : W)
    (s : Conn) : Conn :=
  s <| mc_stream := w |> <| mc_outbound := advanced f rest n |> <| mc_last_write_at := t |>
    <| mc_needs_flush := true |>
    <| mc_flush_actions ::= λ q,
         if of_offset f + n =? zlen (of_bytes f)
         then q ++ [mkPendingFlush (zlen (of_bytes f)) (of_action f)] else q |>.

Lemma wrote_good f rest n t w s :
  mc_outbound s = f :: rest → 0 < n ≤ zlen (of_bytes f) - of_offset f → t ≤ clock_end →
  sent w = sent (mc_stream s) ++ ztake n (zdrop (of_offset f) (of_bytes f)) →
  conn_ok s → good s (wrote f rest n t w s).
Proof.
  intros Hq Hn Ht Hw []. rewrite Hq in *. destruct ok_wire0 as (fs & Hs & Hfs).
  destruct (advanced_ok f rest n fs) as [Hao (fs' & Hac & Hfs')]; [done..|].
  split; [|done]. unfold wrote. split; cbn; try done.
  - exists fs'. split; [|done]. by rewrite Hw, Hs, <- app_assoc.
  - rewrite advanced_bytes, ok_bytes0.
    destruct (_ =? _); rewrite ?flushes_bytes_app, ?flushes_bytes_cons, ?flushes_bytes_nil; cbn; lia.
  - destruct (_ =? _); [|done]. apply Forall_app_2; [done|].
    apply Forall_singleton. cbn. apply zlen_nonneg.
  - by destruct ok_clocks0 as (? & ? & ? & ?).
Qed.
(** One iteration of the write loop. *)
Lemma write_loop_step fuel f rest (s : Conn) :
  mc_outbound s = f :: rest → 0 ≤ of_offset f < zlen (of_bytes f) →
  write_loop (S fuel) s =
    match t_write (zdrop (of_offset f) (of_bytes f)) (mc_stream s) with
    | (Ok n, w) =>
        if n =? 0 then (Err (Io (io_of_kind WriteZero)), s <| mc_stream := w |>)
        else write_loop fuel (wrote f rest n (t_now w).1 (t_now w).2 s)
    | (Err e, w) =>
        if decide (io_kind e = Interrupted) then write_loop fuel (s <| mc_stream := w |>)
        else if decide (io_kind e = WouldBlock) then (Ok (), s <| mc_stream := w |>)
        else (Err (Io e), s <| mc_stream := w |>)
    | (Panic p, w) => (Panic p, s <| mc_stream := w |>)
    | (Diverge, w) => (Diverge, s <| mc_stream := w |>)
    end.
Proof using L.
  intros Hq Ho. cbn [write_loop]. rewrite (bind_ok get _ s s s eq_refl). rewrite Hq.
  rewrite slice_from_ok by lia. rewrite (bind_ok (lift (Ok _)) _ s _ s eq_refl).
  unfold bind at 1, on_stream.
  pose proof (write_law (zdrop (of_offset f) (of_bytes f)) (mc_stream s)) as Hw.
  destruct (t_write _ _) as [[n|e|p|] w]; try done.
  - destruct Hw as [Hn _]. rewrite zlen_zdrop in Hn by lia. destruct (n =? 0); [done|].
    rewrite (proj2 (Z.ltb_ge _ _)) by lia. unfold wrote, advanced.
    unfold bind at 1, modify at 1. unfold bind at 1, now. cbn -[write_loop].
    destruct (t_now w) as [t w']. cbn -[write_loop].
    by destruct (of_offset f + n =? zlen (of_bytes f)).
  - destruct (decide _); [done|]. by destruct (decide _).
Qed.

Lemma write_loop_keeps fuel s : keeps (write_loop fuel) s.
Proof.
  revert s. induction fuel as [|fuel IH]; intros s; [done|]. apply keeps_with. intros Hs.
  destruct (mc_outbound s) as [|f rest] eqn:Hq.
  { cbn [write_loop]. apply keeps_get. rewrite Hq. keep. }
  intros _. pose proof (ok_queue s Hs) as [_ Ho]. rewrite Hq in Ho. destruct Ho as [Ho _].
  unfold outcome. rewrite (write_loop_step fuel f rest s) by done.
  pose proof (write_law (zdrop (of_offset f) (of_bytes f)) (mc_stream s)) as Hw.
  destruct (t_write _ _) as [[n|e|p|] w]; try done.
  - destruct Hw as [Hn Hw]. rewrite zlen_zdrop in Hn by lia. destruct (n =? 0) eqn:Hz.
    + apply Z.eqb_eq in Hz. subst n. apply good_stream; [done|]. by rewrite Hw, app_nil_r.
    + apply Z.eqb_neq in Hz. pose proof (clock_law w) as Hc. pose proof (now_law w) as Hsw.
      destruct (wrote_good f rest n (t_now w).1 (t_now w).2 s) as [Hg Hcf]; try done; [lia|congruence|].
      specialize (IH _ Hg). unfold outcome in IH.
      destruct (write_loop fuel _) as [[]]; try done; by eapply good_trans.
  - pose proof (good_stream w s Hs Hw) as Hg. destruct (decide _).
    + specialize (IH _ (proj1 Hg)). unfold outcome in IH.
      destruct (write_loop fuel _) as [[]]; try done; by eapply good_trans.
    + by destruct (decide _).
Qed.

Lemma flush_outbound_keeps fuel s : keeps (flush_outbound fuel) s.
Proof.
  unfold flush_outbound. apply keeps_get. apply keeps_bind.
  { destruct (mc_needs_flush s); [|keep]. apply keeps_bind; [apply flush_accepted_keeps|intros; keep]. }
  intros blocked s1 _ _. destruct blocked; [keep|].
  apply keeps_bind; [apply write_loop_keeps|]. intros _ s2 _ _. apply keeps_get.
  destruct (mc_needs_flush s2); [|keep]. apply keeps_bind; [apply flush_accepted_keeps|intros; keep].
Qed.

(** *** Reading *)

Lemma good_reader f (s : Conn) :
  reader_live (fr_max_packet_size (mc_frame_reader s)) f → conn_ok s →
  good s (s <| mc_frame_reader := f |>).
Proof.
  intros Hf []. pose proof (rl_max _ _ Hf) as Hm. split.
  - split; cbn; try done. by rewrite Hm.
  - unfold config; cbn. by rewrite Hm.
Qed.

Lemma read_loop_keeps n s : keeps (read_loop n) s.
Proof.
  revert s. induction n as [|n IH]; intros s; cbn [read_loop]; [keep|]. apply keeps_get.
  destruct (_ =? 0) eqn:Hz; [keep|]. apply Z.eqb_neq in Hz.
  intros Hs. unfold outcome, bind at 1, on_stream. set (cap := Z.min _ 8192) in *.
  assert (0 ≤ cap ∧ cap ≤ remaining_capacity (mc_frame_reader s)) as [Hc Hle].
  { subst cap. unfold remaining_capacity, saturating_sub. lia. }
  pose proof (read_law cap (mc_stream s) Hc) as Hr.
  destruct (t_read cap (mc_stream s)) as [[l|e|p|] w]; try done.
  - destruct Hr as (Hl & Hlb & Hw). pose proof (good_stream w s Hs Hw) as Hg.
    destruct (push_live _ _ l (ok_reader s Hs) Hlb) as [Hp Hf]; [lia|].
    assert (keeps (bind (on_reader (FrameReader_push l)) (λ _, read_loop n)) (s <| mc_stream := w |>)) as Hk.
    { apply keeps_bind; [|intros; apply IH]. intros Hs'. unfold outcome, on_reader.
      change (mc_frame_reader (s <| mc_stream := w |>)) with (mc_frame_reader s).
      rewrite Hp. by apply (good_reader (fr_extend l (mc_frame_reader s)) (s <| mc_stream := w |>)). }
    specialize (Hk (proj1 Hg)). unfold outcome in Hk. destruct l as [|b l].
    + clear Hk. assert (keeps (let! _ := notify (Event_Disconnected TransportClosed) in
        let! _ := modify (λ c, c <| mc_terminal_event_sent := true |>) in
        fail (A:=()) ConnectionClosed) (s <| mc_stream := w |>)) as Hk by keep.
      specialize (Hk (proj1 Hg)). unfold outcome in Hk.
      destruct (bind _ _ _) as [[]]; try done; by eapply good_trans.
    + destruct (bind _ _ _) as [[]]; try done; by eapply good_trans.
  - pose proof (good_stream w s Hs Hr) as Hg. destruct (decide _).
    + specialize (IH _ (proj1 Hg)). unfold outcome in IH.
      destruct (read_loop n _) as [[]]; try done; by eapply good_trans.
    + by destruct (decide _).
Qed.

Lemma read_available_keeps s : keeps read_available s.
Proof. apply read_loop_keeps. Qed.
(** ** The end of a connection

    [fail_pending] empties the queue, whatever was written of its first frame: the
    stream then ends inside a packet, and no driver writes to it again. *)

Record conn_end (s : Conn) : Prop := mk_conn_end {
  end_wire : ∃ fs tail more, sent (mc_stream s) = concat fs ++ tail ∧ Forall client_frame fs
             ∧ (tail = [] ∨ client_frame (tail ++ more));
  end_limit : mc_outbound_bytes s ≤ Z.max 0 (mc_max_outbound_queue_bytes s);
  end_acks : Z.of_nat (size (mc_pending_acks s)) ≤ Z.max 0 (mc_max_pending_operations s);
  end_requests : Z.of_nat (size (mc_pending_requests s)) ≤ Z.max 0 (mc_max_pending_operations s);
  end_events : bounded (mc_events s);
  end_commands : bounded (mc_commands s);
}.

Definition ended (s s' : Conn) : Prop := conn_end s' ∧ config s' = config s.

Lemma conn_ok_end s : conn_ok s → conn_end s.
Proof.
  intros []. split; try done; try lia. destruct ok_wire0 as (fs & Hs & Hfs).
  destruct (mc_outbound s) as [|f rest]; cbn in Hs.
  - exists fs, [], []. auto.
  - exists fs, (ztake (of_offset f) (of_bytes f)), (zdrop (of_offset f) (of_bytes f)).
    rewrite ztake_zdrop. destruct ok_queue0 as [[Hf _]%Forall_cons_1 _]. auto.
Qed.

Lemma good_ended s s' : good s s' → ended s s'.
Proof. intros [??]. split; [by apply conn_ok_end|done]. Qed.

Lemma good_ended_trans s s1 s2 : good s s1 → ended s1 s2 → ended s s2.
Proof. intros [? ?] [? ?]. split; [done|congruence]. Qed.

(** A call that keeps the invariant, or fails and ends the connection. *)
Definition allows {A} (m : ConnM A) (s : Conn) : Prop :=
  conn_ok s → outcome m (λ _, good s) (λ _, ended s) s.

Lemma keeps_allows {A} (m : ConnM A) s : keeps m s → allows m s.
Proof.
  intros Hm Hs. eapply outcome_weaken; [by apply Hm|done|]. intros. by apply good_ended.
Qed.

Lemma allows_bind {A B} (m : ConnM A) (k : A → ConnM B) s :
  allows m s → (∀ a s', m s = (Ok a, s') → good s s' → allows (k a) s') → allows (bind m k) s.
Proof.
  intros Hm Hk Hs. specialize (Hm Hs). unfold outcome, bind in *.
  destruct (m s) as [[a|e|w|] s'] eqn:Hr; try done.
  specialize (Hk a s' eq_refl Hm (proj1 Hm)). unfold outcome in Hk.
  destruct (k a s') as [[b|e|w|] s'']; try done;
    [by eapply good_trans|by eapply good_ended_trans].
Qed.

Lemma allows_get {A} (k : Conn → ConnM A) s : allows (k s) s → allows (bind get k) s.
Proof. done. Qed.

(** *** What [fail_pending] sends *)

Definition fail_acks (l : list (Z * PendingAck)) (o : Oneshots) : Oneshots :=
  fold_left (λ o p, PendingAckKind_fail (pk_kind p.2) ConnectionClosed o) l o.
Definition fail_frames (l : list OutboundFrame) (o : Oneshots) : Oneshots :=
  fold_left (λ o f, WrittenAction_fail (of_action f) ConnectionClosed o) l o.
Definition fail_flushes (l : list PendingFlush) (o : Oneshots) : Oneshots :=
  fold_left (λ o f, WrittenAction_fail (pf_action f) ConnectionClosed o) l o.
Definition fail_waiting (l : list (list Z * PendingRequest)) (o : Oneshots) : Oneshots :=
  fold_left (λ o p, oneshot_send (pr_result p.2) (Reply_Request (Err ConnectionClosed)) o) l o.

Lemma for_each_fails {A} (g : A → Oneshots → Oneshots) (body : A → ConnM unit) l s :
  (∀ x s, body x s = (Ok (), s <| mc_oneshots ::= g x |>)) →
  for_each l body s = (Ok (), s <| mc_oneshots := fold_left (λ o x, g x o) l (mc_oneshots s) |>).
Proof.
  intros Hb. revert s. induction l as [|x l IH]; intros s; cbn [for_each]; [by destruct s|].
  rewrite (bind_ok _ _ _ _ _ (Hb x s)), IH. done.
Qed.

Lemma for_each_waiting l (s : Conn) :
  ∃ lf, for_each l (λ '(correlation_data, pending),
      let! _ := finish_request_lifecycle correlation_data in
      send (pr_result pending) (Reply_Request (Err ConnectionClosed))) s
    = (Ok (), s <| mc_request_lifecycle := lf |>
                <| mc_oneshots := fail_waiting l (mc_oneshots s) |>).
Proof.
  revert s. induction l as [|[k p] l IH]; intros s; cbn [for_each].
  { exists (mc_request_lifecycle s). by destruct s. }
  erewrite bind_ok by reflexivity. destruct (IH (s <| mc_request_lifecycle ::= finish k |>
    <| mc_oneshots ::= oneshot_send (pr_result p) (Reply_Request (Err ConnectionClosed)) |>)) as [lf Hlf].
  exists lf. exact Hlf.
Qed.

Lemma fail_pending_spec (s : Conn) :
  ∃ lf, fail_pending s = (Ok (), s <| mc_pending_acks := ∅ |> <| mc_outbound := [] |>
    <| mc_flush_actions := [] |> <| mc_outbound_bytes := 0 |> <| mc_pending_requests := ∅ |>
    <| mc_request_lifecycle := lf |>
    <| mc_oneshots := fail_waiting (hash_iter (mc_pending_requests s) s)
         (fail_flushes (mc_flush_actions s) (fail_frames (mc_outbound s)
            (fail_acks (hash_iter (mc_pending_acks s) s) (mc_oneshots s)))) |>).
Proof.
  unfold fail_pending. rewrite (bind_ok get _ s s s eq_refl). erewrite bind_ok by reflexivity.
  erewrite bind_ok by (apply (for_each_fails (λ p, PendingAckKind_fail (pk_kind p.2) ConnectionClosed));
    by intros [? ?] ?).
  erewrite bind_ok by reflexivity.
  erewrite bind_ok by (by apply (for_each_fails (λ f, WrittenAction_fail (of_action f) ConnectionClosed))).
  erewrite bind_ok by reflexivity.
  erewrite bind_ok by (by apply (for_each_fails (λ f, WrittenAction_fail (pf_action f) ConnectionClosed))).
  erewrite bind_ok by reflexivity.
  edestruct for_each_waiting as [lf Hlf]. exists lf. rewrite Hlf. done.
Qed.
Lemma fail_pending_end (s : Conn) :
  conn_end s → ∃ s', fail_pending s = (Ok (), s') ∧ ended s s' ∧ mc_stream s' = mc_stream s.
Proof.
  intros []. destruct (fail_pending_spec s) as [lf ->]. eexists. split; [done|].
  split; [|done]. split; [|done]. split; cbn; try done; rewrite ?map_size_empty; lia.
Qed.

(** *** Dispatch *)

Lemma take_pending_ack_keeps id received s : keeps (take_pending_ack id received) s.
Proof. unfold take_pending_ack. keep. Qed.

#[local] Hint Resolve take_pending_ack_keeps process_command_keeps drain_commands_keeps : keeps.

Lemma complete_subscribe_keeps ack qos result s : keeps (complete_subscribe ack qos result) s.
Proof.
  unfold complete_subscribe. pose proof (validate_suback_codes_returns (sa_reason_codes ack) [qos]).
  destruct (validate_suback_codes _ _) as [[]|[]| |]; try done; keep.
Qed.

Lemma dispatch_publish_keeps packet s : publish_sound packet → keeps (dispatch_publish packet) s.
Proof.
  intros (_ & Hid & _). unfold dispatch_publish. apply keeps_bind; [|intros; keep].
  destruct (bool_decide _) eqn:Hq; [|keep]. apply bool_decide_eq_true in Hq. rewrite Hq in Hid.
  destruct (pub_packet_id packet) as [id|]; [|done]. destruct Hid as [Hid _].
  apply keeps_lift_bind; [done|]. intros ? [= <-].
  destruct (PubAckPacket_encode_success id Hid) as (w & Hw & _).
  apply keeps_lift_bind; [by rewrite Hw|]. intros bytes Hb. apply cf_puback in Hb. keep.
Qed.

Lemma dispatch_puback_keeps ack s : keeps (dispatch_puback ack) s.
Proof. unfold dispatch_puback. keep. Qed.

Lemma dispatch_suback_keeps ack s : keeps (dispatch_suback ack) s.
Proof.
  unfold dispatch_suback. apply keeps_bind; [keep|]. intros pending s1 _ _.
  destruct pending as [pending|]; [|keep]. destruct (pk_kind pending); try keep.
  - apply complete_subscribe_keeps.
  - pose proof (validate_suback_codes_returns (sa_reason_codes ack) [AtLeastOnce]).
    destruct (validate_suback_codes _ _) as [[]|[]| |]; try done; keep.
Qed.

Lemma dispatch_unsuback_keeps ack s : keeps (dispatch_unsuback ack) s.
Proof. unfold dispatch_unsuback. keep. Qed.

(** What the last handler of a connection leaves. *)
Lemma disconnect_ends packet s : conn_ok s →
  outcome (dispatch_packet (PktDisconnect packet)) (λ _ _, False)
    (λ e s', e = ServerDisconnected (dis_reason_code packet) ∧ ended s s'
             ∧ mc_terminal_event_sent s' = true) s.
Proof.
  intros Hs. cbn [dispatch_packet]. destruct (fail_pending_spec s) as [lf Hf].
  destruct (fail_pending_end s (conn_ok_end s Hs)) as (s1 & Hf1 & [Hend Hc] & _).
  unfold outcome. rewrite (bind_ok _ _ _ _ _ Hf1). unfold notify, match_result, try_send_event.
  unfold bind at 1, try_send. destruct (negb _).
  { cbn. split; [done|]. split; [|done]. destruct Hend. by split. }
  destruct (_ <=? _) eqn:Hl; cbn.
  { split; [done|]. split; [|done]. destruct Hend. by split. }
  apply Z.leb_gt in Hl. split; [done|]. split; [|done]. destruct Hend. split; [|done].
  split; cbn; try done. unfold bounded; cbn. rewrite zlen_app, zlen_cons, zlen_nil. lia.
Qed.

Lemma dispatch_packet_allows packet s : packet_sound packet → allows (dispatch_packet packet) s.
Proof.
  intros Hp. destruct packet; cbn [dispatch_packet]; try solve [apply keeps_allows; keep].
  - apply keeps_allows. by apply dispatch_publish_keeps.
  - apply keeps_allows, dispatch_puback_keeps.
  - apply keeps_allows, dispatch_suback_keeps.
  - apply keeps_allows, dispatch_unsuback_keeps.
  - intros Hs. eapply outcome_weaken; [by apply disconnect_ends|done|]. by intros e s' (_ & ? & _).
Qed.

Lemma try_decode_keeps s : keeps (on_reader try_decode) s.
Proof.
  intros Hs. pose proof (try_decode_live _ _ (ok_reader s Hs)) as Hd. unfold outcome, on_reader in *.
  destruct (try_decode (mc_frame_reader s)) as [[o|e|w|] f]; try done.
  - destruct Hd as [Hf _]. by apply good_reader.
  - by apply good_reader.
Qed.

Lemma try_decode_sound (s : Conn) packet s' :
  conn_ok s → on_reader try_decode s = (Ok (Some packet), s') → packet_sound packet.
Proof.
  intros Hs Hd. pose proof (try_decode_live _ _ (ok_reader s Hs)) as Hl.
  unfold outcome, on_reader in *. destruct (try_decode _) as [[o| | |] f]; try done.
  injection Hd as -> _. by destruct Hl.
Qed.

Lemma allows_with {A} (m : ConnM A) s : (conn_ok s → allows m s) → allows m s.
Proof. intros Hm Hs. by apply Hm. Qed.

Lemma dispatch_loop_allows fuel s : allows (dispatch_loop fuel) s.
Proof.
  revert s. induction fuel as [|fuel IH]; intros s; cbn [dispatch_loop]; [done|].
  apply allows_with. intros Hs. apply allows_bind; [apply keeps_allows, try_decode_keeps|].
  intros packet s1 Hd _. destruct packet as [packet|]; [|apply keeps_allows; keep].
  apply try_decode_sound in Hd; [|done].
  apply allows_bind; [by apply dispatch_packet_allows|]. intros _ s2 _ _. apply IH.
Qed.

Lemma decode_and_dispatch_allows s : allows decode_and_dispatch s.
Proof. apply dispatch_loop_allows. Qed.

(** *** Timers *)

Lemma keeps_bury id x s :
  mc_pending_acks s !! id = Some x →
  keeps (E:=Error) (modify (λ c : Conn, c <| mc_pending_acks ::=
    <[ id := x <| pk_kind := tombstone_of (pk_kind x) |> ]> |>)) s.
Proof. apply keeps_update_ack. Qed.

Lemma expire_ack_keeps id s : keeps (expire_ack id) s.
Proof.
  unfold expire_ack. apply keeps_get. destruct (_ !! id) as [pending|] eqn:Hp; [|keep].
  apply keeps_bind; [by eapply keeps_bury|]. intros _ s1 _ _. keep.
Qed.

Lemma expire_request_keeps k s : keeps (expire_request k) s.
Proof.
  unfold expire_request. apply keeps_get.
  destruct (mc_pending_requests s !! k); [destruct (is_closed _ _)|]; keep.
Qed.

#[local] Hint Resolve expire_ack_keeps expire_request_keeps : keeps.

Lemma expire_operations_keeps s : keeps expire_operations s.
Proof. unfold expire_operations. keep. Qed.

Lemma maintain_keep_alive_keeps s : keeps maintain_keep_alive s.
Proof.
  unfold maintain_keep_alive. pose proof cf_pingreq. apply keeps_get.
  destruct (keep_alive_interval _); [|keep]. apply keeps_now. intros t w _ _.
  destruct (mc_ping_outstanding_since s); [apply keeps_fail_if|keep].
Qed.

Lemma next_wait_duration_keeps s : keeps next_wait_duration s.
Proof.
  unfold next_wait_duration. apply keeps_now. intros t w _ _. apply keeps_get.
  apply keeps_with. intros Hs. destruct (ok_clocks _ Hs) as (_ & Hk & Hl & Hp).
  pose proof clock_room as Hroom. unfold from_secs in *. cbn in Hk, Hl, Hp. cbn -[fold_left].
  unfold keep_alive_interval, from_secs. destruct (negb _); [|keep].
  destruct (mc_ping_outstanding_since s) as [t0|]; [specialize (Hp t0 eq_refl)|].
  - apply keeps_bind; [apply keeps_instant_add; lia|intros; keep].
  - destruct (negb _); [|keep].
    apply keeps_bind; [apply keeps_instant_add|intros; keep].
    pose proof (Z.div_le_upper_bound (mc_keep_alive_secs s) 2 32768). lia.
Qed.
End driver_facts.
