(* ===== verification/AsyncScript.v ===== *)
(** * A scripted peer for the async client

    A concrete world for the examples: what each read delivers, how much each write
    takes, and a clock that advances while the socket is idle and stops at a horizon.
    Hash tables are walked in the order of their keys. *)

From S2P Require Import Prelude Errors Types Properties Packets Connect Options Transport.
From S2P Require Import AsyncTypes AsyncDriver AsyncClient AsyncConnect AsyncFacts.

Local Open Scope Z_scope.

Inductive net_event : Type :=
  | Incoming (bytes : list Z)
  | Idle (d : Duration)      (* nothing to read; [d] passes *)
  | Hangup.                  (* end of stream *)

Record Net := mkNet {
  net_sent : list Z;
  net_events : list net_event;
  net_window : list Z;       (* what the next writes take at most; then everything *)
  net_clock : Instant;
}.

(** The horizon of the clock. *)
Definition net_horizon : Instant := 1000000000000000000.

Definition net_write (buf : list Z) : IoM Net Z := λ w,
  match net_window w with
  | [] => (Ok (zlen buf), mkNet (net_sent w ++ buf) (net_events w) [] (net_clock w))
  | n :: rest =>
      if n <=? 0 then (Err (io_of_kind WouldBlock), mkNet (net_sent w) (net_events w) rest (net_clock w))
      else (Ok (Z.min n (zlen buf)),
            mkNet (net_sent w ++ ztake (Z.min n (zlen buf)) buf) (net_events w) rest (net_clock w))
  end.

Fixpoint net_write_all (fuel : nat) (buf : list Z) : IoM Net unit :=
  match fuel with
  | O => fail (io_of_kind WriteZero)
  | S fuel' =>
      match_result (net_write buf) fail
        (λ n, if zlen buf <=? n then ret () else net_write_all fuel' (zdrop n buf))
  end.

Definition net_read (n : Z) : IoM Net (list Z) := λ w,
  match net_events w with
  | [] => (Err (io_of_kind WouldBlock), w)
  | Incoming bytes :: rest =>
      (Ok (map as_u8 (ztake n bytes)),
       mkNet (net_sent w)
         (if decide (zdrop n bytes = []) then rest else Incoming (zdrop n bytes) :: rest)
         (net_window w) (net_clock w))
  | Idle d :: rest =>
      (Err (io_of_kind WouldBlock), mkNet (net_sent w) rest (net_window w) (net_clock w + d))
  | Hangup :: rest => (Ok [], mkNet (net_sent w) rest (net_window w) (net_clock w))
  end.

#[export] Instance net_transport : Transport Net := {
  t_write := net_write;
  t_write_all buf := net_write_all (S (length buf)) buf;
  t_flush := ret ();
  t_read := net_read;
  t_set_nonblocking _ := ret ();
  t_set_read_timeout _ := ret ();
  t_set_write_timeout _ := ret ();
  t_shutdown := ret ();
  t_now w := (Z.min (net_clock w) net_horizon, w);
  t_instant_max := 2 * net_horizon;
}.

Lemma net_write_law buf w :
  match net_write buf w with
  | (Ok n, w') => 0 ≤ n ≤ zlen buf ∧ net_sent w' = net_sent w ++ ztake n buf
  | (Err _, w') => net_sent w' = net_sent w
  | _ => False
  end.
Proof.
  unfold net_write. pose proof (zlen_nonneg buf). destruct (net_window w) as [|n rest]; cbn.
  - by rewrite ztake_all.
  - destruct (n <=? 0) eqn:Hn; [done|]. apply Z.leb_gt in Hn. cbn. split; [lia|done].
Qed.

Lemma net_write_all_law fuel buf w :
  match net_write_all fuel buf w with
  | (Ok _, w') => net_sent w' = net_sent w ++ buf
  | (Err _, w') => ∃ part rest, buf = part ++ rest ∧ net_sent w' = net_sent w ++ part
  | _ => False
  end.
Proof.
  revert buf w. induction fuel as [|fuel IH]; intros buf w; cbn [net_write_all].
  { exists [], buf. by rewrite app_nil_r. }
  unfold match_result. pose proof (net_write_law buf w) as Hw.
  destruct (net_write buf w) as [[n|e| |] w1]; try done.
  - destruct Hw as [Hn Hs]. destruct (zlen buf <=? n) eqn:Hl.
    + apply Z.leb_le in Hl. cbn. assert (n = zlen buf) as -> by lia. by rewrite Hs, ztake_all.
    + specialize (IH (zdrop n buf) w1). rewrite Hs in IH.
      destruct (net_write_all fuel _ _) as [[]]; try done.
      * by rewrite IH, <- app_assoc, ztake_zdrop.
      * destruct IH as (part & rest & Hb & ->). exists (ztake n buf ++ part), rest.
        by rewrite <- !app_assoc, <- Hb, ztake_zdrop.
  - exists [], buf. by rewrite app_nil_r.
Qed.

#[export] Program Instance net_laws : TransportLaws Net := {| sent := net_sent |}.
Next Obligation. exact net_write_law. Qed.
Next Obligation. intros. apply net_write_all_law. Qed.
Next Obligation.
  intros n w Hn. cbn. unfold net_read. destruct (net_events w) as [|[bytes|d|] rest]; cbn; try done.
  - split; [|split; [apply bytes_ok_as_u8|done]]. unfold zlen. rewrite length_map.
    by apply zlen_ztake_le.
  - split; [by rewrite zlen_nil|]. split; [constructor|done].
Qed.
Solve Obligations with done.

#[export] Program Instance net_clock_laws : ClockLaws Net := {| clock_end := net_horizon |}.
Next Obligation. intros w. cbn. lia. Qed.
Next Obligation. cbn. unfold from_secs, net_horizon. lia. Qed.

#[export] Program Instance net_order : HashOrder Net := {| reorder _ _ l := l |}.
Solve Obligations with done.

(** A log of what was read changes neither the clock nor the order of the tables. *)
#[export] Program Instance logged_clock_laws {W} {T : Transport W} {C : ClockLaws W}
  : ClockLaws (Logged W) := {| clock_end := clock_end (W:=W) |}.
Next Obligation. intros W T C w. cbn. pose proof (clock_law (lg_world w)). by destruct (t_now _). Qed.
Next Obligation. intros W T C. exact clock_room. Qed.

#[export] Program Instance logged_order {W} {H : HashOrder W} : HashOrder (Logged W) :=
  {| reorder w A l := reorder (lg_world w) A l |}.
Next Obligation. intros W H w A l. apply reorder_perm. Qed.

(** A connection whose broker granted everything, over [events]. *)
Definition example_options : ConnectOptions :=
  with_max_outbound_queue_bytes 1000 (ConnectOptions_new (lit "c")).
Definition example_connack : ConnAckPacket := mkConnAckPacket false 0 properties_new.
Definition example_net (events : list net_event) : Net := mkNet [] events [] 0.
Definition example_conn (events : list net_event) : MqttConnection Net :=
  new_connection (example_net events) 0 example_options example_connack capabilities_default
    (channel (opt_command_capacity example_options)) (channel (opt_event_capacity example_options)).
Definition example_client : AsyncMqttClient := mkAsyncMqttClient 268435460.

(** A session: a QoS 1 publish and a subscription, both acknowledged, then a disconnect. *)
Definition example_publish : PublishOptions := po_with_qos AtLeastOnce PublishOptions_default.
Definition example_events : list net_event :=
  [Idle 1; Incoming [0x40; 2; 0; 1]; Incoming [0x90; 4; 0; 2; 0; 0]; Idle 1].
Definition example_tasks : list (list handle_action) :=
  [[HPublish (lit "t") [1; 2] example_publish; HSubscribe (lit "a/b") AtMostOnce];
   [HDisconnect]].
Definition example_run : result Error unit * MqttConnection Net :=
  run example_client 1000 example_tasks (example_conn example_events).
