(* ===== verification/AsyncStart.v ===== *)
(** * The connection a handshake gives

    What the handshake of the async client does to the stream, and the state of the
    driver it creates: the invariant of [AsyncFacts] holds, exactly the CONNECT packet
    has been sent, and exactly the frame of the CONNACK that set the limits has been read. *)

From S2P Require Import Prelude Errors Utf8 Str Types Decode Encode Topic Properties.
From S2P Require Import PropertiesFacts Packets Connect Publish Subscribe Ping PacketCodec.
From S2P Require Import CodecFacts Writers Frame Options Transport Client ClientProps AsyncTypes.
From S2P Require Import AsyncDriver AsyncClient AsyncConnect AsyncFacts AsyncScript.

Local Open Scope Z_scope.

Section start.
Context {W : Type} {T : Transport W} {L : TransportLaws W} {H : HashOrder W} {C : ClockLaws W}.
Context {V : ReceiveLaws W}.

Abbreviation WorldM A := (M W A).
Abbreviation Conn := (MqttConnection W).

(** *** Calls that send nothing *)

(** Whatever [m] returns, nothing was sent; a value it returns satisfies [Q]. *)
Definition still {E A} (m : st W E A) (Q : A → Prop) : Prop :=
  ∀ w, outcome m (λ a w', sent w' = sent w ∧ Q a) (λ _ w', sent w' = sent w) w.

Lemma still_weaken {E A} (m : st W E A) (Q Q' : A → Prop) :
  still m Q → (∀ a, Q a → Q' a) → still m Q'.
Proof. intros Hm Hq w. eapply outcome_weaken; [apply Hm| |done]. naive_solver. Qed.

Lemma still_ret {E A} (a : A) (Q : A → Prop) : Q a → still (E:=E) (ret a) Q.
Proof. by intros ? w. Qed.

Lemma still_fail {E A} (e : E) (Q : A → Prop) : still (fail e) Q.
Proof. by intros w. Qed.

Lemma still_diverge {E A} (Q : A → Prop) : still (E:=E) diverge Q.
Proof. by intros w. Qed.

Lemma still_lift {E A} (r : result E A) (Q : A → Prop) :
  returns r → (∀ a, r = Ok a → Q a) → still (lift r) Q.
Proof. intros Hr Hq w. apply outcome_lift; auto. Qed.

Lemma still_fail_if {E} b (e : E) : still (fail_if b e) (λ _, b = false).
Proof. destruct b; [apply still_fail|by apply still_ret]. Qed.

Lemma still_bind {E A B} (m : st W E A) (k : A → st W E B) Q R :
  still m Q → (∀ a, Q a → still (k a) R) → still (bind m k) R.
Proof.
  intros Hm Hk w. eapply outcome_bind.
  { eapply outcome_weaken; [apply Hm| |]; cbv beta; [intros a w'; exact id|done]. }
  intros a w' [Hs Ha]. eapply outcome_weaken; [by apply Hk| |]; cbv beta; [|congruence].
  intros b w'' [? ?]. split; [congruence|done].
Qed.

Lemma still_match {E F A B} (m : st W F A) (h : F → st W E B) (k : A → st W E B) Q R :
  still m Q → (∀ a, Q a → still (k a) R) → (∀ e, still (h e) R) → still (match_result m h k) R.
Proof.
  intros Hm Hk Hh w. eapply outcome_match; [apply Hm|..]; cbv beta.
  - intros a w' [Hs Ha]. eapply outcome_weaken; [by apply Hk| |]; cbv beta; [|congruence].
    intros b w'' [? ?]. split; [congruence|done].
  - intros e w' Hs. eapply outcome_weaken; [by apply Hh| |]; cbv beta; [|congruence].
    intros b w'' [? ?]. split; [congruence|done].
Qed.

Lemma still_quiet {A} (m : IoM W A) : quiet sent m → still m (λ _, True).
Proof. intros Hq w. destruct (Hq w) as [Hr Hs]. unfold outcome. by destruct (m w) as [[] ?]. Qed.

Lemma still_try_io {A} (m : IoM W A) : quiet sent m → still (try_io m) (λ _, True).
Proof.
  intros Hq. eapply still_match; [by apply still_quiet|..]; intros; [by apply still_ret|apply still_fail].
Qed.

Lemma still_now {E} : still (E:=E) world_now (λ t, t ≤ clock_end).
Proof.
  intros w. unfold outcome, world_now. pose proof (now_law w). pose proof (clock_law w).
  by destruct (t_now w).
Qed.

Lemma connect_remaining_still deadline : still (connect_remaining deadline) (λ _, True).
Proof.
  eapply still_bind; [apply still_now|]. intros t _.
  destruct (_ <? _); [by apply still_ret|apply still_fail].
Qed.

Lemma connect_deadline_still timeout : still (connect_deadline timeout) (λ _, True).
Proof.
  eapply still_bind; [apply still_now|]. intros t _. apply still_lift; [|done].
  by destruct (instant_checked_add _ _ _).
Qed.

Lemma set_connect_timeouts_still deadline : still (set_connect_timeouts deadline) (λ _, True).
Proof.
  eapply still_bind; [apply connect_remaining_still|]. intros d _.
  eapply still_bind; [apply still_try_io, set_read_timeout_law|]. intros _ _.
  eapply still_bind; [apply connect_remaining_still|]. intros d' _.
  apply still_try_io, set_write_timeout_law.
Qed.

Lemma map_connect_io_returns {A} (r : io_Result A) : returns r → returns (map_connect_io r).
Proof. destruct r; try done. cbn. by destruct (decide _). Qed.

Lemma still_read n : 0 ≤ n → still (t_read n) (λ l, zlen l ≤ n ∧ bytes_ok l).
Proof.
  intros Hn w. pose proof (read_law n w Hn) as Hr. unfold outcome.
  destruct (t_read n w) as [[l|e| |] w']; try done. naive_solver.
Qed.

Lemma read_exact_until_still fuel n deadline :
  0 ≤ n → still (read_exact_until fuel n deadline) (λ l, bytes_ok l ∧ zlen l = n).
Proof.
  revert n. induction fuel as [|fuel IH]; intros n Hn; cbn [read_exact_until];
    (destruct (n =? 0) eqn:Hz;
     [apply Z.eqb_eq in Hz as ->; apply still_ret; split; [constructor|done]|]).
  { apply still_diverge. }
  eapply still_bind; [apply connect_remaining_still|]. intros d _.
  eapply still_bind; [apply still_try_io, set_read_timeout_law|]. intros _ _.
  eapply still_match; [by apply still_read|..].
  - intros l [Hl Hb]. destruct l as [|b l]; [apply still_fail|].
    destruct (_ <=? n); [|apply still_fail].
    eapply still_bind; [apply connect_remaining_still|]. intros _ _.
    eapply still_bind; [apply IH; lia|]. intros more [Hm Hlen]. apply still_ret.
    split; [by apply Forall_app_2|]. rewrite zlen_app. lia.
  - intros e. destruct (decide _); [by apply IH|]. apply still_lift; [by apply map_connect_io_returns|].
    cbn. by destruct (decide _).
Qed.

Lemma read_header_loop_still n fuel multiplier header deadline :
  bytes_ok header → still (read_header_loop n fuel multiplier header deadline) bytes_ok.
Proof.
  revert multiplier header. induction n as [|n IH]; intros multiplier header Hh;
    cbn [read_header_loop]; [apply still_diverge|].
  eapply still_bind; [by apply read_exact_until_still|]. intros byte [Hb _].
  assert (bytes_ok (header ++ byte)) by by apply Forall_app_2.
  destruct (_ =? 0); [by apply still_ret|]. destruct (_ =? _); [apply still_fail|]. by apply IH.
Qed.

(** The blocking reader returns a packet the codec vouches for. *)
Lemma read_packet_blocking_still fuel max deadline :
  still (read_packet_blocking fuel max deadline) packet_sound.
Proof.
  eapply still_bind; [by apply read_exact_until_still|]. intros first [Hf _].
  eapply still_bind; [by apply read_header_loop_still|]. intros header Hh.
  eapply still_bind; [apply (still_lift _ (λ '(h, _), 0 ≤ fh_remaining_length h));
                      [by apply decode_fixed_header_returns|]|].
  { intros [h n] Hd. destruct (decode_fixed_header_ext header [] Hh) as [Hx|[_ Hn]].
    - by rewrite Hx in Hd.
    - apply (Hn h n Hd). }
  intros [h n] Hlen. eapply still_bind.
  { eapply (still_lift _ (λ _, True)); [by destruct (checked_add _ _)|done]. }
  intros total _. eapply still_bind; [apply still_fail_if|]. intros _ _.
  eapply still_bind; [by apply read_exact_until_still|]. intros body [Hb _].
  apply still_lift; [by apply Packet_decode_total|]. intros p. by apply Packet_decode_sound.
Qed.

(** *** What the handshake reads *)

Lemma deaf_bind {E A B} (m : st W E A) (k : A → st W E B) :
  deaf received m → (∀ a, deaf received (k a)) → deaf received (bind m k).
Proof.
  intros Hm Hk w. unfold bind. specialize (Hm w). destruct (m w) as [[a|e|why|] w1]; try exact Hm.
  rewrite <- Hm. apply Hk.
Qed.

Lemma deaf_same {E A} (r : result E A) : deaf received (λ w : W, (r, w)).
Proof. done. Qed.

Lemma deaf_now {E} : deaf received (world_now (E:=E)).
Proof. intros w. unfold world_now. pose proof (now_deaf w). by destruct (t_now w). Qed.

Lemma deaf_match {E F A B} (m : st W F A) (h : F → st W E B) (k : A → st W E B) :
  deaf received m → (∀ a, deaf received (k a)) → (∀ e, deaf received (h e)) →
  deaf received (match_result m h k).
Proof.
  intros Hm Hk Hh w. unfold match_result. specialize (Hm w).
  destruct (m w) as [[a|e|why|] w1]; cbn in Hm; rewrite <- ?Hm; [apply Hk|apply Hh|done..].
Qed.

Lemma deaf_try_io {A} (m : IoM W A) : deaf received m → deaf received (try_io m).
Proof. intros Hm. apply deaf_match; [done|by intros ? ?..]. Qed.

Lemma deaf_attempt {E F A} (m : st W E A) : deaf received m → deaf received (attempt (F:=F) m).
Proof. intros Hm w. unfold attempt. specialize (Hm w). by destruct (m w) as [[] ?]. Qed.

Lemma connect_remaining_deaf deadline : deaf received (connect_remaining deadline).
Proof. apply deaf_bind; [apply deaf_now|]. intros t. destruct (_ <? _); apply deaf_same. Qed.

Lemma connect_deadline_deaf timeout : deaf received (connect_deadline timeout).
Proof. apply deaf_bind; [apply deaf_now|]. intros t. apply deaf_same. Qed.

Lemma validate_options_deaf options : deaf received (validate_options options).
Proof. apply deaf_bind; [apply deaf_now|]. intros t. apply deaf_same. Qed.

Lemma set_connect_timeouts_deaf deadline : deaf received (set_connect_timeouts deadline).
Proof.
  apply deaf_bind; [apply connect_remaining_deaf|]. intros d.
  apply deaf_bind; [apply deaf_try_io, set_read_timeout_deaf|]. intros [].
  apply deaf_bind; [apply connect_remaining_deaf|]. intros d'. apply deaf_try_io, set_write_timeout_deaf.
Qed.

Lemma write_all_until_deaf fuel bytes deadline : deaf received (write_all_until fuel bytes deadline).
Proof.
  revert bytes. induction fuel as [|fuel IH]; intros [|b bytes]; cbn [write_all_until]; try apply deaf_same.
  apply deaf_bind; [apply connect_remaining_deaf|]. intros d.
  apply deaf_bind; [apply deaf_try_io, set_write_timeout_deaf|]. intros [].
  apply deaf_match; [apply write_deaf|..].
  - intros n. destruct (_ =? _); [apply deaf_same|]. destruct (_ <=? _); [|apply deaf_same].
    apply deaf_bind; [apply connect_remaining_deaf|]. intros _. apply IH.
  - intros e. destruct (decide _); [apply IH|apply deaf_same].
Qed.

Lemma deaf_run {E A} (m : st W E A) w r w' : deaf received m → m w = (r, w') → received w' = received w.
Proof. intros Hm Hr. specialize (Hm w). by rewrite Hr in Hm. Qed.

Lemma still_run {E A} (m : st W E A) Q w a w' : still m Q → m w = (Ok a, w') → Q a.
Proof. intros Hm Hr. specialize (Hm w). unfold outcome in Hm. rewrite Hr in Hm. apply Hm. Qed.

Lemma read_exact_until_draws fuel n deadline w l w' :
  read_exact_until fuel n deadline w = (Ok l, w') → received w' = received w ++ l.
Proof.
  revert n w l w'. induction fuel as [|fuel IH]; intros n w l w' Hr; cbn [read_exact_until] in Hr;
    (destruct (n =? 0); [injection Hr as <- <-; by rewrite app_nil_r|]); [done|].
  apply bind_ok_inv in Hr as (d & w1 & H1 & Hr). apply (deaf_run _ _ _ _ (connect_remaining_deaf _)) in H1.
  apply bind_ok_inv in Hr as ([] & w2 & H2 & Hr).
  apply (deaf_run _ _ _ _ (deaf_try_io _ (set_read_timeout_deaf _))) in H2.
  unfold match_result in Hr. pose proof (read_received n w2) as H3.
  destruct (t_read n w2) as [[bytes|e|why|] w3]; cbn [fst snd] in H3; try done.
  - destruct bytes as [|b bytes]; [done|]. destruct (_ <=? _); [|done].
    apply bind_ok_inv in Hr as (d' & w4 & H4 & Hr). apply (deaf_run _ _ _ _ (connect_remaining_deaf _)) in H4.
    apply bind_ok_inv in Hr as (more & w5 & H5 & Hr). apply IH in H5. injection Hr as <- <-.
    by rewrite H5, H4, H3, H2, H1, <- app_assoc.
  - rewrite app_nil_r in H3. destruct (decide _).
    + apply IH in Hr. by rewrite Hr, H3, H2, H1.
    + unfold lift, map_connect_io in Hr. by destruct (decide _).
Qed.

Lemma read_header_loop_draws n fuel multiplier header deadline w header' w' :
  read_header_loop n fuel multiplier header deadline w = (Ok header', w') →
  ∃ l b, header' = header ++ l ++ [b] ∧ received w' = received w ++ l ++ [b]
    ∧ bytes_ok (l ++ [b]) ∧ Forall (λ b, 128 ≤ b) l.
Proof.
  revert multiplier header w header' w'. induction n as [|n IH]; intros multiplier header w header' w' Hr;
    cbn [read_header_loop] in Hr; [done|].
  apply bind_ok_inv in Hr as (byte & w1 & H1 & Hr).
  destruct (still_run _ _ _ _ _ (read_exact_until_still fuel 1 deadline ltac:(done)) H1) as [Hb Hlen].
  apply read_exact_until_draws in H1. destruct byte as [|b [|b' byte]]; [done| |];
    [|rewrite !zlen_cons in Hlen; pose proof (zlen_nonneg byte); lia].
  apply Forall_cons_1 in Hb as [Hb _]. change (default 0 (head [b])) with b in Hr.
  rewrite (u8_land_0x80 b Hb) in Hr.
  destruct (b <? 128) eqn:Hlt.
  - injection Hr as <- <-. exists [], b. split; [done|]. split; [done|].
    split; [by apply Forall_singleton|constructor].
  - destruct (_ =? _); [done|]. apply IH in Hr as (l & b' & -> & H2 & Hbl & Hl). exists (b :: l), b'.
    split; [by rewrite <- app_assoc|]. split; [by rewrite H2, H1, <- app_assoc|].
    split; [by apply Forall_cons_2|]. apply Forall_cons_2; [lia|done].
Qed.

(** The blocking reader takes the frame of the packet that it returns, no more and no less. *)
Lemma read_packet_blocking_draws fuel max deadline w p w' :
  read_packet_blocking fuel max deadline w = (Ok p, w') →
  ∃ bytes, received w' = received w ++ bytes ∧ frame_of max p bytes.
Proof.
  intros Hr. unfold read_packet_blocking in Hr.
  apply bind_ok_inv in Hr as (first & w1 & H1 & Hr).
  destruct (still_run _ _ _ _ _ (read_exact_until_still fuel 1 deadline ltac:(done)) H1) as [Hf Hlen].
  apply read_exact_until_draws in H1. apply bind_ok_inv in Hr as (header & w2 & H2 & Hr).
  apply read_header_loop_draws in H2 as (l & b & -> & H2 & Hb & Hl).
  apply bind_ok_inv in Hr as ([h n] & w3 & Hd & Hr). injection Hd as Hd <-.
  destruct first as [|f [|f' first]]; [done| |];
    [|rewrite !zlen_cons in Hlen; pose proof (zlen_nonneg first); lia].
  assert (bytes_ok (f :: l ++ [b])) as Hall by (apply Forall_cons_1 in Hf as [? _]; by apply Forall_cons_2).
  change ([f] ++ l ++ [b]) with (f :: l ++ [b]) in Hd.
  destruct (header_whole f l b h n Hall Hl Hd) as [-> Hrl].
  apply bind_ok_inv in Hr as (total & w4 & Ht & Hr). unfold lift, checked_add in Ht.
  destruct (_ <=? _) in Ht; [|done]. injection Ht as <- <-.
  apply bind_ok_inv in Hr as ([] & w5 & Hm & Hr). apply fail_if_ok in Hm as [Hm ->].
  apply bind_ok_inv in Hr as (body & w6 & H6 & Hr).
  destruct (still_run _ _ _ _ _ (read_exact_until_still fuel _ deadline Hrl) H6) as [_ Hbody].
  apply read_exact_until_draws in H6. unfold lift in Hr. injection Hr as Hp <-.
  exists ((f :: l ++ [b]) ++ body). split; [rewrite H6, H2, H1; cbn [app]; by rewrite <- !app_assoc|].
  unfold frame_of, next_frame.
  destruct (decode_fixed_header_ext (f :: l ++ [b]) body Hall) as [He|[-> _]]; [congruence|].
  rewrite Hd. cbv zeta. rewrite Hm. rewrite zlen_app, Hbody, (proj2 (Z.ltb_ge _ _)) by lia.
  rewrite zdrop_app_exact, ztake_all_le by lia. rewrite Hp. cbn [rbind].
  do 3 f_equal. apply zdrop_all. rewrite zlen_app. lia.
Qed.

(** *** Sending CONNECT *)

Lemma outcome_still {A B} (m : WorldM A) (k : A → WorldM B) Q (P : B → W → Prop) (R : Error → W → Prop) w :
  still m Q → (∀ e w', sent w' = sent w → R e w') →
  (∀ a w', sent w' = sent w → Q a → outcome (k a) P R w') → outcome (bind m k) P R w.
Proof.
  intros Hm Hr Hk. eapply outcome_bind; [eapply outcome_weaken; [apply Hm| |exact Hr]|].
  - intros a w'. exact id.
  - intros a w' [? ?]. by apply Hk.
Qed.

Definition sent_part (w : W) (bytes : list Z) (w' : W) : Prop :=
  ∃ part rest, bytes = part ++ rest ∧ sent w' = sent w ++ part.

Lemma sent_part_nil w bytes w' : sent w' = sent w → sent_part w bytes w'.
Proof. intros Hs. exists [], bytes. by rewrite app_nil_r. Qed.

Lemma write_all_until_spec fuel bytes deadline w :
  outcome (write_all_until fuel bytes deadline) (λ _ w', sent w' = sent w ++ bytes)
    (λ _ w', sent_part w bytes w') w.
Proof.
  revert bytes w. induction fuel as [|fuel IH]; intros bytes w; cbn [write_all_until];
    (destruct bytes as [|b bytes]; [cbn; by rewrite app_nil_r|]); [done|].
  eapply outcome_still; [apply connect_remaining_still|intros; by apply sent_part_nil|].
  intros d w1 H1 _.
  eapply outcome_still;
    [apply still_try_io, set_write_timeout_law|intros; apply sent_part_nil; congruence|].
  intros _ w2 H2 _. assert (sent w2 = sent w) as Hs by congruence. clear H1 H2.
  eapply (outcome_match _ _ _ (λ n w', 0 ≤ n ≤ zlen (b :: bytes)
            ∧ sent w' = sent w ++ ztake n (b :: bytes)) (λ _ w', sent w' = sent w)).
  { pose proof (write_law (b :: bytes) w2) as Hw. unfold outcome.
    destruct (t_write _ w2) as [[n|e| |] w3]; try done; by rewrite <- Hs. }
  - intros n w3 [Hn H3]. destruct (n =? 0); [apply outcome_lift; try done|].
    { intros e _. exists (ztake n (b :: bytes)), (zdrop n (b :: bytes)). by rewrite ztake_zdrop. }
    rewrite (proj2 (Z.leb_le _ _)) by lia.
    assert (∀ part w', sent w' = sent w3 ++ part →
              sent w' = sent w ++ ztake n (b :: bytes) ++ part) as Happ.
    { intros part w' ->. by rewrite H3, <- app_assoc. }
    assert (∀ w', sent_part w3 (zdrop n (b :: bytes)) w' → sent_part w (b :: bytes) w') as Hpart.
    { intros w' (part & rest & He & Hp). exists (ztake n (b :: bytes) ++ part), rest.
      split; [by rewrite <- app_assoc, <- He, ztake_zdrop|by apply Happ]. }
    eapply outcome_still; [apply connect_remaining_still|intros; by apply Hpart, sent_part_nil|].
    intros _ w4 H4 _. eapply outcome_weaken; [apply IH| |]; cbv beta.
    + intros _ w' Hw. rewrite H4 in Hw. apply Happ in Hw. by rewrite Hw, ztake_zdrop.
    + intros e w' (part & rest & He & Hp). apply Hpart. exists part, rest. by rewrite <- H4.
  - intros e w3 H3. destruct (decide _).
    + eapply outcome_weaken; [apply IH| |]; cbv beta; unfold sent_part; by rewrite H3.
    + apply outcome_lift; [by apply map_connect_io_returns|cbn; by destruct (decide _)|].
      intros. by apply sent_part_nil.
Qed.

(** *** The new driver *)

(** What the server's answer settles. *)
Record async_negotiated (options : ConnectOptions) (ack : ConnAckPacket)
    (client : AsyncMqttClient) (c : Conn) : Prop := {
  an_ack : packet_sound (PktConnAck ack) ∧ ca_reason_code ack < 0x80;
  an_session : validate_connack (opt_client_id options) (opt_clean_start options) ack = Ok ();
  an_capabilities : from_connack ack = Ok (mc_server_capabilities c);
  an_keep_alive : mc_keep_alive_secs c =
    default (opt_keep_alive_secs options) (get_u16 (ca_properties ack) ServerKeepAlive);
  an_max_packet : mc_peer_max_packet_size c =
    default MQTT_MAX_PACKET_SIZE (get_u32 (ca_properties ack) MaximumPacketSize);
  an_client : ac_max_packet_size client = mc_peer_max_packet_size c;
  an_receive_maximum : mc_peer_receive_maximum c =
    default u16_max (get_u16 (ca_properties ack) ReceiveMaximum);
}.

Lemma get_u16_valid ctx p id n : props_ok ctx p → get_u16 p id = Some n → is_u16 n.
Proof.
  intros [Hok _]. unfold get_u16. induction Hok as [|[id' v] l (_ & Hv & Ho) _ IH]; [done|].
  cbn [find_map_entry]. destruct (decide (id' = id)) as [->|]; [|done].
  destruct v; try done. by intros [= <-].
Qed.

Lemma new_connection_ok stream t options ack caps p w :
  options_typed options → ConnectPacket_encode p = Ok w → sent stream = w →
  packet_sound (PktConnAck ack) → t ≤ clock_end →
  clock_end + opt_ack_timeout options ≤ t_instant_max →
  conn_ok (new_connection stream t options ack caps
             (channel (opt_command_capacity options)) (channel (opt_event_capacity options))).
Proof.
  intros (Hka & _ & _ & _ & _ & Hmax & _ & Hcmd & Hev & Hout) Hw Hs (Hprops & _) Ht Hat.
  split; cbn; rewrite ?map_size_empty; try done; try lia.
  - exists [w]. cbn. rewrite !app_nil_r. split; [done|]. by apply Forall_singleton, (cf_connect _ p).
  - split; [by apply new_reader_ok|done|done].
  - unfold bounded. cbn. rewrite zlen_nil. lia.
  - unfold bounded. cbn. rewrite zlen_nil. lia.
  - split; [exact Hat|]. cbn. split; [|by split].
    destruct (get_u16 _ _) as [k|] eqn:Hk; cbn; [apply (get_u16_valid _ _ _ _ Hprops) in Hk|];
      unfold is_u16 in *; lia.
Qed.

(** The CONNECT packet was sent, in full or in part. *)
Definition connect_bytes (options : ConnectOptions) (w : list Z) : Prop :=
  ∃ p, async_connect_packet options = Ok p ∧ ConnectPacket_encode p = Ok w.
Definition connect_sent (options : ConnectOptions) (s : list Z) : Prop :=
  s = [] ∨ ∃ w rest, connect_bytes options w ∧ w = s ++ rest.

Lemma connect_sent_all options w : connect_bytes options w → connect_sent options w.
Proof. intros Hw. right. exists w, []. by rewrite app_nil_r. Qed.

(** Errors after CONNECT was written leave the stream at CONNECT. *)
Lemma still_connected {A B} (m : WorldM A) (k : A → WorldM B) Q P options w0 w :
  connect_bytes options w0 → sent w = w0 → still m Q →
  (∀ a w', sent w' = w0 → Q a → outcome (k a) P (λ _ w', connect_sent options (sent w')) w') →
  outcome (bind m k) P (λ _ w', connect_sent options (sent w')) w.
Proof.
  intros Hb Hw Hm Hk. eapply outcome_still; [exact Hm| |].
  - intros e w' Hs. rewrite Hs, Hw. by apply connect_sent_all.
  - intros a w' Hs. apply Hk. congruence.
Qed.

(** [async_handshake] once CONNECT is written: nothing more is sent. *)
Definition accepted_by (options : ConnectOptions) (ack : ConnAckPacket) : Prop :=
  packet_sound (PktConnAck ack) ∧ ca_reason_code ack < 0x80
  ∧ validate_connack (opt_client_id options) (opt_clean_start options) ack = Ok ().

Lemma handshake_answer fuel options deadline p w0 w :
  connect_bytes options w0 → sent w = w0 →
  con_client_id p = opt_client_id options → con_clean_start p = opt_clean_start options →
  outcome
    (let! remaining := connect_remaining deadline in
     let! _ := try_io (t_set_write_timeout (Some remaining)) in
     let! r := attempt t_flush in
     let! _ := lift (map_connect_io r) in
     let! _ := connect_remaining deadline in
     let! packet := read_packet_blocking fuel (opt_max_packet_size options) deadline in
     let! connack := match packet with
                     | PktConnAck connack =>
                         if ca_reason_code connack <? 0x80 then ret connack
                         else fail (ConnectionRefused (ca_reason_code connack))
                     | _ => fail (UnexpectedPacket "expected CONNACK")
                     end in
     let! _ := connect_remaining deadline in
     let! _ := lift (validate_connack (con_client_id p) (con_clean_start p) connack) in
     ret connack)
    (λ ack w', connect_bytes options (sent w') ∧ accepted_by options ack)
    (λ _ w', connect_sent options (sent w')) w.
Proof.
  intros Hcb Hw -> ->.
  eapply still_connected; [exact Hcb|exact Hw|apply connect_remaining_still|]. intros d w1 H1 _.
  eapply still_connected; [exact Hcb|exact H1|apply still_try_io, set_write_timeout_law|].
  intros _ w2 H2 _.
  eapply still_connected; [exact Hcb|exact H2| |].
  { intros w'. unfold outcome, attempt. destruct (flush_law w') as [Hr Hs].
    destruct (t_flush w') as [[u|e| |] w'']; try done;
      (split; [exact Hs|instantiate (1 := returns); done]). }
  intros r w3 H3 Hr.
  eapply still_connected;
    [exact Hcb|exact H3|apply (still_lift _ (λ _, True)); [by apply map_connect_io_returns|done]|].
  intros _ w4 H4 _.
  eapply still_connected; [exact Hcb|exact H4|apply connect_remaining_still|]. intros _ w5 H5 _.
  eapply still_connected; [exact Hcb|exact H5|apply read_packet_blocking_still|].
  intros packet w6 H6 Hsound.
  eapply (still_connected _ _ (λ ack, packet_sound (PktConnAck ack) ∧ ca_reason_code ack < 0x80));
    [exact Hcb|exact H6| |].
  { destruct packet as [|ack| | | | | | | | |]; try apply still_fail.
    destruct (_ <? 0x80) eqn:Hc; [|apply still_fail]. apply still_ret. split; [done|lia]. }
  intros ack w7 H7 [Hack Hcode].
  eapply still_connected; [exact Hcb|exact H7|apply connect_remaining_still|]. intros _ w8 H8 _.
  eapply still_connected;
    [exact Hcb|exact H8|eapply (still_lift _ (λ _, validate_connack _ _ ack = Ok ()))|].
  { apply validate_connack_returns. }
  { intros [] Hv. exact Hv. }
  intros [] w9 H9 Hv. unfold outcome, ret. by rewrite H9.
Qed.

Lemma async_handshake_spec fuel options deadline w :
  sent w = [] →
  outcome (async_handshake fuel options deadline)
    (λ ack w', connect_bytes options (sent w') ∧ accepted_by options ack)
    (λ _ w', connect_sent options (sent w')) w.
Proof.
  intros Hw. assert (∀ w', sent w' = sent w → connect_sent options (sent w')) as Hno.
  { intros w' Hs. left. congruence. }
  unfold async_handshake.
  eapply outcome_still; [apply still_try_io, set_nonblocking_law|auto|]. intros _ w1 H1 _.
  eapply outcome_still; [apply set_connect_timeouts_still|intros; apply Hno; congruence|].
  intros _ w2 H2 _. assert (sent w2 = []) as Hs2 by congruence. clear H1 H2 Hno Hw w1.
  eapply outcome_still.
  { eapply (still_lift _ (λ p, async_connect_packet options = Ok p)); [|done].
    unfold async_connect_packet. by destruct (u32_try_from _). }
  { intros. left. congruence. }
  intros p w3 H3 Hp. pose proof (ConnectPacket_encode_builds p) as Hb.
  assert (con_client_id p = opt_client_id options ∧ con_clean_start p = opt_clean_start options)
    as [Hcid Hclean].
  { unfold async_connect_packet in Hp. destruct (u32_try_from _); [|done]. cbn in Hp.
    by injection Hp as <-. }
  eapply outcome_still.
  { eapply (still_lift _ (λ bytes, ConnectPacket_encode p = Ok bytes));
      [by destruct (ConnectPacket_encode p)|done]. }
  { intros. left. congruence. }
  intros bytes w4 H4 Hbytes. assert (sent w4 = []) as Hs4 by congruence.
  eapply (outcome_bind _ _ (λ _ w', sent w' = bytes)).
  { eapply outcome_weaken; [apply write_all_until_spec| |]; cbv beta.
    - intros ? w' Hs. by rewrite Hs, Hs4.
    - intros ? w' (part & rest & He & Hpart). rewrite Hs4 in Hpart. cbn in Hpart.
      right. exists bytes, rest. rewrite Hpart. split; [by exists p|done]. }
  intros _ w5 H5. apply (handshake_answer fuel options deadline p bytes w5); try done. by exists p.
Qed.

(** The handshake reads the CONNACK that it accepts and no more. *)
Lemma async_handshake_draws fuel options deadline w ack w' :
  async_handshake fuel options deadline w = (Ok ack, w') →
  ∃ bytes, received w' = received w ++ bytes
    ∧ frame_of (opt_max_packet_size options) (PktConnAck ack) bytes.
Proof.
  intros Hr. unfold async_handshake in Hr.
  apply bind_ok_inv in Hr as ([] & w1 & H1 & Hr).
  apply (deaf_run _ _ _ _ (deaf_try_io _ (set_nonblocking_deaf _))) in H1.
  apply bind_ok_inv in Hr as ([] & w2 & H2 & Hr). apply (deaf_run _ _ _ _ (set_connect_timeouts_deaf _)) in H2.
  apply bind_ok_inv in Hr as (p & w3 & H3 & Hr). apply (deaf_run _ _ _ _ (deaf_same _)) in H3.
  apply bind_ok_inv in Hr as (b & w4 & H4 & Hr). apply (deaf_run _ _ _ _ (deaf_same _)) in H4.
  apply bind_ok_inv in Hr as ([] & w5 & H5 & Hr). apply (deaf_run _ _ _ _ (write_all_until_deaf _ _ _)) in H5.
  apply bind_ok_inv in Hr as (d & w6 & H6 & Hr). apply (deaf_run _ _ _ _ (connect_remaining_deaf _)) in H6.
  apply bind_ok_inv in Hr as ([] & w7 & H7 & Hr).
  apply (deaf_run _ _ _ _ (deaf_try_io _ (set_write_timeout_deaf _))) in H7.
  apply bind_ok_inv in Hr as (r & w8 & H8 & Hr). apply (deaf_run _ _ _ _ (deaf_attempt _ flush_deaf)) in H8.
  apply bind_ok_inv in Hr as ([] & w9 & H9 & Hr). apply (deaf_run _ _ _ _ (deaf_same _)) in H9.
  apply bind_ok_inv in Hr as (d' & w10 & H10 & Hr). apply (deaf_run _ _ _ _ (connect_remaining_deaf _)) in H10.
  apply bind_ok_inv in Hr as (q & w11 & H11 & Hr).
  apply read_packet_blocking_draws in H11 as (bytes & H11 & Hframe).
  apply bind_ok_inv in Hr as (ack' & w12 & H12 & Hr).
  apply bind_ok_inv in Hr as (d'' & w13 & H13 & Hr). apply (deaf_run _ _ _ _ (connect_remaining_deaf _)) in H13.
  apply bind_ok_inv in Hr as ([] & w14 & H14 & Hr). apply (deaf_run _ _ _ _ (deaf_same _)) in H14.
  injection Hr as <- <-. exists bytes. destruct q as [|a| | | | | | | | |]; try done.
  destruct (_ <? _) in H12; [|done]. injection H12 as <- <-. split; [congruence|done].
Qed.

(** Calls that send and read nothing. *)
Lemma outcome_mute {A B} (m : WorldM A) (k : A → WorldM B) Q (P : B → W → Prop) (R : Error → W → Prop) w :
  still m Q → deaf received m → (∀ e w', sent w' = sent w → R e w') →
  (∀ a w', sent w' = sent w → received w' = received w → Q a → outcome (k a) P R w') →
  outcome (bind m k) P R w.
Proof.
  intros Hm Hd Hr Hk. eapply outcome_bind.
  - eapply outcome_weaken; [|intros a w'; exact id|exact Hr].
    apply (outcome_also _ _ (λ _ w', received w' = received w) _ _ (Hm w)).
    intros a w' Hrun. by apply (deaf_run _ _ _ _ Hd Hrun).
  - cbv beta. intros a w' [[Hs Ha] Hrec]. by apply Hk.
Qed.

Lemma mute_connected {A B} (m : WorldM A) (k : A → WorldM B) Q P options w0 w :
  connect_bytes options w0 → sent w = w0 → still m Q → deaf received m →
  (∀ a w', sent w' = w0 → received w' = received w → Q a →
     outcome (k a) P (λ _ w', connect_sent options (sent w')) w') →
  outcome (bind m k) P (λ _ w', connect_sent options (sent w')) w.
Proof.
  intros Hb Hw Hm Hd Hk. eapply outcome_mute; [exact Hm|exact Hd| |].
  - intros e w' Hs. rewrite Hs, Hw. by apply connect_sent_all.
  - intros a w' Hs. apply Hk. congruence.
Qed.

Lemma mpsc_channel_ok {S E A} capacity (s : S) :
  0 < capacity ≤ max_permits →
  mpsc_channel (E:=E) (A:=A) capacity s = (Ok (channel capacity), s).
Proof.
  intros Hc. unfold mpsc_channel. rewrite (proj2 (Z.eqb_neq _ _)) by lia.
  by rewrite (proj2 (Z.ltb_ge _ _)) by lia.
Qed.

(** The driver over a stream that had delivered [before]: the handshake read the frame of one
    CONNACK, and that CONNACK settled the limits. *)
Definition connected_outcome (options : ConnectOptions) (before : list Z) (client : AsyncMqttClient)
    (c : Conn) : Prop :=
  conn_ok c ∧ connect_bytes options (sent (mc_stream c))
  ∧ ∃ ack bytes, received (mc_stream c) = before ++ bytes
      ∧ frame_of (opt_max_packet_size options) (PktConnAck ack) bytes
      ∧ async_negotiated options ack client c.

Lemma connect_with_deadline_spec fuel options deadline w :
  options_typed options → 0 < opt_command_capacity options ≤ max_permits →
  0 < opt_event_capacity options ≤ max_permits →
  clock_end + opt_ack_timeout options ≤ t_instant_max → sent w = [] →
  outcome (connect_with_deadline fuel options deadline)
    (λ '(client, c) _, connected_outcome options (received w) client c)
    (λ _ w', connect_sent options (sent w')) w.
Proof.
  intros Ho Hcmd Hev Hat Hw. unfold connect_with_deadline.
  eapply outcome_bind.
  { apply (outcome_also _ _ (λ ack w', ∃ bytes, received w' = received w ++ bytes
               ∧ frame_of (opt_max_packet_size options) (PktConnAck ack) bytes)
             _ _ (async_handshake_spec fuel options deadline w Hw)).
    intros ack w'. exact (async_handshake_draws fuel options deadline w ack w'). }
  intros ack w1 [(Hb & Hack & Hcode & Hval) (bytes & Hread & Hframe)].
  destruct (from_connack_returns ack (proj1 Hack)) as [caps Hcaps]. rewrite Hcaps.
  unfold outcome. rewrite (bind_ok (lift (Ok caps)) _ w1 caps w1 eq_refl).
  eapply mute_connected;
    [exact Hb|done|apply still_try_io, set_read_timeout_law|apply deaf_try_io, set_read_timeout_deaf|].
  intros _ w2 H2 G2 _.
  eapply mute_connected;
    [exact Hb|exact H2|apply still_try_io, set_write_timeout_law|apply deaf_try_io, set_write_timeout_deaf|].
  intros _ w3 H3 G3 _.
  eapply mute_connected;
    [exact Hb|exact H3|apply still_try_io, set_nonblocking_law|apply deaf_try_io, set_nonblocking_deaf|].
  intros _ w4 H4 G4 _. unfold outcome.
  rewrite (bind_ok _ _ _ _ _ (mpsc_channel_ok _ _ Hcmd)).
  rewrite (bind_ok _ _ _ _ _ (mpsc_channel_ok _ _ Hev)).
  eapply mute_connected; [exact Hb|exact H4|apply still_now|apply deaf_now|]. intros t w5 H5 G5 Ht.
  unfold outcome, bind at 1, get, ret. destruct Hb as (p & Hp & Hpw).
  split; [|split].
  - by eapply new_connection_ok.
  - exists p. split; [done|]. cbn. by rewrite H5.
  - exists ack, bytes. split; [cbn; congruence|]. split; [done|]. by split.
Qed.

Lemma validated_capacities m t options :
  options_typed options → ConnectOptions_validate m t options = Ok () →
  0 < opt_command_capacity options ∧ 0 < opt_event_capacity options.
Proof.
  intros (_ & _ & _ & _ & _ & _ & _ & Hc & He & _) Hv. unfold ConnectOptions_validate in Hv.
  repeat match type of Hv with
         | (if ?b then Err _ else _) = _ => destruct b eqn:?; [discriminate|]
         end.
  match goal with Hq : _ || _ = false |- _ =>
    rewrite !orb_false_iff, !Z.eqb_neq in Hq; destruct Hq as [[[_ Hc0] He0] _] end.
  lia.
Qed.

Lemma async_connect_with_spec fuel options w :
  options_typed options → opt_command_capacity options ≤ max_permits →
  opt_event_capacity options ≤ max_permits →
  clock_end + opt_ack_timeout options ≤ t_instant_max → sent w = [] →
  outcome (async_connect_with fuel options)
    (λ '(client, c) _, connected_outcome options (received w) client c)
    (λ _ w', connect_sent options (sent w')) w.
Proof.
  intros Ho Hcmd Hev Hat Hw. unfold async_connect_with.
  assert (∀ w', sent w' = sent w → connect_sent options (sent w')) as Hno.
  { intros w' Hs. left. congruence. }
  eapply outcome_mute; [|apply validate_options_deaf|intros ?; exact Hno|].
  { eapply still_bind; [apply still_now|]. intros t _.
    apply (still_lift _ (λ _, 0 < opt_command_capacity options ∧ 0 < opt_event_capacity options)).
    - destruct (ConnectOptions_validate _ _ _) as [| |why|] eqn:Hv; try done;
        unfold ConnectOptions_validate in Hv; repeat case_match; discriminate.
    - intros [] Hv. by eapply validated_capacities. }
  intros _ w1 H1 G1 [Hc He].
  eapply outcome_mute;
    [apply connect_deadline_still|apply connect_deadline_deaf|intros; apply Hno; congruence|].
  intros deadline w2 H2 G2 _. rewrite <- G1, <- G2. apply connect_with_deadline_spec; try done. congruence.
Qed.

(** C8. [AsyncMqttClient::connect_with]: from typed options and a fresh stream the
    handshake never panics, provided the queue capacities are ones [mpsc::channel] accepts and
    the clock stays [ack_timeout] below the end of its range. When it succeeds, exactly the
    CONNECT packet of the options has been sent; the bytes it has read are exactly the frame of
    one CONNACK, whose code accepts the session and whose properties the options allow; the
    keep-alive, the greatest packet and the Receive Maximum of the driver are the ones that
    CONNACK names, or the options' own and the protocol's defaults where it is silent, and its
    capabilities are those of that CONNACK; and the driver satisfies the invariant all later
    theorems start from. When it fails, nothing but a prefix of CONNECT was sent. (Of a handshake
    that has used up its fuel, one that still waits for the peer, nothing is said.) *)
Theorem async_connect_outcome fuel options w :
  options_typed options → opt_command_capacity options ≤ max_permits →
  opt_event_capacity options ≤ max_permits →
  clock_end + opt_ack_timeout options ≤ t_instant_max → sent w = [] →
  match async_connect_with fuel options w with
  | (Ok (client, c), _) => connected_outcome options (received w) client c
  | (Err _, w') => connect_sent options (sent w')
  | (Panic _, _) => False
  | (Diverge, _) => True
  end.
Proof.
  intros Ho Hc He Ha Hw. pose proof (async_connect_with_spec fuel options w Ho Hc He Ha Hw) as Hs.
  unfold outcome in Hs. by destruct (async_connect_with _ _ _) as [[[]| | |] ?].
Qed.
End start.

(** ** Examples *)

(** A broker that accepts the connection, over [events]. *)
Definition accepting (events : list net_event) : Net :=
  example_net (Incoming [0x20; 3; 0; 0; 0] :: events).

Lemma example_options_typed : options_typed example_options.
Proof. unfold options_typed, is_u16; split_and!; vm_compute; reflexivity || discriminate. Qed.

(** A broker that accepts and asks for a keep-alive of ten seconds; a log keeps what was read. *)
Definition accepting_logged : Logged Net :=
  mkLogged (example_net [Incoming [0x20; 6; 0; 0; 3; 0x13; 0; 10]]) [].

Lemma async_connect_outcome_witness :
  match async_connect_with 100 example_options accepting_logged with
  | (Ok (client, c), _) => connected_outcome example_options [] client c
                           ∧ sent (mc_stream c) = [16; 22; 0; 4; 77; 81; 84; 84; 5; 2; 0; 60;
                               8; 39; 0; 16; 0; 0; 33; 1; 0; 0; 1; 99]
                           ∧ mc_keep_alive_secs c = 10
  | _ => False
  end.
Proof.
  pose proof (async_connect_outcome 100 example_options accepting_logged example_options_typed
    ltac:(vm_compute; discriminate) ltac:(vm_compute; discriminate)
    ltac:(vm_compute; discriminate) eq_refl) as Hc.
  assert (match (async_connect_with 100 example_options accepting_logged).1 with
          | Ok (_, c) => (sent (mc_stream c), mc_keep_alive_secs c) | _ => ([], 0) end
          = ([16; 22; 0; 4; 77; 81; 84; 84; 5; 2; 0; 60; 8; 39; 0; 16; 0; 0; 33; 1; 0; 0; 1; 99], 10))
    as Hw by (vm_compute; reflexivity).
  destruct (async_connect_with 100 example_options accepting_logged) as [[[client c]| | |] w];
    [injection Hw as Hw Hk; exact (conj Hc (conj Hw Hk))|discriminate Hw..].
Defined.

(** A connection over which nothing was sent yet but CONNECT. *)
Lemma example_conn_ok events : conn_ok (example_conn events).
Proof.
  split; cbn; rewrite ?map_size_empty; try done; try lia.
  - by exists [].
  - split; [by apply new_reader_ok|done|done].
Qed.
