(* ===== verification/AsyncRun.v ===== *)
(** * Running the driver

    The invariant of [AsyncFacts] through the client handles, the turns of the driver and
    [MqttConnection::run]; and what is left when [run] returns. *)

From S2P Require Import Prelude Errors Utf8 Str Types Decode Encode Topic Properties.
From S2P Require Import PropertiesFacts Packets Connect Publish Subscribe Ping PacketCodec.
From S2P Require Import CodecFacts Writers Frame Options Transport AsyncTypes AsyncDriver.
From S2P Require Import AsyncClient AsyncFacts.

Local Open Scope Z_scope.

Section run_facts.
Context {W : Type} {T : Transport W} {L : TransportLaws W} {H : HashOrder W} {C : ClockLaws W}.

Abbreviation Conn := (MqttConnection W).
Abbreviation ConnM A := (M Conn A).

(** *** The handles *)

(** A call that only reads the clock and touches the channels or the lifecycle. *)
Lemma oneshot_channel_keeps s : keeps oneshot_channel s.
Proof.
  intros Hs. unfold outcome, oneshot_channel. apply same_core_good; [done|].
  destruct Hs as [????????????(?&?&?&?)]. by split.
Qed.

Lemma send_command_keeps command s : keeps (send_command command) s.
Proof.
  intros Hs. unfold outcome, send_command, try_send. destruct (negb _); [done|].
  destruct (_ <=? _) eqn:Hl; [done|]. apply Z.leb_gt in Hl.
  apply same_core_good; [done|]. destruct Hs as [????????????(?&?&?&?)]. split; try done.
  split; [done|]. unfold bounded; cbn. rewrite zlen_app, zlen_cons, zlen_nil. lia.
Qed.

Lemma client_publish_keeps client topic payload options s :
  keeps (client_publish client topic payload options) s.
Proof.
  unfold client_publish. apply keeps_bind; [apply keeps_fail_if|]. intros _ s1 _ _.
  apply keeps_bind; [apply oneshot_channel_keeps|]. intros id s2 _ _.
  apply keeps_bind; [apply send_command_keeps|]. intros. apply keeps_ret.
Qed.

(** A command without more ado. *)
Lemma submit_keeps (command : Sender → Command) s :
  keeps (let! result := oneshot_channel in
         let! _ := send_command (command result) in ret result) s.
Proof.
  apply keeps_bind; [apply oneshot_channel_keeps|]. intros id s1 _ _.
  apply keeps_bind; [apply send_command_keeps|]. intros. apply keeps_ret.
Qed.

Lemma start_request_keeps client request s : keeps (start_request client request) s.
Proof.
  unfold start_request. apply keeps_bind; [apply keeps_fail_if|]. intros _ s1 _ _.
  apply keeps_bind.
  { intros Hs. unfold outcome.
    assert (∀ l, good s1 (s1 <| mc_request_lifecycle := l |>)) as Hl.
    { intros l. apply same_core_good; [done|]. destruct Hs as [????????????(?&?&?&?)]. by split. }
    unfold register. destruct (_ <=? _); [apply Hl|]. destruct (decide _); apply Hl. }
  intros _ s2 _ _. apply keeps_bind; [apply oneshot_channel_keeps|]. intros id s3 _ _.
  apply keeps_match; [apply send_command_keeps|intros; apply keeps_ret|].
  intros e s4 _ _. apply keeps_bind; [apply keeps_lifecycle|intros; apply keeps_fail].
Qed.

Lemma RequestOptions_validate_returns m t o : returns (RequestOptions_validate m t o).
Proof. unfold RequestOptions_validate. by repeat case_match. Qed.

Lemma client_request_keeps client uuid topic payload options s :
  keeps (client_request client uuid topic payload options) s.
Proof.
  unfold client_request. apply keeps_now. intros t w _ _.
  apply keeps_lift_bind; [apply RequestOptions_validate_returns|]. intros _ _.
  apply keeps_bind; [apply start_request_keeps|]. intros. apply keeps_ret.
Qed.

Lemma next_event_keeps s : keeps next_event s.
Proof.
  unfold next_event. apply keeps_get. destruct (ch_queue (mc_events s)) as [|ev rest] eqn:Hq;
    [apply keeps_ret|].
  apply keeps_bind; [|intros; apply keeps_ret]. apply keeps_modify. intros Hs.
  pose proof (ok_events s Hs) as He. unfold bounded in He. rewrite Hq, zlen_cons in He.
  apply same_core_good; [done|]. destruct Hs as [????????????(?&?&?&?)]. split; try done.
  split; [|done]. unfold bounded; cbn. lia.
Qed.

(** A call that ends leaves a good state. *)
Lemma keeps_state {E A} (m : st Conn E A) s :
  conn_ok s → keeps m s → returns (m s).1 → good s (m s).2.
Proof.
  intros Hs Hm Hr. specialize (Hm Hs). unfold outcome in Hm. by destruct (m s) as [[]].
Qed.

Lemma submit_returns (command : Sender → Command) (s : Conn) :
  returns ((let! result := oneshot_channel in
            let! _ := send_command (command result) in ret result) s).1.
Proof.
  unfold bind, oneshot_channel, send_command, try_send, ret. cbn.
  destruct (negb _); [done|]. by destruct (_ <=? _).
Qed.

Lemma client_publish_returns client topic payload options (s : Conn) :
  returns (client_publish client topic payload options s).1.
Proof.
  unfold client_publish. unfold bind at 1. destruct (ac_max_packet_size client <? _); [done|].
  apply (submit_returns (Command_Publish topic payload options)).
Qed.

Lemma start_request_returns client request (s : Conn) : returns (start_request client request s).1.
Proof.
  unfold start_request. unfold bind at 1. destruct (ac_max_packet_size client <? _); [done|].
  cbn. unfold bind at 1, register. destruct (_ <=? _); [done|]. destruct (decide _); [done|].
  cbn. unfold match_result, send_command, try_send, bind, modify, fail. cbn.
  destruct (negb _); [done|]. by destruct (_ <=? _).
Qed.

Lemma client_request_returns client uuid topic payload options (s : Conn) :
  returns (client_request client uuid topic payload options s).1.
Proof.
  unfold client_request. unfold bind at 1, now. destruct (t_now _) as [t w].
  unfold bind at 1, lift. pose proof (RequestOptions_validate_returns t_instant_max t options).
  destruct (RequestOptions_validate _ _ _); try done. unfold bind at 1.
  pose proof (start_request_returns client (request_command uuid topic payload options)
                (s <| mc_stream := w |>)).
  by destruct (start_request _ _ _) as [[]].
Qed.

Lemma next_event_returns (s : Conn) : returns (next_event s).1.
Proof. unfold next_event, bind, get, modify, ret. by destruct (ch_queue (mc_events s)). Qed.

(** Whatever the application does between two turns keeps the driver's invariant. *)
Lemma handle_step_good client a s : conn_ok s → good s (handle_step client a s).
Proof.
  intros Hs. destruct a; cbn [handle_step].
  1: apply keeps_state; [done|apply client_publish_keeps|apply client_publish_returns].
  1: apply keeps_state; [done|apply (submit_keeps (Command_Subscribe filter qos))|apply submit_returns].
  1: apply keeps_state; [done|apply (submit_keeps (Command_Unsubscribe filter))|apply submit_returns].
  1: apply keeps_state; [done|apply (submit_keeps Command_Disconnect)|apply submit_returns].
  1: apply keeps_state; [done|apply client_request_keeps|apply client_request_returns].
  1: apply keeps_state; [done|apply next_event_keeps|apply next_event_returns].
  all: apply same_core_good; [done|]; destruct Hs as [????????????(?&?&?&?)]; by split.
Qed.

Lemma handle_steps_good client actions s : conn_ok s → good s (handle_steps client actions s).
Proof.
  unfold handle_steps. revert s. induction actions as [|a actions IH]; intros s Hs; [done|].
  cbn [fold_left]. destruct (handle_step_good client a s Hs) as [Ha Hc].
  eapply good_trans; [by split|]. by apply IH.
Qed.

(** *** The turns of the driver *)

Lemma turn_allows fuel s : allows (turn fuel) s.
Proof.
  unfold turn. apply allows_bind; [apply keeps_allows, drain_cancellations_keeps|intros _ s1 _ _].
  apply allows_bind; [apply keeps_allows, drain_commands_keeps|intros _ s2 _ _].
  apply allows_bind; [apply keeps_allows, flush_outbound_keeps|intros _ s3 _ _].
  apply allows_get.
  destruct (finished s3); [apply keeps_allows, keeps_ret|].
  apply allows_bind; [apply keeps_allows, read_available_keeps|intros _ s5 _ _].
  apply allows_bind; [apply decode_and_dispatch_allows|intros _ s6 _ _].
  apply allows_bind; [apply keeps_allows, expire_operations_keeps|intros _ s7 _ _].
  apply allows_bind; [apply keeps_allows, maintain_keep_alive_keeps|intros _ s8 _ _].
  apply allows_bind; [apply keeps_allows, flush_outbound_keeps|intros _ s9 _ _].
  apply allows_get.
  destruct (finished s9); [apply keeps_allows, keeps_ret|].
  apply allows_bind; [apply keeps_allows, next_wait_duration_keeps|intros].
  apply keeps_allows, keeps_ret.
Qed.

Lemma receive_command_keeps s : keeps receive_command s.
Proof.
  unfold receive_command. apply keeps_get.
  destruct (ch_queue (mc_commands s)) as [|command rest] eqn:Hq.
  - destruct (ch_senders _); [apply keeps_ret|]. apply keeps_bind; [apply keeps_channel_closed|].
    intros. apply begin_abandoned_disconnect_keeps.
  - apply keeps_bind; [by eapply keeps_pop_command|]. intros. apply process_command_keeps.
Qed.

Lemma run_inner_allows client fuel tasks s : allows (run_inner client fuel tasks) s.
Proof.
  revert s. induction tasks as [|actions tasks IH]; intros s; cbn [run_inner];
    (apply allows_bind; [apply turn_allows|]); intros wait s1 _ _;
    destruct wait; try (apply keeps_allows, keeps_ret).
  - apply keeps_allows, keeps_diverge.
  - apply allows_bind; [apply keeps_allows, keeps_modify, handle_steps_good|intros _ s2 _ _].
    apply allows_bind; [apply keeps_allows, receive_command_keeps|intros _ s3 _ _]. apply IH.
Qed.
(** *** When [run] returns *)

(** No operation is left waiting on the driver. *)
Definition settled (s : Conn) : Prop :=
  senders s = [] ∧ ch_receiver (mc_commands s) = false ∧ ch_senders (mc_events s) = false.

(** Ended, with every table empty: the state between [fail_pending] and the drop. *)
Definition cleared (s s' : Conn) : Prop :=
  ended s s' ∧ mc_pending_acks s' = ∅ ∧ mc_outbound s' = [] ∧ mc_flush_actions s' = []
  ∧ mc_pending_requests s' = ∅.

Lemma fail_pending_clears (s : Conn) :
  conn_end s → ∃ s', fail_pending s = (Ok (), s') ∧ cleared s s'.
Proof.
  intros Hs. destruct (fail_pending_end s Hs) as (s1 & Hf & He & _).
  destruct (fail_pending_spec s) as [lf Hf']. rewrite Hf in Hf'. injection Hf' as ->.
  eexists. split; [exact Hf|]. by split_and!.
Qed.

Lemma notify_ended ev (s : Conn) :
  conn_end s → ∃ ch, notify ev s = (Ok (), s <| mc_events := ch |>) ∧ bounded ch.
Proof.
  intros [? ? ? ? Hev ?]. unfold notify, match_result, try_send_event, try_send.
  destruct (negb _); [exists (mc_events s); by destruct s|].
  destruct (_ <=? _) eqn:Hl; [exists (mc_events s); by destruct s|]. apply Z.leb_gt in Hl.
  eexists. split; [done|]. unfold bounded; cbn. rewrite zlen_app, zlen_cons, zlen_nil. lia.
Qed.

Lemma drop_settles (s : Conn) :
  mc_pending_acks s = ∅ → mc_outbound s = [] → mc_flush_actions s = [] →
  mc_pending_requests s = ∅ → settled (drop_driver s).
Proof.
  intros Ha Ho Hf Hr. split; [|done]. unfold senders, ack_senders, request_senders. cbn.
  rewrite Ha, Ho, Hf, Hr. by rewrite !map_to_list_empty.
Qed.

Lemma run_tail (result : Result unit) (s : Conn) :
  conn_end s → ∃ s', (let! _ := fail_pending in
    let! self := get in
    let! _ := match result with
              | Err _ => if mc_terminal_event_sent self then ret ()
                         else notify (Event_Disconnected TransportClosed)
              | _ => ret ()
              end in
    let! _ := on_stream t_shutdown in
    let! _ := modify drop_driver in
    lift result) s = (result, s') ∧ ended s s' ∧ settled s'.
Proof.
  intros Hs. destruct (fail_pending_clears s Hs) as (s1 & Hf & [[Hend Hc] (Ha & Ho & Hfl & Hr)]).
  rewrite (bind_ok _ _ _ _ _ Hf). rewrite (bind_ok get _ s1 s1 s1 eq_refl).
  assert (∃ ch, match result with
     | Err _ => if mc_terminal_event_sent s1 then ret ()
                else notify (Event_Disconnected TransportClosed)
     | _ => ret () end s1 = (Ok (), s1 <| mc_events := ch |>) ∧ bounded ch) as (ch & Hn & Hb).
  { assert (∃ ch, ret (E:=Error) () s1 = (Ok (), s1 <| mc_events := ch |>) ∧ bounded ch) as Hret.
    { exists (mc_events s1). split; [by destruct s1|]. by destruct Hend. }
    destruct result; try exact Hret. destruct (mc_terminal_event_sent s1); [exact Hret|].
    by apply notify_ended. }
  rewrite (bind_ok _ _ _ _ _ Hn). unfold bind at 1, on_stream.
  pose proof (shutdown_law (mc_stream (s1 <| mc_events := ch |>))) as [Hsr Hss]. cbn in Hss.
  cbn [mc_stream]. destruct (t_shutdown _) as [r w] eqn:Hsh. cbn in Hsr, Hss.
  assert (∃ s', (let! _ := modify drop_driver in lift result)
            (s1 <| mc_events := ch |> <| mc_stream := w |>) = (result, s')
            ∧ ended s s' ∧ settled s') as Hfin.
  { eexists. split; [done|]. split; [split; [|done]|by apply drop_settles].
    destruct Hend as [(fs & tail & more & Hw & Hrest) ? ? ? ? Hcmd]. split; cbn; try done.
    - exists fs, tail, more. split; [|done]. congruence.
    - unfold bounded; cbn. pose proof (zlen_nonneg (ch_queue (mc_commands s1))).
      unfold bounded in Hcmd. rewrite zlen_nil. lia. }
  by destruct r.
Qed.

Lemma run_ends client fuel tasks s :
  conn_ok s →
  outcome (run client fuel tasks) (λ _ s', ended s s' ∧ settled s')
    (λ _ s', ended s s' ∧ settled s') s.
Proof.
  intros Hs. pose proof (run_inner_allows client fuel tasks s Hs) as Hi.
  unfold outcome, run in *. unfold bind at 1, attempt.
  destruct (run_inner client fuel tasks s) as [[u|e|w|] s1]; try done.
  - destruct (run_tail (Ok u) s1) as (s' & -> & [He Hc] & Hset); [by apply conn_ok_end, Hi|].
    split; [|done]. split; [done|]. destruct Hi. congruence.
  - destruct (run_tail (Err e) s1) as (s' & -> & [He Hc] & Hset); [by apply Hi|].
    split; [|done]. split; [done|]. destruct Hi. congruence.
Qed.
End run_facts.
