(* ===== verification/AsyncLinear.v ===== *)
(** * Every operation is answered at most once

    The senders of the oneshot channels are linear resources: a Rust sender is moved from
    the command queue to a frame, an acknowledgement or a request, and consumed by [send].
    [tokens] counts the places of the driver that hold the sender [id], and the replies
    sent on it; [owes n m qa qe s] says that the call [m], given [n] more of them, ends with
    no more than it started with, those of its result ([qa], [qe]) included. *)

From S2P Require Import Prelude Errors Utf8 Str Types Decode Encode Topic Properties.
From S2P Require Import PropertiesFacts Packets Connect Publish Subscribe Ping PacketCodec.
From S2P Require Import CodecFacts Writers Frame Options Transport AsyncTypes AsyncDriver.
From S2P Require Import AsyncClient AsyncFacts.

Local Open Scope nat_scope.

Section linear.
Context {W : Type} {T : Transport W} {H : HashOrder W} (id : Sender).

Abbreviation Conn := (MqttConnection W).
Abbreviation ConnM A := (M Conn A).

(** *** Where a sender lives *)

Definition held (r : Sender) : nat := if decide (r = id) then 1 else 0.

#[local] Arguments held : simpl never.

Definition action_held (a : WrittenAction) : nat :=
  match a with WA_PublishQos0 r | WA_Disconnect r => held r | _ => 0 end.

Definition kind_held (k : PendingAckKind) : nat :=
  match k with PK_Publish r | PK_Subscribe _ r | PK_Unsubscribe _ r => held r | _ => 0 end.

Definition sent_on (o : Oneshots) : nat := sum_list_with (λ p, held p.1) (os_sent o).

Definition tokens (s : Conn) : nat :=
  sum_list_with (λ c, held (command_sender c)) (ch_queue (mc_commands s))
  + sum_list_with (λ f, action_held (of_action f)) (mc_outbound s)
  + sum_list_with (λ f, action_held (pf_action f)) (mc_flush_actions s)
  + msum (λ p, kind_held (pk_kind p)) (mc_pending_acks s)
  + msum (λ p, held (pr_result p)) (mc_pending_requests s)
  + sent_on (mc_oneshots s).

(** *** The accounting rules *)

Definition owes {E A} (n : nat) (m : st Conn E A) (qa : A → nat) (qe : E → nat) (s : Conn) : Prop :=
  tokens (m s).2 + match (m s).1 with Ok a => qa a | Err e => qe e | _ => 0 end ≤ n + tokens s
  ∧ os_next (mc_oneshots (m s).2) = os_next (mc_oneshots s).

Definition none {X} (_ : X) : nat := 0.
Arguments none {X} _ /.

Section rules.
Context {E : Type}.

Lemma owes_weaken {A} n0 n (m : st Conn E A) qa qe ra re s :
  owes n0 m qa qe s → n0 ≤ n → (∀ a, ra a ≤ qa a + (n - n0)) → (∀ e, re e ≤ qe e + (n - n0)) →
  owes n m ra re s.
Proof.
  unfold owes. intros [Hm ?] Hn Ha He. split; [|done].
  destruct (m s).1 as [a|e|w|]; [specialize (Ha a)|specialize (He e)|..]; lia.
Qed.

Lemma owes_ret {A} n (a : A) qa (qe : E → nat) s : qa a ≤ n → owes n (ret a) qa qe s.
Proof. intros. split; [cbn; lia|done]. Qed.

Lemma owes_fail {A} n (e : E) (qa : A → nat) qe s : qe e ≤ n → owes n (fail e) qa qe s.
Proof. intros. split; [cbn; lia|done]. Qed.

Lemma owes_panic {A} n w (qa : A → nat) (qe : E → nat) s : owes n (panic w) qa qe s.
Proof. intros. split; [cbn; lia|done]. Qed.

Lemma owes_diverge {A} n (qa : A → nat) (qe : E → nat) s : owes n diverge qa qe s.
Proof. intros. split; [cbn; lia|done]. Qed.

Lemma owes_lift {A} (r : result E A) s : owes 0 (lift r) none none s.
Proof. split; [|done]. cbn. destruct r; cbn; lia. Qed.

Lemma owes_get {A} n (k : Conn → st Conn E A) qa qe s :
  owes n (k s) qa qe s → owes n (bind get k) qa qe s.
Proof. done. Qed.

Lemma owes_bind {A B} n0 n (m : st Conn E A) (k : A → st Conn E B) qa qe ra s :
  owes n0 m qa qe s → n0 ≤ n →
  (∀ a s', m s = (Ok a, s') → owes (qa a + (n - n0)) (k a) ra none s') →
  owes n (bind m k) ra none s.
Proof.
  unfold owes at 1 3, bind. intros [Hm Hx] Hn Hk. destruct (m s) as [[a|e|w|] s'] eqn:Hr; cbn in *.
  - specialize (Hk a s' eq_refl). unfold owes in Hk. destruct Hk as [Hk ?].
    split; [|congruence]. destruct (k a s') as [[] ?]; cbn in *; lia.
  - split; [lia|done].
  - split; [lia|done].
  - split; [lia|done].
Qed.

Lemma owes_match {F A B} n0 n (m : st Conn F A) (h : F → st Conn E B) (k : A → st Conn E B)
    qa qe ra re s :
  owes n0 m qa qe s → n0 ≤ n →
  (∀ a s', m s = (Ok a, s') → owes (qa a + (n - n0)) (k a) ra re s') →
  (∀ e s', m s = (Err e, s') → owes (qe e + (n - n0)) (h e) ra re s') →
  owes n (match_result m h k) ra re s.
Proof.
  unfold owes at 1 4, match_result. intros [Hm Hx] Hn Hk Hh.
  destruct (m s) as [[a|e|w|] s'] eqn:Hr; cbn in *.
  - specialize (Hk a s' eq_refl). unfold owes in Hk. destruct Hk as [Hk ?].
    split; [|congruence]. destruct (k a s') as [[] ?]; cbn in *; lia.
  - specialize (Hh e s' eq_refl). unfold owes in Hh. destruct Hh as [Hh ?].
    split; [|congruence]. destruct (h e s') as [[] ?]; cbn in *; lia.
  - split; [lia|done].
  - split; [lia|done].
Qed.

Lemma owes_modify n f qa qe s :
  tokens (f s) + qa () ≤ n + tokens s → os_next (mc_oneshots (f s)) = os_next (mc_oneshots s) →
  owes (E:=E) n (modify f) qa qe s.
Proof. by split. Qed.

(** Continue from a state that holds no more. *)
Lemma owes_from {A} n (m m' : st Conn E A) qa qe s s' :
  m s = m' s' → tokens s' ≤ tokens s → os_next (mc_oneshots s') = os_next (mc_oneshots s) →
  owes n m' qa qe s' → owes n m qa qe s.
Proof. unfold owes. intros -> ? Hn [? ?]. split; [lia|congruence]. Qed.
End rules.

Lemma owes_for_each {A} (l : list A) (body : A → ConnM unit) s :
  (∀ x s', x ∈ l → owes 0 (body x) none none s') → owes 0 (for_each l body) none none s.
Proof.
  revert s. induction l as [|x l IH]; intros s Hb; cbn [for_each]; [by apply owes_ret|].
  eapply owes_bind; [apply Hb; left|done|]. intros u s' _. cbn. apply IH.
  intros. apply Hb. by right.
Qed.
(** *** Assignments *)

(** No sender moves. *)
Ltac unmoved := apply owes_modify; [unfold tokens; cbn; lia|done].

Lemma sent_on_send r x o : sent_on (oneshot_send r x o) = sent_on o + held r.
Proof. unfold sent_on, oneshot_send. cbn. rewrite sum_list_with_app. cbn. lia. Qed.

Lemma owes_send r x s : owes (held r) (send r x) none none s.
Proof.
  apply owes_modify; [|done]. unfold tokens. cbn -[oneshot_send sent_on]. rewrite sent_on_send. lia.
Qed.

Lemma owes_fails n f s :
  (∀ o, sent_on (f o) ≤ n + sent_on o ∧ os_next (f o) = os_next o) →
  owes n (fails f) none none s.
Proof.
  intros Hf. destruct (Hf (mc_oneshots s)) as [Hs Hn]. apply owes_modify; [|exact Hn].
  unfold tokens. cbn. lia.
Qed.

Lemma kind_fail_sent k e o :
  sent_on (PendingAckKind_fail k e o) ≤ kind_held k + sent_on o
  ∧ os_next (PendingAckKind_fail k e o) = os_next o.
Proof. destruct k; cbn -[oneshot_send]; rewrite ?sent_on_send; (split; [lia|done]). Qed.

Lemma action_fail_sent a e o :
  sent_on (WrittenAction_fail a e o) ≤ action_held a + sent_on o
  ∧ os_next (WrittenAction_fail a e o) = os_next o.
Proof. destruct a; cbn -[oneshot_send]; rewrite ?sent_on_send; (split; [lia|done]). Qed.

Lemma owes_kind_fail k e s : owes (kind_held k) (fails (PendingAckKind_fail k e)) none none s.
Proof. apply owes_fails. intros. apply kind_fail_sent. Qed.

Lemma owes_action_fail a e s : owes (action_held a) (fails (WrittenAction_fail a e)) none none s.
Proof. apply owes_fails. intros. apply action_fail_sent. Qed.

Lemma owes_command_fail c e s :
  owes (held (command_sender c)) (fails (Command_fail c e)) none none s.
Proof.
  apply owes_fails. intros o. destruct c; cbn -[oneshot_send]; rewrite sent_on_send; (split; [lia|done]).
Qed.

Lemma owes_response_subscriptions {E} f s :
  owes 0 (E:=E) (modify (λ c : Conn, c <| mc_response_subscriptions ::= f |>)) none none s.
Proof. unmoved. Qed.
Lemma owes_lifecycle {E} f s :
  owes 0 (E:=E) (modify (λ c : Conn, c <| mc_request_lifecycle ::= f |>)) none none s.
Proof. unmoved. Qed.
Lemma finish_request_lifecycle_owes k s :
  owes 0 (finish_request_lifecycle k) none none s.
Proof. apply owes_lifecycle. Qed.
Lemma owes_set_lifecycle {E} l s :
  owes 0 (E:=E) (modify (λ c : Conn, c <| mc_request_lifecycle := l |>)) none none s.
Proof. unmoved. Qed.
Lemma owes_closing {E} b s : owes 0 (E:=E) (modify (λ c : Conn, c <| mc_closing := b |>)) none none s.
Proof. unmoved. Qed.
Lemma owes_channel_closed {E} b s :
  owes 0 (E:=E) (modify (λ c : Conn, c <| mc_command_channel_closed := b |>)) none none s.
Proof. unmoved. Qed.
Lemma owes_terminal {E} b s :
  owes 0 (E:=E) (modify (λ c : Conn, c <| mc_terminal_event_sent := b |>)) none none s.
Proof. unmoved. Qed.
Lemma owes_needs_flush {E} b s :
  owes 0 (E:=E) (modify (λ c : Conn, c <| mc_needs_flush := b |>)) none none s.
Proof. unmoved. Qed.
Lemma owes_ping_queued {E} b s :
  owes 0 (E:=E) (modify (λ c : Conn, c <| mc_ping_queued := b |>)) none none s.
Proof. unmoved. Qed.
Lemma owes_ping {E} t s :
  owes 0 (E:=E) (modify (λ c : Conn, c <| mc_ping_outstanding_since := t |>)) none none s.
Proof. unmoved. Qed.
Lemma owes_next {E} n s :
  owes 0 (E:=E) (modify (λ c : Conn, c <| mc_next_packet_id := n |>)) none none s.
Proof. unmoved. Qed.

Lemma owes_acks {E} f s :
  msum (λ p, kind_held (pk_kind p)) (f (mc_pending_acks s))
    ≤ msum (λ p, kind_held (pk_kind p)) (mc_pending_acks s) →
  owes 0 (E:=E) (modify (λ c : Conn, c <| mc_pending_acks ::= f |>)) none none s.
Proof. intros Hf. apply owes_modify; [unfold tokens; cbn; lia|done]. Qed.

Lemma owes_delete_ack {E} i s :
  owes 0 (E:=E) (modify (λ c : Conn, c <| mc_pending_acks ::= delete i |>)) none none s.
Proof. apply owes_acks, msum_delete_le. Qed.

Lemma owes_tombstone {E} b i s :
  owes 0 (E:=E) (modify (λ c : Conn, c <| mc_pending_acks ::=
    alter (λ ack, ack <| pk_kind := PK_Tombstone Ack_Publish b |>) i |>)) none none s.
Proof. apply owes_acks, msum_alter. intros p. cbn. lia. Qed.

Lemma owes_undo_subscribe {E} i topic s :
  owes 0 (E:=E) (modify (λ c : Conn, c <| mc_pending_acks ::= delete i |>
    <| mc_response_subscriptions ::= delete topic |>)) none none s.
Proof.
  apply owes_modify; [|done]. unfold tokens. cbn.
  pose proof (msum_delete_le (λ p, kind_held (pk_kind p)) i (mc_pending_acks s)). lia.
Qed.

Lemma bury_cancelled_held o p : kind_held (pk_kind (bury_cancelled o p)) ≤ kind_held (pk_kind p).
Proof. unfold bury_cancelled. destruct (is_cancelled _ _); cbn; lia. Qed.

Lemma owes_bury_cancelled {E} s :
  owes 0 (E:=E) (modify (λ c : Conn, c <| mc_pending_acks ::=
    fmap (bury_cancelled (mc_oneshots c)) |>)) none none s.
Proof.
  apply owes_modify; [|done]. unfold tokens. cbn.
  pose proof (msum_fmap (λ p, kind_held (pk_kind p)) (bury_cancelled (mc_oneshots s))
    (mc_pending_acks s) (bury_cancelled_held _)). lia.
Qed.

(** A removed entry hands its sender over. *)
Lemma owes_take_ack {E} i p s :
  mc_pending_acks s !! i = Some p →
  owes 0 (E:=E) (modify (λ c : Conn, c <| mc_pending_acks ::= delete i |>))
    (λ _, kind_held (pk_kind p)) none s.
Proof.
  intros Hp. apply owes_modify; [|done]. unfold tokens. cbn.
  rewrite (msum_delete (λ p, kind_held (pk_kind p)) i p (mc_pending_acks s)) by done. lia.
Qed.

Lemma owes_bury_ack {E} i p s :
  mc_pending_acks s !! i = Some p →
  owes 0 (E:=E) (modify (λ c : Conn, c <| mc_pending_acks ::=
    <[ i := p <| pk_kind := tombstone_of (pk_kind p) |> ]> |>)) (λ _, kind_held (pk_kind p)) none s.
Proof.
  intros Hp. apply owes_modify; [|done]. unfold tokens. cbn.
  pose proof (msum_update (λ p, kind_held (pk_kind p)) i p
    (p <| pk_kind := tombstone_of (pk_kind p) |>) (mc_pending_acks s) Hp) as Hu.
  cbn in Hu. lia.
Qed.

Lemma owes_new_request {E} k p s :
  owes (held (pr_result p)) (E:=E)
    (modify (λ c : Conn, c <| mc_pending_requests ::= <[ k := p ]> |>)) none none s.
Proof.
  apply owes_modify; [|done]. unfold tokens. cbn.
  pose proof (msum_insert_le (λ p, held (pr_result p)) k p (mc_pending_requests s)). lia.
Qed.

Lemma owes_take_request {E} k p s :
  mc_pending_requests s !! k = Some p →
  owes 0 (E:=E) (modify (λ c : Conn, c <| mc_pending_requests ::= delete k |>))
    (λ _, held (pr_result p)) none s.
Proof.
  intros Hp. apply owes_modify; [|done]. unfold tokens. cbn.
  rewrite (msum_delete (λ p, held (pr_result p)) k p (mc_pending_requests s)) by done. lia.
Qed.

Lemma owes_requests {E} f s :
  msum (λ p, held (pr_result p)) (f (mc_pending_requests s))
    ≤ msum (λ p, held (pr_result p)) (mc_pending_requests s) →
  owes 0 (E:=E) (modify (λ c : Conn, c <| mc_pending_requests ::= f |>)) none none s.
Proof. intros Hf. apply owes_modify; [unfold tokens; cbn; lia|done]. Qed.

Lemma owes_published {E} i k s :
  owes 0 (E:=E) (modify (λ c : Conn, c <| mc_pending_requests ::=
    alter (λ p, p <| pr_published := true |> <| pr_publish_packet_id := i |>) k |>)) none none s.
Proof. apply owes_requests, msum_alter. intros p. apply Nat.le_refl. Qed.

Lemma owes_pop_command {E} c rest s :
  ch_queue (mc_commands s) = c :: rest →
  owes 0 (E:=E) (modify (λ c : Conn, c <| mc_commands ::= λ ch, ch <| ch_queue := rest |> |>))
    (λ _, held (command_sender c)) none s.
Proof.
  intros Hq. apply owes_modify; [|done]. unfold tokens. cbn. rewrite Hq. cbn. lia.
Qed.

(** *** The world, the events and the identifiers *)

Lemma owes_now {E} s : owes 0 (now (E:=E)) none none s.
Proof. unfold owes, now. destruct (t_now _). split; [unfold tokens; cbn; lia|done]. Qed.

Lemma owes_instant_add {E} t d s : owes 0 (instant_add (E:=E) t d) none none s.
Proof. unfold instant_add. destruct (instant_checked_add _ _ _); [by apply owes_ret|apply owes_panic]. Qed.

Lemma owes_on_stream {A} (m : IoM W A) s : owes 0 (on_stream m) none none s.
Proof.
  unfold owes, on_stream. destruct (m _) as [[] w]; (split; [unfold tokens; cbn; lia|done]).
Qed.

Lemma owes_on_reader {A} (m : FrameM A) s : owes 0 (on_reader m) none none s.
Proof.
  unfold owes, on_reader. destruct (m _) as [[] f]; (split; [unfold tokens; cbn; lia|done]).
Qed.

Lemma owes_try_send_event ev s : owes 0 (try_send_event ev) none none s.
Proof.
  unfold owes, try_send_event.
  destruct (try_send _ _); (split; [unfold tokens; cbn; lia|done]).
Qed.

Lemma owes_notify ev s : owes 0 (notify ev) none none s.
Proof.
  eapply owes_match; [apply owes_try_send_event|done|..]; intros; by apply owes_ret.
Qed.
(** *** The methods *)

Create HintDb owes discriminated.
#[local] Hint Constants Opaque : owes.
#[local] Hint Variables Opaque : owes.
#[local] Hint Resolve owes_lift owes_send owes_kind_fail owes_action_fail owes_command_fail
  owes_response_subscriptions owes_lifecycle finish_request_lifecycle_owes owes_set_lifecycle owes_closing owes_channel_closed
  owes_undo_subscribe owes_terminal owes_needs_flush owes_ping_queued owes_ping owes_next
  owes_tombstone owes_bury_cancelled owes_new_request owes_published owes_now owes_instant_add owes_on_stream
  owes_on_reader owes_try_send_event owes_notify : owes.

Ltac budget :=
  cbn; try match goal with Hk : pk_kind _ = _ |- _ => rewrite Hk end; cbn; lia.

(** The lemma of a call: first those that hand over the sender of a known entry. *)
Ltac owes_call :=
  lazymatch goal with
  | |- owes _ (modify (λ c, set mc_pending_acks (delete _) c)) _ _ _ =>
      first [solve [eapply owes_take_ack; eassumption] | apply owes_delete_ack]
  | |- owes _ (modify (λ c, set mc_pending_acks (insert _ _) c)) _ _ _ =>
      eapply owes_bury_ack; eassumption
  | |- owes _ (modify (λ c, set mc_pending_requests (delete _) c)) _ _ _ =>
      eapply owes_take_request; eassumption
  | |- owes _ (modify (λ c, set mc_commands _ c)) _ _ _ => eapply owes_pop_command; eassumption
  | |- _ => solve [eauto 3 with owes]
  end.

(** Walk a method, paying each call from the budget. *)
Ltac owes_step :=
  lazymatch goal with
  | |- owes _ (ret _) _ _ _ => apply owes_ret; budget
  | |- owes _ (fail _) _ _ _ => apply owes_fail; budget
  | |- owes _ (panic _) _ _ _ => apply owes_panic
  | |- owes _ diverge _ _ _ => apply owes_diverge
  | |- owes _ (bind get _) _ _ _ => apply owes_get
  | |- owes _ (bind _ _) _ _ _ =>
      first [ eapply owes_bind; [owes_call|budget|intros ? ? ?; cbn beta]
            | eapply (owes_bind 0 _ _ _ none none); [|lia|intros ? ? ?; cbn beta] ]
  | |- owes _ (match_result _ _ _) _ _ _ =>
      first [ eapply owes_match; [owes_call|budget|intros ? ? ?; cbn beta..]
            | eapply (owes_match 0 _ _ _ _ none none); [|lia|intros ? ? ?; cbn beta..] ]
  | |- owes _ (map_error _ _) _ _ _ => unfold map_error
  | |- owes _ (for_each _ _) _ _ _ =>
      eapply owes_weaken; [apply owes_for_each; intros ? ? _|lia|intros; budget..]
  | |- owes _ (match ?x with _ => _ end) _ _ _ => destruct x eqn:?
  | |- owes _ _ _ _ _ =>
      eapply owes_weaken; [owes_call|budget|intros; budget..]
  end.
Ltac owe := repeat owes_step.

Lemma reserve_owes s : owes 0 reserve_packet_id none none s.
Proof.
  unfold reserve_packet_id. generalize (Z.to_nat u16_max). intros n. revert s.
  induction n as [|n IH]; intros s; cbn [reserve_loop]; [by apply owes_fail|]. owe.
Qed.

Lemma insert_pending_ack_owes i kind label s :
  owes (kind_held kind) (insert_pending_ack i kind label) none (λ e, kind_held (pie_kind e)) s.
Proof.
  unfold insert_pending_ack. apply owes_get. destruct (_ <=? _)%Z; [by apply owes_fail|].
  assert (∀ d s, owes (kind_held kind) (E:=PendingInsertError)
    (modify (λ c : Conn, c <| mc_pending_acks ::= <[ i := mkPendingAck d label kind ]> |>)) none none s) as Hi.
  { intros d s1. apply owes_modify; [|done]. unfold tokens. cbn.
    pose proof (msum_insert_le (λ p, kind_held (pk_kind p)) i (mkPendingAck d label kind)
                  (mc_pending_acks s1)) as Hle. cbn in Hle. lia. }
  unfold owes, bind, now, instant_add. destruct (t_now (mc_stream s)) as [t w]. cbn beta iota zeta.
  destruct (instant_checked_add t_instant_max t (mc_ack_timeout s)) as [d|].
  - destruct (Hi d (s <| mc_stream := w |>)) as [Hm Hn]. split; [|exact Hn].
    etransitivity; [exact Hm|]. unfold tokens. cbn. lia.
  - split; [unfold tokens; cbn; lia|done].
Qed.

Lemma enqueue_with_action_owes bytes action k s :
  owes (action_held action) (enqueue_with_action bytes action k) none (λ p, action_held p.2) s.
Proof.
  unfold owes. rewrite enqueue_with_action_spec. destruct (_ <? _)%Z; [by split; cbn; lia|].
  destruct (_ <? _)%Z; [by split; cbn; lia|]. split; [|done].
  unfold tokens, enqueued. cbn. rewrite sum_list_with_app. cbn. lia.
Qed.

Lemma enqueue_owes bytes action k s :
  owes (action_held action) (enqueue bytes action k) none none s.
Proof.
  eapply owes_match; [apply enqueue_with_action_owes|lia|..]; intros;
    [apply owes_ret|apply owes_fail]; budget.
Qed.

#[local] Hint Resolve reserve_owes insert_pending_ack_owes enqueue_with_action_owes
  enqueue_owes : owes.

Lemma withdraw_ack_owes i e s : owes 0 (withdraw_ack i e) none none s.
Proof. unfold withdraw_ack. owe.
Qed.

Lemma retain_frames_held k q n b :
  sum_list_with (λ f, action_held (of_action f)) (retain_frames k q n b).1.1
    ≤ sum_list_with (λ f, action_held (of_action f)) q.
Proof.
  revert n b. induction q as [|f q IH]; intros n b; cbn [retain_frames]; [done|].
  destruct (unsent_of k f).
  - specialize (IH (saturating_sub n (zlen (of_bytes f))) true). cbn. lia.
  - specialize (IH n b). destruct (retain_frames k q n b) as [[r n'] b']. cbn in *. lia.
Qed.

Definition request_held (o : option PendingRequest) : nat :=
  match o with Some p => held (pr_result p) | None => 0 end.

Lemma remove_request_owes k s : owes 0 (remove_request k) request_held none s.
Proof.
  unfold remove_request. apply owes_get. destruct (_ !! k) as [pending|] eqn:Hp;
    [|by apply owes_ret].
  eapply owes_bind; [by apply owes_take_request|lia|]. intros ? s1 [= _ <-].
  eapply owes_bind; [apply owes_lifecycle|lia|]. intros ? s2 [= _ <-].
  pose proof (retain_frames_held k (mc_outbound s) (mc_outbound_bytes s) false) as Hle.
  destruct (retain_frames _ _ _ _) as [[retained bytes] removed]. cbn in Hle.
  eapply (owes_bind 0 _ _ _ none none); [|lia|].
  { apply owes_modify; [|done]. unfold tokens. cbn. lia. }
  intros ? s3 _. owe.
Qed.

#[local] Hint Resolve withdraw_ack_owes remove_request_owes : owes.

Lemma fail_request_owes k e s : owes 0 (fail_request k e) none none s.
Proof. unfold fail_request. owe. Qed.

#[local] Hint Resolve fail_request_owes : owes.

Lemma fail_requests_for_topic_owes topic e s : owes 0 (fail_requests_for_topic topic e) none none s.
Proof. unfold fail_requests_for_topic. owe. Qed.

Lemma begin_publish_owes topic payload options result s :
  owes (held result) (begin_publish topic payload options result) none none s.
Proof. unfold begin_publish. cbv zeta. owe. Qed.
Lemma begin_subscribe_owes filter qos result s :
  owes (held result) (begin_subscribe filter qos result) none none s.
Proof. unfold begin_subscribe. cbv zeta. owe. Qed.

Lemma begin_unsubscribe_owes filter result s :
  owes (held result) (begin_unsubscribe filter result) none none s.
Proof. unfold begin_unsubscribe. cbv zeta. owe. Qed.

Lemma begin_disconnect_owes result s : owes (held result) (begin_disconnect result) none none s.
Proof. unfold begin_disconnect. owe. Qed.

Lemma begin_abandoned_disconnect_owes s : owes 0 begin_abandoned_disconnect none none s.
Proof. unfold begin_abandoned_disconnect. owe. Qed.

Lemma publish_request_owes k s : owes 0 (publish_request k) none none s.
Proof. unfold publish_request. owe. Qed.

#[local] Hint Resolve fail_requests_for_topic_owes begin_publish_owes begin_subscribe_owes
  begin_unsubscribe_owes begin_disconnect_owes begin_abandoned_disconnect_owes
  publish_request_owes : owes.

Lemma publish_waiting_requests_owes topic s : owes 0 (publish_waiting_requests topic) none none s.
Proof. unfold publish_waiting_requests. owe. Qed.

Lemma subscribe_for_responses_owes topic s : owes 0 (subscribe_for_responses topic) none none s.
Proof. unfold subscribe_for_responses. owe. Qed.

#[local] Hint Resolve publish_waiting_requests_owes subscribe_for_responses_owes : owes.

Lemma begin_request_owes request result s :
  owes (held result) (begin_request request result) none none s.
Proof. unfold begin_request. cbv zeta. owe. Qed.

Lemma try_complete_request_owes packet s : owes 0 (try_complete_request packet) none none s.
Proof.
  unfold try_complete_request. destruct (get_binary _ _) as [k|]; [|owe]. apply owes_get.
  destruct (_ !! k) as [p|]; [|owe]. destruct (decide _); [|owe].
  eapply owes_bind; [apply remove_request_owes|lia|]. intros pending s1 _.
  eapply (owes_bind (request_held pending) _ _ _ none none); [|budget|intros; owe].
  destruct pending; owe.
Qed.

Lemma drain_cancellations_owes s : owes 0 drain_cancellations none none s.
Proof. unfold drain_cancellations. owe. Qed.

#[local] Hint Resolve begin_request_owes try_complete_request_owes drain_cancellations_owes : owes.

Lemma process_command_owes command s :
  owes (held (command_sender command)) (process_command command) none none s.
Proof. unfold process_command. destruct command; cbn [command_sender]; owe. Qed.

#[local] Hint Resolve process_command_owes : owes.

Lemma drain_commands_owes s : owes 0 drain_commands none none s.
Proof.
  unfold drain_commands. apply owes_get. generalize (Z.to_nat (mc_max_pending_operations s)).
  intros n. revert s. induction n as [|n IH]; intros s; cbn [drain_commands_loop]; owe.
Qed.

(** *** Writing and reading *)

Lemma complete_written_owes action s :
  owes (action_held action) (complete_written action) none none s.
Proof. destruct action; cbn [complete_written]; owe. Qed.

Lemma complete_flushes_owes actions s :
  mc_flush_actions s = actions → owes 0 (complete_flushes actions) none none s.
Proof.
  revert s. induction actions as [|flush rest IH]; intros s Hf; cbn [complete_flushes]; [owe|].
  eapply (owes_bind 0 _ _ _ (λ _, action_held (pf_action flush)) none); [|lia|].
  { apply owes_modify; [|done]. unfold tokens. cbn. rewrite Hf. cbn. lia. }
  intros ? s1 [= _ <-].
  eapply owes_bind; [apply complete_written_owes|budget|]. intros ? s2 H2.
  eapply owes_weaken; [apply IH|budget|intros; budget..].
  pose proof (complete_written_flushes (pf_action flush) (s <| mc_flush_actions := rest |>
        <| mc_outbound_bytes ::= λ n, saturating_sub n (pf_bytes flush) |>)) as Hw.
  rewrite H2 in Hw. exact Hw.
Qed.

Lemma flush_accepted_owes s : owes 0 flush_accepted none none s.
Proof.
  unfold flush_accepted. owe. eapply owes_weaken; [by apply complete_flushes_owes|budget|intros; budget..].
Qed.

#[local] Hint Resolve drain_commands_owes flush_accepted_owes : owes.

Lemma on_stream_frame {A} (m : IoM W A) (s : Conn) r s' :
  on_stream m s = (Ok r, s') → ∃ w, s' = s <| mc_stream := w |>.
Proof. unfold on_stream. destruct (m _) as [[] w]; intros [= _ <-]; by exists w. Qed.

Lemma now_frame {E} (s : Conn) t s' :
  now (E:=E) s = (Ok t, s') → ∃ w, s' = s <| mc_stream := w |>.
Proof. unfold now. destruct (t_now _) as [t' w]. intros [= _ <-]. by exists w. Qed.

Lemma write_loop_owes fuel s : owes 0 (write_loop fuel) none none s.
Proof.
  revert s. induction fuel as [|fuel IH]; intros s; cbn [write_loop]; [apply owes_diverge|].
  apply owes_get. destruct (mc_outbound s) as [|f rest] eqn:Hq; [owe|].
  eapply owes_bind; [apply owes_lift|lia|]. intros unwritten ? [= _ <-].
  eapply owes_bind; [apply owes_on_stream|lia|]. intros r s1 [w ->]%on_stream_frame.
  destruct r as [n|e|p|]; [|owe..]. destruct (n =? 0)%Z; [owe|]. destruct (_ <? n)%Z; [owe|].
  eapply (owes_bind 0 _ _ _ none none); [|lia|].
  { apply owes_modify; [|done]. unfold tokens. cbn. rewrite Hq. cbn. lia. }
  intros ? s2 [= _ <-]. eapply owes_bind; [apply owes_now|lia|]. intros t s3 [w' ->]%now_frame.
  eapply (owes_bind 0 _ _ _ none none); [unmoved|lia|]. intros ? s4 [= _ <-].
  eapply (owes_bind 0 _ _ _ none none); [|lia|intros; apply IH].
  destruct (_ =? _)%Z; [|owe].
  apply owes_modify; [|done]. unfold tokens. cbn. rewrite sum_list_with_app. cbn. lia.
Qed.

#[local] Hint Resolve write_loop_owes : owes.

Lemma flush_outbound_owes fuel s : owes 0 (flush_outbound fuel) none none s.
Proof. unfold flush_outbound. owe. Qed.

Lemma read_available_owes s : owes 0 read_available none none s.
Proof.
  unfold read_available. generalize 64. intros n. revert s.
  induction n as [|n IH]; intros s; cbn [read_loop]; owe.
Qed.

(** *** Dispatch *)

Lemma fold_sent {A} (h : A → nat) (g : A → Oneshots → Oneshots) (l : list A) o :
  (∀ x o, sent_on (g x o) ≤ h x + sent_on o ∧ os_next (g x o) = os_next o) →
  sent_on (fold_left (λ o x, g x o) l o) ≤ sum_list_with h l + sent_on o
  ∧ os_next (fold_left (λ o x, g x o) l o) = os_next o.
Proof.
  intros Hg. revert o. induction l as [|x l IH]; intros o; [by split; cbn|].
  cbn [fold_left sum_list_with]. destruct (IH (g x o)) as [Hl Hn], (Hg x o) as [Hx Hxn].
  split; [cbn; lia|congruence].
Qed.

Lemma fail_pending_owes s : owes 0 fail_pending none none s.
Proof.
  destruct (fail_pending_spec s) as [lf Hf]. unfold owes. rewrite Hf. clear Hf.
  unfold tokens. cbn -[fail_waiting fail_flushes fail_frames fail_acks]. rewrite !msum_empty.
  pose proof (msum_perm (λ p, kind_held (pk_kind p)) (mc_pending_acks s)
    (hash_iter (mc_pending_acks s) s) (reorder_perm _ _ _)) as Ha.
  pose proof (msum_perm (λ p, held (pr_result p)) (mc_pending_requests s)
    (hash_iter (mc_pending_requests s) s) (reorder_perm _ _ _)) as Hr.
  destruct (fold_sent (λ p : Z * PendingAck, kind_held (pk_kind p.2))
    (λ p, PendingAckKind_fail (pk_kind p.2) ConnectionClosed)
    (hash_iter (mc_pending_acks s) s) (mc_oneshots s)) as [H1 N1]; [intros; apply kind_fail_sent|].
  fold (fail_acks (hash_iter (mc_pending_acks s) s) (mc_oneshots s)) in H1, N1.
  set (o1 := fail_acks _ _) in *.
  destruct (fold_sent (λ f, action_held (of_action f))
    (λ f, WrittenAction_fail (of_action f) ConnectionClosed) (mc_outbound s) o1) as [H2 N2];
    [intros; apply action_fail_sent|].
  fold (fail_frames (mc_outbound s) o1) in H2, N2. set (o2 := fail_frames _ _) in *.
  destruct (fold_sent (λ f, action_held (pf_action f))
    (λ f, WrittenAction_fail (pf_action f) ConnectionClosed) (mc_flush_actions s) o2) as [H3 N3];
    [intros; apply action_fail_sent|].
  fold (fail_flushes (mc_flush_actions s) o2) in H3, N3. set (o3 := fail_flushes _ _) in *.
  destruct (fold_sent (λ p : list Z * PendingRequest, held (pr_result p.2))
    (λ p, oneshot_send (pr_result p.2) (Reply_Request (Err ConnectionClosed)))
    (hash_iter (mc_pending_requests s) s) o3) as [H4 N4].
  { intros. rewrite sent_on_send. split; [lia|done]. }
  fold (fail_waiting (hash_iter (mc_pending_requests s) s) o3) in H4, N4.
  split; [|congruence]. lia.
Qed.

Definition ack_held (o : option PendingAck) : nat :=
  match o with Some p => kind_held (pk_kind p) | None => 0 end.

Lemma take_pending_ack_owes i received s : owes 0 (take_pending_ack i received) ack_held none s.
Proof.
  unfold take_pending_ack. apply owes_get. destruct (_ !! i) as [p|] eqn:Hp; [|by apply owes_ret].
  destruct (decide _); [|by apply owes_fail].
  eapply owes_bind; [by apply owes_take_ack|lia|]. intros. by apply owes_ret; cbn; lia.
Qed.

#[local] Hint Resolve read_available_owes fail_pending_owes take_pending_ack_owes : owes.

Lemma complete_subscribe_owes ack qos result s :
  owes (held result) (complete_subscribe ack qos result) none none s.
Proof. unfold complete_subscribe. owe. Qed.

Lemma dispatch_publish_owes packet s : owes 0 (dispatch_publish packet) none none s.
Proof. unfold dispatch_publish. owe. Qed.

#[local] Hint Resolve complete_subscribe_owes dispatch_publish_owes : owes.

Lemma dispatch_puback_owes ack s : owes 0 (dispatch_puback ack) none none s.
Proof. unfold dispatch_puback. owe. Qed.

Lemma dispatch_suback_owes ack s : owes 0 (dispatch_suback ack) none none s.
Proof. unfold dispatch_suback. owe. Qed.

Lemma dispatch_unsuback_owes ack s : owes 0 (dispatch_unsuback ack) none none s.
Proof. unfold dispatch_unsuback. cbv zeta. owe. Qed.

#[local] Hint Resolve dispatch_puback_owes dispatch_suback_owes dispatch_unsuback_owes : owes.

Lemma dispatch_packet_owes packet s : owes 0 (dispatch_packet packet) none none s.
Proof. unfold dispatch_packet. owe. Qed.

#[local] Hint Resolve dispatch_packet_owes : owes.

Lemma decode_and_dispatch_owes s : owes 0 decode_and_dispatch none none s.
Proof.
  unfold decode_and_dispatch. apply owes_get. generalize (S (length (fr_buf (mc_frame_reader s)))).
  intros n. revert s. induction n as [|n IH]; intros s; cbn [dispatch_loop]; owe.
Qed.

(** *** Timers *)

#[local] Hint Resolve decode_and_dispatch_owes drain_cancellations_owes : owes.

Lemma expire_ack_owes i s : owes 0 (expire_ack i) none none s.
Proof. unfold expire_ack. cbv zeta. owe. Qed.

Lemma expire_request_owes k s : owes 0 (expire_request k) none none s.
Proof. unfold expire_request. cbv zeta. owe. Qed.

#[local] Hint Resolve expire_ack_owes expire_request_owes : owes.

Lemma expire_operations_owes s : owes 0 expire_operations none none s.
Proof. unfold expire_operations. cbv zeta. owe. Qed.

Lemma owes_fail_if {E} b (e : E) s : owes 0 (fail_if b e) none none s.
Proof. destruct b; [by apply owes_fail|by apply owes_ret]. Qed.

#[local] Hint Resolve expire_operations_owes owes_fail_if : owes.

Lemma maintain_keep_alive_owes s : owes 0 maintain_keep_alive none none s.
Proof. unfold maintain_keep_alive. owe. Qed.

Lemma next_wait_duration_owes s : owes 0 next_wait_duration none none s.
Proof. unfold next_wait_duration. cbv zeta. owe. Qed.

#[local] Hint Resolve maintain_keep_alive_owes next_wait_duration_owes flush_outbound_owes : owes.

(** *** The run loop *)

Lemma turn_owes fuel s : owes 0 (turn fuel) none none s.
Proof. unfold turn. owe. Qed.

Lemma receive_command_owes s : owes 0 receive_command none none s.
Proof. unfold receive_command. owe. Qed.
End linear.
