(* ===== verification/AsyncReplies.v ===== *)
(** * Every operation is answered exactly once

    The accounting of [AsyncLinear] lifted to the client handles and to
    [MqttConnection::run]: no channel ever carries two replies, and when [run] returns no
    future is left pending. *)

From S2P Require Import Prelude Errors Utf8 Str Types Decode Encode Topic Properties.
From S2P Require Import PropertiesFacts Packets Connect Publish Subscribe Ping PacketCodec.
From S2P Require Import CodecFacts Writers Frame Options Transport AsyncTypes AsyncDriver.
From S2P Require Import AsyncClient AsyncConnect AsyncFacts AsyncScript AsyncStart AsyncRun.
From S2P Require Import AsyncLinear.

Local Open Scope nat_scope.

Section replies.
Context {W : Type} {T : Transport W} {H : HashOrder W}.

Abbreviation Conn := (MqttConnection W).
Abbreviation ConnM A := (M Conn A).

(** The senders are linear: each channel created so far has at most one sender or reply,
    and channels not created yet have none. *)
Definition linear (s : Conn) : Prop :=
  ∀ id, tokens id s ≤ if decide (id < os_next (mc_oneshots s)) then 1 else 0.

#[local] Arguments held : simpl never.

Lemma held_self id : held id id = 1.
Proof. unfold held. by destruct (decide _). Qed.

Lemma action_senders_held id a : id ∈ action_senders a → action_held id a = 1.
Proof.
  destruct a; cbn; rewrite ?list_elem_of_singleton; intros Hin;
    [by apply not_elem_of_nil in Hin|subst|by apply not_elem_of_nil in Hin|subst
    |by apply not_elem_of_nil in Hin]; apply held_self.
Qed.

Lemma kind_senders_held id k : id ∈ kind_senders k → kind_held id k = 1.
Proof.
  destruct k; cbn; rewrite ?list_elem_of_singleton; intros Hin; subst;
    try apply held_self; by apply not_elem_of_nil in Hin.
Qed.

Lemma linear_owes {A} (m : ConnM A) s :
  (∀ id, owes id 0 m none none s) → linear s → linear (m s).2.
Proof.
  intros Hm Hs id. destruct (Hm id) as [Ht Hn]. specialize (Hs id). rewrite Hn.
  destruct (m s).1; cbn in Ht; lia.
Qed.

Lemma linear_same (s s' : Conn) :
  (∀ id, tokens id s' = tokens id s) → os_next (mc_oneshots s') = os_next (mc_oneshots s) →
  linear s → linear s'.
Proof. intros Ht Hn Hs id. rewrite Ht, Hn. apply Hs. Qed.

(** A channel is created and its sender goes to one place at most. *)
Lemma linear_created (s s' : Conn) :
  (∀ id, tokens id s' ≤ tokens id s + held id (os_next (mc_oneshots s))) →
  os_next (mc_oneshots s') = S (os_next (mc_oneshots s)) →
  linear s → linear s'.
Proof.
  intros Ht Hn Hs id. rewrite Hn. specialize (Ht id). specialize (Hs id).
  unfold held in Ht. repeat destruct (decide _); lia.
Qed.

Lemma bind_state {S E A B} (m : st S E A) (k : A → st S E B) (P : S → Prop) s :
  P (m s).2 → (∀ a s', m s = (Ok a, s') → P s' → P (k a s').2) → P (bind m k s).2.
Proof.
  intros Hm Hk. unfold bind. destruct (m s) as [[a|e|w|] s'] eqn:Hr; try exact Hm. by apply Hk.
Qed.

Lemma lift_state {S E A} (r : result E A) a (s s' : S) : lift r s = (Ok a, s') → r = Ok a ∧ s = s'.
Proof. by intros [= -> ->]. Qed.

(** *** The handles *)

Lemma send_command_tokens command (s : Conn) id :
  tokens id (send_command command s).2 ≤ tokens id s + held id (command_sender command)
  ∧ os_next (mc_oneshots (send_command command s).2) = os_next (mc_oneshots s).
Proof.
  unfold send_command, try_send. destruct (negb _); [split; [cbn; lia|done]|].
  destruct (_ <=? _)%Z; [split; [cbn; lia|done]|]. split; [|done].
  unfold tokens. cbn -[held]. rewrite sum_list_with_app. cbn -[held]. lia.
Qed.

(** [oneshot_channel] and a command that carries its sender. *)
Definition submit (command : Sender → Command) : ConnM Sender :=
  let! result := oneshot_channel in
  let! _ := send_command (command result) in
  ret result.

Lemma submit_linear command (s : Conn) :
  (∀ r, command_sender (command r) = r) → linear s → linear (submit command s).2.
Proof.
  intros Hc. set (r := os_next (mc_oneshots s)).
  set (s1 := s <| mc_oneshots ::= λ o, o <| os_next ::= S |> |>).
  assert ((submit command s).2 = (send_command (command r) s1).2) as ->.
  { unfold submit, bind at 1, oneshot_channel. fold r s1. unfold bind.
    by destruct (send_command _ s1) as [[] ?]. }
  apply linear_created.
  - intros id. destruct (send_command_tokens (command r) s1 id) as [Ht _].
    rewrite Hc in Ht. exact Ht.
  - destruct (send_command_tokens (command r) s1 0) as [_ Hn]. exact Hn.
Qed.

Lemma client_publish_linear client topic payload options (s : Conn) :
  linear s → linear (client_publish client topic payload options s).2.
Proof.
  intros Hs. unfold client_publish, bind at 1. destruct (_ <? _)%Z; [done|].
  by apply (submit_linear (Command_Publish topic payload options)).
Qed.

Lemma start_request_linear client request (s : Conn) :
  linear s → linear (start_request client request s).2.
Proof.
  intros Hs. unfold start_request, bind at 1. destruct (_ <? _)%Z; [done|]. cbn [fail_if].
  unfold ret at 1, bind at 1. destruct (register _ _) as [[u|e|w|] l]; try done.
  set (s1 := s <| mc_request_lifecycle := l |>).
  assert (linear s1) as H1 by exact Hs.
  pose proof (submit_linear (Command_Request request) s1 (λ _, eq_refl) H1) as H2.
  revert H2. unfold submit, match_result, bind, oneshot_channel, modify, fail, ret.
  by destruct (send_command _ _) as [[] s2].
Qed.

Lemma client_request_linear client uuid topic payload options (s : Conn) :
  linear s → linear (client_request client uuid topic payload options s).2.
Proof.
  intros Hs. unfold client_request, bind at 1, now. destruct (t_now _) as [t w].
  apply bind_state; [exact Hs|]. intros _ s1 [_ <-]%lift_state _.
  apply bind_state; [by apply start_request_linear|done].
Qed.

Lemma next_event_linear (s : Conn) : linear s → linear (next_event s).2.
Proof. intros Hs. unfold next_event, bind, get, modify, ret. by destruct (ch_queue _). Qed.

Lemma handle_step_linear client a (s : Conn) : linear s → linear (handle_step client a s).
Proof.
  intros Hs. destruct a; cbn [handle_step].
  - by apply client_publish_linear.
  - by apply (submit_linear (Command_Subscribe filter qos)).
  - by apply (submit_linear (Command_Unsubscribe filter)).
  - by apply (submit_linear Command_Disconnect).
  - by apply client_request_linear.
  - by apply next_event_linear.
  - exact Hs.
  - exact Hs.
  - exact Hs.
  - exact Hs.
Qed.

Lemma handle_steps_linear client actions (s : Conn) :
  linear s → linear (handle_steps client actions s).
Proof.
  unfold handle_steps. revert s. induction actions as [|a actions IH]; intros s Hs; [done|].
  cbn [fold_left]. apply IH. by apply handle_step_linear.
Qed.

(** *** The run loop *)

Lemma run_inner_linear client fuel tasks (s : Conn) :
  linear s → linear (run_inner client fuel tasks s).2.
Proof.
  revert s. induction tasks as [|actions tasks IH]; intros s Hs; cbn [run_inner];
    (apply bind_state; [by apply linear_owes; [intros; apply turn_owes|]|]);
    intros wait s1 _ H1; destruct wait; try done.
  apply bind_state; [by apply handle_steps_linear|]. intros _ s2 _ H2.
  apply bind_state; [by apply linear_owes; [intros; apply receive_command_owes|]|].
  intros _ s3 _ H3. by apply IH.
Qed.

Lemma drop_driver_linear (s : Conn) : linear s → linear (drop_driver s).
Proof. intros Hs id. specialize (Hs id). unfold tokens in *. cbn in *. lia. Qed.

Lemma run_linear client fuel tasks (s : Conn) : linear s → linear (run client fuel tasks s).2.
Proof.
  intros Hs. unfold run. apply bind_state.
  { unfold attempt. pose proof (run_inner_linear client fuel tasks s Hs) as Hi.
    by destruct (run_inner _ _ _ s) as [[] ?]. }
  intros result s1 _ H1.
  apply bind_state; [apply linear_owes; [intros; apply fail_pending_owes|done]|].
  intros _ s2 _ H2. apply bind_state; [done|]. intros s3 ? [= <- <-] H3.
  apply bind_state.
  { apply linear_owes; [|done]. intros id. destruct result; try by apply owes_ret.
    destruct (mc_terminal_event_sent _); [by apply owes_ret|apply owes_notify]. }
  intros _ s4 _ H4. apply bind_state; [apply linear_owes; [intros; apply owes_on_stream|done]|].
  intros _ s5 _ H5. apply bind_state; [by apply drop_driver_linear|]. by intros _ s6 _ H6.
Qed.

(** *** What the accounting says *)

Lemma sum_held_elem {A} (h : A → nat) (x : A) l : x ∈ l → h x ≤ sum_list_with h l.
Proof. induction 1 as [x l|x y l Hx IH]; cbn; lia. Qed.

Lemma sent_on_NoDup (o : Oneshots) : (∀ id, sent_on id o ≤ 1) → NoDup (os_sent o).*1.
Proof.
  unfold sent_on. generalize (os_sent o). intros l. induction l as [|[id r] l IH]; intros Hl.
  { constructor. }
  cbn. constructor.
  - intros Hin. apply list_elem_of_fmap in Hin as ([id' r'] & -> & Hin). cbn in *.
    specialize (Hl id'). cbn in Hl. rewrite held_self in Hl.
    pose proof (sum_held_elem (λ p : Sender * Reply, held id' p.1) (id', r') l Hin) as Hle.
    cbn in Hle. rewrite held_self in Hle. lia.
  - apply IH. intros id'. specialize (Hl id'). cbn in Hl. lia.
Qed.

Lemma sent_on_elem id (o : Oneshots) : id ∈ (os_sent o).*1 → 1 ≤ sent_on id o.
Proof.
  intros Hin. apply list_elem_of_fmap in Hin as ([id' r'] & -> & Hin).
  pose proof (sum_held_elem (λ p : Sender * Reply, held id' p.1) (id', r') _ Hin) as Hle.
  cbn in Hle. by rewrite held_self in Hle.
Qed.

Lemma senders_elem id (s : Conn) : id ∈ senders s → 1 + sent_on id (mc_oneshots s) ≤ tokens id s.
Proof.
  unfold senders, tokens. rewrite !elem_of_app. intros [Hin|[Hin|[Hin|[Hin|Hin]]]].
  - apply list_elem_of_fmap in Hin as (c & -> & Hin).
    pose proof (sum_held_elem (λ c', held (command_sender c) (command_sender c')) c _ Hin) as Hle'.
    cbv beta in Hle'. rewrite held_self in Hle'. lia.
  - apply list_elem_of_bind in Hin as (f & Hid & Hin).
    pose proof (sum_held_elem (λ f, action_held id (of_action f)) f _ Hin) as Hle; cbv beta in Hle.
    rewrite (action_senders_held id) in Hle by done. lia.
  - apply list_elem_of_bind in Hin as (f & Hid & Hin).
    pose proof (sum_held_elem (λ f, action_held id (pf_action f)) f _ Hin) as Hle; cbv beta in Hle.
    rewrite (action_senders_held id) in Hle by done. lia.
  - apply list_elem_of_bind in Hin as ([i p] & Hid & Hin). apply elem_of_map_to_list in Hin.
    pose proof (msum_delete (λ p, kind_held id (pk_kind p)) i p _ Hin) as Hle; cbv beta in Hle.
    rewrite (kind_senders_held id (pk_kind p)) in Hle by done. lia.
  - apply list_elem_of_fmap in Hin as ([k p] & -> & Hin). apply elem_of_map_to_list in Hin. cbn.
    pose proof (msum_delete (λ q, held (pr_result p) (pr_result q)) k p _ Hin) as Hle; cbv beta in Hle.
    rewrite held_self in Hle. lia.
Qed.

Lemma linear_at_most_once (s : Conn) :
  linear s →
  NoDup (os_sent (mc_oneshots s)).*1
  ∧ ∀ id, id ∈ (os_sent (mc_oneshots s)).*1 → id < os_next (mc_oneshots s) ∧ id ∉ senders s.
Proof.
  intros Hs. assert (∀ id, sent_on id (mc_oneshots s) ≤ tokens id s) as Hle by (unfold tokens; lia).
  split.
  - apply sent_on_NoDup. intros id. specialize (Hs id). specialize (Hle id).
    destruct (decide _); lia.
  - intros id Hid%sent_on_elem. specialize (Hs id). specialize (Hle id).
    destruct (decide _); [|lia]. split; [done|]. intros Hin%senders_elem. lia.
Qed.

Lemma linear_new stream t options connack caps commands events :
  ch_queue commands = [] →
  linear (new_connection (W:=W) stream t options connack caps commands events).
Proof. intros Hc id. unfold tokens. cbn. rewrite Hc, !msum_empty. cbn. lia. Qed.

(** C6. No operation is answered twice, and no reply goes to a channel whose sender is still
    held: from any state whose senders are linear (a new connection, by the laws of
    [oneshot::channel]), whatever the peer, the transport and the application do, the
    replies sent by [run] are on pairwise distinct channels that were created by a call of
    the handle, and an answered channel has no sender left in the command queue, the
    frames, the acknowledgements or the requests. *)
Theorem at_most_one_reply client fuel tasks (s : Conn) :
  linear s →
  let s' := (run client fuel tasks s).2 in
  NoDup (os_sent (mc_oneshots s')).*1
  ∧ ∀ id, id ∈ (os_sent (mc_oneshots s')).*1 → id < os_next (mc_oneshots s') ∧ id ∉ senders s'.
Proof. intros Hs. by apply linear_at_most_once, run_linear. Qed.
End replies.

Lemma example_linear events : linear (example_conn events).
Proof. by apply linear_new. Qed.

Lemma at_most_one_reply_witness :
  linear (example_conn example_events)
  ∧ (os_sent (mc_oneshots example_run.2)).*1 = [0; 1; 2]
  ∧ NoDup (os_sent (mc_oneshots example_run.2)).*1.
Proof.
  pose proof (example_linear example_events) as Hl.
  split; [exact Hl|]. split; [vm_compute; reflexivity|].
  exact (proj1 (at_most_one_reply example_client 1000 example_tasks _ Hl)).
Defined.

Section resolution.
Context {W : Type} {T : Transport W} {L : TransportLaws W} {H : HashOrder W} {C : ClockLaws W}.

(** The future of every channel created so far is ready. *)
Definition all_resolved (s : MqttConnection W) : Prop :=
  ∀ id, id < os_next (mc_oneshots s) →
    ∃ r, receive_result id s = Some r ∧ (r = None ↔ id ∉ (os_sent (mc_oneshots s)).*1).

Lemma reply_on_none id (o : Oneshots) : reply_on id o = None ↔ id ∉ (os_sent o).*1.
Proof.
  unfold reply_on. induction (os_sent o) as [|[i r] l IH]; cbn -[decide].
  { split; [intros _; apply not_elem_of_nil|done]. }
  rewrite not_elem_of_cons. destruct (decide (i = id)); [naive_solver|].
  rewrite IH. naive_solver.
Qed.

(** C5. Nobody waits forever on a driver that has returned: when [run] ends, with or
    without an error, every channel the handles created is resolved: its future yields the
    reply that was sent on it, and [ClientClosed] (the dropped sender) when none was. In
    particular operations still queued, written or waiting for an acknowledgement or a
    response are failed by [fail_pending] or dropped with the driver. *)
Theorem run_resolves_all client fuel tasks (s : MqttConnection W) :
  conn_ok s →
  match run client fuel tasks s with
  | (Panic _, _) => False
  | (Diverge, _) => True
  | (_, s') => all_resolved s'
  end.
Proof.
  intros Hs. pose proof (run_ends client fuel tasks s Hs) as He. unfold outcome in He.
  assert (∀ s', settled s' → all_resolved s') as Hr.
  { intros s' [Hn _] id _. pose proof (reply_on_none id (mc_oneshots s')) as Hnone.
    unfold receive_result. destruct (reply_on id _) as [r|]; [exists (Some r); naive_solver|].
    rewrite Hn, decide_False by apply not_elem_of_nil. exists None. naive_solver. }
  destruct (run _ _ _ _) as [[] s']; try done; by apply Hr, He.
Qed.
End resolution.

Lemma run_resolves_all_witness :
  conn_ok (example_conn example_events) ∧ all_resolved example_run.2.
Proof.
  split; [apply example_conn_ok|].
  pose proof (run_resolves_all example_client 1000 example_tasks _
                (example_conn_ok example_events)) as Hr.
  assert (example_run.1 = Ok ()) as Hok by (vm_compute; reflexivity).
  unfold example_run in *.
  destruct (run example_client 1000 example_tasks _) as [[u|e|w|] s'];
    [exact Hr|exact Hr|destruct Hr|discriminate Hok].
Defined.
