(* ===== verification/AsyncTotal.v ===== *)
(** * Every turn of the driver ends

    [total m s]: the call [m] ends in [s], leaves the frame reader alone and keeps the
    request lifecycle well formed. All methods of the driver are total except those that
    read or write the transport, whose loops are bounded by what is buffered: with a transport that
    never reports [Interrupted], a turn needs no more iterations than there are bytes
    in the outbound queue. *)

From S2P Require Import Prelude Errors Utf8 Str Types Decode Encode Topic Properties.
From S2P Require Import PropertiesFacts Packets Connect Publish Subscribe Ping PacketCodec.
From S2P Require Import CodecFacts Writers Frame Options Transport AsyncTypes AsyncDriver.
From S2P Require Import AsyncClient AsyncConnect AsyncFacts AsyncScript AsyncStart AsyncRun.

Local Open Scope Z_scope.

(** Cancelled requests are active ones, and there are at most [max_active]. *)
Definition lifecycle_ok (l : RequestLifecycle) : Prop :=
  rl_cancelled l ⊆ rl_active l ∧ Z.of_nat (size (rl_active l)) ≤ rl_max_active l.

Lemma lifecycle_ok_new n : 0 ≤ n → lifecycle_ok (RequestLifecycle_new n).
Proof. intros. split; cbn; [set_solver|]. rewrite size_empty. lia. Qed.

Lemma lifecycle_ok_remove k c l :
  lifecycle_ok l → c ∖ {[ k ]} ⊆ rl_cancelled l →
  lifecycle_ok (l <| rl_active ::= λ s, s ∖ {[ k ]} |> <| rl_cancelled := c ∖ {[ k ]} |>).
Proof.
  intros [Hc Hn] Hs. split; cbn; [set_solver|].
  pose proof (subseteq_size (rl_active l ∖ {[ k ]}) (rl_active l) ltac:(set_solver)). lia.
Qed.

Lemma finish_ok k l : lifecycle_ok l → lifecycle_ok (finish k l).
Proof. intros Hl. apply (lifecycle_ok_remove k (rl_cancelled l)); [done|set_solver]. Qed.

Lemma cancel_ok k l : lifecycle_ok l → lifecycle_ok (cancel k l).
Proof.
  intros [Hc Hn]. unfold cancel. destruct (decide _); [|done]. split; cbn; [set_solver|done].
Qed.

Lemma consume_cancellation_ok k l : lifecycle_ok l → lifecycle_ok (consume_cancellation k l).2.
Proof.
  intros Hl. unfold consume_cancellation. destruct (decide _); [|done]. by apply finish_ok.
Qed.

Lemma register_ok k l : lifecycle_ok l → lifecycle_ok (register k l).2.
Proof.
  intros [Hc Hn]. unfold register. destruct (_ <=? _) eqn:Hle; [done|].
  apply Z.leb_gt in Hle. destruct (decide _) as [|Hk]; [done|]. split; cbn; [set_solver|].
  rewrite size_union, size_singleton by set_solver. lia.
Qed.

Section total.
Context {W : Type} {T : Transport W} {L : TransportLaws W} {H : HashOrder W} {C : ClockLaws W}.

Abbreviation Conn := (MqttConnection W).
Abbreviation ConnM A := (M Conn A).

(** *** Rules *)

(** [strict] tells the calls that end and leave the reader alone, whatever the transport
    does, from those of which only the lifecycle is claimed. *)
Context (strict : Prop).

Definition tame (s s' : Conn) : Prop :=
  (strict → mc_frame_reader s' = mc_frame_reader s)
  ∧ rl_max_active (mc_request_lifecycle s') = rl_max_active (mc_request_lifecycle s)
  ∧ (lifecycle_ok (mc_request_lifecycle s) → lifecycle_ok (mc_request_lifecycle s')).

#[export] Instance tame_refl : Reflexive tame.
Proof. by intros s. Qed.

#[export] Instance tame_trans : Transitive tame.
Proof.
  intros s1 s2 s3 (Ha & ? & ?) (Hb & ? & ?). split; [|split; [congruence|auto]].
  intros Hs. rewrite (Hb Hs). by apply Ha.
Qed.

Definition total {E A} (m : st Conn E A) : Prop :=
  ∀ s, (strict → (m s).1 ≠ Diverge) ∧ tame s (m s).2.

Section rules.
Context {E : Type}.

Lemma total_ret {A} (a : A) : total (E:=E) (ret a).
Proof. by intros s. Qed.

Lemma total_fail {A} (e : E) : total (A:=A) (fail e).
Proof. by intros s. Qed.

Lemma total_panic {A} why : total (E:=E) (A:=A) (panic why).
Proof. by intros s. Qed.

Lemma total_lift {A} (r : result E A) : returns r → total (lift r).
Proof. intros Hr s. split; [|done]. by destruct r. Qed.

Lemma total_fail_if b (e : E) : total (fail_if b e).
Proof. destruct b; [apply total_fail|apply total_ret]. Qed.

Lemma total_get {A} (k : Conn → st Conn E A) : (∀ s, total (k s)) → total (bind get k).
Proof. intros Hk s. apply (Hk s). Qed.

Lemma total_bind {A B} (m : st Conn E A) (k : A → st Conn E B) :
  total m → (∀ a, total (k a)) → total (bind m k).
Proof.
  intros Hm Hk s. destruct (Hm s) as [Hd Ht]. unfold bind.
  destruct (m s) as [[a|e|w|] s']; [|split; [intros Hs; specialize (Hd Hs); cbn in *; congruence|done]..]. destruct (Hk a s') as [? ?].
  split; [done|]. by etransitivity.
Qed.

Lemma total_match {F A B} (m : st Conn F A) (h : F → st Conn E B) (k : A → st Conn E B) :
  total m → (∀ a, total (k a)) → (∀ e, total (h e)) → total (match_result m h k).
Proof.
  intros Hm Hk Hh s. destruct (Hm s) as [Hd Ht]. unfold match_result.
  destruct (m s) as [[a|e|w|] s']; [| |split; [intros Hs; specialize (Hd Hs); cbn in *; congruence|done]..].
  - destruct (Hk a s') as [? ?]. split; [done|]. by etransitivity.
  - destruct (Hh e s') as [? ?]. split; [done|]. by etransitivity.
Qed.

Lemma total_map_error {F A} (f : F → E) (m : st Conn F A) : total m → total (map_error f m).
Proof. intros. apply total_match; [done|intros; apply total_ret|intros; apply total_fail]. Qed.

(** An assignment to other fields. *)
Lemma total_modify (f : Conn → Conn) :
  (∀ s, mc_frame_reader (f s) = mc_frame_reader s
        ∧ mc_request_lifecycle (f s) = mc_request_lifecycle s) →
  total (E:=E) (modify f).
Proof.
  intros Hf s. split; [done|]. destruct (Hf s) as [Hr Hl]. unfold tame. cbn. rewrite Hl. by split; [intros _|].
Qed.

Lemma total_lifecycle (f : RequestLifecycle → RequestLifecycle) :
  (∀ l, rl_max_active (f l) = rl_max_active l ∧ (lifecycle_ok l → lifecycle_ok (f l))) →
  total (E:=E) (modify (λ c : Conn, c <| mc_request_lifecycle ::= f |>)).
Proof. intros Hf s. split; [done|]. by split; [|apply Hf]. Qed.
End rules.

Lemma total_for_each {A} (l : list A) (body : A → ConnM unit) :
  (∀ x, total (body x)) → total (for_each l body).
Proof.
  intros Hb. induction l as [|x l IH]; cbn [for_each]; [apply total_ret|].
  apply total_bind; [apply Hb|]. intros _. exact IH.
Qed.

Lemma finish_request_lifecycle_total k : total (finish_request_lifecycle k).
Proof. apply total_lifecycle. intros l. split; [done|]. apply finish_ok. Qed.

Lemma total_now {E} : total (now (E:=E)).
Proof. intros s. unfold now. by destruct (t_now _). Qed.

Lemma total_instant_add {E} t d : total (instant_add (E:=E) t d).
Proof. unfold instant_add. destruct (instant_checked_add _ _ _); [apply total_ret|apply total_panic]. Qed.

Lemma try_send_event_total ev : total (try_send_event ev).
Proof.
  intros s. unfold try_send_event, try_send. destruct (negb _); [done|]. by destruct (_ <=? _).
Qed.

Lemma notify_total ev : total (notify ev).
Proof. apply total_match; [apply try_send_event_total|intros; apply total_ret..]. Qed.

Lemma enqueue_with_action_total bytes action k : total (enqueue_with_action bytes action k).
Proof.
  intros s. rewrite enqueue_with_action_spec. by repeat destruct (_ <? _).
Qed.

(** *** The methods *)

Create HintDb total discriminated.
#[local] Hint Constants Opaque : total.
#[local] Hint Variables Opaque : total.
#[local] Hint Resolve total_fail_if finish_request_lifecycle_total total_now total_instant_add
  try_send_event_total notify_total enqueue_with_action_total validate_topic_name_returns
  validate_topic_filter_returns validate_publish_returns validate_subscription_filter_returns
  validate_suback_codes_returns : total.

Ltac total_step :=
  lazymatch goal with
  | |- total (ret _) => apply total_ret
  | |- total (fail _) => apply total_fail
  | |- total (panic _) => apply total_panic
  | |- total (bind get _) => apply total_get; intros ?; cbn beta
  | |- total (bind _ _) => apply total_bind; [|intros ?; cbn beta]
  | |- total (match_result _ _ _) => apply total_match; [|intros ?; cbn beta..]
  | |- total (map_error _ _) => apply total_map_error
  | |- total (for_each _ _) => apply total_for_each; intros ?; cbn beta
  | |- total (send _ _) => apply total_modify; by intros
  | |- total (fails _) => apply total_modify; by intros
  | |- total (modify _) => apply total_modify; by intros
  | |- total (lift _) => apply total_lift
  | |- total (match ?x with _ => _ end) => destruct x eqn:?
  | |- total _ => solve [eauto 3 with total]
  | |- returns (rbind (validate_topic_name ?t) _) =>
      pose proof (validate_topic_name_returns t); destruct (validate_topic_name t); try done; cbn
  | |- returns (ok_or ?o _) => by destruct o
  | |- returns (PublishPacket_encode ?p) => eapply builds_returns, PublishPacket_encode_builds
  | |- returns (PubAckPacket_encode ?p) => eapply builds_returns, PubAckPacket_encode_builds
  | |- returns (SubscribePacket_encode ?p) => eapply builds_returns, SubscribePacket_encode_builds
  | |- returns (UnsubscribePacket_encode ?p) => eapply builds_returns, UnsubscribePacket_encode_builds
  | |- returns (DisconnectPacket_encode ?p) => eapply builds_returns, DisconnectPacket_encode_builds
  | |- returns _ => solve [eauto 3 with total]
  end.
Ltac halt := repeat total_step.

Lemma reserve_total : total reserve_packet_id.
Proof.
  unfold reserve_packet_id. generalize (Z.to_nat u16_max). intros n.
  induction n as [|n IH]; cbn [reserve_loop]; [apply total_fail|]. halt; exact IH.
Qed.

Lemma insert_pending_ack_total i kind label : total (insert_pending_ack i kind label).
Proof. unfold insert_pending_ack. halt. Qed.

Lemma enqueue_total bytes action k : total (enqueue bytes action k).
Proof. unfold enqueue. halt. Qed.

Lemma withdraw_ack_total i e : total (withdraw_ack i e).
Proof. unfold withdraw_ack. halt. Qed.

#[local] Hint Resolve reserve_total insert_pending_ack_total enqueue_total withdraw_ack_total
  : total.

Lemma begin_publish_total topic payload options result :
  total (begin_publish topic payload options result).
Proof. unfold begin_publish. cbv zeta. halt. Qed.

Lemma begin_subscribe_total filter qos result : total (begin_subscribe filter qos result).
Proof. unfold begin_subscribe. cbv zeta. halt. Qed.

Lemma begin_unsubscribe_total filter result : total (begin_unsubscribe filter result).
Proof. unfold begin_unsubscribe. cbv zeta. halt. Qed.

Lemma begin_disconnect_total result : total (begin_disconnect result).
Proof. unfold begin_disconnect. halt. Qed.

Lemma begin_abandoned_disconnect_total : total begin_abandoned_disconnect.
Proof. unfold begin_abandoned_disconnect. halt. Qed.

Lemma remove_request_total k : total (remove_request k).
Proof.
  unfold remove_request. apply total_get. intros s. destruct (_ !! k); [|apply total_ret].
  apply total_bind; [halt|]. intros _. apply total_bind; [halt|]. intros _.
  destruct (retain_frames _ _ _ _) as [[r n] b]. halt.
Qed.

#[local] Hint Resolve begin_publish_total begin_subscribe_total begin_unsubscribe_total
  begin_disconnect_total begin_abandoned_disconnect_total remove_request_total : total.

Lemma fail_request_total k e : total (fail_request k e).
Proof. unfold fail_request. halt. Qed.

#[local] Hint Resolve fail_request_total : total.

Lemma fail_requests_for_topic_total topic e : total (fail_requests_for_topic topic e).
Proof. unfold fail_requests_for_topic. halt. Qed.

Lemma publish_request_total k : total (publish_request k).
Proof. unfold publish_request. halt. Qed.

#[local] Hint Resolve fail_requests_for_topic_total publish_request_total : total.

Lemma publish_waiting_requests_total topic : total (publish_waiting_requests topic).
Proof. unfold publish_waiting_requests. halt. Qed.

Lemma subscribe_for_responses_total topic : total (subscribe_for_responses topic).
Proof. unfold subscribe_for_responses. halt. Qed.

#[local] Hint Resolve publish_waiting_requests_total subscribe_for_responses_total : total.

Lemma total_consume {A} k (m : Conn → bool → ConnM A) :
  (∀ s b, total (m s b)) →
  total (let! self := get in
         let '(b, l) := consume_cancellation k (mc_request_lifecycle self) in
         let! _ := modify (λ c, c <| mc_request_lifecycle := l |>) in m self b).
Proof.
  intros Hm s. unfold bind, get, modify. pose proof (consume_cancellation_ok k (mc_request_lifecycle s)) as Hl.
  assert (rl_max_active (consume_cancellation k (mc_request_lifecycle s)).2
          = rl_max_active (mc_request_lifecycle s)) as Hmax
    by (unfold consume_cancellation; by destruct (decide _)).
  destruct (consume_cancellation _ _) as [b l].
  destruct (Hm s b (s <| mc_request_lifecycle := l |>)) as [Hd Ht]. split; [exact Hd|].
  etransitivity; [|exact Ht]. by split.
Qed.

Lemma begin_request_total request result : total (begin_request request result).
Proof.
  unfold begin_request. cbv zeta. apply total_consume. intros s b. halt.
Qed.

Lemma try_complete_request_total packet : total (try_complete_request packet).
Proof. unfold try_complete_request. halt. Qed.

Lemma drain_cancellations_total : total drain_cancellations.
Proof. unfold drain_cancellations. halt. Qed.

#[local] Hint Resolve begin_request_total try_complete_request_total : total.

Lemma process_command_total command : total (process_command command).
Proof. unfold process_command. halt. Qed.

#[local] Hint Resolve process_command_total : total.

Lemma drain_commands_total : total drain_commands.
Proof.
  unfold drain_commands. apply total_get. intros s. generalize (Z.to_nat (mc_max_pending_operations s)).
  intros n. induction n as [|n IH]; cbn [drain_commands_loop]; halt; exact IH.
Qed.

Lemma receive_command_total : total receive_command.
Proof. unfold receive_command. halt. Qed.

(** *** Dispatch and timers *)

Lemma fail_pending_total : total fail_pending.
Proof. unfold fail_pending. halt. Qed.

Lemma take_pending_ack_total i received : total (take_pending_ack i received).
Proof. unfold take_pending_ack. halt. Qed.

Lemma validate_reason_codes_returns packet codes n : returns (validate_reason_codes packet codes n).
Proof. unfold validate_reason_codes. destruct (negb _); [done|]. by destruct (find_code _). Qed.

#[local] Hint Resolve fail_pending_total take_pending_ack_total : total.

(** A known outcome of a validation leaves two branches. *)
Ltac validated r Hr :=
  pose proof Hr; destruct r as [?|[]|?|] eqn:?; try done; halt.

Lemma complete_subscribe_total ack qos result : total (complete_subscribe ack qos result).
Proof.
  unfold complete_subscribe.
  validated (validate_suback_codes (sa_reason_codes ack) [qos])
    (validate_suback_codes_returns (sa_reason_codes ack) [qos]).
Qed.

Lemma dispatch_publish_total packet : total (dispatch_publish packet).
Proof. unfold dispatch_publish. halt. Qed.

Lemma dispatch_puback_total ack : total (dispatch_puback ack).
Proof. unfold dispatch_puback. halt. Qed.

#[local] Hint Resolve complete_subscribe_total dispatch_publish_total dispatch_puback_total : total.

Lemma dispatch_suback_total ack : total (dispatch_suback ack).
Proof.
  unfold dispatch_suback. apply total_bind; [halt|]. intros [p|]; [|halt].
  destruct (pk_kind p); try (halt; fail).
  validated (validate_suback_codes (sa_reason_codes ack) [AtLeastOnce])
    (validate_suback_codes_returns (sa_reason_codes ack) [AtLeastOnce]).
Qed.

Lemma dispatch_unsuback_total ack : total (dispatch_unsuback ack).
Proof. unfold dispatch_unsuback. cbv zeta. halt. Qed.

#[local] Hint Resolve dispatch_suback_total dispatch_unsuback_total : total.

Lemma dispatch_packet_total packet : total (dispatch_packet packet).
Proof. unfold dispatch_packet. halt. Qed.

Lemma expire_ack_total i : total (expire_ack i).
Proof. unfold expire_ack. cbv zeta. halt. Qed.

Lemma expire_request_total k : total (expire_request k).
Proof. unfold expire_request. cbv zeta. halt. Qed.

#[local] Hint Resolve expire_ack_total expire_request_total : total.

Lemma expire_operations_total : total expire_operations.
Proof. unfold expire_operations. cbv zeta. halt. Qed.

Lemma maintain_keep_alive_total : total maintain_keep_alive.
Proof. unfold maintain_keep_alive. halt. Qed.

Lemma next_wait_duration_total : total next_wait_duration.
Proof. unfold next_wait_duration. cbv zeta. halt. Qed.

(** *** The transport *)

Lemma total_on_stream {A B} (m : IoM W A) (k : io_Result A → ConnM B) :
  (strict → ∀ w, (m w).1 ≠ Diverge) → (∀ a, total (k (Ok a))) → (∀ e, total (k (Err e))) →
  total (bind (on_stream m) k).
Proof.
  intros Hm Hk He s. unfold bind, on_stream. specialize (λ Hs, Hm Hs (mc_stream s)).
  destruct (m _) as [[a|e|why|] w]; cbn in Hm.
  - destruct (Hk a (s <| mc_stream := w |>)) as [Hd Ht]. split; [exact Hd|].
    etransitivity; [|exact Ht]. done.
  - destruct (He e (s <| mc_stream := w |>)) as [Hd Ht]. split; [exact Hd|].
    etransitivity; [|exact Ht]. done.
  - done.
  - split; [|done]. intros Hs. by specialize (Hm Hs).
Qed.

Lemma complete_written_total action : total (complete_written action).
Proof. destruct action; cbn [complete_written]; halt. Qed.

#[local] Hint Resolve complete_written_total : total.

Lemma complete_flushes_total actions : total (complete_flushes actions).
Proof. induction actions as [|flush rest IH]; cbn [complete_flushes]; halt; exact IH. Qed.

Lemma quiet_ends {A} (m : IoM W A) w : quiet sent m → (m w).1 ≠ Diverge.
Proof. intros Hq. destruct (Hq w) as [Hr _]. by destruct (m w) as [[] ?]. Qed.

Lemma flush_accepted_total : total flush_accepted.
Proof.
  unfold flush_accepted. pose proof complete_flushes_total.
  apply total_on_stream; [intros _ w; apply quiet_ends, flush_law|intros; halt; done..].
Qed.
End total.

(** ** The lifecycle along a turn *)

Section calm.
Context {W : Type} {T : Transport W} {L : TransportLaws W} {H : HashOrder W}.

Abbreviation Conn := (MqttConnection W).

(** A call that keeps the lifecycle well formed, whether it ends or not. *)
Abbreviation calm m := (total False m).

Lemma calm_diverge {E A} : calm (diverge (S:=Conn) (E:=E) (A:=A)).
Proof. by intros s. Qed.

Lemma calm_on_stream {A} (m : IoM W A) : calm (on_stream m).
Proof. intros s. unfold on_stream. by destruct (m _) as [[] ?]. Qed.

Lemma calm_on_reader {A} (m : FrameM A) : calm (on_reader (W:=W) m).
Proof. intros s. unfold on_reader. by destruct (m _) as [[] ?]. Qed.

Lemma calm_lift {E A} (r : result E A) : calm (lift (S:=Conn) r).
Proof. by intros s. Qed.

Ltac calm_step :=
  lazymatch goal with
  | |- total _ (ret _) => apply total_ret
  | |- total _ (fail _) => apply total_fail
  | |- total _ (panic _) => apply total_panic
  | |- total _ diverge => apply calm_diverge
  | |- total _ (lift _) => apply calm_lift
  | |- total _ (bind get _) => apply total_get; intros ?; cbn beta
  | |- total _ (bind _ _) => apply total_bind; [|intros ?; cbn beta]
  | |- total _ (on_stream _) => apply calm_on_stream
  | |- total _ (on_reader _) => apply calm_on_reader
  | |- total _ (modify _) => apply total_modify; by intros
  | |- total _ now => apply total_now
  | |- total _ (match ?x with _ => _ end) => destruct x eqn:?
  end.

Lemma write_loop_calm fuel : calm (write_loop (W:=W) fuel).
Proof.
  induction fuel as [|fuel IH]; cbn [write_loop]; [apply calm_diverge|].
  repeat calm_step; exact IH.
Qed.

Lemma flush_outbound_calm fuel : calm (flush_outbound (W:=W) fuel).
Proof.
  unfold flush_outbound. pose proof (flush_accepted_total (W:=W) False).
  pose proof (write_loop_calm fuel). by repeat calm_step.
Qed.

Lemma read_available_calm : calm (read_available (W:=W)).
Proof.
  unfold read_available. pose proof (notify_total (W:=W) False).
  generalize 64%nat. intros n. induction n as [|n IH]; cbn [read_loop]; [apply total_ret|].
  repeat calm_step; first [exact IH|done].
Qed.

Lemma decode_and_dispatch_calm : calm (decode_and_dispatch (W:=W)).
Proof.
  unfold decode_and_dispatch. apply total_get. intros s.
  generalize (S (length (fr_buf (mc_frame_reader s)))). intros n.
  pose proof (dispatch_packet_total (W:=W) False).
  induction n as [|n IH]; cbn [dispatch_loop]; [apply calm_diverge|].
  repeat calm_step; first [exact IH|done].
Qed.

Lemma turn_calm fuel : calm (turn (W:=W) fuel).
Proof.
  unfold turn. pose proof (flush_outbound_calm fuel). pose proof read_available_calm.
  pose proof decode_and_dispatch_calm. pose proof (drain_cancellations_total (W:=W) False).
  pose proof (drain_commands_total (W:=W) False). pose proof (expire_operations_total (W:=W) False).
  pose proof (maintain_keep_alive_total (W:=W) False).
  pose proof (next_wait_duration_total (W:=W) False).
  by repeat calm_step.
Qed.
End calm.

(** ** A turn ends *)

Section ends.
Context {W : Type} {T : Transport W} {L : TransportLaws W} {H : HashOrder W} {C : ClockLaws W}.

Abbreviation Conn := (MqttConnection W).
Abbreviation ConnM A := (M Conn A).

(** No write is interrupted by a signal: otherwise the write loop retries as long as
    the transport insists. *)
Definition steady : Prop :=
  ∀ buf w e w', t_write buf w = (Err e, w') → io_kind e ≠ Interrupted.

Context (Hsteady : steady) (fuel : nat).

(** The invariant, and fuel for every byte the queue may hold. *)
Definition ready (s : Conn) : Prop :=
  conn_ok s ∧ mc_max_outbound_queue_bytes s < Z.of_nat fuel.

Definition halts {E A} (m : st Conn E A) (s : Conn) : Prop := (m s).1 ≠ Diverge.

Lemma good_ready s s' : good s s' → ready s → ready s'.
Proof. intros [Hs Hc] [_ Hf]. split; [done|]. unfold config in Hc. injection Hc. congruence. Qed.

Lemma total_halts {E A} (m : st Conn E A) s : total True m → halts m s.
Proof. intros Hm. by apply Hm. Qed.

Lemma halts_bind {A B} (m : ConnM A) (k : A → ConnM B) s :
  ready s → halts m s → allows m s →
  (∀ a s', m s = (Ok a, s') → ready s' → halts (k a) s') → halts (bind m k) s.
Proof.
  intros Hr Hm Ha Hk. specialize (Ha (proj1 Hr)). unfold halts, outcome, bind in *.
  destruct (m s) as [[a|e|w|] s'] eqn:Hs; try done. apply (Hk a s' eq_refl). by eapply good_ready.
Qed.

(** The bytes the write loop still has to hand over. *)
Definition unwritten (q : list OutboundFrame) : Z :=
  frames_bytes q - match q with [] => 0 | f :: _ => of_offset f end.

Lemma unwritten_advanced f rest n :
  Forall (λ g, of_offset g = 0) rest →
  unwritten (advanced f rest n) = unwritten (f :: rest) - n.
Proof.
  intros Hr. unfold advanced, unwritten. destruct (_ =? _) eqn:He.
  - apply Z.eqb_eq in He. rewrite frames_bytes_cons. destruct rest as [|g rest]; [lia|].
    apply Forall_cons_1 in Hr as [Hg _]. lia.
  - rewrite !frames_bytes_cons. cbn. lia.
Qed.

Lemma unwritten_bound s : conn_ok s → unwritten (mc_outbound s) ≤ mc_max_outbound_queue_bytes s.
Proof.
  intros Hs. pose proof (flushes_bytes_nonneg _ (ok_flushes s Hs)). unfold unwritten.
  pose proof (ok_bytes s Hs). pose proof (ok_limit s Hs). destruct (ok_queue s Hs) as [_ Hq].
  destruct (mc_outbound s) as [|f q]; [|destruct Hq as [? _]]; lia.
Qed.

Lemma write_loop_ends n s :
  conn_ok s → unwritten (mc_outbound s) < Z.of_nat n → halts (write_loop n) s.
Proof using Hsteady L C.
  revert s. induction n as [|n IH]; intros s Hs Hn.
  { exfalso. unfold unwritten in Hn. pose proof (frames_bytes_nonneg (mc_outbound s)).
    destruct (ok_queue s Hs) as [Hf Hq]. destruct (mc_outbound s) as [|f q]; [lia|].
    rewrite frames_bytes_cons in Hn. pose proof (frames_bytes_nonneg q). lia. }
  unfold halts. destruct (mc_outbound s) as [|f rest] eqn:Hq.
  { cbn [write_loop]. rewrite (bind_ok get _ s s s eq_refl), Hq. done. }
  pose proof (ok_queue s Hs) as [_ Ho]. rewrite Hq in Ho. destruct Ho as [Ho Hrest].
  rewrite (write_loop_step n f rest s) by done.
  pose proof (write_law (zdrop (of_offset f) (of_bytes f)) (mc_stream s)) as Hw.
  destruct (t_write _ _) as [[k|e|why|] w] eqn:Hwr; try done.
  - destruct Hw as [Hk Hw]. rewrite zlen_zdrop in Hk by lia. destruct (k =? 0) eqn:Hz; [done|].
    apply Z.eqb_neq in Hz. pose proof (clock_law w). pose proof (now_law w).
    apply IH.
    + apply wrote_good; try done; [lia|congruence].
    + cbn. rewrite unwritten_advanced by done. lia.
  - rewrite decide_False by by eapply Hsteady. by destruct (decide _).
Qed.

Lemma flush_accepted_halts s : halts flush_accepted s.
Proof using L. apply total_halts, flush_accepted_total. Qed.

Lemma halts_ret {A} (a : A) s : halts (E:=Error) (ret a) s.
Proof. done. Qed.

Lemma flush_outbound_ends s : ready s → halts (flush_outbound fuel) s.
Proof using Hsteady L C.
  intros Hr. unfold flush_outbound. apply (halts_bind get _ s); [done..|]. intros ? ? [= <- <-] _.
  apply halts_bind; [done|..].
  { destruct (mc_needs_flush s); [|done]. apply halts_bind; [done|apply flush_accepted_halts| |done].
    apply keeps_allows, flush_accepted_keeps. }
  { apply keeps_allows. destruct (mc_needs_flush s); [|apply keeps_ret].
    apply keeps_bind; [apply flush_accepted_keeps|intros; apply keeps_ret]. }
  intros blocked s1 _ Hr1. destruct blocked; [done|].
  apply halts_bind; [done| |apply keeps_allows, write_loop_keeps|].
  { destruct Hr1 as [Hs1 Hf]. pose proof (unwritten_bound s1 Hs1). apply write_loop_ends; [done|lia]. }
  intros _ s2 _ Hr2. apply (halts_bind get _ s2); [done..|]. intros ? ? [= <- <-] _.
  destruct (mc_needs_flush s2); [|done].
  apply halts_bind; [done|apply flush_accepted_halts|apply keeps_allows, flush_accepted_keeps|done].
Qed.

Lemma push_ends data r : (FrameReader_push data r).1 ≠ Diverge.
Proof.
  unfold FrameReader_push, bind, get, modify, lift, slice_range. destruct (_ <? zlen data); [|done].
  destruct (_ <? 0); [done|]. by destruct (_ <? _).
Qed.

Lemma read_loop_ends n s : halts (read_loop n) s.
Proof using L.
  revert s. induction n as [|n IH]; intros s; [done|]. cbn [read_loop]. unfold halts.
  rewrite (bind_ok get _ s s s eq_refl). destruct (_ =? 0); [done|]. unfold bind at 1, on_stream.
  set (cap := Z.min _ 8192).
  assert (0 ≤ cap) as Hc by (subst cap; unfold remaining_capacity, saturating_sub; lia).
  pose proof (read_law cap (mc_stream s) Hc) as Hr.
  destruct (t_read cap (mc_stream s)) as [[l|e|why|] w]; try done.
  - destruct l as [|b l].
    + apply total_halts. apply total_bind; [apply notify_total|]. intros _.
      apply total_bind; [by apply total_modify|]. intros _. apply total_fail.
    + unfold bind, on_reader. cbn -[FrameReader_push read_loop]. pose proof (push_ends (b :: l) (mc_frame_reader s)) as Hp.
      destruct (FrameReader_push _ _) as [[u|e|why|] f]; try done. apply IH.
  - destruct (decide _); [apply IH|]. by destruct (decide _).
Qed.

(** Every packet dispatched shortens the buffer. *)
Lemma try_decode_shorter (s : Conn) packet s' :
  conn_ok s → on_reader try_decode s = (Ok (Some packet), s') →
  (length (fr_buf (mc_frame_reader s')) < length (fr_buf (mc_frame_reader s)))%nat.
Proof.
  intros Hs. destruct (ok_reader s Hs) as [Hr Ho _]. unfold on_reader.
  rewrite (try_decode_spec _ Hr Ho). unfold after_decode.
  destruct (next_frame _ _) as [[[p rest]|]|e|why|] eqn:Hn; intros [= _ <-]. cbn.
  apply Packet_frame_rest_ok in Hn as [_ Hlen]; [|apply Hr]. unfold zlen in Hlen. lia.
Qed.

Lemma try_decode_ends (s : Conn) : conn_ok s → halts (on_reader try_decode) s.
Proof.
  intros Hs. destruct (ok_reader s Hs) as [Hr Ho _]. unfold halts, on_reader.
  rewrite (try_decode_spec _ Hr Ho). pose proof (next_frame_returns _ Hr).
  by destruct (next_frame _ _) as [[[]|]| | |].
Qed.

Lemma dispatch_loop_ends n s :
  ready s → (length (fr_buf (mc_frame_reader s)) < n)%nat → halts (dispatch_loop n) s.
Proof using L C.
  revert s. induction n as [|n IH]; intros s Hs Hn; [lia|]. cbn [dispatch_loop].
  apply halts_bind; [done|by apply try_decode_ends, Hs|apply keeps_allows, try_decode_keeps|].
  intros [packet|] s1 Hd Hs1; [|done].
  pose proof (try_decode_shorter s packet s1 (proj1 Hs) Hd).
  pose proof (try_decode_sound s packet s1 (proj1 Hs) Hd).
  pose proof (dispatch_packet_total True packet) as Ht.
  apply halts_bind; [done|by apply total_halts|by apply dispatch_packet_allows|].
  intros [] s2 H2 Hs2. apply IH; [done|].
  destruct (Ht s1) as [_ [Hf _]]. rewrite H2 in Hf. cbn in Hf. rewrite (Hf I). lia.
Qed.

Lemma decode_and_dispatch_ends s : ready s → halts decode_and_dispatch s.
Proof using L C. intros Hs. by apply dispatch_loop_ends; [|lia]. Qed.

Lemma turn_ends s : ready s → halts (turn fuel) s.
Proof using Hsteady L C.
  intros Hs. unfold turn.
  apply halts_bind; [done|apply total_halts, drain_cancellations_total|
                     apply keeps_allows, drain_cancellations_keeps|]. intros _ s1 _ Hs1.
  apply halts_bind; [done|apply total_halts, drain_commands_total|
                     apply keeps_allows, drain_commands_keeps|]. intros _ s2 _ Hs2.
  apply halts_bind; [done|by apply flush_outbound_ends|
                     apply keeps_allows, flush_outbound_keeps|]. intros _ s3 _ Hs3.
  apply (halts_bind get _ s3); [done..|]. intros ? ? [= <- <-] _. destruct (finished s3); [done|].
  apply halts_bind; [done|apply read_loop_ends|apply keeps_allows, read_available_keeps|].
  intros _ s4 _ Hs4.
  apply halts_bind; [done|by apply decode_and_dispatch_ends|apply decode_and_dispatch_allows|].
  intros _ s5 _ Hs5.
  apply halts_bind; [done|apply total_halts, expire_operations_total|
                     apply keeps_allows, expire_operations_keeps|]. intros _ s6 _ Hs6.
  apply halts_bind; [done|apply total_halts, maintain_keep_alive_total|
                     apply keeps_allows, maintain_keep_alive_keeps|]. intros _ s7 _ Hs7.
  apply halts_bind; [done|by apply flush_outbound_ends|
                     apply keeps_allows, flush_outbound_keeps|]. intros _ s8 _ Hs8.
  apply (halts_bind get _ s8); [done..|]. intros ? ? [= <- <-] _. destruct (finished s8); [done|].
  apply halts_bind; [done|apply total_halts, next_wait_duration_total|
                     apply keeps_allows, next_wait_duration_keeps|done].
Qed.
End ends.
