(* ===== verification/AsyncLive.v ===== *)
(** * The driver between two turns

    [live s0 s]: starting from [s0], the driver can be waiting for a command in [s],
    after any number of turns and any interleaving of calls of the application. The
    invariants of the connection hold in every such state, and the driver is
    never anywhere else: a run that has not returned is at its await. *)

From S2P Require Import Prelude Errors Utf8 Str Types Decode Encode Topic Properties.
From S2P Require Import PropertiesFacts Packets Connect Publish Subscribe Ping PacketCodec.
From S2P Require Import CodecFacts Writers Frame Options Transport AsyncTypes AsyncDriver.
From S2P Require Import AsyncClient AsyncConnect AsyncFacts AsyncScript AsyncStart AsyncRun.
From S2P Require Import AsyncLinear AsyncReplies AsyncTotal.

Local Open Scope Z_scope.

Section live.
Context {W : Type} {T : Transport W} {L : TransportLaws W} {H : HashOrder W} {C : ClockLaws W}.

Abbreviation Conn := (MqttConnection W).

Inductive live (client : AsyncMqttClient) (s0 : Conn) : Conn → Prop :=
  | live_start : live client s0 s0
  | live_task s a : live client s0 s → live client s0 (handle_step client a s)
  | live_turn s fuel w s' :
      live client s0 s → turn fuel s = (Ok (Some w), s') → live client s0 s'
  | live_command s s' :
      live client s0 s → receive_command s = (Ok (), s') → live client s0 s'.

(** *** The lifecycle through the handles *)

Lemma oneshot_channel_total P : total (W:=W) P oneshot_channel.
Proof. by intros s. Qed.

Lemma send_command_total P command : total (W:=W) P (send_command command).
Proof.
  intros s. unfold send_command, try_send. destruct (negb _); [done|]. by destruct (_ <=? _).
Qed.

Lemma submit_total P command : total (W:=W) P (submit command).
Proof.
  unfold submit. apply total_bind; [apply oneshot_channel_total|]. intros r.
  apply total_bind; [apply send_command_total|]. intros _. apply total_ret.
Qed.

Lemma client_publish_total P client topic payload options :
  total (W:=W) P (client_publish client topic payload options).
Proof.
  apply total_bind; [apply total_fail_if|]. intros _.
  apply (submit_total P (Command_Publish topic payload options)).
Qed.

Lemma start_request_total P client request : total (W:=W) P (start_request client request).
Proof.
  apply total_bind; [apply total_fail_if|]. intros _. apply total_bind.
  { intros s. pose proof (register_ok (rc_correlation_data request) (mc_request_lifecycle s)) as Hr.
    assert (rl_max_active (register (rc_correlation_data request) (mc_request_lifecycle s)).2
            = rl_max_active (mc_request_lifecycle s)) as Hm.
    { unfold register. destruct (_ <=? _); [done|]. by destruct (decide _). }
    assert (returns (register (rc_correlation_data request) (mc_request_lifecycle s)).1) as Hret.
    { unfold register. destruct (_ <=? _); [done|]. by destruct (decide _). }
    destruct (register _ _) as [r l]. split; [intros _; by destruct r|]. by split. }
  intros _. apply total_bind; [apply oneshot_channel_total|]. intros r.
  apply total_match; [apply send_command_total|intros; apply total_ret|]. intros e.
  apply total_bind; [|intros; apply total_fail].
  apply total_lifecycle. intros l. split; [done|apply finish_ok].
Qed.

Lemma client_request_total P client uuid topic payload options :
  total (W:=W) P (client_request client uuid topic payload options).
Proof.
  apply total_bind; [apply total_now|]. intros t.
  apply total_bind; [apply total_lift, RequestOptions_validate_returns|]. intros _.
  apply total_bind; [apply start_request_total|]. intros r. apply total_ret.
Qed.

Lemma next_event_total P : total (W:=W) P next_event.
Proof.
  apply total_get. intros s. destruct (ch_queue _); [apply total_ret|].
  apply total_bind; [by apply total_modify|]. intros _. apply total_ret.
Qed.

Lemma handle_step_tame client a (s : Conn) : tame False s (handle_step client a s).
Proof.
  destruct a; cbn [handle_step].
  - apply client_publish_total.
  - apply (submit_total False (Command_Subscribe filter qos)).
  - apply (submit_total False (Command_Unsubscribe filter)).
  - apply (submit_total False Command_Disconnect).
  - apply client_request_total.
  - apply next_event_total.
  - done.
  - split; [done|]. cbn. unfold RequestCancellation_drop, cancel.
    destruct (rcn_correlation_data guard) as [k|]; [|done].
    split; [by destruct (decide _)|]. apply (cancel_ok k).
  - split; [done|]. cbn. unfold RequestCancellation_finish.
    destruct (rcn_correlation_data guard) as [k|]; [|done]. split; [done|]. apply finish_ok.
  - done.
Qed.

(** *** The invariant *)

(** The lifecycle table is within its bound, and cancelled requests are active. *)
Definition lifecycle_inv (s : Conn) : Prop := lifecycle_ok (mc_request_lifecycle s).

Lemma total_lifecycle_inv {A} (m : M Conn A) s :
  total False m → lifecycle_inv s → lifecycle_inv (m s).2.
Proof. intros Hm. by apply Hm. Qed.

Lemma live_inv client s0 s :
  conn_ok s0 → linear s0 → lifecycle_inv s0 → live client s0 s →
  good s0 s ∧ linear s ∧ lifecycle_inv s.
Proof.
  intros H0 L0 C0. induction 1 as [|s a Hs (Hg & Hl & Hc)|s fuel w s' Hs (Hg & Hl & Hc) Ht
                                   |s s' Hs (Hg & Hl & Hc) Hr].
  - split; [by apply good_refl|done].
  - split; [eapply good_trans; [exact Hg|apply handle_step_good, Hg]|].
    split; [by apply handle_step_linear|]. by apply handle_step_tame.
  - split; [eapply good_trans; [exact Hg|]|].
    { pose proof (turn_allows fuel s (proj1 Hg)) as Ha. unfold outcome in Ha. by rewrite Ht in Ha. }
    pose proof (linear_owes (turn fuel) s (λ id, turn_owes id fuel s) Hl) as Hl'.
    pose proof (total_lifecycle_inv (turn fuel) s (turn_calm fuel) Hc) as Hc'.
    rewrite Ht in Hl', Hc'. done.
  - split; [eapply good_trans; [exact Hg|]|].
    { pose proof (receive_command_keeps s (proj1 Hg)) as Ha. unfold outcome in Ha.
      by rewrite Hr in Ha. }
    pose proof (linear_owes receive_command s (λ id, receive_command_owes id s) Hl) as Hl'.
    pose proof (total_lifecycle_inv receive_command s (receive_command_total False) Hc) as Hc'.
    rewrite Hr in Hl', Hc'. done.
Qed.

(** C4. The invariant of the connection, in every state the driver waits in: whatever
    the peer sends, however the transport splits reads and writes and whichever calls the
    application makes, the stream carries whole, well-formed packets followed by the
    written prefix of the first queued frame; the byte count of the queue is exact and within
    [max_outbound_queue_bytes]; pending acknowledgements have identifiers in 1..65535
    and, like the pending requests, never exceed [command_capacity]; both channels are
    within their capacities; the reader has not overflowed; each operation has at most
    one sender or reply; the request lifecycle is within its bound and its cancelled
    requests are active ones; and the limits agreed in the handshake are unchanged. *)
Theorem live_invariant client s0 s :
  conn_ok s0 → linear s0 → lifecycle_inv s0 → live client s0 s →
  conn_ok s ∧ linear s ∧ lifecycle_inv s ∧ config s = config s0.
Proof. intros H0 L0 C0 Hs. destruct (live_inv client s0 s H0 L0 C0 Hs) as ([??] & ? & ?). auto. Qed.

(** *** Runs that have not returned *)

(** All [tasks] are done and the driver waits in [s']. *)
Inductive waiting (client : AsyncMqttClient) (fuel : nat)
  : list (list handle_action) → Conn → Conn → Prop :=
  | waiting_here s w s' :
      turn fuel s = (Ok (Some w), s') → waiting client fuel [] s s'
  | waiting_next actions tasks s w s1 s2 s' :
      turn fuel s = (Ok (Some w), s1) →
      receive_command (handle_steps client actions s1) = (Ok (), s2) →
      waiting client fuel tasks s2 s' →
      waiting client fuel (actions :: tasks) s s'.

Lemma run_inner_waits client fuel tasks (s : Conn) :
  steady (W:=W) → ready fuel s → (run_inner client fuel tasks s).1 = Diverge →
  ∃ s', waiting client fuel tasks s s'.
Proof.
  intros Hst. revert s. induction tasks as [|actions tasks IH]; intros s Hs; cbn [run_inner];
    unfold bind at 1; pose proof (turn_ends Hst fuel s Hs) as Ht;
    pose proof (turn_allows fuel s (proj1 Hs)) as Ha; unfold halts, outcome in Ht, Ha;
    destruct (turn fuel s) as [[[w|]|e|why|] s1] eqn:Hr; try done.
  - intros _. exists s1. by apply waiting_here with w.
  - pose proof (good_ready fuel s s1 Ha Hs) as Hs1. unfold bind at 1, modify.
    pose proof (handle_steps_good client actions s1 (proj1 Hs1)) as Hg.
    pose proof (good_ready fuel _ _ Hg Hs1) as Hs2.
    pose proof (receive_command_keeps _ (proj1 Hs2)) as Hk.
    pose proof (receive_command_total True (handle_steps client actions s1)) as [Hd _].
    unfold outcome in Hk. unfold bind at 1. specialize (Hd I).
    destruct (receive_command _) as [[[]|e|why|] s2] eqn:Hc; try done.
    intros Hdiv. destruct (IH s2 (good_ready fuel _ _ Hk Hs2) Hdiv) as [s' Hw].
    exists s'. by eapply waiting_next.
Qed.

(** C7. The driver is never stuck: with a transport whose writes are not interrupted,
    and fuel for the bytes the outbound queue may hold, every loop of a turn ends
    (the write loop hands over every queued byte at most once, the dispatch loop consumes at
    least two bytes per packet, the read loop is bounded by 64 reads), so that a run
    has either returned or waits for a command with all its tasks done. *)
Theorem run_returns_or_waits client fuel tasks (s : Conn) :
  steady (W:=W) → conn_ok s → mc_max_outbound_queue_bytes s < Z.of_nat fuel →
  returns (run client fuel tasks s).1 ∨ ∃ s', waiting client fuel tasks s s'.
Proof.
  intros Hst Hs Hf. assert (ready fuel s) as Hr by done.
  destruct (run_inner client fuel tasks s) as [[u|e|why|] s1] eqn:Hi.
  4: right; apply (run_inner_waits client fuel tasks s Hst Hr); by rewrite Hi.
  all: left; pose proof (run_ends client fuel tasks s Hs) as He;
    pose proof (run_inner_allows client fuel tasks s Hs) as Ha; unfold outcome in *;
    rewrite Hi in Ha; try done.
  all: unfold run; unfold bind at 1, attempt; rewrite Hi.
  - by destruct (run_tail (Ok u) s1) as (s' & -> & _); [apply conn_ok_end, Ha|].
  - by destruct (run_tail (Err e) s1) as (s' & -> & _); [apply Ha|].
Qed.
End live.

(** ** Examples *)

Lemma net_steady : steady (W:=Net).
Proof.
  intros buf w e w'. cbn. unfold net_write. destruct (net_window w) as [|n rest]; [done|].
  destruct (n <=? 0); [|done]. by intros [= <- _].
Qed.

Lemma example_lifecycle events : lifecycle_inv (example_conn events).
Proof. apply lifecycle_ok_new. cbn. lia. Qed.

(** A published message, one turn later: the packet is written and awaits its PUBACK. *)
Definition example_published : MqttConnection Net :=
  handle_step example_client (HPublish (lit "t") [1; 2] example_publish) (example_conn [Idle 1]).

Lemma live_invariant_witness :
  match turn 1000 example_published with
  | (Ok (Some _), s) =>
      live example_client (example_conn [Idle 1]) s ∧ conn_ok s ∧ linear s
      ∧ net_sent (mc_stream s) = [50; 8; 0; 1; 116; 0; 1; 0; 1; 2]
  | _ => False
  end.
Proof.
  assert (match turn 1000 example_published with
          | (Ok (Some _), s) => net_sent (mc_stream s) | _ => [] end
          = [50; 8; 0; 1; 116; 0; 1; 0; 1; 2]) as Hw by (vm_compute; reflexivity).
  destruct (turn 1000 example_published) as [[[w|]|e|why|] s] eqn:Ht; try discriminate Hw.
  assert (live example_client (example_conn [Idle 1]) s) as Hs.
  { apply (live_turn _ _ example_published 1000 w s); [|exact Ht]. apply live_task, live_start. }
  destruct (live_invariant example_client _ s (example_conn_ok [Idle 1])
    (example_linear [Idle 1]) (example_lifecycle [Idle 1]) Hs) as (H1 & H2 & _).
  exact (conj Hs (conj H1 (conj H2 Hw))).
Defined.

(** The session of [example_run] returns; without its last task, it waits. *)
Lemma run_returns_or_waits_witness :
  (run example_client 1001 (take 1 example_tasks) (example_conn example_events)).1
    = Diverge
  ∧ ∃ s', waiting example_client 1001 (take 1 example_tasks)
            (example_conn example_events) s'.
Proof.
  assert ((run example_client 1001 (take 1 example_tasks)
             (example_conn example_events)).1 = Diverge) as Hd by (vm_compute; reflexivity).
  split; [exact Hd|].
  destruct (run_returns_or_waits example_client 1001 (take 1 example_tasks)
    (example_conn example_events) net_steady (example_conn_ok example_events)) as [Hr|Hw].
  - cbn. lia.
  - rewrite Hd in Hr. destruct Hr.
  - exact Hw.
Defined.
