(* ===== verification/AsyncProps.v ===== *)
(** * What the driver's methods do

    The functional behaviour of [MqttConnection], operation by operation: packet
    identifiers, admission of publishes, delivery of acknowledgements, deadlines,
    keep-alive and wake-up times. *)

From S2P Require Import Prelude Errors Utf8 Str Types Decode Encode Topic Properties.
From S2P Require Import PropertiesFacts Packets Connect Publish Subscribe Ping PacketCodec.
From S2P Require Import CodecFacts Writers Frame Options Transport AsyncTypes AsyncDriver.
From S2P Require Import AsyncClient AsyncConnect AsyncFacts AsyncScript AsyncStart.

Local Open Scope Z_scope.

Section packet_ids.
Context {W : Type} {T : Transport W} {L : TransportLaws W} {H : HashOrder W} {C : ClockLaws W}.

Abbreviation Conn := (MqttConnection W).

(** The identifier [k] places after [id], in the cycle 1..65535. *)
Definition id_plus (id k : Z) : Z := 1 + (id - 1 + k) mod 65535.

Lemma id_plus_0 id : 1 ≤ id ≤ 65535 → id_plus id 0 = id.
Proof. intros. unfold id_plus. rewrite Z.add_0_r, Z.mod_small; lia. Qed.

Lemma id_plus_after id k : 1 ≤ id ≤ 65535 → id_plus (id_after id) k = id_plus id (k + 1).
Proof.
  intros. unfold id_plus, id_after. destruct (id =? 65535) eqn:He.
  - apply Z.eqb_eq in He as ->. replace (65535 - 1 + (k + 1)) with (k + 1 * 65535) by lia.
    rewrite Z.mod_add by lia. done.
  - do 2 f_equal. lia.
Qed.

Lemma id_plus_cycle id : 1 ≤ id ≤ 65535 → id_plus id 65535 = id.
Proof.
  intros. unfold id_plus. replace (id - 1 + 65535) with (id - 1 + 1 * 65535) by lia.
  rewrite Z.mod_add, Z.mod_small by lia. lia.
Qed.

Lemma id_plus_range id k : 1 ≤ id_plus id k ≤ 65535.
Proof. unfold id_plus. pose proof (Z.mod_pos_bound (id - 1 + k) 65535). lia. Qed.

Lemma id_plus_plus id k : id_plus (id_plus id k) 1 = id_plus id (k + 1).
Proof.
  unfold id_plus. rewrite Z.add_assoc.
  replace (1 + (id - 1 + k) mod 65535 - 1 + 1) with ((id - 1 + k) mod 65535 + 1) by lia.
  by rewrite Z.add_mod_idemp_l.
Qed.

Lemma id_plus_reaches id id' :
  1 ≤ id ≤ 65535 → 1 ≤ id' ≤ 65535 → id_plus id ((id' - id) mod 65535) = id'.
Proof.
  intros. unfold id_plus. rewrite Z.add_mod_idemp_r by lia.
  replace (id - 1 + (id' - id)) with (id' - 1) by lia. rewrite Z.mod_small by lia. lia.
Qed.

Lemma reserve_loop_search n (s : Conn) :
  1 ≤ mc_next_packet_id s ≤ 65535 →
  let nth k := id_plus (mc_next_packet_id s) k in
  let used k := is_Some (mc_pending_acks s !! nth k) in
  match reserve_loop n s with
  | (Ok id, s') =>
      ∃ k, 0 ≤ k < Z.of_nat n ∧ id = nth k ∧ ¬ used k ∧ (∀ j, 0 ≤ j < k → used j)
           ∧ s' = s <| mc_next_packet_id := nth (k + 1) |>
  | (Err e, s') =>
      e = QueueFull "packet identifiers" ∧ (∀ j, 0 ≤ j < Z.of_nat n → used j)
      ∧ s' = s <| mc_next_packet_id := nth (Z.of_nat n) |>
  | _ => False
  end.
Proof.
  cbv zeta. revert s. induction n as [|n IH]; intros s Hn.
  { split; [done|]. split; [lia|]. rewrite id_plus_0 by done. by destruct s. }
  rewrite reserve_loop_step by done. cbv zeta.
  assert (id_after (mc_next_packet_id s) = id_plus (mc_next_packet_id s) (0 + 1)) as Ha.
  { rewrite <- id_plus_after, id_plus_0; [done|by apply id_after_range|done]. }
  case_decide as Hd.
  - specialize (IH (s <| mc_next_packet_id := id_after (mc_next_packet_id s) |>)
                  (id_after_range _ Hn)).
    assert (∀ Q : Z → Prop, Q 0 → ∀ k, (∀ j, 0 ≤ j < k → Q (j + 1)) → ∀ j, 0 ≤ j < k + 1 → Q j) as Hshift.
    { intros Q H0 k HQ j Hj. destruct (decide (j = 0)) as [->|]; [done|].
      replace j with (j - 1 + 1) by lia. apply HQ. lia. }
    destruct (reserve_loop n _) as [[id|e| |] s']; try done; cbn in IH.
    + destruct IH as (k & Hk & -> & Hfree & Hused & ->).
      exists (k + 1). rewrite id_plus_after in * by done. split; [lia|]. split; [done|].
      split; [done|]. split; [|by rewrite id_plus_after].
      apply (Hshift (λ j, is_Some (mc_pending_acks s !! id_plus (mc_next_packet_id s) j))).
      { by rewrite id_plus_0. }
      intros j Hj. specialize (Hused j Hj). by rewrite id_plus_after in Hused.
    + destruct IH as (-> & Hused & ->). split; [done|].
      replace (Z.of_nat (S n)) with (Z.of_nat n + 1) by lia. split; [|by rewrite id_plus_after].
      apply (Hshift (λ j, is_Some (mc_pending_acks s !! id_plus (mc_next_packet_id s) j))).
      { by rewrite id_plus_0. }
      intros j Hj. specialize (Hused j Hj). by rewrite id_plus_after in Hused.
  - exists 0. rewrite id_plus_0 by done. split; [lia|]. split; [done|]. split; [done|].
    split; [lia|]. by rewrite Ha.
Qed.

(** C20. Packet identifiers are never reused while their operation is in flight:
    [reserve_packet_id] returns the first identifier in 1..65535, counting cyclically from
    the counter, that no pending operation (not even a tombstone) holds, and moves
    nothing but the counter, one past it; it fails only when all 65,535 identifiers are in
    use, and then leaves the state as it was. *)
Theorem reserve_packet_id_spec (s : Conn) :
  conn_ok s →
  match reserve_packet_id s with
  | (Ok id, s') =>
      1 ≤ id ≤ 65535 ∧ mc_pending_acks s !! id = None
      ∧ s' = s <| mc_next_packet_id := id_plus id 1 |>
      ∧ ∃ k, 0 ≤ k < 65535 ∧ id = id_plus (mc_next_packet_id s) k
             ∧ ∀ j, 0 ≤ j < k → is_Some (mc_pending_acks s !! id_plus (mc_next_packet_id s) j)
  | (Err e, s') =>
      e = QueueFull "packet identifiers" ∧ s' = s
      ∧ ∀ id, 1 ≤ id ≤ 65535 → is_Some (mc_pending_acks s !! id)
  | _ => False
  end.
Proof.
  intros Hs. pose proof (ok_next s Hs) as Hn. unfold reserve_packet_id.
  pose proof (reserve_loop_search (Z.to_nat u16_max) s Hn) as Hr. cbv zeta in Hr.
  change (Z.of_nat (Z.to_nat u16_max)) with 65535 in Hr.
  destruct (reserve_loop _ s) as [[id|e| |] s']; try done.
  - destruct Hr as (k & Hk & -> & Hfree & Hused & ->). split; [apply id_plus_range|].
    split; [by apply eq_None_not_Some|]. split; [by rewrite id_plus_plus|by exists k].
  - destruct Hr as (-> & Hused & ->). split; [done|].
    split; [rewrite id_plus_cycle by done; by destruct s|]. intros id Hid.
    rewrite <- (id_plus_reaches (mc_next_packet_id s) id) by done. apply Hused.
    apply Z.mod_pos_bound. lia.
Qed.
End packet_ids.

Lemma reserve_packet_id_spec_witness :
  let s := (example_conn []) <| mc_pending_acks := {[ 1 := mkPendingAck 0 "" (PK_Publish 0) ]} |> in
  conn_ok s ∧ reserve_packet_id s = (Ok 2, s <| mc_next_packet_id := 3 |>).
Proof.
  intros s. assert (conn_ok s) as Hs.
  { apply (good_acks (λ _, _) (example_conn [])); [|vm_compute; discriminate|apply example_conn_ok].
    apply map_Forall_singleton. lia. }
  split; [exact Hs|]. pose proof (reserve_packet_id_spec s Hs) as Hr.
  assert ((reserve_packet_id s).1 = Ok 2) as Hid by (vm_compute; reflexivity).
  destruct (reserve_packet_id s) as [r s']. cbn in Hid. subst r.
  destruct Hr as (_ & _ & -> & _). reflexivity.
Defined.

(** ** Admission of a publish *)

Section admission.
Context {W : Type} {T : Transport W} {L : TransportLaws W} {H : HashOrder W} {C : ClockLaws W}.

Abbreviation Conn := (MqttConnection W).

Lemma insert_pending_ack_spec id kind label (s : Conn) :
  conn_ok s →
  let '(t, w) := t_now (mc_stream s) in
  insert_pending_ack id kind label s =
    if mc_max_pending_operations s <=? Z.of_nat (size (mc_pending_acks s))
    then (Err (mkPendingInsertError (QueueFull "pending operation") kind), s)
    else (Ok (), s <| mc_stream := w |> <| mc_pending_acks ::=
            <[ id := mkPendingAck (t + mc_ack_timeout s) label kind ]> |>).
Proof.
  intros Hs. pose proof (clock_law (mc_stream s)) as Ht.
  destruct (ok_clocks s Hs) as (Hc & _). unfold insert_pending_ack. unfold bind at 1, get.
  destruct (t_now (mc_stream s)) as [t w] eqn:Hn. cbn in Ht. destruct (_ <=? _); [done|].
  unfold bind at 1, now. rewrite Hn. unfold bind at 1, instant_add, instant_checked_add.
  rewrite (proj2 (Z.leb_le _ _)) by lia. done.
Qed.

(** The call is answered at once and nothing is queued. *)
Definition refused (result : Sender) (r : Reply) (s s' : Conn) : Prop :=
  ∃ w n, sent w = sent (mc_stream s)
    ∧ s' = s <| mc_stream := w |> <| mc_next_packet_id := n |>
             <| mc_oneshots ::= oneshot_send result r |>.

Lemma refused_now result r (s : Conn) :
  refused result r s (s <| mc_oneshots ::= oneshot_send result r |>).
Proof. exists (mc_stream s), (mc_next_packet_id s). split; [done|]. by destruct s. Qed.

(** A valid topic, and a QoS and a RETAIN flag the server announced support for. *)
Definition admissible (topic : list Z) (options : PublishOptions) (s : Conn) : Prop :=
  validate_topic_name topic = Ok ()
  ∧ validate_publish (mc_server_capabilities s) (po_qos options) (po_retain options) = Ok ().

(** What a publish that was admitted adds to the state. *)
Inductive published (topic payload : list Z) (options : PublishOptions) (result : Sender)
    (s : Conn) : Conn → Prop :=
  | published_qos0 bytes :
      po_qos options = AtMostOnce →
      PublishPacket_encode (mkPublishPacket topic None payload AtMostOnce (po_retain options)
        false (po_properties options)) = Ok bytes →
      zlen bytes ≤ mc_peer_max_packet_size s →
      published topic payload options result s (enqueued bytes (WA_PublishQos0 result) None s)
  | published_qos1 bytes id t w :
      po_qos options = AtLeastOnce →
      PublishPacket_encode (mkPublishPacket topic (Some id) payload AtLeastOnce
        (po_retain options) false (po_properties options)) = Ok bytes →
      zlen bytes ≤ mc_peer_max_packet_size s →
      1 ≤ id ≤ 65535 → mc_pending_acks s !! id = None →
      outgoing_qos1_count s < mc_peer_receive_maximum s →
      Z.of_nat (size (mc_pending_acks s)) < mc_max_pending_operations s →
      sent w = sent (mc_stream s) →
      published topic payload options result s
        (enqueued bytes WA_None None
          (s <| mc_next_packet_id := id_plus id 1 |> <| mc_stream := w |>
             <| mc_pending_acks ::= <[ id := mkPendingAck (t + mc_ack_timeout s)
                  "publish acknowledgement" (PK_Publish result) ]> |>)).

Lemma reserve_run (s : Conn) :
  conn_ok s →
  (∃ id, reserve_packet_id s = (Ok id, s <| mc_next_packet_id := id_plus id 1 |>)
         ∧ 1 ≤ id ≤ 65535 ∧ mc_pending_acks s !! id = None)
  ∨ reserve_packet_id s = (Err (QueueFull "packet identifiers"), s).
Proof.
  intros Hs. pose proof (ok_next s Hs) as Hn. unfold reserve_packet_id.
  pose proof (reserve_loop_search (Z.to_nat u16_max) s Hn) as Hr. cbv zeta in Hr.
  change (Z.of_nat (Z.to_nat u16_max)) with 65535 in Hr.
  destruct (reserve_loop _ s) as [[id|e| |] s']; try done.
  - left. destruct Hr as (k & Hk & -> & Hfree & Hused & ->). eexists.
    split; [by rewrite id_plus_plus|]. split; [apply id_plus_range|by apply eq_None_not_Some].
  - right. destruct Hr as (-> & _ & ->). rewrite id_plus_cycle by done. by destruct s.
Qed.

Lemma enqueue_run bytes action k (s : Conn) :
  (enqueue_with_action bytes action k s = (Ok (), enqueued bytes action k s)
   ∧ zlen bytes ≤ mc_peer_max_packet_size s)
  ∨ ∃ e, enqueue_with_action bytes action k s = (Err (e, action), s).
Proof.
  rewrite enqueue_with_action_spec. destruct (_ <? _) eqn:Hm; [right; by eexists|].
  destruct (Z.min _ _ <? _); [right; by eexists|]. left. split; [reflexivity|]. lia.
Qed.

Lemma begin_publish_qos0 topic payload options result (s : Conn) :
  po_qos options = AtMostOnce →
  ∃ s', begin_publish topic payload options result s = (Ok (), s')
    ∧ ((∃ e, refused result (Reply_Publish (Err e)) s s') ∨ admissible topic options s ∧ published topic payload options result s s').
Proof.
  intros Hq. unfold begin_publish. cbv zeta. rewrite (bind_ok get _ s s s eq_refl).
  assert (∀ e, ∃ s', send result (Reply_Publish (Err e)) s = (Ok (), s')
            ∧ ((∃ e, refused result (Reply_Publish (Err e)) s s')
               ∨ admissible topic options s ∧ published topic payload options result s s')) as Hrefuse.
  { intros e. eexists. split; [done|]. left. eexists. apply refused_now. }
  unfold match_result at 1, lift at 1.
  pose proof (validate_topic_name_returns topic) as Ht.
  pose proof (validate_publish_returns (mc_server_capabilities s) (po_qos options) (po_retain options)) as Hp.
  destruct (validate_topic_name topic) as [[]|e|why|] eqn:Htopic; [|apply Hrefuse|done..].
  cbn [rbind].
  destruct (validate_publish _ _ _) as [[]|e|why|] eqn:Hcaps; [|apply Hrefuse|done..].
  assert (admissible topic options s) as Hadm by done. clear Htopic Hcaps.
  rewrite Hq, bool_decide_eq_false_2 by done. unfold match_result at 1, ret at 1.
  unfold match_result at 1, lift at 1.
  pose proof (builds_returns _ _ (PublishPacket_encode_builds (mkPublishPacket topic None payload
    AtMostOnce (po_retain options) false (po_properties options)))) as Hb.
  destruct (PublishPacket_encode _) as [bytes|e|why|] eqn:He; [|apply Hrefuse|done..].
  unfold match_result.
  destruct (enqueue_run bytes (WA_PublishQos0 result) None s) as [[-> Hm]|[e ->]].
  - eexists. split; [done|]. right. split; [done|]. by apply published_qos0.
  - eexists. split; [done|]. left. exists e. apply refused_now.
Qed.

Lemma refused_next result r n (s : Conn) :
  refused result r s (s <| mc_next_packet_id := n |> <| mc_oneshots ::= oneshot_send result r |>).
Proof. exists (mc_stream s), n. split; [done|]. by destruct s. Qed.

Lemma acks_undo id x (s : Conn) :
  mc_pending_acks s !! id = None →
  s <| mc_pending_acks ::= <[ id := x ]> |> <| mc_pending_acks ::= delete id |> = s.
Proof.
  intros Hf. transitivity (s <| mc_pending_acks := mc_pending_acks s |>); [|by destruct s].
  rewrite <- (delete_insert_id (mc_pending_acks s) id x Hf). by destruct s.
Qed.

(** The part of [begin_publish] after a QoS 1 packet was encoded. *)
Lemma register_publish bytes id result (s : Conn) :
  conn_ok s → mc_pending_acks s !! id = None →
  ∃ s', match_result (insert_pending_ack id (PK_Publish result) "publish acknowledgement")
          (λ error, match pie_kind error with
                    | PK_Publish result => send result (Reply_Publish (Err (pie_error error)))
                    | _ => ret ()
                    end)
          (λ _, match_result (enqueue bytes WA_None None) (withdraw_ack id) ret) s = (Ok (), s')
    ∧ ((∃ e, refused result (Reply_Publish (Err e)) s s')
       ∨ ∃ t w, zlen bytes ≤ mc_peer_max_packet_size s ∧ sent w = sent (mc_stream s)
           ∧ Z.of_nat (size (mc_pending_acks s)) < mc_max_pending_operations s
           ∧ s' = enqueued bytes WA_None None (s <| mc_stream := w |>
                <| mc_pending_acks ::= <[ id := mkPendingAck (t + mc_ack_timeout s)
                     "publish acknowledgement" (PK_Publish result) ]> |>)).
Proof.
  intros Hs Hid. pose proof (insert_pending_ack_spec id (PK_Publish result)
    "publish acknowledgement" s Hs) as Hi. pose proof (now_law (mc_stream s)) as Hw.
  destruct (t_now (mc_stream s)) as [t w]. cbn in Hw. unfold match_result at 1. rewrite Hi.
  destruct (_ <=? _) eqn:Hsz.
  { eexists. split; [done|]. left. eexists. apply refused_now. }
  set (s1 := s <| mc_stream := w |> <| mc_pending_acks ::= _ |>).
  unfold enqueue, map_error, match_result.
  destruct (enqueue_run bytes WA_None None s1) as [[-> Hm]|[e ->]].
  - eexists. split; [done|]. right. exists t, w. split; [exact Hm|]. split; [done|]. split; [lia|done].
  - cbn [fail fst]. unfold fail, withdraw_ack, bind, get. subst s1. cbn -[oneshot_send].
    rewrite lookup_insert_eq. cbn -[oneshot_send]. eexists. split; [done|]. left. exists e.
    exists w, (mc_next_packet_id s). split; [done|].
    rewrite (acks_undo id _ (s <| mc_stream := w |>)) by done. by destruct s.
Qed.

Lemma begin_publish_qos1 topic payload options result (s : Conn) :
  conn_ok s → po_qos options = AtLeastOnce →
  ∃ s', begin_publish topic payload options result s = (Ok (), s')
    ∧ ((∃ e, refused result (Reply_Publish (Err e)) s s') ∨ admissible topic options s ∧ published topic payload options result s s').
Proof.
  intros Hs Hq. unfold begin_publish. cbv zeta. rewrite (bind_ok get _ s s s eq_refl).
  assert (∀ e, ∃ s', send result (Reply_Publish (Err e)) s = (Ok (), s')
            ∧ ((∃ e, refused result (Reply_Publish (Err e)) s s')
               ∨ admissible topic options s ∧ published topic payload options result s s')) as Hrefuse.
  { intros e. eexists. split; [done|]. left. eexists. apply refused_now. }
  unfold match_result at 1, lift at 1.
  pose proof (validate_topic_name_returns topic) as Ht.
  pose proof (validate_publish_returns (mc_server_capabilities s) (po_qos options) (po_retain options)) as Hp.
  destruct (validate_topic_name topic) as [[]|e|why|] eqn:Htopic; [|apply Hrefuse|done..].
  cbn [rbind].
  destruct (validate_publish _ _ _) as [[]|e|why|] eqn:Hcaps; [|apply Hrefuse|done..].
  assert (admissible topic options s) as Hadm by done. clear Htopic Hcaps.
  rewrite Hq, bool_decide_eq_true_2 by done. unfold match_result at 1, bind at 1.
  destruct (reserve_run s Hs) as [(id & -> & Hid & Hfree)| ->]; [|apply Hrefuse].
  set (s1 := s <| mc_next_packet_id := id_plus id 1 |>). unfold ret at 1.
  assert (conn_ok s1) as Hs1 by (by apply good_next; [apply id_plus_range|]).
  assert (∀ e, ∃ s', send result (Reply_Publish (Err e)) s1 = (Ok (), s')
            ∧ ((∃ e, refused result (Reply_Publish (Err e)) s s')
               ∨ admissible topic options s ∧ published topic payload options result s s')) as Hrefuse1.
  { intros e. eexists. split; [done|]. left. eexists. apply refused_next. }
  unfold match_result at 1, lift at 1.
  pose proof (builds_returns _ _ (PublishPacket_encode_builds (mkPublishPacket topic (Some id)
    payload AtLeastOnce (po_retain options) false (po_properties options)))) as Hb.
  destruct (PublishPacket_encode _) as [bytes|e|why|] eqn:He; [|apply Hrefuse1|done..].
  rewrite (bind_ok get _ s1 s1 s1 eq_refl). destruct (_ <=? _) eqn:Hc; [apply Hrefuse1|].
  destruct (register_publish bytes id result s1 Hs1 Hfree) as (s' & -> & [[e Hr]|Hr]);
    eexists; (split; [done|]).
  - left. exists e. destruct Hr as (w & n & Hw & ->). exists w, n. split; [done|]. by destruct s.
  - right. destruct Hr as (t & w & Hm & Hw & Hsz & ->).
    assert (outgoing_qos1_count s < mc_peer_receive_maximum s) as Hcount
      by (change (outgoing_qos1_count s) with (outgoing_qos1_count s1); cbn in Hc; lia).
    split; [done|]. by apply (published_qos1 topic payload options result s bytes id t w).
Qed.

(** The QoS 1 publishes in flight after one more is registered. *)
Lemma outgoing_qos1_insert id p (s : Conn) :
  mc_pending_acks s !! id = None →
  outgoing_qos1_count (s <| mc_pending_acks ::= <[ id := p ]> |>)
  = outgoing_qos1_count s + (if is_qos1_publish (pk_kind p) then 1 else 0).
Proof.
  intros Hid. unfold outgoing_qos1_count, zlen. cbn.
  rewrite (map_to_list_insert (mc_pending_acks s) id p Hid), filter_cons. cbn [snd].
  destruct (is_qos1_publish (pk_kind p)).
  - rewrite decide_True by done. cbn [length]. lia.
  - rewrite decide_False by done. lia.
Qed.

Lemma outgoing_qos1_enqueued bytes action k (s : Conn) :
  outgoing_qos1_count (enqueued bytes action k s) = outgoing_qos1_count s.
Proof. done. Qed.

(** C15. Admission of a publish: [begin_publish] never fails the driver, and either refuses,
    answering the caller with an error, queueing nothing and registering nothing, or
    queues exactly the encoding of the packet, whole, behind the frames already there. It
    admits only a valid topic, a QoS and a RETAIN flag the server supports, a packet
    within the server's size limit and, for QoS 1, an identifier no operation holds, so that
    the unacknowledged QoS 1 publishes never exceed the server's Receive Maximum; a
    QoS 0 caller is answered by the write, a QoS 1 caller by the acknowledgement registered. *)
Theorem publish_admission topic payload options result (s : Conn) :
  conn_ok s → outgoing_qos1_count s ≤ mc_peer_receive_maximum s →
  ∃ s', begin_publish topic payload options result s = (Ok (), s')
    ∧ ((∃ e, refused result (Reply_Publish (Err e)) s s')
       ∨ admissible topic options s ∧ published topic payload options result s s')
    ∧ outgoing_qos1_count s' ≤ mc_peer_receive_maximum s'.
Proof.
  intros Hs Hcount.
  assert (∃ s', begin_publish topic payload options result s = (Ok (), s')
    ∧ ((∃ e, refused result (Reply_Publish (Err e)) s s')
       ∨ admissible topic options s ∧ published topic payload options result s s'))
    as (s' & Hrun & Hout).
  { destruct (po_qos options) eqn:Hq; [by apply begin_publish_qos0|by apply begin_publish_qos1]. }
  exists s'. split; [done|]. split; [done|].
  destruct Hout as [[e (w & n & _ & ->)]|[_ Hp]]; [exact Hcount|].
  destruct Hp as [bytes|bytes id t w Hq He Hm Hid Hfree Hlt Hsz Hw]; [exact Hcount|].
  rewrite outgoing_qos1_enqueued.
  rewrite (outgoing_qos1_insert id _ (s <| mc_next_packet_id := id_plus id 1 |>
             <| mc_stream := w |>)) by done. cbn in *. unfold outgoing_qos1_count in *. cbn. lia.
Qed.
End admission.

Lemma publish_admission_witness :
  let s := (example_conn []) <| mc_peer_receive_maximum := 1 |> in
  ∃ s', begin_publish (lit "t") [1; 2] example_publish 0%nat s = (Ok (), s')
    ∧ admissible (lit "t") example_publish s
    ∧ published (lit "t") [1; 2] example_publish 0%nat s s'
    ∧ outgoing_qos1_count s' = 1.
Proof.
  intros s. assert (conn_ok s) as Hs.
  { destruct (example_conn_ok []). by split. }
  destruct (publish_admission (lit "t") [1; 2] example_publish 0%nat s Hs
              ltac:(vm_compute; discriminate)) as (s' & Hrun & Hout & Hc).
  assert (outgoing_qos1_count (begin_publish (lit "t") [1; 2] example_publish 0%nat s).2 = 1
          ∧ os_sent (mc_oneshots (begin_publish (lit "t") [1; 2] example_publish 0%nat s).2) = [])
    as [Hn Ho] by (split; vm_compute; reflexivity).
  rewrite Hrun in Hn, Ho. exists s'. split; [exact Hrun|].
  destruct Hout as [[e (w & n & _ & ->)]|[Ha Hp]]; [discriminate Ho|]. exact (conj Ha (conj Hp Hn)).
Defined.

(** ** Delivery of acknowledgements *)

Section acknowledgements.
Context {W : Type} {T : Transport W} {H : HashOrder W}.

Abbreviation Conn := (MqttConnection W).

(** The operation an acknowledgement packet names. *)
Definition ack_of (packet : Packet) : option (AckClass * Z) :=
  match packet with
  | PktPubAck ack => Some (Ack_Publish, pa_packet_id ack)
  | PktSubAck ack => Some (Ack_Subscribe, sa_packet_id ack)
  | PktUnsubAck ack => Some (Ack_Unsubscribe, ua_packet_id ack)
  | _ => None
  end.

(** What the caller of an operation is told by its acknowledgement, what becomes of the
    response subscriptions, and whether the connection survives. *)
Inductive answers : Packet → PendingAckKind → Reply →
    (gmap (list Z) ResponseSubscription → gmap (list Z) ResponseSubscription) → Result unit → Prop :=
  | answers_puback ack r :
      pa_reason_code ack < 0x80 →
      answers (PktPubAck ack) (PK_Publish r)
        (Reply_Publish (Ok (mkPublishAck (Some (pa_packet_id ack)) (Some (pa_reason_code ack)))))
        id (Ok ())
  | answers_puback_refused ack r :
      0x80 ≤ pa_reason_code ack →
      answers (PktPubAck ack) (PK_Publish r)
        (Reply_Publish (Err (AckRejected "PUBACK" (pa_reason_code ack)))) id (Ok ())
  | answers_suback ack qos code r :
      sa_reason_codes ack = [code] → code ≤ QoS_as_u8 qos →
      answers (PktSubAck ack) (PK_Subscribe qos r)
        (Reply_Subscription (Ok (mkSubscriptionAck (sa_packet_id ack) [code]))) id (Ok ())
  | answers_suback_refused ack qos code r :
      sa_reason_codes ack = [code] → 0x80 ≤ code →
      answers (PktSubAck ack) (PK_Subscribe qos r)
        (Reply_Subscription (Err (AckRejected "SUBACK" code))) id (Ok ())
  | answers_suback_invalid ack qos r m :
      (∀ code, sa_reason_codes ack = [code] → QoS_as_u8 qos < code < 0x80) →
      answers (PktSubAck ack) (PK_Subscribe qos r)
        (Reply_Subscription (Err (MalformedPacket m))) id (Err (MalformedPacket m))
  | answers_unsuback ack filter code r :
      ua_reason_codes ack = [code] → code < 0x80 →
      answers (PktUnsubAck ack) (PK_Unsubscribe filter r)
        (Reply_Subscription (Ok (mkSubscriptionAck (ua_packet_id ack) [code])))
        (delete filter) (Ok ())
  | answers_unsuback_refused ack filter code r :
      ua_reason_codes ack = [code] → 0x80 ≤ code →
      answers (PktUnsubAck ack) (PK_Unsubscribe filter r)
        (Reply_Subscription (Err (AckRejected "UNSUBACK" code))) id (Ok ())
  | answers_unsuback_invalid ack filter r m :
      length (ua_reason_codes ack) ≠ 1%nat →
      answers (PktUnsubAck ack) (PK_Unsubscribe filter r)
        (Reply_Subscription (Err (MalformedPacket m))) id (Ok ()).

(** [s] after the acknowledgement [i] was taken and [r] was told [rep]. *)
Definition acknowledged (i : Z) (r : Sender) (rep : Reply) (subs : _ → _) (s : Conn) : Conn :=
  s <| mc_pending_acks ::= delete i |> <| mc_response_subscriptions ::= subs |>
    <| mc_oneshots ::= oneshot_send r rep |>.

Lemma take_pending_ack_run i cls p (s : Conn) :
  mc_pending_acks s !! i = Some p → ack_class (pk_kind p) = cls →
  take_pending_ack i cls s = (Ok (Some p), s <| mc_pending_acks ::= delete i |>).
Proof.
  intros Hp Hc. unfold take_pending_ack, bind, get. rewrite Hp. by rewrite decide_True by done.
Qed.

Lemma dispatch_publish_ack ack r p (s : Conn) :
  mc_pending_acks s !! pa_packet_id ack = Some p → pk_kind p = PK_Publish r →
  ∃ rep, answers (PktPubAck ack) (pk_kind p) rep id (Ok ())
    ∧ dispatch_puback ack s = (Ok (), acknowledged (pa_packet_id ack) r rep id s).
Proof.
  intros Hp Hk. unfold dispatch_puback.
  rewrite (bind_ok _ _ _ _ _ (take_pending_ack_run _ Ack_Publish _ _ Hp ltac:(by rewrite Hk))).
  rewrite Hk. destruct (0x80 <=? pa_reason_code ack) eqn:Hc.
  - eexists. split; [apply answers_puback_refused; lia|]. by destruct s.
  - eexists. split; [apply answers_puback; lia|]. by destruct s.
Qed.

(** What [validate_suback_codes] says of one requested QoS. *)
Lemma validate_one_suback codes qos :
  (∃ code, codes = [code] ∧ code ≤ QoS_as_u8 qos ∧ validate_suback_codes codes [qos] = Ok ())
  ∨ (∃ code, codes = [code] ∧ 0x80 ≤ code
       ∧ validate_suback_codes codes [qos] = Err (AckRejected "SUBACK" code))
  ∨ (∀ code, codes = [code] → QoS_as_u8 qos < code < 0x80)
    ∧ ∃ m, validate_suback_codes codes [qos] = Err (MalformedPacket m).
Proof.
  unfold validate_suback_codes. destruct codes as [|code [|code' codes]].
  - right; right. split; [done|]. by eexists.
  - cbn. destruct (128 <=? code) eqn:Hr; [right; left; exists code; split_and!; [done|lia|done]|].
    destruct ((code =? 2) || (QoS_as_u8 qos <? code)) eqn:Hg.
    + right; right. split; [|by eexists]. intros ? [= <-]. destruct qos; cbn in *; lia.
    + left. exists code. split_and!; [done|lia|done].
  - right; right. split; [done|]. rewrite (proj2 (Z.eqb_neq _ _)); [by eexists|].
    rewrite !zlen_cons, zlen_nil. pose proof (zlen_nonneg codes). lia.
Qed.

Lemma dispatch_subscribe_ack ack qos r p (s : Conn) :
  mc_pending_acks s !! sa_packet_id ack = Some p → pk_kind p = PK_Subscribe qos r →
  ∃ rep verdict, answers (PktSubAck ack) (pk_kind p) rep id verdict
    ∧ dispatch_suback ack s = (verdict, acknowledged (sa_packet_id ack) r rep id s).
Proof.
  intros Hp Hk. unfold dispatch_suback.
  rewrite (bind_ok _ _ _ _ _ (take_pending_ack_run _ Ack_Subscribe _ _ Hp ltac:(by rewrite Hk))).
  rewrite Hk. unfold complete_subscribe.
  destruct (validate_one_suback (sa_reason_codes ack) qos)
    as [(c & Hc & Hle & ->)|[(c & Hc & Hle & ->)|(Hno & m & ->)]].
  - eexists _, _. split; [by apply (answers_suback ack qos c r)|]. rewrite Hc. by destruct s.
  - eexists _, _. split; [by apply (answers_suback_refused ack qos c r)|]. by destruct s.
  - eexists _, _. split; [by apply (answers_suback_invalid ack qos r m)|]. by destruct s.
Qed.

Lemma dispatch_unsubscribe_ack ack filter r p (s : Conn) :
  mc_pending_acks s !! ua_packet_id ack = Some p → pk_kind p = PK_Unsubscribe filter r →
  ∃ rep subs, answers (PktUnsubAck ack) (pk_kind p) rep subs (Ok ())
    ∧ dispatch_unsuback ack s = (Ok (), acknowledged (ua_packet_id ack) r rep subs s).
Proof.
  intros Hp Hk. unfold dispatch_unsuback.
  rewrite (bind_ok _ _ _ _ _ (take_pending_ack_run _ Ack_Unsubscribe _ _ Hp ltac:(by rewrite Hk))).
  rewrite Hk. cbv zeta. unfold validate_reason_codes.
  destruct (ua_reason_codes ack) as [|c [|c' codes]] eqn:Hc.
  - eexists _, _. split; [apply answers_unsuback_invalid; by rewrite Hc|]. by destruct s.
  - rewrite zlen_cons, zlen_nil. cbn -[oneshot_send]. destruct (128 <=? c) eqn:Hr.
    + eexists _, _. split; [apply (answers_unsuback_refused ack filter c r); [done|lia]|]. by destruct s.
    + eexists _, _. split; [apply (answers_unsuback ack filter c r); [done|lia]|]. by destruct s.
  - eexists _, _. split; [apply answers_unsuback_invalid; by rewrite Hc|].
    rewrite !zlen_cons. pose proof (zlen_nonneg codes).
    rewrite (proj2 (Z.eqb_neq _ 1)) by lia. by destruct s.
Qed.

Lemma dispatch_tombstone packet cls i p cls' b (s : Conn) :
  ack_of packet = Some (cls, i) → mc_pending_acks s !! i = Some p → ack_class (pk_kind p) = cls →
  pk_kind p = PK_Tombstone cls' b →
  dispatch_packet packet s = (Ok (), s <| mc_pending_acks ::= delete i |>).
Proof.
  intros Ha Hp Hc Hk.
  destruct packet; try done; cbn in Ha; injection Ha as <- <-; cbn [dispatch_packet];
    unfold dispatch_puback, dispatch_suback, dispatch_unsuback;
    rewrite (bind_ok _ _ _ _ _ (take_pending_ack_run _ _ _ _ Hp Hc)), Hk; by destruct s.
Qed.

Lemma dispatch_unknown packet cls i (s : Conn) :
  ack_of packet = Some (cls, i) → mc_pending_acks s !! i = None →
  dispatch_packet packet s = (Ok (), s).
Proof.
  intros Ha Hp. destruct packet; try done; cbn in Ha; injection Ha as <- <-; cbn [dispatch_packet];
    unfold dispatch_puback, dispatch_suback, dispatch_unsuback, take_pending_ack, bind, get;
    by rewrite Hp.
Qed.

Lemma dispatch_mismatch packet cls i p (s : Conn) :
  ack_of packet = Some (cls, i) → mc_pending_acks s !! i = Some p → ack_class (pk_kind p) ≠ cls →
  dispatch_packet packet s
  = (Err (UnexpectedPacket "acknowledgement type does not match pending packet id"), s).
Proof.
  intros Ha Hp Hc. destruct packet; try done; cbn in Ha; injection Ha as <- <-;
    cbn [dispatch_packet];
    unfold dispatch_puback, dispatch_suback, dispatch_unsuback, take_pending_ack, bind, get;
    by rewrite Hp, decide_False by done.
Qed.

(** C16. An acknowledgement reaches the operation it names and no other: dispatching a
    PUBACK, SUBACK or UNSUBACK with identifier [i] answers exactly the caller registered
    under [i] (success, refusal by the server, or a malformed acknowledgement, per
    reason code), releases the identifier and touches nothing else of the driver, except that a
    successful UNSUBACK also forgets the response subscription of its filter; an
    unknown identifier is ignored; the PUBACK of a request's publish is silent (its response
    answers) unless it refuses, which fails the request; a tombstone (an operation that timed out or was
    cancelled) is released without telling anybody; and an acknowledgement of another type
    ends the connection and consumes nothing. What the SUBACK of a response subscription settles
    is [response_subscription_ack] of AsyncAdmission. *)
Theorem acknowledgement_delivery packet cls i (s : Conn) :
  ack_of packet = Some (cls, i) →
  (∀ topic p, mc_pending_acks s !! i = Some p → pk_kind p = PK_ResponseSubscribe topic →
     cls ≠ Ack_Subscribe) →
  match mc_pending_acks s !! i with
  | None => dispatch_packet packet s = (Ok (), s)
  | Some p =>
      if decide (ack_class (pk_kind p) = cls) then
        match pk_kind p with
        | PK_Publish r | PK_Subscribe _ r | PK_Unsubscribe _ r =>
            ∃ rep subs verdict, answers packet (pk_kind p) rep subs verdict
              ∧ dispatch_packet packet s = (verdict, acknowledged i r rep subs s)
        | PK_Tombstone _ _ => dispatch_packet packet s = (Ok (), s <| mc_pending_acks ::= delete i |>)
        | PK_RequestPublish k => ∃ ack, packet = PktPubAck ack
            ∧ dispatch_packet packet s =
                (if 0x80 <=? pa_reason_code ack
                 then fail_request k (AckRejected "PUBACK" (pa_reason_code ack)) else ret ())
                  (s <| mc_pending_acks ::= delete i |>)
        | PK_ResponseSubscribe _ => False
        end
      else dispatch_packet packet s
           = (Err (UnexpectedPacket "acknowledgement type does not match pending packet id"), s)
  end.
Proof.
  intros Ha Hno. destruct (mc_pending_acks s !! i) as [p|] eqn:Hp; [|by eapply dispatch_unknown].
  destruct (decide _) as [Hc|Hc]; [|by eapply dispatch_mismatch].
  destruct (pk_kind p) eqn:Hk; try done; [..|by eapply dispatch_tombstone; [..|rewrite Hk|]];
    destruct packet; try done; cbn in Ha; injection Ha as <- <-; try done; cbn [dispatch_packet];
    rewrite <- ?Hk.
  - destruct (dispatch_publish_ack _ _ _ s Hp Hk) as (rep & ? & ?). by eexists _, _, _.
  - destruct (dispatch_subscribe_ack _ _ _ _ s Hp Hk) as (rep & v & ? & ?). by eexists _, _, _.
  - destruct (dispatch_unsubscribe_ack _ _ _ _ s Hp Hk) as (rep & v & ? & ?). by eexists _, _, _.
  - eexists. split; [done|]. unfold dispatch_puback.
    rewrite (bind_ok _ _ _ _ _ (take_pending_ack_run _ Ack_Publish _ _ Hp ltac:(by rewrite Hk))), Hk.
    by destruct (_ <=? _).
  - by eapply Hno.
Qed.
End acknowledgements.

Lemma acknowledgement_delivery_witness :
  let s := (example_conn []) <| mc_pending_acks := {[ 7 := mkPendingAck 5 "" (PK_Publish 0) ]} |> in
  dispatch_packet (PktPubAck (mkPubAckPacket 8 0)) s = (Ok (), s)
  ∧ (∃ rep subs verdict, answers (PktPubAck (mkPubAckPacket 7 0x87)) (PK_Publish 0) rep subs verdict
     ∧ dispatch_packet (PktPubAck (mkPubAckPacket 7 0x87)) s = (verdict, acknowledged 7 0%nat rep subs s))
  ∧ (dispatch_packet (PktSubAck (mkSubAckPacket 7 [0])) s).1
    = Err (UnexpectedPacket "acknowledgement type does not match pending packet id").
Proof.
  intros s.
  assert (∀ i topic p, mc_pending_acks s !! i = Some p → pk_kind p = PK_ResponseSubscribe topic →
    Ack_Publish ≠ Ack_Subscribe) as Hno by done.
  split; [exact (acknowledgement_delivery (PktPubAck (mkPubAckPacket 8 0)) _ _ s eq_refl (Hno _))|].
  split; [exact (acknowledgement_delivery (PktPubAck (mkPubAckPacket 7 0x87)) _ _ s eq_refl (Hno _))|].
  vm_compute. reflexivity.
Defined.
