(* ===== verification/AsyncRequests.v ===== *)
(** * Requests: withdrawal, responses, admission

    What becomes of a request of [AsyncMqttClient::request] in the driver: how it is
    taken back, how a response reaches it and when its publish is sent. *)

From S2P Require Import Prelude Errors Utf8 Str Types Decode Encode Topic Properties.
From S2P Require Import PropertiesFacts Packets Connect Publish Subscribe Ping PacketCodec.
From S2P Require Import CodecFacts Writers Frame Options Transport AsyncTypes AsyncDriver.
From S2P Require Import AsyncClient AsyncConnect AsyncFacts AsyncScript AsyncStart.

Local Open Scope Z_scope.

(** ** Withdrawal *)

Section withdrawal.
Context {W : Type} {T : Transport W} {L : TransportLaws W} {H : HashOrder W} {C : ClockLaws W}.

Abbreviation Conn := (MqttConnection W).

(** Nothing was written of the frame, and it carries the publish of request [k]. *)
Definition unsent (k : list Z) (f : OutboundFrame) : Prop :=
  of_offset f = 0 ∧ of_request_correlation f = Some k.

Lemma unsent_of_true k f : unsent_of k f = true ↔ unsent k f.
Proof. unfold unsent_of, unsent. by rewrite andb_true_iff, Z.eqb_eq, bool_decide_eq_true. Qed.

(** [s'] is [s] without the request [k], which was [p], and with the oneshots [o]. *)
Record withdrawn (k : list Z) (p : PendingRequest) (o : Oneshots) (s s' : Conn) : Prop := {
  (** the request is forgotten, its correlation data free again, the others kept *)
  wd_requests : mc_pending_requests s' = delete k (mc_pending_requests s);
  wd_lifecycle : mc_request_lifecycle s' = finish k (mc_request_lifecycle s);
  (** its publish leaves the queue unless it was begun; the other frames keep their order *)
  wd_queue : ∀ f, f ∈ mc_outbound s' ↔ f ∈ mc_outbound s ∧ ¬ unsent k f;
  wd_order : mc_outbound s' `sublist_of` mc_outbound s;
  wd_framing : partial (mc_outbound s') = partial (mc_outbound s);
  wd_bytes : mc_outbound_bytes s' = frames_bytes (mc_outbound s') + flushes_bytes (mc_flush_actions s);
  (** its identifier is free if the publish never left, and a tombstone otherwise *)
  wd_ack : match pr_publish_packet_id p with
           | None => mc_pending_acks s' = mc_pending_acks s
           | Some i =>
               (∀ j, j ≠ i → mc_pending_acks s' !! j = mc_pending_acks s !! j)
               ∧ (Exists (unsent k) (mc_outbound s) → mc_pending_acks s' !! i = None)
               ∧ (¬ Exists (unsent k) (mc_outbound s) →
                  mc_pending_acks s' !! i =
                    (λ a, a <| pk_kind := PK_Tombstone Ack_Publish true |>) <$> mc_pending_acks s !! i)
           end;
  (** and nothing else changes *)
  wd_frame : s' = s <| mc_pending_requests := mc_pending_requests s' |>
                    <| mc_request_lifecycle := mc_request_lifecycle s' |>
                    <| mc_outbound := mc_outbound s' |>
                    <| mc_outbound_bytes := mc_outbound_bytes s' |>
                    <| mc_pending_acks := mc_pending_acks s' |>
                    <| mc_oneshots := o |>;
}.

(** The state after a withdrawal, computed. *)
Definition withdraw (k : list Z) (p : PendingRequest) (s : Conn) : Conn :=
  let kept := filter (λ f, unsent_of k f = false) (mc_outbound s) in
  s <| mc_pending_requests ::= delete k |>
    <| mc_request_lifecycle ::= finish k |>
    <| mc_outbound := kept |>
    <| mc_outbound_bytes := mc_outbound_bytes s - (frames_bytes (mc_outbound s) - frames_bytes kept) |>
    <| mc_pending_acks :=
         match pr_publish_packet_id p with
         | None => mc_pending_acks s
         | Some i =>
             if existsb (unsent_of k) (mc_outbound s) then delete i (mc_pending_acks s)
             else alter (λ ack, ack <| pk_kind := PK_Tombstone Ack_Publish true |>) i (mc_pending_acks s)
         end |>.

Lemma remove_request_run k p (s : Conn) :
  conn_ok s → mc_pending_requests s !! k = Some p →
  remove_request k s = (Ok (Some p), withdraw k p s).
Proof.
  intros Hs Hp. unfold remove_request, bind, get, modify, finish_request_lifecycle. rewrite Hp.
  pose proof (flushes_bytes_nonneg _ (ok_flushes s Hs)). pose proof (ok_bytes s Hs).
  destruct (retain_frames_spec k (mc_outbound s) (mc_outbound_bytes s) false) as [Hr _]; [lia|].
  cbv zeta in Hr. rewrite Hr. unfold withdraw. cbv zeta.
  destruct (pr_publish_packet_id p); [cbn [orb]; destruct (existsb _ _)|];
    cbv; reflexivity.
Qed.

Lemma existsb_unsent k q : existsb (unsent_of k) q = true ↔ Exists (unsent k) q.
Proof.
  rewrite existsb_exists, Exists_exists. split; intros (f & Hf & Hu); exists f;
    (split; [first [exact Hf|by apply list_elem_of_In]|by apply unsent_of_true]).
Qed.

Lemma withdraw_withdrawn k p o (s : Conn) :
  conn_ok s → withdrawn k p o s (withdraw k p s <| mc_oneshots := o |>).
Proof.
  intros Hs. destruct (queue_ok_retain k _ (ok_queue s Hs)) as [_ Hpartial].
  pose proof (ok_bytes s Hs). unfold withdraw. split; cbn [mc_pending_requests mc_request_lifecycle
    mc_outbound mc_outbound_bytes mc_pending_acks mc_flush_actions mc_oneshots]; try done.
  - intros f. cbn. rewrite list_elem_of_filter. rewrite <- unsent_of_true, not_true_iff_false. tauto.
  - cbn. apply sublist_filter.
  - cbn. lia.
  - destruct (pr_publish_packet_id p) as [i|]; [|done]. cbn. split; [|split].
    + intros j Hj. destruct (existsb _ _); [by apply lookup_delete_ne|by apply lookup_alter_ne].
    + intros ->%existsb_unsent. apply lookup_delete_eq.
    + intros Hn. rewrite <- existsb_unsent in Hn. apply not_true_is_false in Hn as ->.
      apply lookup_alter_eq.
Qed.

Lemma fail_request_run k e (s : Conn) :
  conn_ok s →
  fail_request k e s =
    match mc_pending_requests s !! k with
    | None => (Ok (), s)
    | Some p => (Ok (), withdraw k p s <| mc_oneshots ::=
                          oneshot_send (pr_result p) (Reply_Request (Err e)) |>)
    end.
Proof.
  intros Hs. unfold fail_request. destruct (mc_pending_requests s !! k) as [p|] eqn:Hp.
  - by rewrite (bind_ok _ _ _ _ _ (remove_request_run k p s Hs Hp)).
  - rewrite (bind_ok (remove_request k) _ s None s); [done|].
    unfold remove_request, bind, get. by rewrite Hp.
Qed.

(** C19. Taking back a request: [fail_request] tells the requester the error, once, and
    removes the request. Its correlation data may be used again. A publish
    of which nothing was written leaves the outbound queue, and its identifier is free;
    once any prefix is on the wire the rest stays queued, so that the framing of the
    stream is intact, and the identifier is held by a tombstone that still counts towards
    the Receive Maximum. The other frames keep their order, the byte count stays exact and
    nothing else of the driver changes; on a request the driver does not hold it does nothing. *)
Theorem request_withdrawal k e (s : Conn) :
  conn_ok s →
  match mc_pending_requests s !! k with
  | None => fail_request k e s = (Ok (), s)
  | Some p => ∃ s', fail_request k e s = (Ok (), s')
      ∧ withdrawn k p (oneshot_send (pr_result p) (Reply_Request (Err e)) (mc_oneshots s)) s s'
  end.
Proof.
  intros Hs. rewrite fail_request_run by done. destruct (_ !! k) as [p|]; [|done].
  eexists. split; [done|]. exact (withdraw_withdrawn k p _ s Hs).
Qed.
End withdrawal.

(** A request whose QoS 1 publish waits behind one byte of another frame. *)
Definition example_request : PendingRequest :=
  mkPendingRequest (lit "q") [] (lit "r") AtLeastOnce properties_new 30 0%nat (Some 9) true.
Definition example_requesting : MqttConnection Net :=
  (example_conn [])
    <| mc_outbound := [mkOutboundFrame PINGREQ_BYTES 1 WA_PingReq None;
                       mkOutboundFrame PINGREQ_BYTES 0 WA_None (Some [7])] |>
    <| mc_outbound_bytes := 4 |>
    <| mc_stream ::= λ w, mkNet (ztake 1 PINGREQ_BYTES) [] [] 0 |>
    <| mc_pending_requests := {[ [7] := example_request ]} |>
    <| mc_pending_acks := {[ 9 := mkPendingAck 5 "" (PK_RequestPublish [7]) ]} |>.

Lemma example_requesting_ok : conn_ok example_requesting.
Proof.
  unfold example_requesting. split; cbn; try done; try lia.
  - split; [repeat constructor; by apply cf_pingreq|]. by split; [|repeat constructor].
  - by exists [].
  - apply map_Forall_singleton. lia.
  - exact (ok_reader _ (example_conn_ok [])).

Qed.

Lemma request_withdrawal_witness :
  ∃ s', fail_request [7] ClientClosed example_requesting = (Ok (), s')
    ∧ withdrawn [7] example_request
        (oneshot_send 0%nat (Reply_Request (Err ClientClosed)) (mc_oneshots example_requesting))
        example_requesting s'
    ∧ mc_pending_acks s' !! 9 = None.
Proof.
  destruct (request_withdrawal [7] ClientClosed example_requesting example_requesting_ok)
    as (s' & Hrun & Hw).
  exists s'. split; [exact Hrun|]. split; [exact Hw|].
  assert (mc_pending_acks (fail_request [7] ClientClosed example_requesting).2 !! 9 = None) as Hn
    by (vm_compute; reflexivity).
  by rewrite Hrun in Hn.
Defined.

(** ** Responses *)

Section responses.
Context {W : Type} {T : Transport W} {L : TransportLaws W} {H : HashOrder W} {C : ClockLaws W}.

Abbreviation Conn := (MqttConnection W).

(** The pending request that a PUBLISH answers: the one its correlation data names, if
    it expects its response on this topic. *)
Definition requester (packet : PublishPacket) (s : Conn) : option (list Z * PendingRequest) :=
  k ← get_binary (pub_properties packet) CorrelationData;
  p ← mc_pending_requests s !! k;
  if decide (pr_response_topic p = pub_topic packet) then Some (k, p) else None.

(** The acknowledgement a PUBLISH asks for is queued, or does not fit. *)
Inductive acking (packet : PublishPacket) (s : Conn) : Result unit → Conn → Prop :=
  | acking_none :
      pub_qos packet = AtMostOnce → acking packet s (Ok ()) s
  | acking_queued i :
      pub_qos packet = AtLeastOnce → pub_packet_id packet = Some i →
      4 ≤ mc_peer_max_packet_size s →
      mc_outbound_bytes s + 4 ≤ mc_max_outbound_queue_bytes s →
      acking packet s (Ok ()) (enqueued (puback_bytes i) WA_None None s)
  | acking_too_large :
      pub_qos packet = AtLeastOnce → mc_peer_max_packet_size s < 4 →
      acking packet s (Err (PacketTooLarge 4 (mc_peer_max_packet_size s))) s
  | acking_full :
      pub_qos packet = AtLeastOnce →
      Z.min usize_max (mc_max_outbound_queue_bytes s) < mc_outbound_bytes s + 4 →
      acking packet s (Err (QueueFull "outbound bytes")) s.

(** The first part of [dispatch_publish]. *)
Definition acknowledge (packet : PublishPacket) : M Conn unit :=
  if bool_decide (pub_qos packet = AtLeastOnce) then
    let! packet_id := lift (ok_or (pub_packet_id packet)
                              (MalformedPacket "QoS 1 PUBLISH missing packet id")) in
    let! ack := lift (PubAckPacket_encode (mkPubAckPacket packet_id 0x00)) in
    enqueue ack WA_None None
  else ret ().

Lemma acknowledge_run packet (s : Conn) :
  conn_ok s → publish_sound packet →
  ∃ v s1, acking packet s v s1 ∧ acknowledge packet s = (v, s1) ∧ conn_ok s1.
Proof.
  intros Hs (_ & Hid & _). unfold acknowledge. destruct (pub_qos packet) eqn:Hq.
  { exists (Ok ()), s. by split; [constructor|]. }
  destruct (pub_packet_id packet) as [i|] eqn:Hi; [|done]. destruct Hid as [Hid _].
  rewrite bool_decide_eq_true_2 by done. rewrite (bind_ok (lift (ok_or (Some i) _)) _ s i s eq_refl).
  rewrite (bind_ok (lift _) _ s (puback_bytes i) s) by (unfold lift; by rewrite puback_encoded).
  unfold enqueue, map_error, match_result. rewrite enqueue_with_action_spec.
  change (zlen (puback_bytes i)) with 4.
  destruct (_ <? 4) eqn:Hm; [eexists _, _; split; [by apply acking_too_large, Z.ltb_lt|done]|].
  destruct (Z.min _ _ <? _) eqn:Hl; [eexists _, _; split; [by apply acking_full, Z.ltb_lt|done]|].
  apply Z.ltb_ge in Hm, Hl. eexists _, _.
  split; [apply (acking_queued packet s i); [done..|lia]|]. split; [done|].
  apply enqueued_good; [|change (zlen (puback_bytes i)) with 4; lia|done].
  eapply cf_puback. by apply puback_encoded.
Qed.

Lemma acking_same packet (s s1 : Conn) v :
  acking packet s v s1 → mc_pending_requests s1 = mc_pending_requests s
    ∧ mc_oneshots s1 = mc_oneshots s ∧ mc_events s1 = mc_events s.
Proof. by destruct 1. Qed.

Lemma try_complete_request_run packet (s : Conn) :
  conn_ok s →
  match requester packet s with
  | Some (k, p) => try_complete_request packet s =
      (Ok true, withdraw k p s <| mc_oneshots ::= oneshot_send (pr_result p) (Reply_Request (Ok packet)) |>)
  | None => try_complete_request packet s = (Ok false, s)
  end.
Proof.
  intros Hs. unfold requester, try_complete_request.
  destruct (get_binary _ _) as [k|]; [|done]. cbn [mbind option_bind]. rewrite (bind_ok get _ s s s eq_refl).
  destruct (mc_pending_requests s !! k) as [p|] eqn:Hp; [|done]. cbn [mbind option_bind].
  destruct (decide _); [|done].
  rewrite (bind_ok _ _ _ _ _ (remove_request_run k p s Hs Hp)). done.
Qed.

(** C17. A PUBLISH from the server reaches exactly one reader. [dispatch_publish] queues the
    PUBACK a QoS 1 packet asks for (four bytes naming its identifier) before it delivers it,
    and fails without delivering when the PUBACK does not fit. Then a packet whose
    correlation data names a pending request that expects its response on this topic
    resolves that request with the packet, and no event is queued; any other packet, one
    with a stranger's correlation data or on another topic included, goes to the event
    queue untouched, and when that is full or closed the driver fails and no packet is
    dropped silently. *)
Theorem response_delivery packet (s : Conn) :
  conn_ok s → publish_sound packet →
  ∃ v s1, acking packet s v s1 ∧
    match v, requester packet s with
    | Ok _, Some (k, p) => ∃ s', dispatch_publish packet s = (Ok (), s')
        ∧ withdrawn k p (oneshot_send (pr_result p) (Reply_Request (Ok packet)) (mc_oneshots s)) s1 s'
    | Ok _, None => dispatch_publish packet s =
        if negb (ch_receiver (mc_events s)) then (Err ClientClosed, s1)
        else if ch_capacity (mc_events s) <=? zlen (ch_queue (mc_events s))
        then (Err (QueueFull "event"), s1)
        else (Ok (), s1 <| mc_events ::= λ ch, ch <| ch_queue ::= λ q, q ++ [Event_Publish packet] |> |>)
    | _, _ => dispatch_publish packet s = (v, s)
    end.
Proof.
  intros Hs Hpkt. destruct (acknowledge_run packet s Hs Hpkt) as (v & s1 & Hack & Hrun & Hs1).
  exists v, s1. split; [done|]. destruct (acking_same _ _ _ _ Hack) as (Hreq & Hones & Hev).
  change (dispatch_publish packet) with (let! _ := acknowledge packet in
    let! completed := try_complete_request packet in
    if completed then ret ()
    else map_error (λ error, match error with Full => QueueFull "event" | Closed => ClientClosed end)
           (try_send_event (Event_Publish packet))).
  pose proof (try_complete_request_run packet s1 Hs1) as Htry.
  assert (requester packet s1 = requester packet s) as Hsame by (unfold requester; by rewrite Hreq).
  rewrite Hsame in Htry. destruct v as [[]|e|why|].
  2,3,4: inversion Hack; subst; by rewrite (bind_err _ _ _ _ _ Hrun).
  rewrite (bind_ok _ _ _ _ _ Hrun). destruct (requester packet s) as [[k p]|].
  - rewrite (bind_ok _ _ _ _ _ Htry). eexists. split; [done|]. rewrite <- Hones.
    exact (withdraw_withdrawn k p _ s1 Hs1).
  - rewrite (bind_ok _ _ _ _ _ Htry). unfold map_error, match_result, try_send_event, try_send.
    rewrite <- Hev. destruct (negb _); [done|]. by destruct (_ <=? _).
Qed.
End responses.

Definition example_response (topic : string) (correlation : list Z) : PublishPacket :=
  mkPublishPacket (lit topic) (Some 5) [1] AtLeastOnce false false
    (set_correlation_data properties_new correlation).

Lemma response_delivery_witness :
  (∃ s', dispatch_publish (example_response "r" [7]) example_requesting = (Ok (), s')
     ∧ os_sent (mc_oneshots s') = [(0%nat, Reply_Request (Ok (example_response "r" [7])))]
     ∧ ch_queue (mc_events s') = [])
  ∧ ch_queue (mc_events (dispatch_publish (example_response "r" [8]) example_requesting).2)
    = [Event_Publish (example_response "r" [8])].
Proof.
  assert (∀ c, is_u8 c → publish_sound (example_response "r" [c])) as Hsound.
  { intros c Hc. split; [by split; [|split; [|split; [vm_compute; set_solver|vm_compute]]]|].
    split; [done|]. split; [|by constructor].
    change (Forall (entry_ok (Some CtxPublish)) [(CorrelationData, Binary [c])]
            ∧ NoDup [CorrelationData]).
    split; [|by apply NoDup_singleton]. apply Forall_singleton.
    split; [done|]. split; [done|]. split; [by constructor|by vm_compute]. }
  assert (let out := dispatch_publish (example_response "r" [7]) example_requesting in
    out.1 = Ok () ∧ os_sent (mc_oneshots out.2) = [(0%nat, Reply_Request (Ok (example_response "r" [7])))]
    ∧ ch_queue (mc_events out.2) = []) as (Hok & Ho & He) by (vm_compute; done).
  assert (requester (example_response "r" [7]) example_requesting = Some ([7], example_request)) as Hr
    by (vm_compute; reflexivity).
  split; [|vm_compute; reflexivity].
  destruct (response_delivery (example_response "r" [7]) example_requesting example_requesting_ok
              (Hsound 7 ltac:(done))) as (v & s1 & _ & Hout).
  rewrite Hr in Hout. destruct v as [[]|e|why|]; [|by rewrite Hout in Hok..].
  destruct Hout as (s' & Hrun & _). rewrite Hrun in Ho, He. exists s'. exact (conj Hrun (conj Ho He)).
Defined.
