(* ===== verification/AsyncTimers.v ===== *)
(** * Timers: deadlines, keep-alive and waiting

    What [expire_operations], [maintain_keep_alive] and [next_wait_duration] do with the
    clock: no operation outlives its deadline, the connection is pinged when idle
    and given up when the server is silent, and the driver never sleeps past a deadline. *)

From S2P Require Import Prelude Errors Utf8 Str Types Decode Encode Topic Properties.
From S2P Require Import PropertiesFacts Packets Connect Publish Subscribe Ping PacketCodec.
From S2P Require Import CodecFacts Writers Frame Options Transport AsyncTypes AsyncDriver.
From S2P Require Import AsyncClient AsyncConnect AsyncFacts AsyncScript AsyncStart.
From S2P Require Import AsyncRequests.

Local Open Scope Z_scope.

(** ** Expiry *)

Section expiry.
Context {W : Type} {T : Transport W} {L : TransportLaws W} {H : HashOrder W} {C : ClockLaws W}.

Abbreviation Conn := (MqttConnection W).

(** A later version of a pending acknowledgement: the same, or a tombstone of its deadline. *)
Definition buried (a a' : PendingAck) : Prop :=
  a' = a ∨ is_tombstone (pk_kind a') = true ∧ pk_deadline a' = pk_deadline a.

(** What the caller of an operation is told when its time is over. *)
Definition timed_out (a : PendingAck) : list (Sender * Reply) :=
  match pk_kind a with
  | PK_Publish r => [(r, Reply_Publish (Err (Timeout (pk_timeout_label a))))]
  | PK_Subscribe _ r | PK_Unsubscribe _ r =>
      [(r, Reply_Subscription (Err (Timeout (pk_timeout_label a))))]
  | _ => []
  end.

(** The identifier of a request's publish is not in use by a caller's operation. *)
Definition requests_own_ids (s : Conn) : Prop :=
  ∀ k p i a, mc_pending_requests s !! k = Some p → pr_publish_packet_id p = Some i →
    mc_pending_acks s !! i = Some a → timed_out a = [].

(** Nothing of the publish that uses the identifier was written: the withdrawal of its
    request may free it at once. *)
Definition freed_by_withdrawal (i : Z) (s : Conn) : Prop :=
  ∃ k p, mc_pending_requests s !! k = Some p ∧ pr_publish_packet_id p = Some i
    ∧ Exists (unsent k) (mc_outbound s).

(** Operations expire at the instant [t]: nothing is added and nobody is dropped
    silently; an operation is kept, turned into a tombstone or removed. *)
Record expires (t : Instant) (s s' : Conn) : Prop := {
  ex_acks : ∀ i a', mc_pending_acks s' !! i = Some a' →
              ∃ a, mc_pending_acks s !! i = Some a ∧ buried a a';
  ex_held : ∀ i a, mc_pending_acks s !! i = Some a →
              (∃ a', mc_pending_acks s' !! i = Some a' ∧ buried a a')
              ∨ freed_by_withdrawal i s ∧ mc_pending_acks s' !! i = None;
  ex_queue : mc_outbound s' `sublist_of` mc_outbound s;
  ex_requests : mc_pending_requests s' ⊆ mc_pending_requests s;
  ex_closed : os_closed (mc_oneshots s') = os_closed (mc_oneshots s);
  ex_sent : os_sent (mc_oneshots s) `prefix_of` os_sent (mc_oneshots s');
  ex_told : ∀ k p, mc_pending_requests s !! k = Some p → mc_pending_requests s' !! k = None →
              is_closed (mc_oneshots s) (pr_result p) = true
              ∨ ∃ l, (pr_result p, Reply_Request (Err (Timeout l))) ∈ os_sent (mc_oneshots s');
  ex_callers : requests_own_ids s → ∀ i a, mc_pending_acks s !! i = Some a → timed_out a ≠ [] →
              mc_pending_acks s' !! i = Some a
              ∨ is_cancelled (mc_oneshots s) (pk_kind a) = true
              ∨ pk_deadline a ≤ t ∧ timed_out a ⊆ os_sent (mc_oneshots s');
}.

#[export] Instance buried_preorder : PreOrder buried.
Proof.
  split; [by left|]. intros a b c [->|[Hb ?]] [->|[Hc ?]]; try (by left); right; split; congruence.
Qed.

Lemma buried_silent a a' : buried a a' → timed_out a = [] → timed_out a' = [].
Proof. intros [->|[Ht _]] H0; [done|]. unfold timed_out. by destruct (pk_kind a'). Qed.

Lemma own_expires t s s' : expires t s s' → requests_own_ids s → requests_own_ids s'.
Proof.
  intros He Ho k p i a' Hp Hi (a & Ha & Hb)%(ex_acks _ _ _ He).
  eapply buried_silent, (Ho k p i); [done|eapply lookup_weaken; [exact Hp|apply He]|done..].
Qed.

Lemma is_closed_same (o o' : Oneshots) r : os_closed o = os_closed o' → is_closed o r = is_closed o' r.
Proof. intros Hc. unfold is_closed. by rewrite Hc. Qed.

Lemma is_cancelled_same (o o' : Oneshots) k :
  os_closed o = os_closed o' → is_cancelled o k = is_cancelled o' k.
Proof. intros Hc. destruct k; cbn; by rewrite ?(is_closed_same o o'). Qed.

Lemma elem_of_prefix {A} (x : A) l l' : l `prefix_of` l' → x ∈ l → x ∈ l'.
Proof. intros [l'' ->] Hx. apply elem_of_app. by left. Qed.

Lemma freed_earlier i (s s' : Conn) :
  mc_pending_requests s' ⊆ mc_pending_requests s → mc_outbound s' `sublist_of` mc_outbound s →
  freed_by_withdrawal i s' → freed_by_withdrawal i s.
Proof.
  intros Hreq Hq (k & p & Hp & Hi & Hex). exists k, p. split; [by eapply lookup_weaken|].
  split; [done|]. apply list.Exists_exists in Hex as (f & Hf & Hu). apply list.Exists_exists.
  exists f. split; [|done]. by eapply elem_of_sublist.
Qed.

(** Steps that leave the acknowledgements, the queue, the requests and the oneshots. *)
Lemma expires_frame t (s s' : Conn) :
  mc_pending_acks s' = mc_pending_acks s → mc_outbound s' = mc_outbound s →
  mc_pending_requests s' = mc_pending_requests s → mc_oneshots s' = mc_oneshots s → expires t s s'.
Proof.
  intros Ha Hq Hr Ho. split; rewrite ?Ha, ?Hq, ?Hr, ?Ho; try done.
  - intros i a Hi. by exists a.
  - intros i a Hi. left. by exists a.
  - congruence.
  - by left.
Qed.

#[export] Instance expires_preorder t : PreOrder (expires t).
Proof.
  split.
  - intros s. split; try done; [intros i a Ha; by exists a|intros i a Ha; left; by exists a|congruence|by left].
  - intros s1 s2 s3 H12 H23. pose proof (ex_closed _ _ _ H12) as Hc. split.
    + intros i a' (a1 & H1 & Hb)%(ex_acks _ _ _ H23). destruct (ex_acks _ _ _ H12 _ _ H1) as (a & H0 & Hb').
      exists a. split; [done|by etransitivity].
    + intros i a Ha. destruct (ex_held _ _ _ H12 i a Ha) as [(a2 & Ha2 & Hb)|[Hfree Hnone]].
      * destruct (ex_held _ _ _ H23 i a2 Ha2) as [(a3 & Ha3 & Hb')|[Hfree Hnone]].
        { left. exists a3. split; [done|by etransitivity]. }
        right. split; [|done]. by eapply freed_earlier; [apply H12|apply H12|].
      * right. split; [done|]. destruct (mc_pending_acks s3 !! i) eqn:Ha3; [|done].
        destruct (ex_acks _ _ _ H23 i _ Ha3) as (? & ? & _). congruence.
    + etransitivity; [apply H23|apply H12].
    + etransitivity; [apply H23|apply H12].
    + rewrite (ex_closed _ _ _ H23). apply H12.
    + etransitivity; [apply H12|apply H23].
    + intros k p Hp Hn. destruct (mc_pending_requests s2 !! k) as [p'|] eqn:Hp'.
      * assert (p' = p) as ->.
        { pose proof (lookup_weaken _ _ _ _ Hp' (ex_requests _ _ _ H12)). congruence. }
        rewrite <- (is_closed_same _ _ _ Hc). by apply (ex_told _ _ _ H23 k).
      * destruct (ex_told _ _ _ H12 k p Hp Hp') as [?|[l Hl]]; [by left|right]. exists l.
        by eapply elem_of_prefix; [apply H23|].
    + intros Ho i a Ha Hr. destruct (ex_callers _ _ _ H12 Ho i a Ha Hr) as [Ha2|[?|[Hd Ht]]].
      * rewrite <- (is_cancelled_same _ _ _ Hc).
        apply (ex_callers _ _ _ H23 (own_expires _ _ _ H12 Ho) i a Ha2 Hr).
      * by right; left.
      * right; right. split; [done|]. intros x Hx%Ht. by eapply elem_of_prefix; [apply H23|].
Qed.

Lemma conn_ok_of {A} (m : M Conn A) (s s' : Conn) a :
  keeps m s → conn_ok s → m s = (Ok a, s') → conn_ok s'.
Proof. intros Hk Hs Hm. specialize (Hk Hs). unfold outcome in Hk. rewrite Hm in Hk. apply Hk. Qed.

(** A withdrawn request leaves the others, and its acknowledgement a tombstone or free. *)
Lemma withdrawn_expires t k p o (s s' : Conn) :
  withdrawn k p o s s' → mc_pending_requests s !! k = Some p →
  os_closed o = os_closed (mc_oneshots s) → os_sent (mc_oneshots s) `prefix_of` os_sent o →
  is_closed (mc_oneshots s) (pr_result p) = true
  ∨ (∃ l, (pr_result p, Reply_Request (Err (Timeout l))) ∈ os_sent o) →
  expires t s s'.
Proof.
  intros Hw Hp Hc Hsent Htold. pose proof (wd_ack _ _ _ _ _ Hw) as Hack.
  assert (mc_oneshots s' = o) as Ho by (by rewrite (wd_frame _ _ _ _ _ Hw)).
  split; rewrite ?Ho; try done.
  - intros i a' Ha. destruct (pr_publish_packet_id p) as [j|]; [|rewrite Hack in Ha; by exists a'].
    destruct Hack as (Hother & Hgone & Hkept). destruct (decide (i = j)) as [->|Hij].
    + destruct (decide (Exists (unsent k) (mc_outbound s))) as [He|He]; [by rewrite (Hgone He) in Ha|].
      rewrite (Hkept He) in Ha. apply fmap_Some in Ha as (a & Ha & ->). exists a.
      split; [done|by right].
    + rewrite (Hother i Hij) in Ha. by exists a'.
  - intros i a Ha. destruct (pr_publish_packet_id p) as [j|] eqn:Hj; [|left; rewrite Hack; by exists a].
    destruct Hack as (Hother & Hgone & Hkept). destruct (decide (i = j)) as [->|Hij].
    + destruct (decide (Exists (unsent k) (mc_outbound s))) as [He|He].
      * right. split; [by exists k, p|by apply Hgone].
      * left. rewrite (Hkept He), Ha. eexists. split; [done|by right].
    + left. rewrite (Hother i Hij). by exists a.
  - apply (wd_order _ _ _ _ _ Hw).
  - rewrite (wd_requests _ _ _ _ _ Hw). apply delete_subseteq.
  - intros k' p' Hp'. rewrite (wd_requests _ _ _ _ _ Hw). destruct (decide (k' = k)) as [->|Hk].
    + intros _. by simplify_eq.
    + rewrite lookup_delete_ne by done. congruence.
  - intros Hown i a Ha Hr. left. destruct (pr_publish_packet_id p) as [j|] eqn:Hj; [|by rewrite Hack].
    destruct Hack as (Hother & _). rewrite Hother; [done|]. intros ->. by rewrite (Hown k p j a) in Hr.
Qed.

Lemma withdraw_expires t k p l (s : Conn) :
  conn_ok s → mc_pending_requests s !! k = Some p →
  expires t s (withdraw k p s <| mc_oneshots ::=
    oneshot_send (pr_result p) (Reply_Request (Err (Timeout l))) |>).
Proof.
  intros Hs Hp. eapply withdrawn_expires; [apply (withdraw_withdrawn k p _ s Hs)|done|done|..].
  - cbn. by apply prefix_app_r.
  - right. exists l. cbn. set_solver.
Qed.

(** The instant at which operations expire. *)
Context (t : Instant).

(** A step that succeeds, only lets operations expire, and has an effect [Q]. *)
Definition expiring (m : M Conn unit) (Q : Conn → Prop) (s : Conn) : Prop :=
  ∃ s', m s = (Ok (), s') ∧ conn_ok s' ∧ expires t s s' ∧ Q s'.

Lemma expiring_bind m n Q R s :
  expiring m Q s → (∀ s', conn_ok s' → expires t s s' → Q s' → expiring n R s') →
  expiring (let! _ := m in n) R s.
Proof.
  intros (s1 & Hm & H1 & E1 & Q1) Hn. destruct (Hn s1 H1 E1 Q1) as (s2 & Hn2 & H2 & E2 & R2).
  exists s2. rewrite (bind_ok _ _ _ _ _ Hm). split_and!; [done|done|by etransitivity|done].
Qed.

Lemma expiring_get (k : Conn → M Conn unit) Q s : expiring (k s) Q s → expiring (bind get k) Q s.
Proof. done. Qed.

Lemma expiring_for_each {A} (l : list A) body (P Q : A → Conn → Prop) s :
  (∀ x s, conn_ok s → P x s → expiring (body x) (Q x) s) →
  (∀ x s s', P x s → expires t s s' → P x s') →
  (∀ x s s', Q x s → expires t s s' → Q x s') →
  conn_ok s → (∀ x, x ∈ l → P x s) → expiring (for_each l body) (λ s', ∀ x, x ∈ l → Q x s') s.
Proof.
  intros Hbody HP HQ. revert s. induction l as [|x l IH]; intros s Hs Hpre; cbn [for_each].
  { exists s. split; [done|]. split; [done|]. split; [done|]. intros x Hx. by apply not_elem_of_nil in Hx. }
  destruct (Hbody x s Hs) as (s1 & Hx & H1 & E1 & Q1); [apply Hpre, elem_of_cons; by left|].
  destruct (IH s1 H1) as (s2 & Hl & H2 & E2 & Q2).
  { intros y Hy. eapply HP; [|done]. apply Hpre, elem_of_cons. by right. }
  exists s2. rewrite (bind_ok _ _ _ _ _ Hx). split; [done|]. split; [done|].
  split; [by etransitivity|]. intros y [->|Hy]%elem_of_cons; [by eapply HQ|by apply Q2].
Qed.

Lemma fail_request_expiring k l s :
  conn_ok s → expiring (fail_request k (Timeout l)) (λ s', mc_pending_requests s' !! k = None) s.
Proof.
  intros Hs. pose proof (fail_request_run k (Timeout l) s Hs) as Hrun.
  pose proof (fail_request_keeps k (Timeout l) s) as Hk. destruct (_ !! k) as [p|] eqn:Hp.
  - eexists. split; [exact Hrun|]. split; [by eapply conn_ok_of|].
    split; [by apply withdraw_expires|]. cbn. apply lookup_delete_eq.
  - by exists s.
Qed.

Lemma requests_gone k (s s' : Conn) :
  mc_pending_requests s !! k = None → expires t s s' → mc_pending_requests s' !! k = None.
Proof. intros Hn He. eapply lookup_weaken_None; [exact Hn|apply He]. Qed.

Lemma fail_requests_for_topic_expiring topic l s :
  conn_ok s → expiring (fail_requests_for_topic topic (Timeout l)) (λ _, True) s.
Proof.
  intros Hs. unfold fail_requests_for_topic. apply expiring_get.
  destruct (expiring_for_each (requests_on topic (λ _, true) s)
    (λ k, fail_request k (Timeout l)) (λ _ _, True) (λ k s', mc_pending_requests s' !! k = None) s)
    as (s' & ? & ? & ? & _);
    [intros; by apply fail_request_expiring|done|apply requests_gone|done|done|by exists s'].
Qed.

(** No live operation waits under the identifier any more. *)
Definition dead (i : Z) (s : Conn) : Prop :=
  ∀ a, mc_pending_acks s !! i = Some a → is_tombstone (pk_kind a) = true.

Lemma dead_expires i s s' : dead i s → expires t s s' → dead i s'.
Proof.
  intros Hd He a' (a & Ha & [->|[Ht _]])%(ex_acks _ _ _ He); [by apply Hd|done].
Qed.

Lemma kind_fail_closed k e o : os_closed (PendingAckKind_fail k e o) = os_closed o.
Proof. by destruct k. Qed.

Lemma bury_expires i a f (s : Conn) :
  mc_pending_acks s !! i = Some a → pk_deadline a ≤ t →
  os_closed (f (mc_oneshots s)) = os_closed (mc_oneshots s) →
  os_sent (mc_oneshots s) `prefix_of` os_sent (f (mc_oneshots s)) →
  timed_out a ⊆ os_sent (f (mc_oneshots s)) →
  expires t s (s <| mc_pending_acks ::= <[ i := a <| pk_kind := tombstone_of (pk_kind a) |> ]> |>
                 <| mc_oneshots ::= f |>).
Proof.
  intros Ha Hd Hc Hsent Htold. split; cbn; try done.
  - intros j a'. destruct (decide (j = i)) as [->|Hj].
    + rewrite lookup_insert_eq. intros [= <-]. exists a. split; [done|by right].
    + rewrite lookup_insert_ne by done. by exists a'.
  - intros j b Hb. left. destruct (decide (j = i)) as [->|Hj].
    + rewrite lookup_insert_eq. simplify_eq. eexists. split; [done|by right].
    + rewrite lookup_insert_ne by done. by exists b.
  - congruence.
  - intros _ j b Hb Hr. destruct (decide (j = i)) as [->|Hj].
    + simplify_eq. by right; right.
    + left. by rewrite lookup_insert_ne.
Qed.

(** A live operation under the identifier is overdue. *)
Definition overdue (i : Z) (s : Conn) : Prop :=
  ∀ a, mc_pending_acks s !! i = Some a → pk_deadline a ≤ t.

Lemma overdue_expires i s s' : overdue i s → expires t s s' → overdue i s'.
Proof.
  intros Ho He a' (a & Ha & Hb)%(ex_acks _ _ _ He). specialize (Ho a Ha). by destruct Hb as [->|[_ ->]].
Qed.

Lemma kind_fail_prefix k e o : os_sent o `prefix_of` os_sent (PendingAckKind_fail k e o).
Proof. destruct k; cbn; try done; by apply prefix_app_r. Qed.

(** Burying an overdue operation and telling its caller. *)
Lemma bury_step i a (s : Conn) :
  conn_ok s → mc_pending_acks s !! i = Some a → pk_deadline a ≤ t →
  let tell := PendingAckKind_fail (pk_kind a) (Timeout (pk_timeout_label a)) in
  let s' := s <| mc_pending_acks ::= <[ i := a <| pk_kind := tombstone_of (pk_kind a) |> ]> |>
              <| mc_oneshots ::= tell |> in
  conn_ok s' ∧ expires t s s' ∧ dead i s'.
Proof.
  intros Hs Ha Hd tell s'. split; [|split].
  - apply (keeps_fails tell), (keeps_bury i a s Ha Hs).
  - apply bury_expires; [done|done|apply kind_fail_closed|apply kind_fail_prefix|].
    unfold timed_out, tell. destruct (pk_kind a); cbn; set_solver.
  - intros b. cbn. rewrite lookup_insert_eq. by intros [= <-].
Qed.

Lemma drop_subscription_expiring topic s :
  conn_ok s →
  expiring (modify (λ c, c <| mc_response_subscriptions ::= delete topic |>)) (λ _, True) s.
Proof.
  intros Hs. eexists. split; [done|]. split; [by eapply conn_ok_of; [apply keeps_response_subscriptions| |]|].
  split; [by apply expires_frame|done].
Qed.

Lemma expire_ack_expiring i s : conn_ok s → overdue i s → expiring (expire_ack i) (dead i) s.
Proof.
  intros Hs Hover. unfold expire_ack. apply expiring_get.
  destruct (mc_pending_acks s !! i) as [a|] eqn:Ha.
  2: { exists s. split; [done|]. split; [done|]. split; [done|]. intros a'. by rewrite Ha. }
  destruct (bury_step i a s Hs Ha (Hover a Ha)) as (H1 & E1 & D1).
  unfold expiring, bind at 1, modify at 1. revert H1 E1 D1.
  destruct (pk_kind a) eqn:Hk; cbn [PendingAckKind_fail];
    try (intros; eexists; split; [reflexivity|by split]).
  - (* a request's publish *)
    set (s1 := s <| mc_pending_acks ::= _ |> <| mc_oneshots ::= id |>). intros H1 E1 D1.
    destruct (fail_request_expiring correlation_data (pk_timeout_label a) s1 H1)
      as (s2 & Hm & H2 & E2 & _).
    exists s2. split; [exact Hm|]. split; [done|]. split; [by etransitivity|by eapply dead_expires].
  - (* a response subscription *)
    set (s1 := s <| mc_pending_acks ::= _ |> <| mc_oneshots ::= id |>). intros H1 E1 D1.
    destruct (drop_subscription_expiring response_topic s1 H1) as (s2 & Hd & H2 & E2 & _).
    destruct (fail_requests_for_topic_expiring response_topic (pk_timeout_label a) s2 H2)
      as (s3 & Hm & H3 & E3 & _).
    exists s3. split; [rewrite <- Hm; by rewrite <- (bind_ok _ (λ _, fail_requests_for_topic _ _) _ _ _ Hd)|].
    assert (expires t s1 s3) by (by etransitivity).
    split; [done|]. split; [by etransitivity|by eapply dead_expires].
Qed.

Lemma remove_request_expiring k s :
  conn_ok s →
  (∀ p, mc_pending_requests s !! k = Some p → is_closed (mc_oneshots s) (pr_result p) = true) →
  expiring (let! _ := remove_request k in ret ()) (λ s', mc_pending_requests s' !! k = None) s.
Proof.
  intros Hs Hcl. pose proof (remove_request_keeps k s) as Hk.
  destruct (mc_pending_requests s !! k) as [p|] eqn:Hp.
  - pose proof (remove_request_run k p s Hs Hp) as Hrun. exists (withdraw k p s).
    rewrite (bind_ok _ _ _ _ _ Hrun). split; [done|]. split; [by eapply conn_ok_of|].
    split; [|cbn; apply lookup_delete_eq].
    apply (withdrawn_expires t k p _ s _ (withdraw_withdrawn k p (mc_oneshots s) s Hs)); [done..|].
    left. by apply Hcl.
  - exists s. rewrite (bind_ok (remove_request k) _ s None s); [done|].
    unfold remove_request, bind, get. by rewrite Hp.
Qed.

Lemma expire_request_expiring k s :
  conn_ok s → expiring (expire_request k) (λ s', mc_pending_requests s' !! k = None) s.
Proof.
  intros Hs. unfold expire_request. apply expiring_get. cbv zeta.
  destruct (match mc_pending_requests s !! k with Some _ => _ | None => _ end) eqn:Hc;
    [|by apply fail_request_expiring].
  apply remove_request_expiring; [done|]. intros p Hp. by rewrite Hp in Hc.
Qed.

Lemma bury_cancelled_buried o a : buried a (bury_cancelled o a).
Proof. unfold bury_cancelled. destruct (is_cancelled _ _); [by right|by left]. Qed.

Lemma bury_cancelled_live o a :
  is_tombstone (pk_kind (bury_cancelled o a)) = false →
  is_cancelled o (pk_kind a) = false ∧ bury_cancelled o a = a.
Proof. unfold bury_cancelled. by destruct (is_cancelled _ _). Qed.

Lemma bury_cancelled_expires (s : Conn) :
  expires t s (s <| mc_pending_acks ::= fmap (bury_cancelled (mc_oneshots s)) |>).
Proof.
  split; cbn; try done.
  - intros i a'. rewrite lookup_fmap. intros (a & Ha & ->)%fmap_Some. exists a.
    split; [done|apply bury_cancelled_buried].
  - intros i a Ha. left. rewrite lookup_fmap, Ha. eexists. split; [done|apply bury_cancelled_buried].
  - congruence.
  - intros _ i a Ha _. rewrite lookup_fmap, Ha. unfold bury_cancelled. cbn.
    destruct (is_cancelled _ _); [by right; left|by left].
Qed.

Lemma elem_of_hash_iter {K A} `{Countable K} (m : gmap K A) (s : Conn) i a :
  (i, a) ∈ hash_iter m s ↔ m !! i = Some a.
Proof. unfold hash_iter. by rewrite (reorder_perm _ _ _), elem_of_map_to_list. Qed.

Lemma elem_of_keys {K A} `{Countable K} (m : gmap K A) (P : K * A → Prop) `{!∀ x, Decision (P x)}
    (s : Conn) i :
  i ∈ (filter P (hash_iter m s)).*1 ↔ ∃ a, m !! i = Some a ∧ P (i, a).
Proof.
  rewrite list_elem_of_fmap. split.
  - intros ([j a] & -> & Hf). apply list_elem_of_filter in Hf as [HP Ha]. exists a.
    by apply elem_of_hash_iter in Ha.
  - intros (a & Ha & HP). exists (i, a). split; [done|]. apply list_elem_of_filter.
    split; [done|by apply elem_of_hash_iter].
Qed.

(** What is left when the loop over the acknowledgements is done. *)
Definition acks_expired (o : Oneshots) (s : Conn) : Prop :=
  ∀ i a, mc_pending_acks s !! i = Some a →
    is_tombstone (pk_kind a) = true ∨ t < pk_deadline a ∧ is_cancelled o (pk_kind a) = false.
Definition requests_expired (o : Oneshots) (s : Conn) : Prop :=
  ∀ k p, mc_pending_requests s !! k = Some p → t < pr_deadline p ∧ is_closed o (pr_result p) = false.

Lemma acks_expired_later o s s' : acks_expired o s → expires t s s' → acks_expired o s'.
Proof.
  intros Ha He i a' (a & Hi & Hb)%(ex_acks _ _ _ He). destruct Hb as [->|[? _]]; [by eapply Ha|by left].
Qed.

Lemma expire_acks_expiring (s : Conn) :
  conn_ok s →
  let s1 := s <| mc_pending_acks ::= fmap (bury_cancelled (mc_oneshots s)) |> in
  expiring
    (for_each (fst <$> filter (λ p : Z * PendingAck,
                 pk_deadline p.2 ≤ t ∧ is_tombstone (pk_kind p.2) = false)
               (hash_iter (mc_pending_acks s1) s1)) expire_ack)
    (acks_expired (mc_oneshots s)) s1.
Proof.
  intros Hs s1.
  assert (conn_ok s1) as H1 by (apply (keeps_bury_cancelled (E:=Error) s Hs)).
  edestruct (expiring_for_each (fst <$> filter (λ p : Z * PendingAck,
                 pk_deadline p.2 ≤ t ∧ is_tombstone (pk_kind p.2) = false)
               (hash_iter (mc_pending_acks s1) s1)) expire_ack overdue dead s1)
    as (s2 & Hm & H2 & E2 & Hdead);
    [apply expire_ack_expiring|apply overdue_expires|apply dead_expires|done|..].
  - intros i (a & Ha & Hd & _)%elem_of_keys a' Ha'. by simplify_eq.
  - exists s2. split; [done|]. split; [done|]. split; [done|]. intros i a' Ha'.
    destruct (is_tombstone (pk_kind a')) eqn:Ht; [by left|right].
    destruct (ex_acks _ _ _ E2 i a' Ha') as (a1 & Hi & [->|[? _]]); [|congruence].
    assert (∃ a, mc_pending_acks s !! i = Some a ∧ a1 = bury_cancelled (mc_oneshots s) a)
      as (a & Ha & ->).
    { unfold s1 in Hi. cbn in Hi. rewrite lookup_fmap in Hi. by apply fmap_Some in Hi. }
    destruct (bury_cancelled_live _ _ Ht) as [Hcan Hsame]. rewrite Hsame in *. split; [|done].
    destruct (decide (pk_deadline a ≤ t)) as [Hd|]; [|lia].
    rewrite (Hdead i) in Ht; [done|by apply elem_of_keys; exists a|done].
Qed.

Lemma expire_requests_expiring (s : Conn) :
  conn_ok s →
  expiring
    (for_each (fst <$> filter (λ p : list Z * PendingRequest,
                 pr_deadline p.2 ≤ t ∨ is_closed (mc_oneshots s) (pr_result p.2) = true)
               (hash_iter (mc_pending_requests s) s)) expire_request)
    (requests_expired (mc_oneshots s)) s.
Proof.
  intros Hs.
  edestruct (expiring_for_each (fst <$> filter (λ p : list Z * PendingRequest,
                 pr_deadline p.2 ≤ t ∨ is_closed (mc_oneshots s) (pr_result p.2) = true)
               (hash_iter (mc_pending_requests s) s)) expire_request (λ _ _, True)
               (λ k s', mc_pending_requests s' !! k = None) s)
    as (s2 & Hm & H2 & E2 & Hgone);
    [intros; by apply expire_request_expiring|done|apply requests_gone|done|done|].
  exists s2. split; [done|]. split; [done|]. split; [done|]. intros k p Hp.
  pose proof (lookup_weaken _ _ _ _ Hp (ex_requests _ _ _ E2)) as Hp0.
  destruct (decide (pr_deadline p ≤ t ∨ is_closed (mc_oneshots s) (pr_result p) = true)) as [Hd|Hd].
  - rewrite (Hgone k) in Hp; [done|]. apply elem_of_keys. by exists p.
  - split; [lia|]. destruct (is_closed _ _); [|done]. exfalso. tauto.
Qed.
End expiry.

Section operations.
Context {W : Type} {T : Transport W} {L : TransportLaws W} {H : HashOrder W} {C : ClockLaws W}.

Abbreviation Conn := (MqttConnection W).

(** C18. Deadlines are kept: [expire_operations] always succeeds, and at its instant [t] it leaves no
    acknowledgement or request that is overdue or whose caller went away: every
    acknowledgement still pending is a tombstone or has time and a caller left, every
    request has both. Nothing is added; the identifier of an expired operation is held
    by a tombstone of the same deadline, so that it is not given out while its acknowledgement may
    still come, unless it belongs to a request that was withdrawn before any byte of its publish
    was written; and nobody is dropped silently: a request that disappears was cancelled
    or told [Timeout], and, when no request's publish identifier was given to another
    operation, an operation is changed only if its caller cancelled it, or its deadline
    passed and its caller was told [Timeout]. *)
Theorem operations_expire (s : Conn) :
  conn_ok s →
  ∃ t w s', t_now (mc_stream s) = (t, w)
    ∧ expire_operations s = (Ok (), s')
    ∧ expires t s s'
    ∧ (∀ i a, mc_pending_acks s !! i = Some a → pk_deadline a ≤ t →
         (∃ a', mc_pending_acks s' !! i = Some a' ∧ is_tombstone (pk_kind a') = true
                ∧ pk_deadline a' = pk_deadline a)
         ∨ freed_by_withdrawal i s ∧ mc_pending_acks s' !! i = None)
    ∧ acks_expired t (mc_oneshots s) s' ∧ requests_expired t (mc_oneshots s) s'.
Proof.
  intros Hs. unfold expire_operations, now. destruct (t_now (mc_stream s)) as [t w] eqn:Hnow.
  exists t, w. pose proof (now_law (mc_stream s)) as Hw. rewrite Hnow in Hw. cbn in Hw.
  set (s0 := s <| mc_stream := w |>).
  assert (conn_ok s0) as H0 by (by apply (good_stream w s Hs Hw)).
  assert (expires t s s0) as E0.
  { by apply expires_frame. }
  destruct (expire_acks_expiring t s0 H0) as (s2 & Hm2 & H2 & E2 & A2).
  destruct (expire_requests_expiring t s2 H2) as (s3 & Hm3 & H3 & E3 & A3).
  pose proof (bury_cancelled_expires t s0) as E1.
  exists s3. split; [done|]. split.
  { unfold bind at 1. rewrite Hnow. unfold bind at 1, modify at 1. fold s0.
    unfold bind at 1, get at 1. rewrite (bind_ok _ _ _ _ _ Hm2). exact Hm3. }
  assert (expires t s s2) as E12 by (etransitivity; [exact E0|by etransitivity]).
  assert (expires t s s3) as E13 by (by etransitivity).
  assert (acks_expired t (mc_oneshots s0) s3) as A23 by (by eapply acks_expired_later).
  split; [exact E13|]. split; [|split; [exact A23|]].
  { intros i a Ha Hd. destruct (ex_held _ _ _ E13 i a Ha) as [(a' & Ha' & Hb)|?]; [left|by right].
    exists a'. assert (pk_deadline a' = pk_deadline a) as Hsame by (by destruct Hb as [->|[_ ?]]).
    split; [done|]. split; [|done]. destruct (A23 i a' Ha') as [?|[? _]]; [done|lia]. }
  intros k p Hp. rewrite (is_closed_same _ _ _ (eq_sym (ex_closed _ _ _ E12))). by apply (A3 k p).
Qed.
End operations.

(** Two overdue operations, one abandoned by its caller, and a request in time. *)
Definition example_expiring : MqttConnection Net :=
  example_requesting
    <| mc_stream := mkNet (ztake 1 PINGREQ_BYTES) [] [] 20 |>
    <| mc_pending_acks :=
         <[ 9 := mkPendingAck 21 "request publish acknowledgement" (PK_RequestPublish [7]) ]>
           (<[ 2 := mkPendingAck 21 "publish acknowledgement" (PK_Publish 5) ]>
             {[ 1 := mkPendingAck 20 "publish acknowledgement" (PK_Publish 4) ]}) |>
    <| mc_oneshots := mkOneshots 6 {[ 5%nat ]} [] |>.

Lemma conn_ok_variant stream acks oneshots (s : MqttConnection Net) :
  conn_ok s → sent stream = sent (mc_stream s) →
  map_Forall (λ i _, 1 ≤ i ≤ 65535) acks → Z.of_nat (size acks) ≤ mc_max_pending_operations s →
  conn_ok (s <| mc_stream := stream |> <| mc_pending_acks := acks |> <| mc_oneshots := oneshots |>).
Proof.
  intros [] Hw Hids Hsize. split; try done.
  change (∃ fs, sent stream = concat fs ++ partial (mc_outbound s) ∧ Forall client_frame fs).
  by rewrite Hw.
Qed.

Lemma conn_ok_keep_alive secs ping poll (s : MqttConnection Net) :
  conn_ok s → 0 ≤ secs ≤ 65535 → (∀ t, ping = Some t → t ≤ clock_end) →
  conn_ok (s <| mc_keep_alive_secs := secs |> <| mc_ping_outstanding_since := ping |>
             <| mc_poll_interval := poll |>).
Proof. intros [????????????(?&?&?&?)] ? ?. by split. Qed.

Lemma example_expiring_ok : conn_ok example_expiring.
Proof.
  apply conn_ok_variant; [exact example_requesting_ok|done| |vm_compute; discriminate].
  do 2 (apply map_Forall_insert_2; [lia|]). apply map_Forall_singleton. lia.
Qed.

Lemma operations_expire_witness :
  ∃ s', expire_operations example_expiring = (Ok (), s')
    ∧ expires 20 example_expiring s'
    ∧ acks_expired 20 (mc_oneshots example_expiring) s'
    ∧ os_sent (mc_oneshots s') = [(4%nat, Reply_Publish (Err (Timeout "publish acknowledgement")))]
    ∧ is_Some (mc_pending_requests s' !! [7]).
Proof.
  destruct (operations_expire example_expiring example_expiring_ok)
    as (t & w & s' & Hnow & Hrun & He & _ & Ha & _).
  assert (t = 20) as -> by (vm_compute in Hnow; congruence).
  exists s'. split; [exact Hrun|]. split; [exact He|]. split; [exact Ha|].
  assert (let out := (expire_operations example_expiring).2 in
    os_sent (mc_oneshots out) = [(4%nat, Reply_Publish (Err (Timeout "publish acknowledgement")))]
    ∧ mc_pending_requests out !! [7] = Some example_request) as [Ho Hr] by (vm_compute; done).
  rewrite Hrun in Ho, Hr. split; [exact Ho|]. by exists example_request.
Defined.

(** ** Keep-alive and waiting *)

Section waiting_times.
Context {W : Type} {T : Transport W} {L : TransportLaws W} {H : HashOrder W} {C : ClockLaws W}.

Abbreviation Conn := (MqttConnection W).

(** [m] is the least of [bound] and the [f x], for [x] in [l]. *)
Definition least {A} (f : A → Z) (l : list A) (bound m : Z) : Prop :=
  m ≤ bound ∧ (∀ x, x ∈ l → m ≤ f x) ∧ (m = bound ∨ ∃ x, x ∈ l ∧ m = f x).

Lemma fold_left_least {A} (f : A → Z) (l : list A) bound :
  least f l bound (fold_left (λ m x, Z.min m (f x)) l bound).
Proof.
  revert bound. induction l as [|x l IH]; intros bound; cbn [fold_left].
  { split; [lia|]. split; [|by left]. intros x Hx. by apply not_elem_of_nil in Hx. }
  destruct (IH (Z.min bound (f x))) as (Hb & Hall & Hat). split; [lia|]. split.
  - intros y [->|Hy]%elem_of_cons; [lia|by apply Hall].
  - destruct Hat as [->|(y & Hy & ->)].
    + destruct (Z.min_spec bound (f x)) as [[_ ->]|[_ ->]]; [by left|right].
      exists x. split; [apply elem_of_cons; by left|done].
    + right. exists y. split; [apply elem_of_cons; by right|done].
Qed.

(** The instants the driver has to wake up for. *)
Definition wake_times (s : Conn) : list Instant :=
  ((λ p, pk_deadline p.2) <$> map_to_list (mc_pending_acks s))
  ++ ((λ p, pr_deadline p.2) <$> map_to_list (mc_pending_requests s))
  ++ match keep_alive_interval (mc_keep_alive_secs s), mc_ping_outstanding_since s with
     | Some _, Some sent => [sent + from_secs (mc_keep_alive_secs s)]
     | Some interval, None => if mc_ping_queued s then [] else [mc_last_write_at s + interval]
     | None, _ => []
     end.

Lemma least_more {A} (l l' : list A) f bound m m' :
  least f l bound m → least f l' m m' → least f (l ++ l') bound m'.
Proof.
  intros (Hb & Hall & Hat) (Hb' & Hall' & Hat'). split; [lia|]. split.
  - intros x [Hx|Hx]%elem_of_app; [specialize (Hall x Hx); lia|by apply Hall'].
  - destruct Hat' as [->|(x & Hx & ->)]; [|right; exists x; split; [apply elem_of_app; by right|done]].
    destruct Hat as [->|(x & Hx & ->)]; [by left|right]. exists x. split; [apply elem_of_app; by left|done].
Qed.

Lemma least_image {A B} (g : A → B) (f : B → Z) (l : list A) bound m :
  least (λ x, f (g x)) l bound m → least f (g <$> l) bound m.
Proof.
  intros (Hb & Hall & Hat). split; [done|]. split.
  - intros y (x & -> & Hx)%list_elem_of_fmap. by apply Hall.
  - destruct Hat as [->|(x & Hx & ->)]; [by left|right]. exists (g x).
    split; [by apply list_elem_of_fmap_2|done].
Qed.

Lemma least_perm {A} (f : A → Z) (l l' : list A) bound m :
  l ≡ₚ l' → least f l bound m → least f l' bound m.
Proof.
  intros Hp (Hb & Hall & Hat). split; [done|]. split.
  - intros x Hx. apply Hall. by rewrite Hp.
  - destruct Hat as [->|(x & Hx & ->)]; [by left|right]. exists x. by rewrite <- Hp.
Qed.

(** One of the loops of [next_wait_duration]. *)
Lemma wait_loop {K A} `{Countable K} (m : gmap K A) (deadline : A → Instant) t wait (s : Conn) :
  least (λ x, saturating_duration_since x t) ((λ p, deadline p.2) <$> map_to_list m) wait
    (fold_left (λ wait p, Z.min wait (saturating_duration_since (deadline p.2) t)) (hash_iter m s) wait).
Proof.
  apply (least_image (λ p : K * A, deadline p.2) (λ x, saturating_duration_since x t)).
  eapply least_perm; [|apply (fold_left_least (λ p : K * A, saturating_duration_since (deadline p.2) t))].
  apply reorder_perm.
Qed.

Lemma least_none {A} (f : A → Z) m : least f [] m m.
Proof. split; [lia|]. split; [|by left]. intros x Hx. by apply not_elem_of_nil in Hx. Qed.

Lemma least_one {A} (f : A → Z) x m : least f [x] m (Z.min m (f x)).
Proof. exact (fold_left_least f [x] m). Qed.

(** The keep-alive part of [next_wait_duration]. *)
Definition keep_alive_wait (now_ : Instant) (self : Conn) (wait : Duration) : M Conn Duration :=
  match keep_alive_interval (mc_keep_alive_secs self) with
  | None => ret wait
  | Some interval =>
      match mc_ping_outstanding_since self with
      | Some sent =>
          let! deadline := instant_add sent (from_secs (mc_keep_alive_secs self)) in
          ret (Z.min wait (saturating_duration_since deadline now_))
      | None =>
          if negb (mc_ping_queued self) then
            let! at_ := instant_add (mc_last_write_at self) interval in
            ret (Z.min wait (saturating_duration_since at_ now_))
          else ret wait
      end
  end.

Lemma instant_add_run t d (s : Conn) :
  t + d ≤ t_instant_max → instant_add (E:=Error) t d s = (Ok (t + d), s).
Proof. intros Ht. unfold instant_add, instant_checked_add. by rewrite (proj2 (Z.leb_le _ _)). Qed.

Lemma keep_alive_wait_run t wait (s : Conn) :
  conn_ok s →
  ∃ d, keep_alive_wait t s wait s = (Ok d, s)
    ∧ least (λ x, saturating_duration_since x t)
        match keep_alive_interval (mc_keep_alive_secs s), mc_ping_outstanding_since s with
        | Some _, Some sent => [sent + from_secs (mc_keep_alive_secs s)]
        | Some interval, None => if mc_ping_queued s then [] else [mc_last_write_at s + interval]
        | None, _ => []
        end wait d.
Proof.
  intros Hs. destruct (ok_clocks _ Hs) as (_ & Hk & Hl & Hp). unfold keep_alive_wait.
  pose proof clock_room as Hroom. unfold keep_alive_interval, from_secs in *.
  destruct (negb _); [|eexists; split; [done|apply least_none]].
  destruct (mc_ping_outstanding_since s) as [sent|]; [specialize (Hp sent eq_refl)|].
  - assert (sent + mc_keep_alive_secs s * 1000000000 ≤ t_instant_max) as Hfit by lia.
    rewrite (bind_ok _ _ _ _ _ (instant_add_run sent _ s Hfit)).
    eexists. split; [done|]. apply (least_one (λ x, saturating_duration_since x t)).
  - destruct (mc_ping_queued s); [eexists; split; [done|apply least_none]|]. cbn [negb].
    pose proof (Z.div_le_upper_bound (mc_keep_alive_secs s) 2 32768).
    assert (mc_last_write_at s + Z.max (mc_keep_alive_secs s / 2) 1 * 1000000000 ≤ t_instant_max)
      as Hfit by lia.
    rewrite (bind_ok _ _ _ _ _ (instant_add_run (mc_last_write_at s) _ s Hfit)).
    eexists. split; [done|]. apply (least_one (λ x, saturating_duration_since x t)).
Qed.

(** C21. The driver never sleeps past a deadline: [next_wait_duration] returns, with no
    overflow of the clock, the least of the poll interval and the times left to the deadlines of the
    pending acknowledgements, to those of the requests, and to the next keep-alive action (the end of
    the wait for PINGRESP, or the moment an idle connection is to be pinged), 0 for what is
    overdue. *)
Theorem next_wait_least (s : Conn) :
  conn_ok s →
  ∃ t w d, t_now (mc_stream s) = (t, w)
    ∧ next_wait_duration s = (Ok d, s <| mc_stream := w |>)
    ∧ least (λ x, Z.max 0 (x - t)) (wake_times s) (mc_poll_interval s) d.
Proof.
  intros Hs. destruct (t_now (mc_stream s)) as [t w] eqn:Hnow.
  pose proof (now_law (mc_stream s)) as Hw. rewrite Hnow in Hw. cbn in Hw.
  set (s0 := s <| mc_stream := w |>).
  assert (conn_ok s0) as H0 by (by apply (good_stream w s Hs Hw)).
  pose proof (wait_loop (mc_pending_acks s0) pk_deadline t (mc_poll_interval s) s0) as H1.
  set (d1 := fold_left _ _ _) in H1.
  pose proof (wait_loop (mc_pending_requests s0) pr_deadline t d1 s0) as H2.
  set (d2 := fold_left _ _ _) in H2.
  destruct (keep_alive_wait_run t d2 s0 H0) as (d & Hrun & H3).
  exists t, w, d. split; [done|]. split.
  - transitivity (keep_alive_wait t s0 d2 s0); [|exact Hrun].
    unfold next_wait_duration, bind at 1, now. by rewrite Hnow.
  - unfold wake_times. eapply least_more; [exact H1|]. eapply least_more; [exact H2|exact H3].
Qed.
End waiting_times.

(** A ping is outstanding, with a keep-alive of 5 seconds; a request expires before. *)
Definition example_waiting : MqttConnection Net :=
  example_requesting
    <| mc_stream := mkNet (ztake 1 PINGREQ_BYTES) [] [] 20 |>
    <| mc_pending_acks := ∅ |> <| mc_oneshots := mkOneshots 1 ∅ [] |>
    <| mc_keep_alive_secs := 5 |> <| mc_ping_outstanding_since := Some 1 |>
    <| mc_poll_interval := from_secs 60 |>.

Lemma next_wait_least_witness :
  ∃ d, next_wait_duration example_waiting = (Ok d, example_waiting)
    ∧ least (λ x, Z.max 0 (x - 20)) (wake_times example_waiting) (from_secs 60) d
    ∧ d = 10.
Proof.
  assert (conn_ok example_waiting) as Hok.
  { apply conn_ok_keep_alive; [|lia|by intros ? [= <-]].
    by apply conn_ok_variant; [exact example_requesting_ok|..]. }
  destruct (next_wait_least example_waiting Hok) as (t & w & d & Hnow & Hrun & Hd).
  assert (t = 20 ∧ w = mc_stream example_waiting) as [-> ->]
    by (vm_compute in Hnow; by injection Hnow as <- <-).
  exists d. split; [exact Hrun|]. split; [exact Hd|].
  assert ((next_wait_duration example_waiting).1 = Ok 10) as Hv by (vm_compute; reflexivity).
  rewrite Hrun in Hv. by injection Hv.
Defined.

(** ** Keep-alive *)

Section keep_alive.
Context {W : Type} {T : Transport W} {L : TransportLaws W} {H : HashOrder W} {C : ClockLaws W}.

Abbreviation Conn := (MqttConnection W).





End keep_alive.


