(* ===== verification/AsyncFlow.v ===== *)
(** * The outbound queue as an abstract outbox

    What writing promises: the bytes of the queued packets reach the wire in order, none lost
    and none twice, and callers are answered in the order of their packets, after every byte
    was accepted and the transport flushed. The promise is a small transition system;
    [flush_outbound] refines it. *)

From stdpp Require Import relations.
From S2P Require Import Prelude Errors Utf8 Str Types Decode Encode Topic Properties.
From S2P Require Import PropertiesFacts Packets Connect Publish Subscribe Ping PacketCodec.
From S2P Require Import CodecFacts Writers Frame Options Transport AsyncTypes AsyncDriver.
From S2P Require Import AsyncClient AsyncConnect AsyncFacts AsyncScript AsyncStart.
From S2P Require Import AsyncRequests.

Local Open Scope Z_scope.

(** ** The specification *)

Record Outbox := mkOutbox {
  ob_wire : list Z;                             (* accepted by the transport *)
  ob_queue : list (list Z * WrittenAction);     (* the bytes left of each packet *)
  ob_written : list WrittenAction;              (* packets wholly accepted, not flushed *)
  ob_replies : list (Sender * Reply);
}.

(** What the caller of a packet is told once it is written. *)
Definition completion (a : WrittenAction) : list (Sender * Reply) :=
  match a with
  | WA_PublishQos0 r => [(r, Reply_Publish (Ok (mkPublishAck None None)))]
  | WA_Disconnect r => [(r, Reply_Disconnect (Ok ()))]
  | _ => []
  end.

Inductive outbox_step : Outbox → Outbox → Prop :=
  | step_write wire b1 b2 a rest written replies :
      b1 ≠ [] → b2 ≠ [] →
      outbox_step (mkOutbox wire ((b1 ++ b2, a) :: rest) written replies)
                  (mkOutbox (wire ++ b1) ((b2, a) :: rest) written replies)
  | step_finish wire b a rest written replies :
      b ≠ [] →
      outbox_step (mkOutbox wire ((b, a) :: rest) written replies)
                  (mkOutbox (wire ++ b) rest (written ++ [a]) replies)
  | step_flushed wire queue a written replies :
      outbox_step (mkOutbox wire queue (a :: written) replies)
                  (mkOutbox wire queue written (replies ++ completion a)).

(** The bytes on the wire with those to come, and the replies with those to come. *)
Definition outbox_stream (o : Outbox) : list Z := ob_wire o ++ (ob_queue o ≫= fst).
Definition outbox_answers (o : Outbox) : list (Sender * Reply) :=
  ob_replies o ++ ((ob_written o ++ (ob_queue o).*2) ≫= completion).

Lemma outbox_conserved o o' :
  rtc outbox_step o o' →
  outbox_stream o' = outbox_stream o ∧ outbox_answers o' = outbox_answers o
  ∧ ob_wire o `prefix_of` ob_wire o' ∧ ob_replies o `prefix_of` ob_replies o'.
Proof.
  induction 1 as [o|o1 o2 o3 H12 _ (IHs & IHa & IHw & IHr)]; [done|].
  rewrite IHs, IHa. destruct H12; unfold outbox_stream, outbox_answers in *; cbn in *.
  - split; [by rewrite <- !app_assoc|]. split; [done|]. split; [|done].
    etransitivity; [|exact IHw]. by apply prefix_app_r.
  - split; [by rewrite <- !app_assoc|]. split; [by rewrite <- !app_assoc|]. split; [|done].
    etransitivity; [|exact IHw]. by apply prefix_app_r.
  - split; [done|]. split; [by rewrite <- !app_assoc|]. split; [done|].
    etransitivity; [|exact IHr]. by apply prefix_app_r.
Qed.

(** ** The refinement *)

Section flow.
Context {W : Type} {T : Transport W} {L : TransportLaws W} {H : HashOrder W} {C : ClockLaws W}.

Abbreviation Conn := (MqttConnection W).

Definition left_of (f : OutboundFrame) : list Z * WrittenAction :=
  (zdrop (of_offset f) (of_bytes f), of_action f).

Definition outbox (s : Conn) : Outbox :=
  mkOutbox (sent (mc_stream s)) (left_of <$> mc_outbound s) (pf_action <$> mc_flush_actions s)
    (os_sent (mc_oneshots s)).

(** A call that moves the outbox along. *)
Definition flows {A} (m : M Conn A) (s : Conn) : Prop :=
  rtc outbox_step (outbox s) (outbox (m s).2).

Lemma flows_same {A} (m : M Conn A) s : outbox (m s).2 = outbox s → flows m s.
Proof. unfold flows. intros ->. apply rtc_refl. Qed.

Lemma flows_bind {A B} (m : M Conn A) (k : A → M Conn B) s :
  flows m s → (∀ a s', m s = (Ok a, s') → flows (k a) s') → flows (bind m k) s.
Proof.
  unfold flows, bind. intros Hm Hk. destruct (m s) as [[a|e|why|] s1]; try done.
  etransitivity; [exact Hm|]. by apply Hk.
Qed.

Lemma outbox_stream_same w (s : Conn) :
  sent w = sent (mc_stream s) → outbox (s <| mc_stream := w |>) = outbox s.
Proof. intros Hw. unfold outbox. cbn. by rewrite Hw. Qed.

Lemma complete_written_outbox a (s : Conn) :
  outbox (complete_written a s).2
  = mkOutbox (sent (mc_stream s)) (left_of <$> mc_outbound s) (pf_action <$> mc_flush_actions s)
      (os_sent (mc_oneshots s) ++ completion a).
Proof.
  destruct a; cbn [complete_written completion]; rewrite ?app_nil_r; try done.
  - unfold bind, modify, now. cbn. pose proof (now_law (mc_stream s)) as Hw.
    destruct (t_now _) as [t w]. unfold outbox. cbn in *. by rewrite Hw.
  - unfold bind, send, modify, notify, match_result, try_send_event. cbn.
    by destruct (try_send _ _).
Qed.

Lemma complete_flushes_flows l s : mc_flush_actions s = l → flows (complete_flushes l) s.
Proof.
  revert s. induction l as [|f l IH]; intros s Hf; cbn [complete_flushes]; [by apply flows_same|].
  unfold flows, bind at 1, modify at 1.
  set (s1 := s <| mc_flush_actions := l |> <| mc_outbound_bytes ::= _ |>).
  pose proof (complete_written_outbox (pf_action f) s1) as Ho.
  pose proof (complete_written_flushes (pf_action f) s1) as Hl.
  unfold bind. destruct (complete_written (pf_action f) s1) as [r s2]. cbn in Ho, Hl.
  assert (outbox_step (outbox s) (outbox s2)) as Hstep.
  { rewrite Ho. unfold outbox. rewrite Hf. apply step_flushed. }
  destruct r as [[]|e|why|]; [|by apply rtc_once..].
  eapply rtc_l; [exact Hstep|]. by apply IH.
Qed.

Lemma on_stream_outbox {A} (m : IoM W A) (s : Conn) : quiet sent m → outbox (on_stream m s).2 = outbox s.
Proof.
  intros Hq. destruct (Hq (mc_stream s)) as [_ Hw]. unfold on_stream.
  destruct (m (mc_stream s)) as [r w]. by apply outbox_stream_same.
Qed.

Lemma flush_accepted_flows s : flows flush_accepted s.
Proof.
  unfold flush_accepted. apply flows_bind; [apply flows_same, on_stream_outbox, flush_law|].
  intros r s1 _. destruct r as [u|e|why|]; try by apply flows_same.
  - apply flows_bind; [by apply flows_same|]. intros _ s2 _.
    unfold flows, bind at 1, get. apply flows_bind; [by apply complete_flushes_flows|].
    intros. by apply flows_same.
  - destruct (decide _); by apply flows_same.
Qed.

(** One write, as the specification sees it. *)
Lemma wrote_outbox f rest n t w (s : Conn) :
  mc_outbound s = f :: rest → 0 ≤ of_offset f → 0 < n ≤ zlen (of_bytes f) - of_offset f →
  sent w = sent (mc_stream s) ++ ztake n (zdrop (of_offset f) (of_bytes f)) →
  outbox_step (outbox s) (outbox (wrote f rest n t w s)).
Proof.
  intros Hq Hoff Hn Hw. unfold wrote, outbox, advanced. cbn. rewrite Hq, Hw.
  set (b := zdrop (of_offset f) (of_bytes f)).
  assert (zlen b = zlen (of_bytes f) - of_offset f) as Hb by (apply zlen_zdrop; lia).
  cbn [fmap list_fmap]. unfold left_of at 1. fold b. destruct (_ =? _) eqn:Hend.
  - replace n with (zlen b) by lia. rewrite ztake_all. rewrite fmap_app. apply step_finish. intros Hnil.
    rewrite Hnil, zlen_nil in Hb. lia.
  - assert (left_of (f <| of_offset := of_offset f + n |>) = (zdrop n b, of_action f)) as Hleft.
    { unfold left_of, b, zdrop. cbn. f_equal. rewrite drop_drop. f_equal. lia. }
    cbn [fmap list_fmap]. rewrite Hleft. rewrite <- (ztake_zdrop n b) at 1. apply step_write.
    + intros Hnil%(f_equal zlen). rewrite zlen_ztake, zlen_nil in Hnil by lia. lia.
    + intros Hnil%(f_equal zlen). rewrite zlen_zdrop, zlen_nil in Hnil by lia. lia.
Qed.

Lemma write_loop_flows fuel s : conn_ok s → flows (write_loop fuel) s.
Proof.
  revert s. induction fuel as [|fuel IH]; intros s Hs; [by apply flows_same|].
  destruct (mc_outbound s) as [|f rest] eqn:Hq.
  { cbn [write_loop]. apply flows_same. unfold bind, get. by rewrite Hq. }
  pose proof (ok_queue s Hs) as [_ Ho]. rewrite Hq in Ho. destruct Ho as [Ho _].
  unfold flows. rewrite (write_loop_step fuel f rest s) by done.
  pose proof (write_law (zdrop (of_offset f) (of_bytes f)) (mc_stream s)) as Hw.
  destruct (t_write _ _) as [[n|e|why|] w]; try done.
  - destruct Hw as [Hn Hw]. rewrite zlen_zdrop in Hn by lia. destruct (n =? 0) eqn:Hz.
    + apply Z.eqb_eq in Hz as ->. cbn [snd]. rewrite outbox_stream_same; [done|].
      by rewrite Hw, app_nil_r.
    + apply Z.eqb_neq in Hz. pose proof (clock_law w) as Hc. pose proof (now_law w) as Hsw.
      rewrite Hw in Hsw. eapply rtc_l; [apply (wrote_outbox f rest n); [done|lia|lia|exact Hsw]|].
      apply IH. apply (wrote_good f rest n (t_now w).1 (t_now w).2 s); try done. lia.
  - pose proof (good_stream w s Hs Hw) as [Hg _]. pose proof (outbox_stream_same w s Hw) as Ho'.
    destruct (decide _); [rewrite <- Ho'; by apply IH|].
    destruct (decide _); cbn [snd]; by rewrite Ho'.
Qed.

Lemma flush_outbound_flows fuel s : conn_ok s → flows (flush_outbound fuel) s.
Proof.
  intros Hs. unfold flush_outbound, flows, bind at 1, get.
  assert (∀ s, flows (let! flushed := flush_accepted in ret (negb flushed)) s) as Hfirst.
  { intros s0. apply flows_bind; [apply flush_accepted_flows|]. intros. by apply flows_same. }
  apply flows_bind; [destruct (mc_needs_flush s); [apply Hfirst|by apply flows_same]|].
  intros blocked s1 H1.
  assert (conn_ok s1) as Hs1.
  { assert (keeps (if mc_needs_flush s then let! flushed := flush_accepted in ret (negb flushed)
                   else ret false) s) as Hk.
    { destruct (mc_needs_flush s); [|apply keeps_ret].
      apply keeps_bind; [apply flush_accepted_keeps|intros; apply keeps_ret]. }
    specialize (Hk Hs). unfold outcome in Hk. rewrite H1 in Hk. apply Hk. }
  destruct blocked; [by apply flows_same|].
  apply flows_bind; [by apply write_loop_flows|]. intros _ s2 _. unfold flows, bind at 1, get.
  destruct (mc_needs_flush s2); [|by apply flows_same].
  apply flows_bind; [apply flush_accepted_flows|]. intros. by apply flows_same.
Qed.

(** C9. Writing refines the abstract outbox: whatever the transport takes of each write
    and wherever it fails, [flush_outbound] performs a sequence of outbox steps. So the bytes
    on the wire only grow, by the bytes of the queue in their order (wire and
    queue together never change: nothing is lost, repeated or reordered); a packet counts as
    written when its last byte was accepted; and QoS 0 publishers and the disconnecting
    caller are told in the order of their packets, no earlier than that. *)
Theorem flush_outbound_refines fuel (s : Conn) :
  conn_ok s →
  let s' := (flush_outbound fuel s).2 in
  rtc outbox_step (outbox s) (outbox s')
  ∧ outbox_stream (outbox s') = outbox_stream (outbox s)
  ∧ outbox_answers (outbox s') = outbox_answers (outbox s).
Proof.
  intros Hs s'. pose proof (flush_outbound_flows fuel s Hs) as Hf. split; [exact Hf|].
  by destruct (outbox_conserved _ _ Hf) as (? & ? & _).
Qed.
End flow.

(** Two packets, a transport that takes three bytes in two writes and then blocks. *)
Definition example_sending : MqttConnection Net :=
  (example_conn [])
    <| mc_stream := mkNet [] [] [2; 1; 0] 0 |>
    <| mc_outbound := [mkOutboundFrame PINGREQ_BYTES 0 (WA_PublishQos0 1) None;
                       mkOutboundFrame PINGREQ_BYTES 0 (WA_PublishQos0 2) None] |>
    <| mc_outbound_bytes := 4 |>.

Lemma example_sending_ok : conn_ok example_sending.
Proof.
  unfold example_sending. split; cbn; try done; try lia.
  - split; [repeat constructor; by apply cf_pingreq|]. by split; [|repeat constructor].
  - by exists [].
  - exact (ok_reader _ (example_conn_ok [])).
Qed.

Lemma flush_outbound_refines_witness :
  let s' := (flush_outbound 10 example_sending).2 in
  rtc outbox_step (outbox example_sending) (outbox s')
  ∧ ob_wire (outbox s') = [0xC0; 0; 0xC0] ∧ ob_queue (outbox s') = [([0], WA_PublishQos0 2)]
  ∧ ob_replies (outbox s') = [(1%nat, Reply_Publish (Ok (mkPublishAck None None)))].
Proof.
  destruct (flush_outbound_refines 10 example_sending example_sending_ok) as (Hr & _ & _).
  split; [exact Hr|]. split; [|split]; vm_compute; reflexivity.
Defined.
