(* ===== verification/AsyncDisconnect.v ===== *)
(** * Graceful disconnect

    On a transport that takes bytes, a disconnect asked for by the application goes
    through: what was queued is written but the requests that were cancelled, DISCONNECT is the
    last packet on the wire, the caller is told and the run ends. *)

From stdpp Require Import relations.
From S2P Require Import Prelude Errors Utf8 Str Types Decode Encode Topic Properties.
From S2P Require Import PropertiesFacts Packets Connect Publish Subscribe Ping PacketCodec.
From S2P Require Import CodecFacts Writers Frame Options Transport AsyncTypes AsyncDriver.
From S2P Require Import AsyncClient AsyncConnect AsyncFacts AsyncScript AsyncStart AsyncRun.
From S2P Require Import AsyncTotal AsyncProps AsyncRequests AsyncTimers AsyncFlow.

Local Open Scope Z_scope.

(** In the worlds of [R] every write takes at least one byte and every flush succeeds. *)
Record reliable {W} {T : Transport W} (R : W → Prop) : Prop := {
  rel_write buf w : R w → buf ≠ [] → ∃ n w', t_write buf w = (Ok n, w') ∧ 0 < n ∧ R w';
  rel_flush w : R w → ∃ w', t_flush w = (Ok (), w') ∧ R w';
  rel_now w : R w → R (t_now w).2;
}.

Section disconnect.
Context {W : Type} {T : Transport W} {L : TransportLaws W} {H : HashOrder W} {C : ClockLaws W}.
Context (R : W → Prop) (HR : reliable R).

Abbreviation Conn := (MqttConnection W).
Abbreviation ConnM A := (M Conn A).

(** *** Writing everything *)

Lemma write_loop_empties n s :
  conn_ok s → R (mc_stream s) → unwritten (mc_outbound s) < Z.of_nat n →
  ∃ s', write_loop n s = (Ok (), s') ∧ mc_outbound s' = [] ∧ R (mc_stream s')
    ∧ mc_closing s' = mc_closing s
    ∧ (mc_outbound s ≠ [] → mc_needs_flush s' = true) ∧ (mc_outbound s = [] → s' = s).
Proof.
  revert s. induction n as [|n IH]; intros s Hs Hw Hn; destruct (mc_outbound s) as [|f rest] eqn:Hq.
  - unfold unwritten in Hn. rewrite frames_bytes_nil in Hn. lia.
  - destruct (ok_queue s Hs) as [_ Ho]. rewrite Hq in Ho. unfold unwritten in Hn.
    rewrite frames_bytes_cons in Hn. pose proof (frames_bytes_nonneg rest). lia.
  - exists s. cbn [write_loop]. rewrite (bind_ok get _ s s s eq_refl), Hq. done.
  - pose proof (ok_queue s Hs) as [_ Ho]. rewrite Hq in Ho. destruct Ho as [Ho Hrest].
    rewrite (write_loop_step n f rest s) by done.
    assert (zdrop (of_offset f) (of_bytes f) ≠ []) as Hne.
    { intros Hnil%(f_equal zlen). rewrite zlen_zdrop, zlen_nil in Hnil by lia. lia. }
    destruct (rel_write _ HR _ _ Hw Hne) as (k & w & Hwr & Hk & Hw').
    pose proof (write_law (zdrop (of_offset f) (of_bytes f)) (mc_stream s)) as Hlaw.
    rewrite Hwr in *. destruct Hlaw as [Hkl Hsent]. rewrite zlen_zdrop in Hkl by lia.
    rewrite (proj2 (Z.eqb_neq _ _)) by lia. pose proof (clock_law w). pose proof (now_law w).
    destruct (IH (wrote f rest k (t_now w).1 (t_now w).2 s)) as (s' & Hrun & He & Hr' & Hc & Hfl & Hsame).
    + apply wrote_good; try done; [lia|congruence].
    + by apply rel_now.
    + cbn. rewrite unwritten_advanced by done. lia.
    + exists s'. split; [exact Hrun|]. split; [done|]. split; [done|]. split; [exact Hc|].
      split; [|by intros]. intros _. cbn in Hfl, Hsame.
      destruct (advanced f rest k) eqn:Ha; [by rewrite (Hsame eq_refl)|by apply Hfl].
Qed.

(** What [flush_accepted] leaves alone. *)
Definition idle_apart (s s' : Conn) : Prop :=
  mc_outbound s' = mc_outbound s ∧ mc_closing s' = mc_closing s ∧ R (mc_stream s').

Lemma complete_written_apart a s :
  R (mc_stream s) → ∃ s', complete_written a s = (Ok (), s') ∧ idle_apart s s'
    ∧ mc_flush_actions s' = mc_flush_actions s ∧ mc_needs_flush s' = mc_needs_flush s.
Proof.
  intros Hw. destruct a; cbn [complete_written]; try by eexists.
  - unfold bind, modify, now. cbn. pose proof (rel_now _ HR _ Hw) as Hn.
    destruct (t_now _) as [t w]. by eexists.
  - unfold bind, send, modify, notify, match_result, try_send_event, try_send. cbn.
    destruct (negb _); [by eexists|]. destruct (_ <=? _); by eexists.
Qed.

Lemma complete_flushes_all l s :
  mc_flush_actions s = l → R (mc_stream s) →
  ∃ s', complete_flushes l s = (Ok (), s') ∧ idle_apart s s'
    ∧ mc_flush_actions s' = [] ∧ mc_needs_flush s' = mc_needs_flush s.
Proof.
  revert s. induction l as [|f l IH]; intros s Hl Hw; cbn [complete_flushes]; [by exists s|].
  unfold bind at 1, modify at 1. set (s1 := s <| mc_flush_actions := l |> <| mc_outbound_bytes ::= _ |>).
  destruct (complete_written_apart (pf_action f) s1 Hw) as (s2 & H2 & (Ho & Hc & Hw2) & Hf2 & Hn2).
  rewrite (bind_ok _ _ _ _ _ H2). destruct (IH s2) as (s3 & H3 & (Ho3 & Hc3 & Hw3) & Hf3 & Hn3); [done..|].
  exists s3. subst s1. cbn in Ho, Hc, Hf2, Hn2. split; [done|].
  split; [split; [congruence|split; [congruence|done]]|]. split; congruence.
Qed.

Lemma flush_accepted_all s :
  R (mc_stream s) →
  ∃ s', flush_accepted s = (Ok true, s') ∧ idle_apart s s'
    ∧ mc_flush_actions s' = [] ∧ mc_needs_flush s' = false.
Proof.
  intros Hw. unfold flush_accepted, bind at 1, on_stream.
  destruct (rel_flush _ HR _ Hw) as (w & -> & Hw'). unfold bind at 1, modify at 1.
  unfold bind at 1, get. set (s1 := s <| mc_stream := w |> <| mc_needs_flush := false |>).
  destruct (complete_flushes_all _ s1 eq_refl Hw') as (s2 & H2 & (Ho & Hc & Hw2) & Hf & Hn).
  exists s2. rewrite (bind_ok _ _ _ _ _ H2). done.
Qed.

Lemma flush_outbound_all fuel s :
  conn_ok s → R (mc_stream s) → mc_max_outbound_queue_bytes s < Z.of_nat fuel →
  ∃ s', flush_outbound fuel s = (Ok (), s') ∧ mc_outbound s' = [] ∧ mc_needs_flush s' = false
    ∧ mc_closing s' = mc_closing s ∧ (mc_outbound s ≠ [] → mc_flush_actions s' = []).
Proof.
  intros Hs Hw Hfuel. unfold flush_outbound. rewrite (bind_ok get _ s s s eq_refl).
  assert (∃ s1, (if mc_needs_flush s then let! flushed := flush_accepted in ret (negb flushed)
                 else ret false) s = (Ok false, s1)
            ∧ idle_apart s s1 ∧ conn_ok s1 ∧ mc_needs_flush s1 = false
            ∧ mc_max_outbound_queue_bytes s1 = mc_max_outbound_queue_bytes s)
    as (s1 & H1 & (Ho1 & Hc1 & Hw1) & Hs1 & Hn1 & Hm1).
  { destruct (mc_needs_flush s) eqn:Hn; [|by exists s].
    destruct (flush_accepted_all s Hw) as (s1 & H1 & Ha & Hf1 & Hn1). exists s1.
    rewrite (bind_ok _ _ _ _ _ H1). pose proof (flush_accepted_keeps s Hs) as Hk.
    unfold outcome in Hk. rewrite H1 in Hk. destruct Hk as [Hk Hcf]. split; [done|]. split; [done|].
    split; [done|]. split; [done|]. unfold config in Hcf. injection Hcf. congruence. }
  rewrite (bind_ok _ _ _ _ _ H1). pose proof (unwritten_bound s1 Hs1).
  destruct (write_loop_empties fuel s1 Hs1 Hw1) as (s2 & H2 & Ho2 & Hw2 & Hc2 & Hn2 & Hsame); [lia|].
  rewrite (bind_ok _ _ _ _ _ H2). rewrite (bind_ok get _ s2 s2 s2 eq_refl).
  destruct (mc_needs_flush s2) eqn:Hnf.
  - destruct (flush_accepted_all s2 Hw2) as (s3 & H3 & (Ho3 & Hc3 & _) & Hf3 & Hn3). exists s3.
    rewrite (bind_ok _ _ _ _ _ H3). split; [done|]. split; [congruence|]. split; [done|].
    split; [congruence|by intros].
  - exists s2. split; [done|]. split; [done|]. split; [done|]. split; [congruence|].
    intros Hne. exfalso. assert (false = true); [apply Hn2; congruence|done].
Qed.

(** *** Before the writing: cancellations and commands *)

(** The frame is the publish of a pending request among [ks], and nothing of it was written. *)
Definition taken_back (ks : list Z → bool) (s : Conn) (f : OutboundFrame) : bool :=
  match of_request_correlation f with
  | Some k => (of_offset f =? 0) && ks k && bool_decide (is_Some (mc_pending_requests s !! k))
  | None => false
  end.

(** The frames that stay in the queue when the requests [ks] are taken back. *)
Definition left_by (ks : list Z → bool) (s : Conn) : list OutboundFrame :=
  filter (λ f, taken_back ks s f = false) (mc_outbound s).

(** The requests the application cancelled. *)
Definition cancelled (s : Conn) (k : list Z) : bool :=
  bool_decide (k ∈ rl_cancelled (mc_request_lifecycle s)).

(** The state after some requests were taken back. *)
Record thinned (s s' : Conn) : Prop := {
  th_bytes : mc_outbound_bytes s' ≤ mc_outbound_bytes s;
  th_stream : mc_stream s' = mc_stream s;
  th_commands : mc_commands s' = mc_commands s;
  th_closing : mc_closing s' = mc_closing s;
  th_config : config s' = config s;
  th_sent : os_sent (mc_oneshots s) `prefix_of` os_sent (mc_oneshots s');
}.

#[export] Instance thinned_preorder : PreOrder thinned.
Proof.
  split; [by intros s|]. intros s1 s2 s3 [] []. split; try congruence; [lia|by etransitivity].
Qed.

Lemma withdraw_thinned k p (s : Conn) : conn_ok s → thinned s (withdraw k p s).
Proof.
  intros Hs. unfold withdraw. split; cbn; try done.
  destruct (retain_frames_spec k (mc_outbound s) _ false (Z.le_refl _)) as [_ ?]. lia.
Qed.

(** Taking back [k] and then the requests of [l]. *)
Lemma left_by_cons k l p (s : Conn) :
  mc_pending_requests s !! k = Some p →
  left_by (λ k', bool_decide (k' ∈ l)) (withdraw k p s) = left_by (λ k', bool_decide (k' ∈ k :: l)) s.
Proof.
  intros Hp. unfold left_by. change (mc_outbound (withdraw k p s))
    with (filter (λ f, unsent_of k f = false) (mc_outbound s)).
  rewrite list_filter_filter.
  apply list_filter_iff. intros f. unfold taken_back, unsent_of. cbn.
  destruct (of_request_correlation f) as [k'|]; [|rewrite bool_decide_eq_false_2 by done;
    rewrite andb_false_r; naive_solver].
  destruct (of_offset f =? 0); cbn; [|naive_solver]. destruct (decide (k' = k)) as [->|Hk].
  - rewrite lookup_delete_eq, Hp. rewrite !(bool_decide_eq_true_2 (_ = _)) by done.
    rewrite (bool_decide_eq_true_2 (k ∈ k :: l)) by set_solver.
    rewrite (bool_decide_eq_true_2 (is_Some (Some p))) by done. naive_solver.
  - rewrite lookup_delete_ne by done.
    rewrite (bool_decide_eq_false_2 (Some k' = Some k)) by congruence.
    rewrite (bool_decide_ext (k' ∈ k :: l) (k' ∈ l)) by set_solver. naive_solver.
Qed.

Lemma left_by_absent k l (s : Conn) :
  mc_pending_requests s !! k = None →
  left_by (λ k', bool_decide (k' ∈ l)) s = left_by (λ k', bool_decide (k' ∈ k :: l)) s.
Proof.
  intros Hp. apply list_filter_iff. intros f. unfold taken_back.
  destruct (of_request_correlation f) as [k'|]; [|done]. destruct (decide (k' = k)) as [->|Hk].
  - rewrite Hp, (bool_decide_eq_false_2 (is_Some None)) by (by intros []). by rewrite !andb_false_r.
  - by rewrite (bool_decide_ext (k' ∈ k :: l) (k' ∈ l)) by set_solver.
Qed.

Lemma take_back_all l (s : Conn) :
  conn_ok s →
  ∃ s', for_each l (λ k, let! _ := remove_request k in ret ()) s = (Ok (), s') ∧ conn_ok s'
    ∧ thinned s s' ∧ mc_outbound s' = left_by (λ k, bool_decide (k ∈ l)) s.
Proof.
  revert s. induction l as [|k l IH]; intros s Hs; cbn [for_each].
  { exists s. split; [done|]. split; [done|]. split; [done|]. symmetry. apply filter_all.
    intros f _. unfold taken_back. destruct (of_request_correlation f); [|done].
    rewrite (bool_decide_eq_false_2 (_ ∈ [])) by apply not_elem_of_nil. by rewrite andb_false_r. }
  pose proof (remove_request_keeps k s Hs) as Hk. unfold outcome in Hk.
  destruct (mc_pending_requests s !! k) as [p|] eqn:Hp.
  - pose proof (remove_request_run k p s Hs Hp) as Hrun. rewrite Hrun in Hk.
    rewrite (bind_ok (let! _ := remove_request k in ret ()) _ s () (withdraw k p s))
      by (by rewrite (bind_ok _ _ _ _ _ Hrun)).
    destruct (IH (withdraw k p s)) as (s' & Hl & Hs' & Ht & Hq); [apply Hk|].
    exists s'. split; [exact Hl|]. split; [done|].
    split; [etransitivity; [by apply withdraw_thinned|done]|]. by rewrite Hq, left_by_cons.
  - rewrite (bind_ok (let! _ := remove_request k in ret ()) _ s () s).
    + destruct (IH s Hs) as (s' & Hl & Hs' & Ht & Hq). exists s'. rewrite <- left_by_absent by done. done.
    + rewrite (bind_ok (remove_request k) _ s None s); [done|]. unfold remove_request, bind, get.
      by rewrite Hp.
Qed.

Lemma drain_cancellations_thinned (s : Conn) :
  conn_ok s → ∃ s', drain_cancellations s = (Ok (), s') ∧ conn_ok s' ∧ thinned s s'
    ∧ mc_outbound s' = left_by (cancelled s) s.
Proof.
  intros Hs. unfold drain_cancellations. rewrite (bind_ok get _ s s s eq_refl). cbv zeta.
  set (l := filter _ _). destruct (take_back_all l s Hs) as (s' & Hrun & Hs' & Ht & Hq).
  exists s'. split; [exact Hrun|]. split; [done|]. split; [done|]. rewrite Hq.
  apply list_filter_iff. intros f. unfold taken_back, cancelled.
  destruct (of_request_correlation f) as [k|]; [|done].
  destruct (bool_decide (is_Some (mc_pending_requests s !! k))) eqn:Hp; [|by rewrite !andb_false_r].
  apply bool_decide_eq_true in Hp.
  rewrite (bool_decide_ext (k ∈ l) (k ∈ rl_cancelled (mc_request_lifecycle s))); [done|].
  unfold l. rewrite list_elem_of_filter, (reorder_perm _ _ _), elem_of_elements. tauto.
Qed.

(** The commands found while closing are refused, and nothing is queued. *)
Lemma drain_closing n (s : Conn) :
  mc_closing s = true →
  ∃ s', drain_commands_loop n s = (Ok (), s') ∧ mc_outbound s' = mc_outbound s
    ∧ mc_stream s' = mc_stream s ∧ mc_closing s' = true.
Proof.
  revert s. induction n as [|n IH]; intros s Hc; cbn [drain_commands_loop]; [by exists s|].
  rewrite (bind_ok get _ s s s eq_refl). destruct (ch_queue (mc_commands s)) as [|command rest].
  - destruct (ch_senders _); [by exists s|]. eexists. unfold bind at 1, modify.
    unfold begin_abandoned_disconnect. unfold bind, get. cbn. by rewrite Hc.
  - unfold bind at 1, modify at 1. set (s1 := s <| mc_commands ::= _ |>).
    assert (process_command command s1 = (Ok (), s1 <| mc_oneshots ::= Command_fail command ClientClosed |>))
      as Hp by (unfold process_command, bind, get; cbn; by rewrite Hc).
    rewrite (bind_ok _ _ _ _ _ Hp).
    edestruct IH as (s' & Hrun & Ho & Hst & Hc'); [|exists s'; split; [exact Hrun|exact (conj Ho (conj Hst Hc'))]].
    exact Hc.
Qed.

(** The frame of a disconnect. *)
Definition disconnect_of (r : Sender) : OutboundFrame :=
  mkOutboundFrame [0xE0; 0] 0 (WA_Disconnect r) None.

Lemma drain_disconnect r rest (s : Conn) :
  conn_ok s → mc_closing s = false → ch_queue (mc_commands s) = Command_Disconnect r :: rest →
  0 < mc_max_pending_operations s → 2 ≤ mc_peer_max_packet_size s →
  mc_outbound_bytes s + 2 ≤ Z.min usize_max (mc_max_outbound_queue_bytes s) →
  ∃ s', drain_commands s = (Ok (), s') ∧ good s s'
    ∧ mc_outbound s' = mc_outbound s ++ [disconnect_of r]
    ∧ mc_stream s' = mc_stream s ∧ mc_closing s' = true.
Proof.
  intros Hs Hc Hq Hmax Hpeer Hroom. pose proof (drain_commands_keeps s Hs) as Hk.
  assert (∃ s', drain_commands s = (Ok (), s')
    ∧ mc_outbound s' = mc_outbound s ++ [disconnect_of r]
    ∧ mc_stream s' = mc_stream s ∧ mc_closing s' = true) as (s' & Hrun & Ho & Hst & Hcl).
  { unfold drain_commands. rewrite (bind_ok get _ s s s eq_refl).
    destruct (Z.to_nat (mc_max_pending_operations s)) as [|n] eqn:Hn; [lia|]. cbn [drain_commands_loop].
    rewrite (bind_ok get _ s s s eq_refl), Hq. unfold bind at 1, modify at 1.
    set (s1 := s <| mc_commands ::= _ |>).
    set (s2 := enqueued [0xE0; 0] (WA_Disconnect r) None (s1 <| mc_closing := true |>)).
    assert (process_command (Command_Disconnect r) s1 = (Ok (), s2)) as Hp.
    { unfold process_command. rewrite (bind_ok get _ s1 s1 s1 eq_refl).
      change (mc_closing s1) with (mc_closing s). rewrite Hc. unfold begin_disconnect, bind at 1, modify at 1.
      rewrite DisconnectPacket_encode_normal. rewrite (bind_ok (lift (Ok _)) _ _ _ _ eq_refl).
      unfold match_result. rewrite enqueue_with_action_spec. cbn -[Z.min].
      rewrite (proj2 (Z.ltb_ge _ _)) by done. by rewrite (proj2 (Z.ltb_ge _ _)) by done. }
    rewrite (bind_ok _ _ _ _ _ Hp).
    destruct (drain_closing n s2 eq_refl) as (s3 & H3 & Ho3 & Hst3 & Hc3).
    exists s3. done. }
  exists s'. unfold outcome in Hk. rewrite Hrun in Hk. done.
Qed.

(** *** The turn that disconnects *)

Definition left_bytes (q : list OutboundFrame) : list Z := q ≫= λ f, zdrop (of_offset f) (of_bytes f).

(** The queue, with the written part of its first frame, is whole packets. *)
Lemma queue_whole q : queue_ok q → partial q ++ left_bytes q = concat (of_bytes <$> q).
Proof.
  intros [_ Hq]. destruct q as [|f q]; [done|]. destruct Hq as [_ Hq]. unfold left_bytes.
  cbn. rewrite app_assoc, ztake_zdrop. f_equal.
  induction Hq as [|g q Hg _ IH]; [done|]. cbn. rewrite Hg, IH. done.
Qed.

Lemma conn_whole s : conn_ok s →
  ∃ fs, sent (mc_stream s) ++ left_bytes (mc_outbound s) = concat fs ∧ Forall client_frame fs.
Proof.
  intros Hs. destruct (ok_wire s Hs) as (fs & Hw & Hfs). pose proof (ok_queue s Hs) as Hq.
  exists (fs ++ (of_bytes <$> mc_outbound s)). split.
  - by rewrite Hw, <- app_assoc, queue_whole, concat_app.
  - apply Forall_app_2; [done|]. apply Forall_fmap. apply Hq.
Qed.

Lemma disconnecting_turn fuel r rest (s : Conn) :
  conn_ok s → R (mc_stream s) → mc_max_outbound_queue_bytes s < Z.of_nat fuel →
  mc_closing s = false → ch_queue (mc_commands s) = Command_Disconnect r :: rest →
  0 < mc_max_pending_operations s → 2 ≤ mc_peer_max_packet_size s →
  mc_outbound_bytes s + 2 ≤ Z.min usize_max (mc_max_outbound_queue_bytes s) →
  ∃ fs s', turn fuel s = (Ok None, s')
    ∧ sent (mc_stream s) ++ left_bytes (left_by (cancelled s) s) = concat fs ∧ Forall client_frame fs
    ∧ sent (mc_stream s') = sent (mc_stream s) ++ left_bytes (left_by (cancelled s) s) ++ [0xE0; 0]
    ∧ (r, Reply_Disconnect (Ok ())) ∈ os_sent (mc_oneshots s').
Proof.
  intros Hs Hw Hfuel Hc Hq Hmax Hpeer Hroom.
  destruct (drain_cancellations_thinned s Hs) as (s1 & H1 & Hs1 & Ht & Hkept).
  pose proof (th_config _ _ Ht) as Hcf. unfold config in Hcf.
  destruct (drain_disconnect r rest s1) as (s2 & H2 & [Hs2 Hcf2] & Ho2 & Hst2 & Hc2).
  { done. } { by rewrite (th_closing _ _ Ht). } { by rewrite (th_commands _ _ Ht). }
  { injection Hcf. lia. } { injection Hcf. lia. } { pose proof (th_bytes _ _ Ht). injection Hcf. lia. }
  unfold config in Hcf2. destruct (flush_outbound_all fuel s2) as (s3 & H3 & Ho3 & Hn3 & Hc3 & Hf3).
  { done. } { by rewrite Hst2, (th_stream _ _ Ht). } { injection Hcf. injection Hcf2. lia. }
  destruct (conn_whole s1 Hs1) as (fs & Hfs & Hall). rewrite (th_stream _ _ Ht) in Hfs.
  rewrite <- Hkept. exists fs, s3.
  pose proof (flush_outbound_keeps fuel s2 Hs2) as Hk. unfold outcome in Hk. rewrite H3 in Hk.
  pose proof (flush_outbound_flows fuel s2 Hs2) as Hfl. unfold flows in Hfl. rewrite H3 in Hfl.
  destruct (outbox_conserved _ _ Hfl) as (Hstream & Hans & _). cbn [snd] in Hstream, Hans.
  specialize (Hf3 ltac:(rewrite Ho2; by destruct (mc_outbound s1))).
  split; [|split; [exact Hfs|split; [exact Hall|]]].
  - unfold turn. rewrite (bind_ok _ _ _ _ _ H1), (bind_ok _ _ _ _ _ H2), (bind_ok _ _ _ _ _ H3).
    rewrite (bind_ok get _ s3 s3 s3 eq_refl). unfold finished. by rewrite Hc3, Hc2, Ho3, Hn3.
  - unfold outbox_stream, outbox_answers, outbox in Hstream, Hans. cbn in Hstream, Hans.
    rewrite Ho3, Ho2 in *. rewrite Hf3 in Hans. cbn in Hstream, Hans. rewrite !app_nil_r in Hstream, Hans.
    split.
    + rewrite Hstream, Hst2, (th_stream _ _ Ht). f_equal. rewrite fmap_app, bind_app. f_equal.
      by rewrite list_fmap_bind.
    + rewrite Hans, !fmap_app, !bind_app. rewrite !elem_of_app. right; right; right. cbn. set_solver.
Qed.

(** *** The end of the run *)

Lemma fold_prefix {A} (g : A → Oneshots → Oneshots) (l : list A) o :
  (∀ x o, os_sent o `prefix_of` os_sent (g x o)) →
  os_sent o `prefix_of` os_sent (fold_left (λ o x, g x o) l o).
Proof.
  intros Hg. revert o. induction l as [|x l IH]; intros o; [done|]. cbn [fold_left].
  etransitivity; [apply Hg|apply IH].
Qed.

Lemma action_fail_prefix a e o : os_sent o `prefix_of` os_sent (WrittenAction_fail a e o).
Proof. destruct a; cbn; try done; by apply prefix_app_r. Qed.

Lemma fail_pending_tells (s : Conn) :
  ∃ s', fail_pending s = (Ok (), s') ∧ mc_stream s' = mc_stream s
    ∧ os_sent (mc_oneshots s) `prefix_of` os_sent (mc_oneshots s').
Proof.
  destruct (fail_pending_spec s) as [lf Hf]. eexists. split; [exact Hf|]. split; [done|].
  cbn. etransitivity; [|apply fold_prefix; intros; cbn; by apply prefix_app_r].
  etransitivity; [|apply fold_prefix; intros; apply action_fail_prefix].
  etransitivity; [|apply fold_prefix; intros; apply action_fail_prefix].
  apply fold_prefix; intros; apply kind_fail_prefix.
Qed.

Lemma run_finishes client fuel tasks (s s1 : Conn) :
  turn fuel s = (Ok None, s1) →
  ∃ s', run client fuel tasks s = (Ok (), s') ∧ sent (mc_stream s') = sent (mc_stream s1)
    ∧ os_sent (mc_oneshots s1) `prefix_of` os_sent (mc_oneshots s').
Proof.
  intros Ht. unfold run, bind at 1, attempt.
  assert (run_inner client fuel tasks s = (Ok (), s1)) as ->
    by (destruct tasks; cbn [run_inner]; by rewrite (bind_ok _ _ _ _ _ Ht)).
  destruct (fail_pending_tells s1) as (s2 & Hf & Hst & Hp). rewrite (bind_ok _ _ _ _ _ Hf).
  rewrite (bind_ok get _ s2 s2 s2 eq_refl). rewrite (bind_ok (ret ()) _ s2 () s2 eq_refl).
  unfold bind at 1, on_stream. rewrite Hst. pose proof (shutdown_law (mc_stream s1)) as [Hr Hw].
  destruct (t_shutdown (mc_stream s1)) as [r w]. cbn in Hr, Hw.
  destruct r; try done; (eexists; split; [reflexivity|split; [exact Hw|exact Hp]]).
Qed.

(** C12. A disconnect goes through. When the driver is not closing yet (otherwise the caller is told
    [ClientClosed]), finds the disconnect command next in its queue, has
    room for the packet's two bytes and writes to a transport that takes bytes and flushes, then its run
    returns [Ok] within that turn, whatever else is queued or pending. Every
    frame that was queued is written first, in order, from where its writing had stopped, but the
    publishes, not begun, of pending requests that the application cancelled: those and no others are taken
    back. The last packet on the wire is DISCONNECT, complete, after complete
    packets only, and the caller is told [Ok]. *)
Theorem graceful_disconnect client fuel tasks r rest (s : Conn) :
  conn_ok s → R (mc_stream s) → mc_max_outbound_queue_bytes s < Z.of_nat fuel →
  mc_closing s = false → ch_queue (mc_commands s) = Command_Disconnect r :: rest →
  0 < mc_max_pending_operations s → 2 ≤ mc_peer_max_packet_size s →
  mc_outbound_bytes s + 2 ≤ Z.min usize_max (mc_max_outbound_queue_bytes s) →
  ∃ fs s', run client fuel tasks s = (Ok (), s')
    ∧ sent (mc_stream s') = sent (mc_stream s) ++ left_bytes (left_by (cancelled s) s) ++ [0xE0; 0]
    ∧ sent (mc_stream s') = concat fs ++ [0xE0; 0] ∧ Forall client_frame fs
    ∧ (r, Reply_Disconnect (Ok ())) ∈ os_sent (mc_oneshots s').
Proof using HR L C.
  intros Hs Hw Hfuel Hc Hq Hmax Hpeer Hroom.
  destruct (disconnecting_turn fuel r rest s) as (fs & s1 & Ht & Hfs & Hall & Hsent & Htold); [done..|].
  destruct (run_finishes client fuel tasks s s1 Ht) as (s' & Hrun & Hst & Hpre).
  exists fs, s'. rewrite Hst, Hsent. split; [exact Hrun|]. split; [done|].
  split; [by rewrite app_assoc, Hfs|]. split; [done|]. by eapply elem_of_prefix.
Qed.
End disconnect.

(** The scripted network takes bytes when its script of refusals is over. *)
Lemma net_reliable : reliable (λ w : Net, net_window w = []).
Proof.
  split.
  - intros buf w Hw Hb. cbn. unfold net_write. rewrite Hw. eexists _, _. split; [done|]. split; [|done].
    destruct buf; [done|]. rewrite zlen_cons. pose proof (zlen_nonneg buf). lia.
  - intros w Hw. by eexists.
  - by intros w Hw.
Qed.

(** Half a PINGREQ is written when the application disconnects; then it publishes. *)
Definition example_leaving : MqttConnection Net :=
  handle_step example_client (HPublish (lit "u") [] example_publish)
    (handle_step example_client HDisconnect
      ((example_conn []) <| mc_outbound := [mkOutboundFrame PINGREQ_BYTES 1 WA_PingReq None] |>
         <| mc_outbound_bytes := 2 |> <| mc_stream ::= λ _, mkNet [0xC0] [] [] 0 |>)).

Lemma example_leaving_ok : conn_ok example_leaving.
Proof.
  unfold example_leaving. apply handle_step_good, handle_step_good. split; cbn; try done; try lia.
  - split; [repeat constructor; by apply cf_pingreq|]. by split.
  - by exists [].
  - exact (ok_reader _ (example_conn_ok [])).
Qed.

Lemma graceful_disconnect_witness :
  let s' := (run example_client 1001 [] example_leaving).2 in
  net_sent (mc_stream s') = [0xC0; 0; 0xE0; 0]
  ∧ left_by (cancelled example_leaving) example_leaving = [mkOutboundFrame PINGREQ_BYTES 1 WA_PingReq None]
  ∧ ∃ fs s'', run example_client 1001 [] example_leaving = (Ok (), s'')
      ∧ sent (mc_stream s'') = sent (mc_stream example_leaving)
          ++ left_bytes (left_by (cancelled example_leaving) example_leaving) ++ [0xE0; 0]
      ∧ sent (mc_stream s'') = concat fs ++ [0xE0; 0] ∧ Forall client_frame fs
      ∧ (0%nat, Reply_Disconnect (Ok ())) ∈ os_sent (mc_oneshots s'').
Proof.
  split; [vm_compute; reflexivity|]. split; [vm_compute; reflexivity|].
  refine (graceful_disconnect (λ w, net_window w = []) net_reliable example_client 1001 [] 0%nat
            (tl (ch_queue (mc_commands example_leaving))) example_leaving example_leaving_ok
            _ _ _ _ _ _ _); vm_compute; first [reflexivity|discriminate].
Defined.
