(* ===== verification/AsyncOwnership.v ===== *)
(** * Who owns the frames and identifiers of requests

    The driver keeps a request in three places: its entry, the frame of its publish in the
    outbound queue and the acknowledgement of that publish. This file proves that they
    agree in every reachable state: [requests_inv]. *)

From S2P Require Import Prelude Errors Utf8 Str Types Decode Encode Topic Properties.
From S2P Require Import PropertiesFacts Packets Connect Publish Subscribe Ping PacketCodec.
From S2P Require Import CodecFacts Writers Frame Options Transport AsyncTypes AsyncDriver.
From S2P Require Import AsyncClient AsyncConnect AsyncFacts AsyncScript AsyncStart AsyncRun.
From S2P Require Import AsyncLinear AsyncReplies AsyncTotal AsyncLive AsyncProps AsyncRequests.

Local Open Scope Z_scope.

(** ** The invariant *)

Abbreviation Acks := (gmap Z PendingAck).
Abbreviation Requests := (gmap (list Z) PendingRequest).

Record owned (q : list OutboundFrame) (acks : Acks) (reqs : Requests) : Prop := {
  (** a frame not begun belongs to a request that is pending and published, *)
  own_frames : ∀ f k, f ∈ q → unsent k f →
    ∃ p, reqs !! k = Some p ∧ pr_published p = true;
  (** which has no second one; *)
  own_once : ∀ k, (length (filter (λ f, unsent_of k f = true) q) ≤ 1)%nat;
  (** so does the acknowledgement of a request's publish, under the identifier noted there; *)
  own_acks : ∀ i a k, acks !! i = Some a → pk_kind a = PK_RequestPublish k →
    ∃ p, reqs !! k = Some p ∧ pr_published p = true ∧ pr_publish_packet_id p = Some i;
  (** a request not published has no identifier. *)
  own_waiting : ∀ k p, reqs !! k = Some p → pr_published p = false → pr_publish_packet_id p = None;
  own_offsets : Forall (λ f, 0 ≤ of_offset f) q;
}.

Definition requests_inv {W} (s : MqttConnection W) : Prop :=
  owned (mc_outbound s) (mc_pending_acks s) (mc_pending_requests s).

(** ** What keeps it *)

Lemma owned_empty reqs :
  (∀ k p, reqs !! k = Some p → pr_published p = false → pr_publish_packet_id p = None) →
  owned [] ∅ reqs.
Proof.
  intros Hw. split; [|intros k; cbn; lia|intros i a k Ha; by rewrite lookup_empty in Ha|done|done].
  intros f k Hf. by apply not_elem_of_nil in Hf.
Qed.

Lemma owned_acks q acks acks' reqs :
  (∀ i a k, acks' !! i = Some a → pk_kind a = PK_RequestPublish k →
     ∃ a0, acks !! i = Some a0 ∧ pk_kind a0 = PK_RequestPublish k) →
  owned q acks reqs → owned q acks' reqs.
Proof.
  intros Ha [Hf Ho Hk Hw Hz]. split; [done|done| |done|done]. intros i a k Hi Hkind.
  destruct (Ha i a k Hi Hkind) as (a0 & H0 & Hk0). by apply (Hk i a0).
Qed.

Lemma owned_insert_ack q acks reqs i a :
  (∀ k, pk_kind a ≠ PK_RequestPublish k) → owned q acks reqs → owned q (<[ i := a ]> acks) reqs.
Proof.
  intros Hn. apply owned_acks. intros j b k. destruct (decide (j = i)) as [->|Hj].
  - rewrite lookup_insert_eq. intros [= <-] Hk. by destruct (Hn k).
  - rewrite lookup_insert_ne by done. by exists b.
Qed.

Lemma owned_delete_ack q acks reqs i : owned q acks reqs → owned q (delete i acks) reqs.
Proof.
  apply owned_acks. intros j b k Hj%lookup_delete_Some ?. exists b. by destruct Hj.
Qed.

Lemma owned_alter_ack q acks reqs i (f : PendingAck → PendingAck) :
  (∀ a k, pk_kind (f a) ≠ PK_RequestPublish k) → owned q acks reqs → owned q (alter f i acks) reqs.
Proof.
  intros Hn. apply owned_acks. intros j b k. destruct (decide (j = i)) as [->|Hj].
  - rewrite lookup_alter_eq. intros (a & Ha & ->)%fmap_Some Hk. by destruct (Hn a k).
  - rewrite lookup_alter_ne by done. by exists b.
Qed.

Lemma owned_fmap_acks q acks reqs (f : PendingAck → PendingAck) :
  (∀ a k, pk_kind (f a) = PK_RequestPublish k → pk_kind a = PK_RequestPublish k) →
  owned q acks reqs → owned q (f <$> acks) reqs.
Proof.
  intros Hn. apply owned_acks. intros j b k. rewrite lookup_fmap. intros (a & Ha & ->)%fmap_Some Hk.
  exists a. split; [done|by apply Hn].
Qed.

Lemma owned_other_frame q acks reqs bytes action :
  owned q acks reqs → owned (q ++ [mkOutboundFrame bytes 0 action None]) acks reqs.
Proof.
  intros [Hf Ho Hk Hw Hz]. split; [| |done|done|by apply Forall_app_2; [|apply Forall_singleton]].
  - intros f k [Hq|Hq%list_elem_of_singleton]%elem_of_app Hu; [by apply (Hf f)|]. subst. by destruct Hu.
  - intros k. rewrite list.filter_app. cbn. rewrite app_nil_r. apply Ho.
Qed.

Lemma owned_rest f q acks reqs : owned (f :: q) acks reqs → owned q acks reqs.
Proof.
  intros [Hf Ho Hk Hw Hz]. split; [| |done|done|by apply Forall_cons_1 in Hz as [_ ?]].
  - intros g k Hg. apply Hf, elem_of_cons. by right.
  - intros k. specialize (Ho k). rewrite filter_cons in Ho. destruct (decide _); cbn in *; lia.
Qed.

(** A frame that was written of is not [unsent] any more. *)
Lemma owned_begun f q acks reqs n :
  0 < n → owned (f :: q) acks reqs → owned (f <| of_offset := of_offset f + n |> :: q) acks reqs.
Proof.
  intros Hn Hown. pose proof (own_offsets _ _ _ Hown) as [Hz _]%Forall_cons_1.
  destruct (owned_rest _ _ _ _ Hown) as [Hf Ho Hk Hw Hzs].
  assert (∀ k, ¬ unsent k (f <| of_offset := of_offset f + n |>)) as Hnot.
  { intros k [He _]. cbn in He. lia. }
  split; [| |done|done|constructor; [cbn; lia|done]].
  - intros g k [->|Hg]%elem_of_cons Hu; [by destruct (Hnot k)|by apply (Hf g)].
  - intros k. rewrite filter_cons, decide_False; [apply Ho|]. rewrite unsent_of_true. apply Hnot.
Qed.

Lemma length_filter_filter {A} (P Q : A → Prop) `{!∀ x, Decision (P x), !∀ x, Decision (Q x)} l :
  (length (filter P (filter Q l)) ≤ length (filter P l))%nat.
Proof.
  induction l as [|x l IH]; [done|]. rewrite !filter_cons.
  destruct (decide (Q x)); rewrite ?filter_cons; destruct (decide (P x)); cbn; lia.
Qed.

(** A request leaves with its frame and its acknowledgement. *)
Lemma owned_withdraw k p q acks reqs :
  owned q acks reqs → reqs !! k = Some p →
  owned (filter (λ f, unsent_of k f = false) q)
    match pr_publish_packet_id p with
    | None => acks
    | Some i =>
        if existsb (unsent_of k) q then delete i acks
        else alter (λ ack, ack <| pk_kind := PK_Tombstone Ack_Publish true |>) i acks
    end (delete k reqs).
Proof.
  intros [Hf Ho Hk Hw Hz] Hp. split.
  - intros f k' [Hu Hq]%list_elem_of_filter Hun. destruct (Hf f k' Hq Hun) as (p' & Hp' & Hpub).
    exists p'. split; [|done]. rewrite lookup_delete_ne; [done|]. intros <-.
    apply unsent_of_true in Hun. congruence.
  - intros k'. etransitivity; [apply length_filter_filter|apply (Ho k')].
  - intros i a k' Hi Hkind.
    assert (∃ a0, acks !! i = Some a0 ∧ pk_kind a0 = PK_RequestPublish k'
            ∧ pr_publish_packet_id p ≠ Some i) as (a0 & H0 & Hk0 & Hne).
    { destruct (pr_publish_packet_id p) as [j|]; [|by exists a].
      destruct (decide (i = j)) as [->|Hij].
      - exfalso. destruct (existsb _ _); [by rewrite lookup_delete_eq in Hi|].
        rewrite lookup_alter_eq in Hi. apply fmap_Some in Hi as (? & _ & ->). done.
      - exists a. split; [|split; [done|congruence]].
        destruct (existsb _ _); [by rewrite lookup_delete_ne in Hi|by rewrite lookup_alter_ne in Hi]. }
    destruct (Hk i a0 k' H0 Hk0) as (p' & Hp' & Hpub & Hid). exists p'. split; [|done].
    rewrite lookup_delete_ne; [done|]. intros <-. congruence.
  - intros k' p' [_ Hp']%lookup_delete_Some. by apply (Hw k').
  - by apply Forall_filter_of.
Qed.

(** A request enters, not published. *)
Lemma owned_new_request k p q acks reqs :
  owned q acks reqs → reqs !! k = None → pr_publish_packet_id p = None → owned q acks (<[ k := p ]> reqs).
Proof.
  intros [Hf Ho Hk Hw Hz] Hn Hid.
  assert (∀ k' p', reqs !! k' = Some p' → <[ k := p ]> reqs !! k' = Some p') as Hkeep.
  { intros k' p' Hp'. rewrite lookup_insert_ne; [done|]. intros <-. congruence. }
  split; [|done| |intros k' p'|done].
  - intros f k' Hq Hu. destruct (Hf f k' Hq Hu) as (p' & Hp' & ?). exists p'. auto.
  - intros i a k' Hi Hkind. destruct (Hk i a k' Hi Hkind) as (p' & Hp' & ?). exists p'. auto.
  - destruct (decide (k' = k)) as [->|]; [rewrite lookup_insert_eq; by intros [= <-]|].
    rewrite lookup_insert_ne by done. apply Hw.
Qed.

(** A request is published: its frame and its acknowledgement enter with it. *)
Lemma owned_published k p q acks acks' reqs bytes action packet_id :
  owned q acks reqs → reqs !! k = Some p → pr_published p = false →
  match packet_id with
  | Some i => ∃ a, acks' = <[ i := a ]> acks ∧ pk_kind a = PK_RequestPublish k
  | None => acks' = acks
  end →
  owned (q ++ [mkOutboundFrame bytes 0 action (Some k)]) acks'
    (alter (λ p, p <| pr_published := true |> <| pr_publish_packet_id := packet_id |>) k reqs).
Proof.
  intros [Hf Ho Hk Hw Hz] Hp Hunp Hacks.
  set (upd := λ p : PendingRequest, p <| pr_published := true |> <| pr_publish_packet_id := packet_id |>).
  assert (∀ k' p', reqs !! k' = Some p' → pr_published p' = true → alter upd k reqs !! k' = Some p') as Hkeep.
  { intros k' p' Hp' Hpub. rewrite lookup_alter_ne; [done|]. intros <-. congruence. }
  assert (alter upd k reqs !! k = Some (upd p)) as Hnew by (by rewrite lookup_alter_eq, Hp).
  split.
  - intros f k' [Hq|Hq%list_elem_of_singleton]%elem_of_app Hu.
    + destruct (Hf f k' Hq Hu) as (p' & Hp' & Hpub). exists p'. auto.
    + subst f. destruct Hu as [_ [= <-]]. by exists (upd p).
  - intros k'. rewrite list.filter_app, length_app. specialize (Ho k').
    destruct (decide (k' = k)) as [->|Hne].
    + assert (filter (λ f, unsent_of k f = true) q = []) as ->; [|cbn; destruct (decide _); cbn; lia].
      destruct (filter _ q) as [|f rest] eqn:Hfil; [done|exfalso].
      assert (f ∈ filter (λ f, unsent_of k f = true) q) as [Hu Hq]%list_elem_of_filter
        by (rewrite Hfil; apply elem_of_cons; by left).
      apply unsent_of_true in Hu. destruct (Hf f k Hq Hu) as (p' & Hp' & Hpub). congruence.
    + rewrite filter_cons, decide_False; [cbn; lia|]. rewrite unsent_of_true. intros [_ [= <-]]. done.
  - assert (∀ i a k', acks !! i = Some a → pk_kind a = PK_RequestPublish k' →
      ∃ p0, alter upd k reqs !! k' = Some p0 ∧ pr_published p0 = true ∧ pr_publish_packet_id p0 = Some i) as Hold.
    { intros i a k' Hi Hkind. destruct (Hk i a k' Hi Hkind) as (p' & Hp' & Hpub & Hid).
      exists p'. auto. }
    intros i a k'. destruct packet_id as [j|]; [|subst acks'; apply Hold].
    destruct Hacks as (b & -> & Hb). destruct (decide (i = j)) as [->|Hij].
    + rewrite lookup_insert_eq. intros [= <-] Hkind. rewrite Hb in Hkind. injection Hkind as <-.
      by exists (upd p).
    + rewrite lookup_insert_ne by done. apply Hold.
  - intros k' p'. destruct (decide (k' = k)) as [->|Hne]; [rewrite Hnew; by intros [= <-]|].
    rewrite lookup_alter_ne by done. apply Hw.
  - apply Forall_app_2; [done|]. by apply Forall_singleton.
Qed.

(** ** Methods that keep it *)

Section stability.
Context {W : Type} {T : Transport W} {L : TransportLaws W} {H : HashOrder W}.

Abbreviation Conn := (MqttConnection W).
Abbreviation ConnM A := (M Conn A).

(** [m] touches neither the queue, nor the acknowledgements, nor the requests. *)
Definition aloof (s s' : Conn) : Prop :=
  mc_outbound s' = mc_outbound s ∧ mc_pending_acks s' = mc_pending_acks s
  ∧ mc_pending_requests s' = mc_pending_requests s.

(** [P] holds of the state however [m] ends. *)
Definition stays (P : Conn → Prop) {E A} (m : st Conn E A) : Prop := ∀ s, P s → P (m s).2.

Section rules.
Context (P : Conn → Prop) (HP : ∀ s s', aloof s s' → P s → P s') {E : Type}.

Lemma stays_ret {A} (a : A) : stays P (E:=E) (ret a).
Proof. by intros s. Qed.

Lemma stays_fail {A} (e : E) : stays P (A:=A) (fail e).
Proof. by intros s. Qed.

Lemma stays_panic {A} why : stays P (E:=E) (A:=A) (panic why).
Proof. by intros s. Qed.

Lemma stays_diverge {A} : stays P (E:=E) (A:=A) diverge.
Proof. by intros s. Qed.

Lemma stays_lift {A} (r : result E A) : stays P (lift r).
Proof. by intros s. Qed.

Lemma stays_get {A} (k : Conn → st Conn E A) : (∀ s, stays P (k s)) → stays P (bind get k).
Proof. intros Hk s. apply Hk. Qed.

Lemma stays_bind {A B} (m : st Conn E A) (k : A → st Conn E B) :
  stays P m → (∀ a, stays P (k a)) → stays P (bind m k).
Proof.
  intros Hm Hk s Hs. specialize (Hm s Hs). unfold bind. destruct (m s) as [[a|e|why|] s1]; try done.
  by apply Hk.
Qed.

Lemma stays_match {F A B} (m : st Conn F A) (h : F → st Conn E B) (k : A → st Conn E B) :
  stays P m → (∀ e, stays P (h e)) → (∀ a, stays P (k a)) → stays P (match_result m h k).
Proof.
  intros Hm Hh Hk s Hs. specialize (Hm s Hs). unfold match_result.
  destruct (m s) as [[a|e|why|] s1]; try done; [by apply Hk|by apply Hh].
Qed.

Lemma stays_map_error {F A} (f : F → E) (m : st Conn F A) : stays P m → stays P (map_error f m).
Proof. intros Hm. apply stays_match; [done|intros; apply stays_fail|intros; apply stays_ret]. Qed.

Lemma stays_same (f : Conn → Conn) : (∀ s, aloof s (f s)) → stays P (E:=E) (modify f).
Proof. intros Hf s. apply HP, Hf. Qed.

Lemma now_aloof (s : Conn) : aloof s (now (E:=E) s).2.
Proof. unfold now. by destruct (t_now _). Qed.

Lemma stays_now : stays P (E:=E) now.
Proof. intros s. apply HP, now_aloof. Qed.

Lemma stays_instant_add t d : stays P (E:=E) (instant_add t d).
Proof. intros s ?. unfold instant_add. by destruct (instant_checked_add _ _ _). Qed.

Lemma stays_fail_if b (e : E) : stays P (fail_if b e).
Proof. unfold fail_if. by destruct b; intros s. Qed.
End rules.

Section call_rules.
Context (P : Conn → Prop) (HP : ∀ s s', aloof s s' → P s → P s').

Lemma stays_for_each {A} (l : list A) (body : A → ConnM unit) :
  (∀ x, stays P (body x)) → stays P (for_each l body).
Proof.
  intros Hb. induction l as [|x l IH]; cbn [for_each]; [apply stays_ret|].
  apply stays_bind; [apply Hb|by intros].
Qed.

Lemma stays_on_stream {A} (m : IoM W A) : stays P (on_stream m).
Proof. intros s. apply HP. unfold on_stream. by destruct (m _). Qed.

Lemma stays_on_reader {A} (m : FrameM A) : stays P (on_reader m).
Proof. intros s. apply HP. unfold on_reader. by destruct (m _). Qed.

Lemma stays_try_send_event ev : stays P (try_send_event ev).
Proof. intros s. apply HP. unfold try_send_event. by destruct (try_send _ _). Qed.

Lemma reserve_stays : stays P reserve_packet_id.
Proof.
  unfold reserve_packet_id. generalize (Z.to_nat u16_max). intros n.
  induction n as [|n IH]; cbn [reserve_loop]; [apply stays_fail|].
  apply stays_get. intros s. apply stays_bind; [by apply stays_same|]. intros _.
  apply stays_get. intros s'. apply stays_bind.
  - destruct (_ =? 0); [by apply stays_same|apply stays_ret].
  - intros _. destruct (decide _); [exact IH|apply stays_ret].
Qed.
End call_rules.

Lemma reserve_aloof (s : Conn) : aloof s (reserve_packet_id s).2.
Proof.
  apply (reserve_stays (aloof s)); [|done]. intros s1 s2 (? & ? & ?) (? & ? & ?).
  split; [congruence|split; congruence].
Qed.

(** *** The invariant *)

Lemma aloof_inv s s' : aloof s s' → requests_inv s → requests_inv s'.
Proof. intros (Hq & Ha & Hr). unfold requests_inv. by rewrite Hq, Ha, Hr. Qed.

Abbreviation stable := (stays requests_inv).

Lemma stable_delete_ack {E} i : stable (modify (E:=E) (λ c : Conn, c <| mc_pending_acks ::= delete i |>)).
Proof. intros s. apply owned_delete_ack. Qed.

Lemma stable_undo_subscribe {E} i topic :
  stable (modify (E:=E) (λ c : Conn, c <| mc_pending_acks ::= delete i |>
                           <| mc_response_subscriptions ::= delete topic |>)).
Proof. intros s. apply owned_delete_ack. Qed.

Lemma stable_bury_cancelled {E} :
  stable (modify (E:=E) (λ c : Conn, c <| mc_pending_acks ::= fmap (bury_cancelled (mc_oneshots c)) |>)).
Proof.
  intros s. apply owned_fmap_acks. intros a k. unfold bury_cancelled. by destruct (is_cancelled _ _).
Qed.

Lemma stable_bury {E} i a :
  stable (modify (E:=E) (λ c : Conn, c <| mc_pending_acks ::=
                   <[ i := a <| pk_kind := tombstone_of (pk_kind a) |> ]> |>)).
Proof. intros s. by apply owned_insert_ack. Qed.


Lemma stable_tombstone {E} (i : Z) :
  stable (modify (E:=E) (λ c : Conn, c <| mc_pending_acks ::=
            alter (λ ack, ack <| pk_kind := PK_Tombstone Ack_Publish true |>) i |>)).
Proof. intros s. by apply owned_alter_ack. Qed.

Lemma insert_pending_ack_stable i kind label :
  (∀ k, kind ≠ PK_RequestPublish k) → stable (insert_pending_ack i kind label).
Proof.
  intros Hk. unfold insert_pending_ack. apply stays_get. intros s. destruct (_ <=? _); [apply stays_fail|].
  apply stays_bind; [apply stays_now, aloof_inv|]. intros t. apply stays_bind; [apply stays_instant_add|].
  intros d s'. by apply owned_insert_ack.
Qed.

Lemma enqueue_with_action_stable bytes action : stable (enqueue_with_action bytes action None).
Proof.
  intros s Hs. destruct (enqueue_run bytes action None s) as [[-> _]|[e ->]]; [|done].
  by apply owned_other_frame.
Qed.

Lemma retained k q n b :
  ∃ n', retain_frames k q n b = (filter (λ f, unsent_of k f = false) q, n', b || existsb (unsent_of k) q).
Proof.
  revert n b. induction q as [|f q IH]; intros n b; cbn [retain_frames existsb].
  { exists n. by rewrite orb_false_r. }
  rewrite filter_cons. destruct (unsent_of k f) eqn:Hu.
  - rewrite decide_False by done. destruct (IH (saturating_sub n (zlen (of_bytes f))) true) as [n' ->].
    exists n'. by rewrite orb_true_r.
  - rewrite decide_True by done. destruct (IH n b) as [n' ->]. by exists n'.
Qed.

Lemma remove_request_stable k : stable (remove_request k).
Proof.
  intros s Hs. unfold remove_request, bind at 1, get. destruct (_ !! k) as [p|] eqn:Hp; [|done].
  pose proof (owned_withdraw k p _ _ _ Hs Hp) as Hw.
  unfold bind, modify, finish_request_lifecycle. cbn [mc_outbound mc_outbound_bytes].
  destruct (retained k (mc_outbound s) (mc_outbound_bytes s) false) as [n' ->]. cbn [orb].
  destruct (pr_publish_packet_id p) as [i|]; [destruct (existsb _ _)|]; exact Hw.
Qed.

(** *** Requests *)

Lemma publish_request_stable k : stable (publish_request k).
Proof.
  intros s Hs. unfold publish_request, bind at 1, get.
  destruct (mc_pending_requests s !! k) as [p|] eqn:Hp; [|done].
  destruct (pr_published p) eqn:Hpub; [done|].
  (* the identifier *)
  set (reserve := if bool_decide (pr_qos p = AtLeastOnce) then _ else _ : ConnM (option Z)).
  assert (aloof s (reserve s).2) as Hal.
  { unfold reserve. destruct (bool_decide _); [|done]. destruct (_ <=? _); [done|].
    pose proof (reserve_aloof s) as Hr. unfold bind. by destruct (reserve_packet_id s) as [[] ?]. }
  unfold bind at 1. destruct (reserve s) as [[packet_id|e|why|] s1]; [|by eapply aloof_inv..].
  clear reserve. cbn [snd] in Hal. pose proof (aloof_inv _ _ Hal Hs) as Hs1.
  assert (mc_pending_requests s1 !! k = Some p) as Hp1 by (by rewrite (proj2 (proj2 Hal))).
  (* the packet *)
  unfold bind at 1, lift. destruct (PublishPacket_encode _) as [bytes|e|why|]; [|done..].
  (* the acknowledgement *)
  set (insert := match packet_id with Some _ => _ | None => _ end : ConnM unit).
  assert (∃ r s2, insert s1 = (r, s2) ∧
    match r with
    | Ok _ => mc_outbound s2 = mc_outbound s1 ∧ mc_pending_requests s2 = mc_pending_requests s1
        ∧ match packet_id with
          | Some i => ∃ a, mc_pending_acks s2 = <[ i := a ]> (mc_pending_acks s1)
                           ∧ pk_kind a = PK_RequestPublish k
          | None => mc_pending_acks s2 = mc_pending_acks s1
          end
    | _ => aloof s1 s2
    end) as (r & s2 & Hrun & Hr).
  { unfold insert. destruct packet_id as [i|]; [|by exists (Ok ()), s1].
    unfold map_error, match_result, insert_pending_ack, bind, get. destruct (_ <=? _); [by eexists _, _|].
    unfold now. destruct (t_now _) as [t w]. unfold instant_add.
    destruct (instant_checked_add _ _ _); [|by eexists _, _]. eexists _, _. split; [reflexivity|].
    split; [done|]. split; [done|]. by eexists. }
  unfold bind at 1. rewrite Hrun. destruct r as [[]|e|why|]; [|by eapply aloof_inv..].
  destruct Hr as (Hq & Hreq & Hacks). clear Hrun insert.
  (* the frame *)
  unfold enqueue, map_error, match_result.
  destruct (enqueue_run bytes WA_None (Some k) s2) as [[-> _]|[e ->]]; cbn [snd].
  - unfold requests_inv in *. cbn. rewrite Hq, Hreq.
    by apply (owned_published k p _ (mc_pending_acks s1)).
  - destruct packet_id as [i|]; unfold bind, modify, ret, fail, requests_inv in *; cbn;
      rewrite Hq, Hreq; [|by rewrite Hacks].
    destruct Hacks as (a & -> & _). eapply owned_acks; [|exact Hs1].
    intros j b k' [Hij Hj]%lookup_delete_Some Hkind. rewrite lookup_insert_ne in Hj by done. by exists b.
Qed.

(** *** The other methods *)

Create HintDb stable discriminated.
#[local] Hint Constants Opaque : stable.
#[local] Hint Variables Opaque : stable.
#[local] Hint Resolve stays_ret stays_fail stays_panic stays_diverge stays_lift stays_instant_add
  stays_fail_if stable_delete_ack stable_undo_subscribe stable_bury_cancelled stable_bury
  stable_tombstone enqueue_with_action_stable remove_request_stable publish_request_stable : stable.

Ltac stay_step :=
  lazymatch goal with
  | |- stays _ (bind get _) => apply stays_get; intros ?; cbn beta
  | |- stays _ (bind _ _) => apply stays_bind; [|intros ?; cbn beta]
  | |- stays _ (match_result _ _ _) => apply stays_match; [|intros ?; cbn beta..]
  | |- stays _ (map_error _ _) => apply stays_map_error
  | |- stays _ (for_each _ _) => apply stays_for_each; intros ?; cbn beta
  | |- stays _ (send _ _) => by apply stays_same; [apply aloof_inv|]
  | |- stays _ (fails _) => by apply stays_same; [apply aloof_inv|]
  | |- stays _ now => apply stays_now, aloof_inv
  | |- stays _ (on_stream _) => apply stays_on_stream, aloof_inv
  | |- stays _ (on_reader _) => apply stays_on_reader, aloof_inv
  | |- stays _ (try_send_event _) => apply stays_try_send_event, aloof_inv
  | |- stays _ reserve_packet_id => apply reserve_stays, aloof_inv
  | |- stays _ (insert_pending_ack _ _ _) => by apply insert_pending_ack_stable
  | |- stays _ (notify _) => unfold notify
  | |- stays _ (enqueue _ _ None) => unfold enqueue
  | |- stays _ (match ?x with _ => _ end) => destruct x eqn:?
  | |- stays _ (modify _) =>
      first [by apply stays_same; [apply aloof_inv|] | solve [eauto 3 with stable]]
  | |- stays _ _ => solve [eauto 3 with stable]
  end.
Ltac stay := repeat stay_step.

Lemma withdraw_ack_stable i e : stable (withdraw_ack i e).
Proof. unfold withdraw_ack. stay. Qed.

#[local] Hint Resolve withdraw_ack_stable : stable.

Lemma begin_publish_stable topic payload options result :
  stable (begin_publish topic payload options result).
Proof. unfold begin_publish. cbv zeta. stay. Qed.

Lemma begin_subscribe_stable filter qos result : stable (begin_subscribe filter qos result).
Proof. unfold begin_subscribe. cbv zeta. stay. Qed.

Lemma begin_unsubscribe_stable filter result : stable (begin_unsubscribe filter result).
Proof. unfold begin_unsubscribe. cbv zeta. stay. Qed.

Lemma begin_disconnect_stable result : stable (begin_disconnect result).
Proof. unfold begin_disconnect. stay. Qed.

Lemma begin_abandoned_disconnect_stable : stable begin_abandoned_disconnect.
Proof. unfold begin_abandoned_disconnect. stay. Qed.

Lemma fail_request_stable k e : stable (fail_request k e).
Proof. unfold fail_request. stay. Qed.

#[local] Hint Resolve begin_publish_stable begin_subscribe_stable begin_unsubscribe_stable
  begin_disconnect_stable begin_abandoned_disconnect_stable fail_request_stable : stable.

Lemma fail_requests_for_topic_stable topic e : stable (fail_requests_for_topic topic e).
Proof. unfold fail_requests_for_topic. stay. Qed.

Lemma publish_waiting_requests_stable topic : stable (publish_waiting_requests topic).
Proof. unfold publish_waiting_requests. stay. Qed.

Lemma subscribe_for_responses_stable topic : stable (subscribe_for_responses topic).
Proof. unfold subscribe_for_responses. stay. Qed.

Lemma try_complete_request_stable packet : stable (try_complete_request packet).
Proof. unfold try_complete_request. stay. Qed.

Lemma drain_cancellations_stable : stable drain_cancellations.
Proof. unfold drain_cancellations. stay. Qed.

#[local] Hint Resolve fail_requests_for_topic_stable publish_waiting_requests_stable
  subscribe_for_responses_stable try_complete_request_stable drain_cancellations_stable : stable.

Lemma begin_request_stable request result : stable (begin_request request result).
Proof.
  intros s Hs. unfold begin_request. set (k := rc_correlation_data request). cbv zeta.
  assert (∀ e, stable (let! _ := finish_request_lifecycle k in
                       send result (Reply_Request (Err e)))) as Hrefuse.
  { intros e. unfold finish_request_lifecycle. stay. }
  rewrite (bind_ok get _ s s s eq_refl).
  destruct (consume_cancellation k (mc_request_lifecycle s)) as [cancelled l].
  unfold bind at 1, modify at 1. set (s1 := s <| mc_request_lifecycle := l |>).
  assert (requests_inv s1) as Hs1 by exact Hs.
  destruct cancelled; [exact Hs1|]. destruct (_ =? 0); [by apply Hrefuse|].
  unfold match_result at 1, lift.
  destruct (rbind _ _) as [[]|e|why|]; [|by apply Hrefuse|done..].
  destruct (_ <=? _); [by apply Hrefuse|]. case_decide as Hk; [by apply Hrefuse|].
  apply eq_None_not_Some in Hk.
  unfold bind at 1. pose proof (now_aloof (E:=Error) s1) as Hnow.
  destruct (now s1) as [[t|e|why|] s2]; [|by eapply aloof_inv..]. cbn [snd] in Hnow.
  pose proof (aloof_inv _ _ Hnow Hs1) as Hs2.
  destruct (instant_checked_add _ _ _) as [deadline|]; [|by apply Hrefuse].
  unfold bind at 1, modify at 1. set (s3 := s2 <| mc_pending_requests ::= _ |>).
  assert (requests_inv s3) as Hs3.
  { apply owned_new_request; [exact Hs2| |done]. by rewrite (proj2 (proj2 Hnow)). }
  destruct (mc_response_subscriptions s !! _) as [[]|];
    [exact Hs3|by apply publish_request_stable|].
  destruct (_ <=? _); [exact Hs3|by apply subscribe_for_responses_stable].
Qed.

#[local] Hint Resolve begin_request_stable : stable.

Lemma process_command_stable command : stable (process_command command).
Proof. unfold process_command. stay. Qed.

#[local] Hint Resolve process_command_stable : stable.

Lemma drain_commands_stable : stable drain_commands.
Proof.
  unfold drain_commands. apply stays_get. intros s. generalize (Z.to_nat (mc_max_pending_operations s)).
  intros n. induction n as [|n IH]; cbn [drain_commands_loop]; stay; exact IH.
Qed.

Lemma receive_command_stable : stable receive_command.
Proof. unfold receive_command. stay. Qed.

(** *** Writing and reading *)

Lemma complete_written_stable action : stable (complete_written action).
Proof. unfold complete_written. stay. Qed.

#[local] Hint Resolve drain_commands_stable complete_written_stable : stable.

Lemma complete_flushes_stable l : stable (complete_flushes l).
Proof. induction l as [|f l IH]; cbn [complete_flushes]; stay. Qed.

#[local] Hint Resolve complete_flushes_stable : stable.

Lemma flush_accepted_stable : stable flush_accepted.
Proof. unfold flush_accepted. stay. Qed.

Lemma write_loop_stable fuel : stable (write_loop fuel).
Proof.
  induction fuel as [|fuel IH]; [by intros s|]. intros s Hs. cbn [write_loop].
  rewrite (bind_ok get _ s s s eq_refl). destruct (mc_outbound s) as [|f rest] eqn:Hq; [exact Hs|].
  unfold bind at 1, lift. destruct (slice_from _ _) as [unwritten|e|why|]; [|exact Hs..].
  unfold bind at 1, on_stream. pose proof (write_law unwritten (mc_stream s)) as Hw.
  destruct (t_write _ _) as [[n|e|why|] w]; cbn beta iota.
  2,3,4: try destruct (decide _); try destruct (decide _); try apply IH; exact Hs.
  destruct Hw as [Hn _]. destruct (n =? 0) eqn:Hz; [exact Hs|]. destruct (_ <? n); [exact Hs|].
  apply Z.eqb_neq in Hz. assert (0 < n) as Hpos by lia.
  assert (owned (f <| of_offset := of_offset f + n |> :: rest) (mc_pending_acks s) (mc_pending_requests s))
    as Hbegun by (apply owned_begun; [done|]; by rewrite <- Hq).
  unfold bind at 1, modify at 1. unfold bind at 1.
  match goal with |- context [now ?s2] => set (s2' := s2); pose proof (now_aloof (E:=Error) s2') as Hnow end.
  assert (requests_inv s2') as Hs2 by exact Hbegun.
  destruct (now s2') as [[t|e|why|] s3]; [|by eapply aloof_inv..]. cbn [snd] in Hnow.
  pose proof (aloof_inv _ _ Hnow Hs2) as Hs3. destruct Hnow as (_ & Ha & Hr).
  unfold bind at 1, modify at 1. unfold bind at 1. destruct (_ =? _); [|by apply IH].
  unfold modify. apply IH. unfold requests_inv. cbn. rewrite Ha, Hr. exact (owned_rest _ _ _ _ Hbegun).
Qed.

#[local] Hint Resolve flush_accepted_stable write_loop_stable : stable.

Lemma flush_outbound_stable fuel : stable (flush_outbound fuel).
Proof. unfold flush_outbound. stay. Qed.

Lemma read_available_stable : stable read_available.
Proof.
  unfold read_available. generalize 64%nat. intros n.
  induction n as [|n IH]; cbn [read_loop]; stay.
Qed.

(** *** Dispatch *)

Lemma fail_pending_stable : stable fail_pending.
Proof.
  intros s Hs. destruct (fail_pending_spec s) as [lf Hf]. rewrite Hf.
  apply owned_empty. intros k p Hp. cbn in Hp. by rewrite lookup_empty in Hp.
Qed.

Lemma take_pending_ack_stable i received : stable (take_pending_ack i received).
Proof. unfold take_pending_ack. stay. Qed.

#[local] Hint Resolve flush_outbound_stable read_available_stable fail_pending_stable
  take_pending_ack_stable fail_requests_for_topic_stable publish_waiting_requests_stable : stable.

Lemma complete_subscribe_stable ack qos result : stable (complete_subscribe ack qos result).
Proof. unfold complete_subscribe. stay. Qed.

#[local] Hint Resolve complete_subscribe_stable : stable.

Lemma dispatch_publish_stable packet : stable (dispatch_publish packet).
Proof. unfold dispatch_publish. stay. Qed.

Lemma dispatch_puback_stable ack : stable (dispatch_puback ack).
Proof. unfold dispatch_puback. stay. Qed.

Lemma dispatch_suback_stable ack : stable (dispatch_suback ack).
Proof. unfold dispatch_suback. stay. Qed.

Lemma dispatch_unsuback_stable ack : stable (dispatch_unsuback ack).
Proof. unfold dispatch_unsuback. cbv zeta. stay. Qed.

#[local] Hint Resolve dispatch_publish_stable dispatch_puback_stable dispatch_suback_stable
  dispatch_unsuback_stable : stable.

Lemma dispatch_packet_stable packet : stable (dispatch_packet packet).
Proof. unfold dispatch_packet. stay. Qed.

#[local] Hint Resolve dispatch_packet_stable : stable.

Lemma decode_and_dispatch_stable : stable decode_and_dispatch.
Proof.
  unfold decode_and_dispatch. apply stays_get. intros s. generalize (S (length (fr_buf (mc_frame_reader s)))).
  intros n. induction n as [|n IH]; cbn [dispatch_loop]; stay.
Qed.

(** *** Timers *)

Lemma expire_ack_stable i : stable (expire_ack i).
Proof. unfold expire_ack. cbv zeta. stay. Qed.

Lemma expire_request_stable k : stable (expire_request k).
Proof. unfold expire_request. cbv zeta. stay. Qed.

#[local] Hint Resolve expire_ack_stable expire_request_stable : stable.

Lemma expire_operations_stable : stable expire_operations.
Proof. unfold expire_operations. cbv zeta. stay. Qed.

Lemma maintain_keep_alive_stable : stable maintain_keep_alive.
Proof. unfold maintain_keep_alive. stay. Qed.

Lemma next_wait_duration_stable : stable next_wait_duration.
Proof. unfold next_wait_duration. cbv zeta. stay. Qed.

#[local] Hint Resolve decode_and_dispatch_stable expire_operations_stable maintain_keep_alive_stable
  next_wait_duration_stable drain_cancellations_stable : stable.

Lemma turn_stable fuel : stable (turn fuel).
Proof. unfold turn. stay. Qed.

(** *** The handles *)

Lemma aloof_bind {E A B} (m : st Conn E A) (k : A → st Conn E B) s :
  (∀ s, aloof s (m s).2) → (∀ a s, aloof s (k a s).2) → aloof s (bind m k s).2.
Proof.
  intros Hm Hk. specialize (Hm s). unfold bind. destruct (m s) as [[a|e|why|] s1]; try done.
  cbn [snd] in Hm. destruct Hm as (? & ? & ?), (Hk a s1) as (? & ? & ?).
  split; [congruence|split; congruence].
Qed.

Lemma fail_if_aloof {E} b (e : E) (s : Conn) : aloof s (fail_if b e s).2.
Proof. by destruct b. Qed.

Lemma send_command_aloof command (s : Conn) : aloof s (send_command command s).2.
Proof. unfold send_command. by destruct (try_send _ _) as [?|[]|?|]. Qed.

Lemma submit_aloof command (s : Conn) : aloof s (submit command s).2.
Proof.
  apply aloof_bind; [done|]. intros r s1. apply aloof_bind; [apply send_command_aloof|done].
Qed.

Lemma start_request_aloof client request (s : Conn) : aloof s (start_request client request s).2.
Proof.
  apply aloof_bind; [apply fail_if_aloof|]. intros _ s1. apply aloof_bind.
  { intros s2. by destruct (register _ _). }
  intros _ s2. apply aloof_bind; [done|]. intros r s3. unfold match_result.
  pose proof (send_command_aloof (Command_Request request r) s3) as Hs.
  by destruct (send_command _ s3) as [[]].
Qed.

Lemma handle_step_aloof client a (s : Conn) : aloof s (handle_step client a s).
Proof.
  destruct a; cbn [handle_step]; try done.
  - apply aloof_bind; [apply fail_if_aloof|]. intros _ s1.
    apply (submit_aloof (Command_Publish topic payload options)).
  - apply (submit_aloof (Command_Subscribe filter qos)).
  - apply (submit_aloof (Command_Unsubscribe filter)).
  - apply (submit_aloof Command_Disconnect).
  - apply aloof_bind; [apply now_aloof|]. intros t s1. apply aloof_bind; [done|]. intros _ s2.
    apply aloof_bind; [apply start_request_aloof|done].
  - unfold next_event, bind, get. by destruct (ch_queue _).
Qed.

Lemma new_connection_inv stream t options connack caps commands events :
  requests_inv (new_connection stream t options connack caps commands events : Conn).
Proof. apply owned_empty. intros k p Hp. cbn in Hp. by rewrite lookup_empty in Hp. Qed.

(** C11. A request is in one piece. In every state that the driver of a new connection can wait in,
    whatever the server sends and the application does: a queued publish of a request that was not begun belongs
    to a request that is still pending and marked published, and no request has two of
    them, so that no request is published after it was completed, cancelled or
    expired, or queued twice; an acknowledgement that names a request names one that is pending
    and holds that very identifier; and a request that still waits for its response
    subscription has no identifier. *)
Theorem requests_consistent client stream t options connack caps commands events (s : Conn) :
  live client (new_connection stream t options connack caps commands events) s →
  requests_inv s.
Proof.
  induction 1 as [|s a _ IH|s fuel w s' _ IH Ht|s s' _ IH Hr].
  - apply new_connection_inv.
  - eapply aloof_inv; [apply handle_step_aloof|exact IH].
  - pose proof (turn_stable fuel s IH) as Hs. by rewrite Ht in Hs.
  - pose proof (receive_command_stable s IH) as Hs. by rewrite Hr in Hs.
Qed.
End stability.

(** A request over a new connection, two turns later: its subscription is granted and its
    publish is queued behind a blocked socket. *)
Definition example_new : MqttConnection Net :=
  new_connection (mkNet [] [Idle 1; Incoming [0x90; 4; 0; 1; 0; 1]] [1000; 0; 0] 0) 0 example_options
    example_connack capabilities_default (channel 64) (channel 64).
Definition example_requested : MqttConnection Net :=
  handle_step example_client
    (HRequest [7] (lit "q") [1] (RequestOptions_new (lit "r"))) example_new.

Lemma requests_consistent_witness :
  match turn 100 (turn 100 example_requested).2 with
  | (Ok (Some _), s) =>
      live example_client example_new s ∧ requests_inv s
      ∧ (of_request_correlation <$> mc_outbound s) = [Some [7]]
      ∧ (pr_publish_packet_id <$> mc_pending_requests s !! [7]) = Some (Some 2)
  | _ => False
  end.
Proof.
  assert (match turn 100 (turn 100 example_requested).2 with
          | (Ok (Some _), s) =>
              (of_request_correlation <$> mc_outbound s) = [Some [7]]
              ∧ (pr_publish_packet_id <$> mc_pending_requests s !! [7]) = Some (Some 2)
          | _ => False
          end) as Hv by (vm_compute; done).
  assert (∃ w, (turn 100 example_requested).1 = Ok (Some w)) as [w1 Hw1] by (eexists; vm_compute; reflexivity).
  destruct (turn 100 example_requested) as [r1 s1] eqn:H1. cbn [fst snd] in *. subst r1.
  destruct (turn 100 s1) as [[[w|]|e|why|] s] eqn:H2; [|destruct Hv..].
  assert (live example_client example_new s) as Hs.
  { eapply live_turn; [|exact H2]. eapply live_turn; [|exact H1]. apply live_task, live_start. }
  split; [exact Hs|]. split; [|exact Hv].
  unfold example_new in Hs. eapply requests_consistent. exact Hs.
Defined.
