(* ===== verification/AsyncAdmission.v ===== *)
(** * How a request is sent

    What becomes of the command of [AsyncMqttClient::request] when the driver takes it:
    refused, made to wait for the subscription to its response topic, or published; and what
    the acknowledgement of that subscription does to the requests that wait for it. *)

From S2P Require Import Prelude Errors Utf8 Str Types Decode Encode Topic Properties.
From S2P Require Import PropertiesFacts Packets Connect Publish Subscribe Ping PacketCodec.
From S2P Require Import CodecFacts Writers Frame Options Transport AsyncTypes AsyncDriver.
From S2P Require Import AsyncClient AsyncConnect AsyncFacts AsyncScript AsyncStart AsyncRun.
From S2P Require Import AsyncProps AsyncRequests AsyncTimers AsyncOwnership.

Local Open Scope Z_scope.

Section publishing.
Context {W : Type} {T : Transport W} {L : TransportLaws W} {H : HashOrder W} {C : ClockLaws W}.

Abbreviation Conn := (MqttConnection W).

(** ** Publishing a pending request *)

(** Only the clock was read and the identifier counter moved. *)
Definition idle (s s' : Conn) : Prop :=
  ∃ w n, sent w = sent (mc_stream s) ∧ s' = s <| mc_stream := w |> <| mc_next_packet_id := n |>.

Lemma idle_refl s : idle s s.
Proof. exists (mc_stream s), (mc_next_packet_id s). split; [done|by destruct s]. Qed.

Lemma idle_next n s : idle s (s <| mc_next_packet_id := n |>).
Proof. exists (mc_stream s), n. split; [done|by destruct s]. Qed.

Lemma idle_trans s1 s2 s3 : idle s1 s2 → idle s2 s3 → idle s1 s3.
Proof.
  intros (w & n & Hw & ->) (w' & n' & Hw' & ->). exists w', n'. split; [by rewrite Hw'|by destruct s1].
Qed.

(** The packet of a request. *)
Definition request_packet (p : PendingRequest) (packet_id : option Z) : PublishPacket :=
  mkPublishPacket (pr_topic p) packet_id (pr_payload p) (pr_qos p) false false (pr_properties p).

(** The request [k] is published under [packet_id]. *)
Definition mark (k : list Z) (packet_id : option Z) (s : Conn) : Conn :=
  s <| mc_pending_requests ::=
    alter (λ pending, pending <| pr_published := true |> <| pr_publish_packet_id := packet_id |>) k |>.

(** [s] with the acknowledgement [id] registered. *)
Definition registered (id : Z) (kind : PendingAckKind) (label : string) (t : Instant) (w : W)
    (s : Conn) : Conn :=
  s <| mc_stream := w |>
    <| mc_pending_acks ::= <[ id := mkPendingAck (t + mc_ack_timeout s) label kind ]> |>.

(** What publishing the pending request [p] with correlation data [k] adds to the state. *)
Inductive request_published (k : list Z) (p : PendingRequest) (s : Conn) : Conn → Prop :=
  | request_published_qos0 bytes :
      pr_qos p = AtMostOnce →
      PublishPacket_encode (request_packet p None) = Ok bytes →
      zlen bytes ≤ mc_peer_max_packet_size s →
      request_published k p s (mark k None (enqueued bytes WA_None (Some k) s))
  | request_published_qos1 bytes id t w :
      pr_qos p = AtLeastOnce →
      PublishPacket_encode (request_packet p (Some id)) = Ok bytes →
      zlen bytes ≤ mc_peer_max_packet_size s →
      1 ≤ id ≤ 65535 → mc_pending_acks s !! id = None →
      outgoing_qos1_count s < mc_peer_receive_maximum s →
      Z.of_nat (size (mc_pending_acks s)) < mc_max_pending_operations s →
      t_now (mc_stream s) = (t, w) →
      request_published k p s (mark k (Some id)
        (enqueued bytes WA_None (Some k)
          (registered id (PK_RequestPublish k) "request publish acknowledgement" t w
            (s <| mc_next_packet_id := id_plus id 1 |>)))).

(** Reading the clock sends nothing. *)
Lemma now_sends (w : W) t w' : t_now w = (t, w') → sent w' = sent w.
Proof. intros Hn. pose proof (now_law w) as Hl. by rewrite Hn in Hl. Qed.

(** A step of the driver that does [Q] and succeeds, or fails and leaves all as it was. *)
Definition all_or_idle (m : M Conn unit) (Q : Conn → Prop) (s : Conn) : Prop :=
  ∃ v s', m s = (v, s') ∧ match v with Ok _ => Q s' | Err _ => idle s s' | _ => False end.

Lemma all_or_idle_weaken m (Q Q' : Conn → Prop) s :
  (∀ s', Q s' → Q' s') → all_or_idle m Q s → all_or_idle m Q' s.
Proof. intros HQ (v & s' & Hm & Hv). exists v, s'. split; [done|]. destruct v; auto. Qed.

Lemma all_or_idle_after m Q s s1 :
  idle s s1 → all_or_idle m Q s1 →
  ∃ v s', m s1 = (v, s') ∧ match v with Ok _ => Q s' | Err _ => idle s s' | _ => False end.
Proof.
  intros Hi (v & s' & Hm & Hv). exists v, s'. split; [done|].
  destruct v; try done. by eapply idle_trans.
Qed.

Lemma registering id kind label (rest : M Conn unit) Q (s : Conn) :
  conn_ok s →
  (∀ t w, t_now (mc_stream s) = (t, w) →
     Z.of_nat (size (mc_pending_acks s)) < mc_max_pending_operations s →
     ∃ v s', rest (registered id kind label t w s) = (v, s')
       ∧ match v with Ok _ => Q s' | Err _ => idle s s' | _ => False end) →
  all_or_idle (let! _ := map_error pie_error (insert_pending_ack id kind label) in rest) Q s.
Proof.
  intros Hs Hrest. pose proof (insert_pending_ack_spec id kind label s Hs) as Hi.
  destruct (t_now (mc_stream s)) as [t w] eqn:Hw.
  unfold all_or_idle, bind at 1, map_error at 1, match_result at 1. rewrite Hi.
  destruct (_ <=? _) eqn:Hsz; [eexists _, s; split; [done|apply idle_refl]|].
  destruct (Hrest t w eq_refl) as (v & s' & Hrun & Hv); [lia|]. exists v, s'. exact (conj Hrun Hv).
Qed.

Lemma publish_request_run k p (s : Conn) :
  conn_ok s → mc_pending_requests s !! k = Some p → pr_published p = false →
  all_or_idle (publish_request k) (request_published k p s) s.
Proof.
  intros Hs Hp Hpub. unfold all_or_idle, publish_request.
  rewrite (bind_ok get _ s s s eq_refl), Hp, Hpub.
  pose proof (λ id, builds_returns _ _ (PublishPacket_encode_builds (request_packet p id))) as Hb.
  unfold request_packet in Hb. destruct (pr_qos p) eqn:Hq.
  - rewrite bool_decide_eq_false_2 by done. unfold bind at 1, ret at 1. specialize (Hb None).
    unfold bind at 1, lift at 1. destruct (PublishPacket_encode _) as [bytes|e|why|] eqn:He; try done.
    2: { eexists _, _. split; [reflexivity|apply idle_refl]. }
    unfold bind at 1, ret at 1, match_result, enqueue, map_error, match_result.
    destruct (enqueue_run bytes WA_None (Some k) s) as [[-> Hm]|[e ->]].
    + eexists _, _. split; [reflexivity|]. apply request_published_qos0; [done| |done].
      unfold request_packet. by rewrite Hq.
    + eexists _, _. split; [reflexivity|apply idle_refl].
  - rewrite bool_decide_eq_true_2 by done. unfold bind at 1.
    destruct (_ <=? _) eqn:Hc; [eexists _, _; split; [reflexivity|apply idle_refl]|]. unfold bind at 1.
    destruct (reserve_run s Hs) as [(id & -> & Hid & Hfree)| ->].
    2: { eexists _, _. split; [reflexivity|apply idle_refl]. }
    set (s1 := s <| mc_next_packet_id := id_plus id 1 |>). unfold ret at 1. specialize (Hb (Some id)).
    assert (conn_ok s1) as Hs1 by (by apply good_next; [apply id_plus_range|]).
    unfold bind at 1, lift at 1. destruct (PublishPacket_encode _) as [bytes|e|why|] eqn:He; try done.
    2: { eexists _, _. split; [reflexivity|apply idle_next]. }
    apply all_or_idle_after; [apply idle_next|].
    apply registering; [done|]. intros t w Hw Hsz. unfold match_result, enqueue, map_error, match_result.
    destruct (enqueue_run bytes WA_None (Some k)
      (registered id (PK_RequestPublish k) "request publish acknowledgement" t w s1)) as [[-> Hm]|[e ->]].
    + eexists _, _. split; [reflexivity|].
      apply (request_published_qos1 k p s bytes id t w); [done| |exact Hm|done|done| |exact Hsz|exact Hw].
      * unfold request_packet. by rewrite Hq.
      * lia.
    + eexists _, _. split; [reflexivity|]. unfold registered.
      rewrite (acks_undo id _ (s1 <| mc_stream := w |>)) by done. exists w, (mc_next_packet_id s1).
      split; [by apply (now_sends _ t)|by destruct s].
Qed.

(** ** Subscribing to a response topic *)

Definition response_subscribe (topic : list Z) (packet_id : Z) : SubscribePacket :=
  mkSubscribePacket packet_id [(topic, AtLeastOnce)] properties_new.

(** What the subscription to [topic] adds to the state. *)
Inductive response_subscribing (topic : list Z) (s : Conn) : Conn → Prop :=
  | response_subscribing_queued bytes id t w :
      SubscribePacket_encode (response_subscribe topic id) = Ok bytes →
      zlen bytes ≤ mc_peer_max_packet_size s →
      1 ≤ id ≤ 65535 → mc_pending_acks s !! id = None →
      Z.of_nat (size (mc_pending_acks s)) < mc_max_pending_operations s →
      t_now (mc_stream s) = (t, w) →
      response_subscribing topic s
        (enqueued bytes WA_None None
          (registered id (PK_ResponseSubscribe topic) "request subscription acknowledgement" t w
            (s <| mc_next_packet_id := id_plus id 1 |>)
           <| mc_response_subscriptions ::= <[ topic := Subscribing ]> |>)).

Lemma subscribe_for_responses_run topic (s : Conn) :
  conn_ok s → mc_response_subscriptions s !! topic = None →
  all_or_idle (subscribe_for_responses topic) (response_subscribing topic s) s.
Proof.
  intros Hs Htopic. unfold all_or_idle, subscribe_for_responses. unfold bind at 1.
  destruct (reserve_run s Hs) as [(id & -> & Hid & Hfree)| ->].
  2: { eexists _, _. split; [reflexivity|apply idle_refl]. }
  set (s1 := s <| mc_next_packet_id := id_plus id 1 |>).
  assert (conn_ok s1) as Hs1 by (by apply good_next; [apply id_plus_range|]).
  pose proof (builds_returns _ _ (SubscribePacket_encode_builds (response_subscribe topic id))) as Hb.
  unfold response_subscribe in Hb. unfold bind at 1, lift at 1.
  destruct (SubscribePacket_encode _) as [bytes|e|why|] eqn:He; try done.
  2: { eexists _, _. split; [reflexivity|apply idle_next]. }
  apply all_or_idle_after; [apply idle_next|].
  apply registering; [done|]. intros t w Hw Hsz. unfold bind at 1, modify at 1.
  match goal with |- context [match_result _ _ _ ?x] => set (s2 := x) end.
  unfold match_result, enqueue, map_error, match_result.
  destruct (enqueue_run bytes WA_None None s2) as [[-> Hm]|[e ->]].
  - eexists _, _. split; [reflexivity|].
    by apply (response_subscribing_queued topic s bytes id t w).
  - eexists _, _. split; [reflexivity|]. exists w, (mc_next_packet_id s1). split; [by apply (now_sends _ t)|].
    subst s2. unfold registered. cbn.
    transitivity (s1 <| mc_stream := w |>
      <| mc_pending_acks := delete id (<[ id := mkPendingAck (t + mc_ack_timeout s1)
            "request subscription acknowledgement" (PK_ResponseSubscribe topic) ]> (mc_pending_acks s)) |>
      <| mc_response_subscriptions := delete topic (<[ topic := Subscribing ]>
           (mc_response_subscriptions s)) |>); [by destruct s|].
    rewrite !delete_insert_id by done. by destruct s.
Qed.
End publishing.

(** ** Admission of a request *)

Section requests.
Context {W : Type} {T : Transport W} {L : TransportLaws W} {H : HashOrder W} {C : ClockLaws W}.

Abbreviation Conn := (MqttConnection W).

(** What is checked of a request before it is kept. *)
Definition acceptable (request : RequestCommand) (s : Conn) : Prop :=
  rc_timeout request ≠ 0
  ∧ validate_topic_name (rc_topic request) = Ok ()
  ∧ validate_publish (mc_server_capabilities s) (rc_qos request) false = Ok ()
  ∧ Z.of_nat (size (mc_pending_requests s)) < mc_max_pending_operations s
  ∧ mc_pending_requests s !! rc_correlation_data request = None.

(** No instant of the clock has room for the request's timeout. *)
Definition too_late (request : RequestCommand) : Prop :=
  t_instant_max < clock_end + rc_timeout request.

(** The entry of a request kept at the instant [t]. *)
Definition request_entry (request : RequestCommand) (result : Sender) (t : Instant) : PendingRequest :=
  mkPendingRequest (rc_topic request) (rc_payload request) (rc_response_topic request)
    (rc_qos request) (rc_properties request) (t + rc_timeout request) result None false.

(** [s] with the request pending, the clock having been read. *)
Definition accepted (request : RequestCommand) (result : Sender) (t : Instant) (w : W) (s : Conn) : Conn :=
  s <| mc_stream := w |>
    <| mc_pending_requests ::= <[ rc_correlation_data request := request_entry request result t ]> |>.

(** The requester is told [e]; the correlation data is free again; nothing else happened. *)
Definition request_refused (request : RequestCommand) (result : Sender) (e : Error) (s s' : Conn) : Prop :=
  ∃ w n, sent w = sent (mc_stream s)
    ∧ s' = s <| mc_stream := w |> <| mc_next_packet_id := n |>
             <| mc_request_lifecycle ::= finish (rc_correlation_data request) |>
             <| mc_oneshots ::= oneshot_send result (Reply_Request (Err e)) |>.

(** What becomes of an acceptable request, by the state of its response topic. *)
Inductive request_kept (request : RequestCommand) (result : Sender) (s : Conn) : Conn → Prop :=
  | request_waits t w :
      mc_response_subscriptions s !! rc_response_topic request = Some Subscribing →
      t_now (mc_stream s) = (t, w) →
      request_kept request result s (accepted request result t w s)
  | request_sent t w s' :
      mc_response_subscriptions s !! rc_response_topic request = Some Ready →
      t_now (mc_stream s) = (t, w) →
      request_published (rc_correlation_data request) (request_entry request result t)
        (accepted request result t w s) s' →
      request_kept request result s s'
  | request_subscribes t w s' :
      mc_response_subscriptions s !! rc_response_topic request = None →
      Z.of_nat (size (mc_response_subscriptions s)) < mc_max_pending_operations s →
      t_now (mc_stream s) = (t, w) →
      response_subscribing (rc_response_topic request) (accepted request result t w s) s' →
      request_kept request result s s'.

Lemma request_refused_now request result e (s : Conn) w :
  sent w = sent (mc_stream s) →
  request_refused request result e s
    (s <| mc_stream := w |> <| mc_request_lifecycle ::= finish (rc_correlation_data request) |>
       <| mc_oneshots ::= oneshot_send result (Reply_Request (Err e)) |>).
Proof. intros Hw. exists w, (mc_next_packet_id s). split; [done|by destruct s]. Qed.

(** The last part of [begin_request]. *)
Definition place_request (request : RequestCommand) (s : Conn) : M Conn unit :=
  match mc_response_subscriptions s !! rc_response_topic request with
  | Some Ready => publish_request (rc_correlation_data request)
  | Some Subscribing => ret ()
  | None =>
      if mc_max_pending_operations s <=? Z.of_nat (size (mc_response_subscriptions s))
      then fail (QueueFull "response subscriptions")
      else subscribe_for_responses (rc_response_topic request)
  end.

Lemma place_request_run request result t w (s : Conn) :
  conn_ok (accepted request result t w s) → t_now (mc_stream s) = (t, w) →
  all_or_idle (place_request request s) (request_kept request result s) (accepted request result t w s).
Proof.
  intros Hs Hw. unfold place_request. set (s1 := accepted request result t w s) in *.
  destruct (mc_response_subscriptions s !! rc_response_topic request) as [[|]|] eqn:Hsub.
  - exists (Ok ()), s1. split; [done|]. by apply request_waits.
  - eapply all_or_idle_weaken; [intros s' Hq; by eapply request_sent|].
    apply publish_request_run; [done|apply lookup_insert_eq|done].
  - destruct (_ <=? _) eqn:Hsz; [exists (Err (QueueFull "response subscriptions")), s1; split; [done|apply idle_refl]|].
    eapply all_or_idle_weaken; [intros s' Hq; eapply request_subscribes; [done|lia|done..]|].
    by apply subscribe_for_responses_run.
Qed.

Lemma begin_request_run request result (s : Conn) :
  conn_ok s → rc_correlation_data request ∉ rl_cancelled (mc_request_lifecycle s) →
  (∃ e s', begin_request request result s = (Ok (), s') ∧ request_refused request result e s s'
     ∧ (acceptable request s → too_late request))
  ∨ acceptable request s ∧ ∃ t w, t_now (mc_stream s) = (t, w) ∧
      begin_request request result s = place_request request s (accepted request result t w s).
Proof.
  intros Hs Hc.
  assert (∀ e w, sent w = sent (mc_stream s) → (acceptable request s → too_late request) → ∃ e' s',
    (let! _ := finish_request_lifecycle (rc_correlation_data request) in
     send result (Reply_Request (Err e))) (s <| mc_stream := w |>) = (Ok (), s')
    ∧ request_refused request result e' s s' ∧ (acceptable request s → too_late request)) as Hrefuse.
  { intros e w Hw Hlate. eexists e, _. split; [reflexivity|]. split; [by apply request_refused_now|done]. }
  assert (s <| mc_stream := mc_stream s |> = s) as Hsame by (by destruct s).
  pose proof (λ e, Hrefuse e (mc_stream s) eq_refl) as Hrefuse0. rewrite Hsame in Hrefuse0.
  unfold begin_request. cbv zeta. rewrite (bind_ok get _ s s s eq_refl).
  unfold consume_cancellation. rewrite decide_False by done.
  assert ((modify (λ c, c <| mc_request_lifecycle := mc_request_lifecycle s |>) : M Conn unit) s = (Ok (), s)) as Hm
    by (unfold modify; by destruct s). rewrite (bind_ok _ _ _ _ _ Hm). clear Hm.
  destruct (rc_timeout request =? 0) eqn:Ht; [left; apply Hrefuse0; intros (? & _); lia|].
  unfold match_result at 1 2, lift.
  pose proof (validate_topic_name_returns (rc_topic request)) as Hr.
  destruct (validate_topic_name (rc_topic request)) as [[]|e|why|] eqn:Htopic;
    [|left; apply Hrefuse0; intros (_ & ? & _); congruence|done..]. cbn [rbind].
  pose proof (validate_publish_returns (mc_server_capabilities s) (rc_qos request) false) as Hr'.
  destruct (validate_publish _ _ _) as [[]|e|why|] eqn:Hp;
    [|left; apply Hrefuse0; intros (_ & _ & ? & _); congruence|done..].
  destruct (_ <=? _) eqn:Hsz; [left; apply Hrefuse0; intros (_ & _ & _ & ? & _); lia|].
  destruct (decide _) as [[? Hold]|Hnew]; [left; apply Hrefuse0; intros (_ & _ & _ & _ & ?); congruence|].
  assert (acceptable request s) as Hacc.
  { split_and!; [lia|done|done|lia|by apply eq_None_not_Some]. }
  pose proof (now_law (mc_stream s)) as Hw. destruct (t_now (mc_stream s)) as [t w] eqn:Hnow. cbn in Hw.
  assert (now (E := Error) s = (Ok t, s <| mc_stream := w |>)) as Hn by (unfold now; by rewrite Hnow).
  rewrite !(bind_ok _ _ _ _ _ Hn). unfold instant_checked_add.
  destruct (t + rc_timeout request <=? t_instant_max) eqn:Hfit.
  2: { left. apply Hrefuse; [done|]. intros _. unfold too_late. pose proof (clock_law (mc_stream s)) as Hc'.
       rewrite Hnow in Hc'. cbn in Hc'. lia. }
  right. split; [done|]. exists t, w. split; [done|]. reflexivity.
Qed.

(** Taking back a request of which nothing was queued. *)
Lemma withdraw_fresh k p (s : Conn) :
  (∀ f, f ∈ mc_outbound s → ¬ unsent k f) → pr_publish_packet_id p = None →
  withdraw k p s = s <| mc_pending_requests ::= delete k |> <| mc_request_lifecycle ::= finish k |>.
Proof.
  intros Hq Hid. unfold withdraw. rewrite Hid.
  assert (filter (λ f, unsent_of k f = false) (mc_outbound s) = mc_outbound s) as ->.
  { apply filter_all. intros f Hf. apply not_true_is_false.
    rewrite unsent_of_true. by apply Hq. }
  cbv zeta. rewrite Z.sub_diag, Z.sub_0_r. by destruct s.
Qed.

Lemma fail_request_fresh request result t w e (s s' : Conn) :
  requests_inv s → acceptable request s → sent w = sent (mc_stream s) →
  idle (accepted request result t w s) s' → conn_ok s' →
  ∃ s'', fail_request (rc_correlation_data request) e s' = (Ok (), s'')
    ∧ request_refused request result e s s''.
Proof.
  intros [Hown _ _ _ _] (_ & _ & _ & _ & Hnew) Hw (w' & n & Hw' & ->) Hs'.
  pose proof (fail_request_run (rc_correlation_data request) e _ Hs') as Hrun.
  cbn in Hrun. rewrite lookup_insert_eq in Hrun. eexists. split; [exact Hrun|].
  rewrite withdraw_fresh; [|cbn|done].
  2: { intros f Hf Hu. destruct (Hown f _ Hf Hu) as (p & Hp & _). congruence. }
  exists w', n. split; [by rewrite Hw'|]. cbn.
  transitivity (s <| mc_stream := w' |> <| mc_next_packet_id := n |>
    <| mc_pending_requests := delete (rc_correlation_data request)
         (<[ rc_correlation_data request := request_entry request result t ]> (mc_pending_requests s)) |>
    <| mc_request_lifecycle ::= finish (rc_correlation_data request) |>
    <| mc_oneshots ::= oneshot_send result (Reply_Request (Err e)) |>); [by destruct s|].
  rewrite delete_insert_id by done. by destruct s.
Qed.

(** C13. A request is kept whole or not at all. [process_command] never fails on a request. While the
    connection is closing it tells the requester [ClientClosed] and does nothing else (the correlation data
    stay registered until the future that waits for the answer gives them up). Otherwise a request that
    was cancelled meanwhile is dropped with its correlation data; one that cannot be
    served is refused, which tells the requester, frees the correlation data and changes
    nothing else, a request of the same correlation data included; any other is kept, its
    deadline being its timeout after the instant read from the clock, and, by the state of its
    response topic, waits for the subscription already
    asked for, is published at once, or has one SUBSCRIBE queued for it. A publish goes
    out only when the subscription is granted. An acceptable request that only has to wait is never
    refused while its deadline can be represented. *)
Theorem request_admission request result (s : Conn) :
  conn_ok s → requests_inv s →
  ∃ s', process_command (Command_Request request result) s = (Ok (), s') ∧
    if mc_closing s
    then s' = s <| mc_oneshots ::= oneshot_send result (Reply_Request (Err ClientClosed)) |>
    else if decide (rc_correlation_data request ∈ rl_cancelled (mc_request_lifecycle s))
    then s' = s <| mc_request_lifecycle ::= finish (rc_correlation_data request) |>
    else
      (∃ e, request_refused request result e s s'
         ∧ (acceptable request s →
            mc_response_subscriptions s !! rc_response_topic request = Some Subscribing →
            too_late request))
      ∨ acceptable request s ∧ request_kept request result s s'.
Proof.
  intros Hs Hinv. unfold process_command. rewrite (bind_ok get _ s s s eq_refl).
  destruct (mc_closing s); [by eexists|].
  destruct (decide _) as [Hcan|Hcan].
  { unfold match_result, begin_request. rewrite (bind_ok get _ s s s eq_refl).
    unfold consume_cancellation. rewrite decide_True by done. eexists. split; [reflexivity|].
    destruct s as [???? lifecycle]. by destruct lifecycle. }
  pose proof (begin_request_keeps request result s Hs) as Hk. unfold outcome in Hk. unfold match_result.
  destruct (begin_request_run request result s Hs Hcan)
    as [(e & s' & Hrun & Href & Hlate)|(Hacc & t & w & Hnow & Hrun)].
  { rewrite Hrun. exists s'. split; [done|]. left. exists e. split; [done|]. auto. }
  pose proof (now_sends _ _ _ Hnow) as Hw.
  assert (conn_ok (accepted request result t w s)) as Hacc_ok.
  { destruct Hacc as (_ & _ & _ & Hz & _). pose proof (good_stream w s Hs Hw) as [Hsw _].
    set (s1 := s <| mc_stream := w |>) in Hsw.
    by destruct (keeps_new_request (E:=Error) (rc_correlation_data request)
      (request_entry request result t) s1 Hz Hsw). }
  destruct (place_request_run request result t w s Hacc_ok Hnow) as (v & s' & Hplace & Hv).
  rewrite Hrun, Hplace in *. destruct v as [[]|e|why|]; [exists s'; split; [done|by right]| |done..].
  destruct (fail_request_fresh request result t w e s s' Hinv Hacc Hw Hv) as (s'' & Hfail & Href).
  { apply Hk. }
  exists s''. split; [exact Hfail|]. left. exists e. split; [exact Href|]. intros _ Hsub.
  unfold place_request in Hplace. rewrite Hsub in Hplace. discriminate Hplace.
Qed.
End requests.

(** A first request on a response topic: its SUBSCRIBE is queued. *)
Definition example_command : RequestCommand :=
  mkRequestCommand (lit "q") [1] (lit "r") [7] AtMostOnce 30 properties_new.

Lemma example_new_ok : conn_ok example_new.
Proof.
  unfold example_new. split; cbn; try done; try lia; [by exists []|exact (ok_reader _ (example_conn_ok []))].
Qed.

Lemma request_admission_witness :
  ∃ s', process_command (Command_Request example_command 0%nat) example_new = (Ok (), s')
    ∧ acceptable example_command example_new
    ∧ request_kept example_command 0%nat example_new s'
    ∧ mc_response_subscriptions s' !! lit "r" = Some Subscribing.
Proof.
  destruct (request_admission example_command 0%nat example_new)
    as (s' & Hrun & Hout); [exact example_new_ok|apply new_connection_inv|].
  assert (let s1 := (process_command (Command_Request example_command 0%nat) example_new).2 in
    os_sent (mc_oneshots s1) = [] ∧ mc_response_subscriptions s1 !! lit "r" = Some Subscribing)
    as [Ho Hsub] by (vm_compute; done).
  rewrite Hrun in Ho, Hsub. exists s'. split; [exact Hrun|].
  assert (rl_cancelled (mc_request_lifecycle example_new) = ∅) as Hc by reflexivity.
  change (mc_closing example_new) with false in Hout.
  rewrite Hc in Hout. destruct Hout as [(e & (w & n & _ & ->) & _)|[Ha Hk]]; [discriminate Ho|].
  exact (conj Ha (conj Hk Hsub)).
Defined.

(** ** The response subscription *)

Section granting.
Context {W : Type} {T : Transport W} {L : TransportLaws W} {H : HashOrder W} {C : ClockLaws W}.

Abbreviation Conn := (MqttConnection W).

(** The requests [l] are settled one after the other, each by [step]. *)
Inductive settles (step : list Z → PendingRequest → Conn → Conn → Prop) :
    list (list Z) → Conn → Conn → Prop :=
  | settles_nil s : settles step [] s s
  | settles_cons k p l s s1 s2 :
      mc_pending_requests s !! k = Some p → step k p s s1 → settles step l s1 s2 →
      settles step (k :: l) s s2.

(** The requests [l] are exactly those of [s] that satisfy [P], each once. *)
Definition lists_requests (P : PendingRequest → Prop) (l : list (list Z)) (s : Conn) : Prop :=
  NoDup l ∧ ∀ k, k ∈ l ↔ ∃ p, mc_pending_requests s !! k = Some p ∧ P p.

Lemma NoDup_keys_filter {A B} (P : A * B → Prop) `{!∀ x, Decision (P x)} (l : list (A * B)) :
  NoDup l.*1 → NoDup (filter P l).*1.
Proof.
  induction l as [|x l IH]; [done|]. intros [Hx Hl]%list.NoDup_cons. rewrite filter_cons.
  destruct (decide (P x)); [|by apply IH]. apply list.NoDup_cons. split; [|by apply IH].
  intros (y & Hy & Hin)%list_elem_of_fmap. apply Hx, list_elem_of_fmap. exists y.
  split; [done|]. by apply list_elem_of_filter in Hin as [_ ?].
Qed.

Lemma requests_on_lists topic keep (s : Conn) :
  lists_requests (λ p, keep p = true ∧ pr_response_topic p = topic) (requests_on topic keep s) s.
Proof.
  split; [|intros k; unfold requests_on; rewrite elem_of_keys; done].
  apply NoDup_keys_filter. unfold hash_iter. rewrite (reorder_perm _ _ _). apply NoDup_fst_map_to_list.
Qed.

(** [body] settles one request by [step], after which it satisfies [R] or is gone. *)
Definition settling (P R : PendingRequest → Prop) step (body : list Z → M Conn unit) : Prop :=
  ∀ k p s, conn_ok s → mc_pending_requests s !! k = Some p → P p →
    ∃ s', body k s = (Ok (), s') ∧ conn_ok s' ∧ step k p s s'
      ∧ (∀ k', k' ≠ k → mc_pending_requests s' !! k' = mc_pending_requests s !! k')
      ∧ (∀ p', mc_pending_requests s' !! k = Some p' → R p').

Lemma for_each_settles P R step body l (s : Conn) :
  settling P R step body → conn_ok s → NoDup l →
  (∀ k, k ∈ l → ∃ p, mc_pending_requests s !! k = Some p ∧ P p) →
  ∃ s', for_each l body s = (Ok (), s') ∧ conn_ok s' ∧ settles step l s s'
    ∧ (∀ k, k ∉ l → mc_pending_requests s' !! k = mc_pending_requests s !! k)
    ∧ (∀ k p', k ∈ l → mc_pending_requests s' !! k = Some p' → R p').
Proof.
  intros Hb. revert s. induction l as [|k l IH]; intros s Hs Hnd Hl; cbn [for_each].
  { exists s. split; [done|]. split; [done|]. split; [constructor|]. split; [done|].
    intros k p Hk. by apply not_elem_of_nil in Hk. }
  apply list.NoDup_cons in Hnd as [Hk Hnd].
  destruct (Hl k) as (p & Hp & HP); [apply elem_of_cons; by left|].
  destruct (Hb k p s Hs Hp HP) as (s1 & H1 & Hs1 & Hstep & Hother & HR).
  destruct (IH s1 Hs1 Hnd) as (s2 & H2 & Hs2 & Hset & Hout & HR2).
  { intros k' Hk'. rewrite Hother by (by intros ->). apply Hl, elem_of_cons. by right. }
  exists s2. rewrite (bind_ok _ _ _ _ _ H1). split; [done|]. split; [done|].
  split; [by eapply settles_cons|]. split.
  - intros k' [Hne Hk']%not_elem_of_cons. rewrite Hout by done. by apply Hother.
  - intros k' p' [->|Hk']%elem_of_cons; [rewrite Hout by done; apply HR|by apply HR2].
Qed.

(** A request is told [e] and withdrawn. *)
Definition told_off (e : Error) (k : list Z) (p : PendingRequest) (s s' : Conn) : Prop :=
  withdrawn k p (oneshot_send (pr_result p) (Reply_Request (Err e)) (mc_oneshots s)) s s'.

Lemma fail_request_settling P e :
  settling P (λ _, False) (told_off e) (λ k, fail_request k e).
Proof.
  intros k p s Hs Hp _. pose proof (fail_request_run k e s Hs) as Hrun. rewrite Hp in Hrun.
  eexists. split; [exact Hrun|]. split; [by eapply conn_ok_of; [apply fail_request_keeps| |]|].
  split; [exact (withdraw_withdrawn k p _ s Hs)|]. cbn.
  split; [intros; by apply lookup_delete_ne|intros p'; by rewrite lookup_delete_eq].
Qed.

(** A waiting request is published, or told why not and withdrawn. *)
Definition published_or_told (k : list Z) (p : PendingRequest) (s s' : Conn) : Prop :=
  request_published k p s s' ∨ ∃ e s0, idle s s0 ∧ told_off e k p s0 s'.

Lemma request_published_requests k p (s s' : Conn) :
  request_published k p s s' → mc_pending_requests s !! k = Some p →
  (∀ k', k' ≠ k → mc_pending_requests s' !! k' = mc_pending_requests s !! k')
  ∧ (∀ p', mc_pending_requests s' !! k = Some p' → pr_published p' = true).
Proof.
  destruct 1; intros Hp; cbn; (split; [intros; by apply lookup_alter_ne|]);
    intros p'; rewrite lookup_alter_eq, Hp; by intros [= <-].
Qed.

Lemma publish_waiting_settling P :
  (∀ p, P p → pr_published p = false) →
  settling P (λ p, pr_published p = true) published_or_told
    (λ k, match_result (publish_request k) (fail_request k) ret).
Proof.
  intros HP k p s Hs Hp Hw. destruct (publish_request_run k p s Hs Hp (HP p Hw)) as (v & s1 & Hrun & Hv).
  pose proof (publish_request_keeps k s Hs) as Hk. unfold outcome in Hk. rewrite Hrun in Hk.
  unfold match_result. rewrite Hrun. destruct v as [[]|e|why|]; try done.
  - destruct (request_published_requests k p s s1 Hv Hp) as [? ?]. exists s1.
    split; [done|]. split; [apply Hk|]. split; [by left|done].
  - destruct Hv as (w & n & Hw' & ->).
    destruct (fail_request_settling (λ _, True) e k p _ (proj1 Hk) Hp I)
      as (s' & Hfail & Hs' & Hstep & Hother & Hgone).
    exists s'. split; [exact Hfail|]. split; [done|]. split; [|split; [exact Hother|by intros ? ?%Hgone]].
    right. eexists e, _. split; [|exact Hstep]. by exists w, n.
Qed.

Lemma publish_waiting_run topic (s : Conn) :
  conn_ok s →
  ∃ l s', publish_waiting_requests topic s = (Ok (), s')
    ∧ lists_requests (λ p, negb (pr_published p) = true ∧ pr_response_topic p = topic) l s
    ∧ settles published_or_told l s s'
    ∧ (∀ k, k ∉ l → mc_pending_requests s' !! k = mc_pending_requests s !! k)
    ∧ (∀ k p, mc_pending_requests s' !! k = Some p → pr_response_topic p = topic → pr_published p = true).
Proof.
  intros Hs. unfold publish_waiting_requests. rewrite (bind_ok get _ s s s eq_refl).
  set (l := requests_on topic _ s).
  destruct (requests_on_lists topic (λ p, negb (pr_published p)) s) as [Hnd Hl]. fold l in Hnd, Hl.
  edestruct (for_each_settles (λ p, negb (pr_published p) = true ∧ pr_response_topic p = topic)
    (λ p, pr_published p = true) published_or_told) as (s' & Hrun & _ & Hset & Hout & HR);
    [|exact Hs|exact Hnd|by intros k Hk; apply Hl|].
  { apply publish_waiting_settling. by intros p [?%negb_true_iff _]. }
  exists l, s'. split; [exact Hrun|]. split; [done|]. split; [done|]. split; [done|].
  intros k p Hp Ht. destruct (decide (k ∈ l)) as [Hk|Hk]; [by eapply HR|].
  rewrite Hout in Hp by done. apply not_false_iff_true. intros Hpub. apply Hk, Hl. exists p.
  by rewrite Hpub.
Qed.

Lemma fail_topic_run topic e (s : Conn) :
  conn_ok s → duplicate_error e = e →
  ∃ l s', fail_requests_for_topic topic e s = (Ok (), s')
    ∧ lists_requests (λ p, pr_response_topic p = topic) l s
    ∧ settles (told_off e) l s s'
    ∧ (∀ k, k ∉ l → mc_pending_requests s' !! k = mc_pending_requests s !! k)
    ∧ (∀ k p, mc_pending_requests s' !! k = Some p → pr_response_topic p ≠ topic).
Proof.
  intros Hs He. unfold fail_requests_for_topic. rewrite (bind_ok get _ s s s eq_refl), He.
  set (l := requests_on topic _ s).
  assert (lists_requests (λ p, pr_response_topic p = topic) l s) as [Hnd Hl].
  { destruct (requests_on_lists topic (λ _, true) s) as [Hnd Hl]. split; [done|]. naive_solver. }
  edestruct (for_each_settles (λ p, pr_response_topic p = topic) (λ _, False) (told_off e))
    as (s' & Hrun & _ & Hset & Hout & HR);
    [by apply fail_request_settling|exact Hs|exact Hnd|by intros k Hk; apply Hl|].
  exists l, s'. split; [exact Hrun|]. split; [done|]. split; [done|]. split; [done|].
  intros k p Hp Ht. destruct (decide (k ∈ l)) as [Hk|Hk]; [by eapply HR|].
  rewrite Hout in Hp by done. apply Hk, Hl. by exists p.
Qed.

(** The error the waiting requests are told, and whether the connection survives. *)
Inductive subscription_refused (codes : list Z) : Error → Result unit → Prop :=
  | refused_by_server code :
      codes = [code] → 0x80 ≤ code →
      subscription_refused codes (AckRejected "SUBACK" code) (Ok ())
  | refused_malformed m :
      (∀ code, codes = [code] → 1 < code < 0x80) →
      subscription_refused codes (MalformedPacket m) (Err (MalformedPacket m)).

(** C14. The SUBACK of a response subscription settles every request that waits for it.
    When the server grants QoS 0 or 1, the topic is ready and each of these requests, once, in the iteration
    order of the table, is published or told why it cannot be and withdrawn: none on the topic is left waiting.
    When the server refuses, or its SUBACK is malformed (which also ends the
    connection), the subscription is forgotten, so that the next request asks
    again, and every request on the topic is told that error and withdrawn: none is left. The identifier is
    released, and requests on other topics are as they were. *)
Theorem response_subscription_ack ack topic a (s : Conn) :
  conn_ok s → mc_pending_acks s !! sa_packet_id ack = Some a → pk_kind a = PK_ResponseSubscribe topic →
  let released subs := s <| mc_pending_acks ::= delete (sa_packet_id ack) |>
                         <| mc_response_subscriptions ::= subs |> in
  ∃ l s',
    ((∃ code, sa_reason_codes ack = [code] ∧ code ≤ 1)
     ∧ dispatch_suback ack s = (Ok (), s')
     ∧ lists_requests (λ p, negb (pr_published p) = true ∧ pr_response_topic p = topic) l s
     ∧ settles published_or_told l (released <[ topic := Ready ]>) s'
     ∧ (∀ k p, mc_pending_requests s' !! k = Some p → pr_response_topic p = topic → pr_published p = true)
     ∨ (∃ e v, subscription_refused (sa_reason_codes ack) e v
        ∧ dispatch_suback ack s = (v, s')
        ∧ lists_requests (λ p, pr_response_topic p = topic) l s
        ∧ settles (told_off e) l (released (delete topic)) s'
        ∧ (∀ k p, mc_pending_requests s' !! k = Some p → pr_response_topic p ≠ topic)))
    ∧ (∀ k, k ∉ l → mc_pending_requests s' !! k = mc_pending_requests s !! k).
Proof.
  intros Hs Ha Hk released. unfold dispatch_suback.
  rewrite !(bind_ok _ _ _ _ _ (take_pending_ack_run _ Ack_Subscribe _ _ Ha ltac:(by rewrite Hk))), Hk.
  assert (∀ subs, conn_ok (released subs)) as Hrel.
  { intros subs. pose proof (keeps_delete_ack (E:=Error) (sa_packet_id ack) s Hs) as [Hd _].
    by destruct (keeps_response_subscriptions (E:=Error) subs _ Hd). }
  destruct (validate_one_suback (sa_reason_codes ack) AtLeastOnce)
    as [(c & Hc & Hle & ->)|[(c & Hc & Hle & ->)|(Hno & m & ->)]].
  - destruct (publish_waiting_run topic _ (Hrel <[ topic := Ready ]>)) as (l & s' & Hrun & Hl & Hset & Hout & Hall).
    exists l, s'. split; [left|exact Hout]. split; [by exists c|]. split; [exact Hrun|done].
  - destruct (fail_topic_run topic (AckRejected "SUBACK" c) _ (Hrel (delete topic)) eq_refl)
      as (l & s' & Hrun & Hl & Hset & Hout & Hall).
    exists l, s'. split; [right|exact Hout]. eexists _, _. split; [by apply (refused_by_server _ c)|].
    split; [exact Hrun|done].
  - destruct (fail_topic_run topic (MalformedPacket m) _ (Hrel (delete topic)) eq_refl)
      as (l & s' & Hrun & Hl & Hset & Hout & Hall).
    exists l, s'. split; [right|exact Hout]. eexists _, _. split; [by apply (refused_malformed _ m)|].
    split; [|done]. unfold modify. unfold bind at 1. by rewrite (bind_ok _ _ _ _ _ Hrun).
Qed.
End granting.

(** That request, when the server grants its subscription. *)
Definition example_waiting : MqttConnection Net :=
  (process_command (Command_Request example_command 0%nat) example_new).2.

Lemma example_waiting_ok : conn_ok example_waiting.
Proof.
  unfold example_waiting. pose proof (process_command_keeps (Command_Request example_command 0%nat)
    example_new example_new_ok) as Hk. unfold outcome in Hk.
  assert ((process_command (Command_Request example_command 0%nat) example_new).1 = Ok ()) as Hr
    by (vm_compute; reflexivity).
  destruct (process_command _ _) as [r s]. cbn in *. subst r. apply Hk.
Qed.

Lemma response_subscription_ack_witness :
  ∃ l s', dispatch_suback (mkSubAckPacket 1 [0]) example_waiting = (Ok (), s')
    ∧ settles published_or_told l
        (example_waiting <| mc_pending_acks ::= delete 1 |>
           <| mc_response_subscriptions ::= <[ lit "r" := Ready ]> |>) s'
    ∧ (pr_published <$> mc_pending_requests s' !! [7]) = Some true.
Proof.
  assert (∃ a, mc_pending_acks example_waiting !! 1 = Some a ∧ pk_kind a = PK_ResponseSubscribe (lit "r"))
    as (a & Ha & Hk) by (eexists; split; vm_compute; reflexivity).
  destruct (response_subscription_ack (mkSubAckPacket 1 [0]) (lit "r") a example_waiting
    example_waiting_ok Ha Hk) as (l & s' & [(_ & Hrun & _ & Hset & _)|(e & v & Hv & _)] & _).
  - exists l, s'. split; [exact Hrun|]. split; [exact Hset|].
    assert ((pr_published <$> mc_pending_requests
      (dispatch_suback (mkSubAckPacket 1 [0]) example_waiting).2 !! [7]) = Some true) as Hp
      by (vm_compute; reflexivity).
    by rewrite Hrun in Hp.
  - exfalso. inversion Hv as [c Hc Hge|m Hno]; subst; [injection Hc as <-; lia|].
    specialize (Hno 0 eq_refl). lia.
Defined.
