(* ===== verification/AsyncDispatch.v ===== *)
(** * The driver and its frame reader

    [decode_and_dispatch] alternates between the frame reader and the handlers. The
    handlers neither see nor touch the reader, so that what it does is a fold of
    [dispatch_packet] over the packets of the buffered bytes, however those bytes
    were cut when they arrived. *)

From S2P Require Import Prelude Errors Utf8 Str Types Decode Encode Topic Properties.
From S2P Require Import PropertiesFacts Packets Connect Publish Subscribe Ping PacketCodec.
From S2P Require Import CodecFacts Writers Frame Options Transport AsyncTypes AsyncDriver.
From S2P Require Import AsyncClient AsyncConnect AsyncFacts AsyncScript AsyncStart AsyncRun.
From S2P Require Import AsyncProps AsyncRequests.

Local Open Scope Z_scope.

(** ** Blind calls *)

Section blind.
Context {W : Type} {T : Transport W} {H : HashOrder W}.

Abbreviation Conn := (MqttConnection W).
Abbreviation ConnM A := (M Conn A).

Definition with_reader (r : FrameReader) (s : Conn) : Conn := s <| mc_frame_reader := r |>.

(** [m] does the same whatever the reader holds, and leaves it as it was. *)
Definition blind {E A} (m : st Conn E A) : Prop :=
  ∀ s r, m (with_reader r s) = ((m s).1, with_reader r (m s).2).

Section rules.
Context {E : Type}.

Lemma blind_ret {A} (a : A) : blind (E:=E) (ret a).
Proof. done. Qed.

Lemma blind_fail {A} (e : E) : blind (A:=A) (fail e).
Proof. done. Qed.

Lemma blind_panic {A} why : blind (E:=E) (A:=A) (panic why).
Proof. done. Qed.

Lemma blind_diverge {A} : blind (E:=E) (A:=A) diverge.
Proof. done. Qed.

Lemma blind_lift {A} (r : result E A) : blind (lift r).
Proof. done. Qed.

Lemma blind_fail_if b (e : E) : blind (fail_if b e).
Proof. by destruct b. Qed.

Lemma blind_modify (f : Conn → Conn) :
  (∀ s r, f (with_reader r s) = with_reader r (f s)) → blind (E:=E) (modify f).
Proof. intros Hf s r. unfold modify. by rewrite Hf. Qed.

(** What is read of the state must not be its reader. *)
Lemma blind_get {A} (k : Conn → st Conn E A) :
  (∀ s r, k (with_reader r s) = k s) → (∀ s, blind (k s)) → blind (bind get k).
Proof.
  intros Hsame Hk s r. change (k (with_reader r s) (with_reader r s) = ((k s s).1, with_reader r (k s s).2)).
  rewrite Hsame. apply Hk.
Qed.

Lemma blind_bind {A B} (m : st Conn E A) (k : A → st Conn E B) :
  blind m → (∀ a, blind (k a)) → blind (bind m k).
Proof.
  intros Hm Hk s r. unfold bind. rewrite Hm. destruct (m s) as [[a|e|w|] s']; [apply Hk|done..].
Qed.

Lemma blind_match {F A B} (m : st Conn F A) (h : F → st Conn E B) (k : A → st Conn E B) :
  blind m → (∀ a, blind (k a)) → (∀ e, blind (h e)) → blind (match_result m h k).
Proof.
  intros Hm Hk Hh s r. unfold match_result. rewrite Hm.
  destruct (m s) as [[a|e|w|] s']; [apply Hk|apply Hh|done..].
Qed.

Lemma blind_map_error {F A} (f : F → E) (m : st Conn F A) : blind m → blind (map_error f m).
Proof. intros. by apply blind_match. Qed.

Lemma blind_now : blind (E:=E) now.
Proof. intros s r. unfold now. cbn. by destruct (t_now _). Qed.

Lemma blind_instant_add t d : blind (E:=E) (instant_add t d).
Proof. unfold instant_add. by destruct (instant_checked_add _ _ _). Qed.
End rules.

Lemma blind_for_each {A} (l : list A) (body : A → ConnM unit) :
  (∀ x, blind (body x)) → blind (for_each l body).
Proof.
  intros Hb. induction l as [|x l IH]; cbn [for_each]; [done|]. by apply blind_bind.
Qed.

Lemma blind_try_send_event event : blind (try_send_event event).
Proof. intros s r. unfold try_send_event. cbn. by destruct (try_send _ _). Qed.

Ltac blind_step :=
  lazymatch goal with
  | |- blind (ret _) => apply blind_ret
  | |- blind (fail _) => apply blind_fail
  | |- blind (panic _) => apply blind_panic
  | |- blind (lift _) => apply blind_lift
  | |- blind diverge => apply blind_diverge
  | |- blind (bind get _) => apply blind_get; [reflexivity|intros ?; cbn beta]
  | |- blind (bind _ _) => apply blind_bind; [|intros ?; cbn beta]
  | |- blind (match_result _ _ _) => apply blind_match; [|intros ?; cbn beta..]
  | |- blind (map_error _ _) => apply blind_map_error
  | |- blind (for_each _ _) => apply blind_for_each; intros ?; cbn beta
  | |- blind (modify _) => apply blind_modify; reflexivity
  | |- blind (send _ _) => apply blind_modify; reflexivity
  | |- blind (fails _) => apply blind_modify; reflexivity
  | |- blind now => apply blind_now
  | |- blind (instant_add _ _) => apply blind_instant_add
  | |- blind (try_send_event _) => apply blind_try_send_event
  | |- blind (notify _) => unfold notify
  | |- blind (finish_request_lifecycle _) => unfold finish_request_lifecycle
  | |- blind (enqueue _ _ _) => unfold enqueue
  | |- blind (match ?x with _ => _ end) => destruct x eqn:?
  | |- blind _ => solve [eauto 2 with blind]
  end.
Ltac blinded := repeat blind_step.

Create HintDb blind.

Lemma reserve_packet_id_blind : blind reserve_packet_id.
Proof.
  unfold reserve_packet_id. generalize (Z.to_nat u16_max). intros n.
  induction n as [|n IH]; cbn [reserve_loop]; blinded.
Qed.

Lemma insert_pending_ack_blind id kind label : blind (insert_pending_ack id kind label).
Proof. unfold insert_pending_ack. blinded. Qed.

Lemma enqueue_with_action_blind bytes action k : blind (enqueue_with_action bytes action k).
Proof. unfold enqueue_with_action. blinded. Qed.

Lemma remove_request_blind k : blind (remove_request k).
Proof. unfold remove_request. blinded. Qed.

#[local] Hint Resolve reserve_packet_id_blind insert_pending_ack_blind enqueue_with_action_blind
  remove_request_blind : blind.

Lemma fail_request_blind k e : blind (fail_request k e).
Proof. unfold fail_request. blinded. Qed.

#[local] Hint Resolve fail_request_blind : blind.

Lemma fail_requests_for_topic_blind topic e : blind (fail_requests_for_topic topic e).
Proof. unfold fail_requests_for_topic. blinded. Qed.

Lemma publish_request_blind k : blind (publish_request k).
Proof. unfold publish_request. blinded. Qed.

#[local] Hint Resolve fail_requests_for_topic_blind publish_request_blind : blind.

Lemma publish_waiting_requests_blind topic : blind (publish_waiting_requests topic).
Proof. unfold publish_waiting_requests. blinded. Qed.

Lemma try_complete_request_blind packet : blind (try_complete_request packet).
Proof. unfold try_complete_request. blinded. Qed.

Lemma fail_pending_blind : blind fail_pending.
Proof. unfold fail_pending. blinded. Qed.

Lemma take_pending_ack_blind i cls : blind (take_pending_ack i cls).
Proof. unfold take_pending_ack. blinded. Qed.

Lemma complete_subscribe_blind ack qos result : blind (complete_subscribe ack qos result).
Proof. unfold complete_subscribe. blinded. Qed.

#[local] Hint Resolve publish_waiting_requests_blind try_complete_request_blind fail_pending_blind
  take_pending_ack_blind complete_subscribe_blind : blind.

Lemma dispatch_packet_blind packet : blind (dispatch_packet packet).
Proof.
  destruct packet; cbn [dispatch_packet];
    unfold dispatch_publish, dispatch_puback, dispatch_suback, dispatch_unsuback; cbv zeta; blinded.
Qed.
End blind.

(** ** What a buffer yields *)

(** The packets of [buf] and how the parse ends: at an incomplete frame, the bytes [last], or
    at an error of the stream. *)
Inductive yields (max : Z) : list Z → list Packet → Result unit → list Z → Prop :=
  | yields_end buf : next_frame max buf = Ok None → yields max buf [] (Ok ()) buf
  | yields_error buf e : next_frame max buf = Err e → yields max buf [] (Err e) buf
  | yields_frame buf p rest ps v last :
      next_frame max buf = Ok (Some (p, rest)) → yields max rest ps v last →
      yields max buf (p :: ps) v last.

(** Parsing may be resumed where it ran out of bytes. *)
Lemma yields_app max buf ps last more ps' v last' :
  bytes_ok buf → yields max buf ps (Ok ()) last → yields max (last ++ more) ps' v last' →
  yields max (buf ++ more) (ps ++ ps') v last'.
Proof.
  intros Hb Hy Hmore. remember (Ok ()) as ok eqn:Hok.
  induction Hy as [buf Hn|buf e Hn|buf p rest ps w last Hn Hy IH]; [done..|].
  cbn. apply yields_frame with (rest := rest ++ more).
  - rewrite next_frame_ext by (done || congruence). by rewrite Hn.
  - apply IH; [|done..]. by apply Packet_frame_rest_ok in Hn as [? _].
Qed.

Lemma yields_total max r : reader_live max r → ∃ ps v last, yields max (fr_buf r) ps v last.
Proof.
  remember (length (fr_buf r)) as n eqn:Hn. revert r Hn.
  induction (lt_wf n) as [n _ IH]. intros r -> Hr. pose proof Hr as [Hok _ Hm].
  pose proof (next_frame_returns r Hok) as Hret. pose proof (after_decode_buf r) as Hbuf.
  pose proof (after_decode_live max r Hr) as Hr1. rewrite Hm in *.
  destruct (next_frame max (fr_buf r)) as [[[p rest]|]|e|w|] eqn:Hf; [| | |done..].
  - pose proof Hf as Hshort. apply Packet_frame_rest_ok in Hshort as [_ Hl]; [|apply Hok].
    destruct (IH (length rest)) with (r := after_decode r) as (ps & v & last & Hy);
      [unfold zlen in Hl; lia|by rewrite Hbuf|done|].
    rewrite Hbuf in Hy. exists (p :: ps), v, last. by eapply yields_frame.
  - eexists _, _, _. by apply yields_end.
  - eexists _, _, _. by apply yields_error.
Qed.

(** ** The driver folds its handlers over the packets *)

Section refinement.
Context {W : Type} {T : Transport W} {H : HashOrder W}.

Abbreviation Conn := (MqttConnection W).

(** The handlers over the packets [ps], then the verdict of the parser. *)
Definition dispatch_all (ps : list Packet) (v : Result unit) : M Conn unit :=
  let! _ := for_each ps dispatch_packet in lift v.

Lemma dispatch_all_blind ps v : blind (dispatch_all ps v).
Proof.
  apply blind_bind; [apply blind_for_each, dispatch_packet_blind|intros; apply blind_lift].
Qed.

Lemma dispatch_all_cons p ps v s :
  dispatch_all (p :: ps) v s = bind (dispatch_packet p) (λ _, dispatch_all ps v) s.
Proof. unfold dispatch_all. cbn [for_each]. unfold bind. by destruct (dispatch_packet p s) as [[[]|e|w|] s']. Qed.

Lemma try_decode_on_reader max (s : Conn) :
  reader_live max (mc_frame_reader s) →
  on_reader try_decode s =
    (let? o := next_frame max (fr_buf (mc_frame_reader s)) in Ok (frame_packet o),
     with_reader (after_decode (mc_frame_reader s)) s).
Proof. intros [Hr Ho <-]. unfold on_reader. by rewrite (try_decode_spec _ Hr Ho). Qed.

Lemma dispatch_loop_folds max buf ps v last :
  yields max buf ps v last → ∀ n s,
  reader_live max (mc_frame_reader s) → fr_buf (mc_frame_reader s) = buf → (length buf < n)%nat →
  ∃ r', dispatch_loop n s = ((dispatch_all ps v s).1, with_reader r' (dispatch_all ps v s).2)
    ∧ reader_live max r' ∧ ((dispatch_all ps v s).1 = Ok () → fr_buf r' = last).
Proof.
  induction 1 as [buf Hn|buf e Hn|buf p rest ps v last Hn Hy IH]; intros n s Hr Hb Hlen;
    (destruct n as [|n]; [lia|]); cbn [dispatch_loop];
    pose proof (try_decode_on_reader max s Hr) as Hd; pose proof (after_decode_live max _ Hr) as Hr1;
    pose proof (after_decode_buf (mc_frame_reader s)) as Hbuf; pose proof (rl_max _ _ Hr) as Hm;
    rewrite Hm, Hb, Hn in *; cbn [rbind frame_packet fmap option_fmap option_map fst] in Hd.
  - exists (after_decode (mc_frame_reader s)). by rewrite (bind_ok _ _ _ _ _ Hd).
  - exists (after_decode (mc_frame_reader s)). by rewrite (bind_err _ _ _ _ _ Hd).
  - rewrite (bind_ok _ _ _ _ _ Hd). set (r1 := after_decode (mc_frame_reader s)) in *.
    pose proof Hn as Hshort. apply Packet_frame_rest_ok in Hshort as [_ Hl];
      [|rewrite <- Hb; apply Hr]. unfold zlen in Hl. rewrite dispatch_all_cons. unfold bind.
    rewrite (dispatch_packet_blind p s r1).
    destruct (dispatch_packet p s) as [[[]|e|w|] s2]; cbn [fst snd]; [|by exists r1..].
    destruct (IH n (with_reader r1 s2)) as (r' & Hrun & Hr' & Hlast); [done|exact Hbuf|lia|].
    exists r'. rewrite Hrun. rewrite (dispatch_all_blind ps v s2 r1) in *. cbn [fst snd] in *.
    done.
Qed.

(** C10. Dispatch refines the fold of the handlers over the parsed stream. [decode_and_dispatch] hands
    to [dispatch_packet] exactly the packets of the buffered bytes, each once and in their
    order, up to the first one whose handler fails, and then reports the error of the stream
    if there is one: no packet is skipped, repeated or handled in the presence of bytes
    that were not parsed, and no handler can see or disturb the bytes behind its packet. What is
    left buffered is the incomplete frame, and parsing resumes there: bytes that arrive later yield the
    packets they would have yielded had they arrived together with the first. *)
Theorem decode_and_dispatch_folds max (s : Conn) :
  reader_live max (mc_frame_reader s) →
  let buf := fr_buf (mc_frame_reader s) in
  ∃ ps v last r', yields max buf ps v last
    ∧ decode_and_dispatch s = ((dispatch_all ps v s).1, with_reader r' (dispatch_all ps v s).2)
    ∧ reader_live max r'
    ∧ ((dispatch_all ps v s).1 = Ok () → fr_buf r' = last
       ∧ ∀ more ps' v' last', yields max (fr_buf r' ++ more) ps' v' last' →
           yields max (buf ++ more) (ps ++ ps') v' last').
Proof.
  intros Hr buf. destruct (yields_total max _ Hr) as (ps & v & last & Hy).
  destruct (dispatch_loop_folds max _ ps v last Hy (S (length buf)) s Hr eq_refl) as (r' & Hrun & Hr' & Hlast);
    [unfold buf; lia|].
  exists ps, v, last, r'. split; [done|]. split; [exact Hrun|]. split; [done|].
  intros Hok. specialize (Hlast Hok). split; [done|]. rewrite Hlast. intros more ps' v' last' Hmore.
  eapply yields_app; [apply Hr| |exact Hmore].
  unfold dispatch_all, bind in Hok. destruct (for_each _ _ _) as [[[]|e|w|] s']; try done.
  cbn in Hok. by subst v.
Qed.
End refinement.

(** A PUBACK and the first byte of another packet are buffered. *)
Definition example_buffered : MqttConnection Net :=
  with_reader (mkFrameReader [0x40; 2; 0; 7; 0xD0] ReadingHeader 100 None)
    ((example_conn []) <| mc_pending_acks := {[ 7 := mkPendingAck 5 "" (PK_Publish 0) ]} |>).

Lemma decode_and_dispatch_folds_witness :
  ∃ ps v last r', yields 100 [0x40; 2; 0; 7; 0xD0] ps v last
    ∧ decode_and_dispatch example_buffered
      = ((dispatch_all ps v example_buffered).1, with_reader r' (dispatch_all ps v example_buffered).2)
    ∧ fr_buf r' = [0xD0]
    ∧ os_sent (mc_oneshots (dispatch_all ps v example_buffered).2)
      = [(0%nat, Reply_Publish (Ok (mkPublishAck (Some 7) (Some 0))))].
Proof.
  destruct (decode_and_dispatch_folds 100 example_buffered) as (ps & v & last & r' & Hy & Hrun & _ & _).
  { split; [|done|done]. by split; [repeat constructor|vm_compute|vm_compute|]. }
  exists ps, v, last, r'. split; [exact Hy|]. split; [exact Hrun|].
  assert (let s' := (decode_and_dispatch example_buffered).2 in
    fr_buf (mc_frame_reader s') = [0xD0]
    ∧ os_sent (mc_oneshots s') = [(0%nat, Reply_Publish (Ok (mkPublishAck (Some 7) (Some 0))))])
    as [Hb Ho] by (split; vm_compute; reflexivity).
  rewrite Hrun in Hb, Ho. exact (conj Hb Ho).
Defined.
