(* ===== verification/AsyncLimits.v ===== *)
(** * Limits of the async client

    Inputs and orders of events on which the client does not do what its documentation or
    its own intent says: each lemma exhibits one, on the definitions of the other files. *)

From S2P Require Import Prelude Errors Utf8 Str Types Decode Encode Topic Properties.
From S2P Require Import PropertiesFacts Packets Connect Publish Subscribe Ping PacketCodec.
From S2P Require Import CodecFacts Writers Frame Options Transport AsyncTypes AsyncDriver.
From S2P Require Import AsyncClient AsyncConnect AsyncFacts AsyncScript AsyncStart.
From S2P Require Import AsyncRequests AsyncTimers.

Local Open Scope Z_scope.

(** ** Validation *)

(** [ConnectOptions::validate] does not know the greatest capacity of a channel: the
    handshake succeeds and creating the channel panics. *)
Lemma accepted_capacity_panics :
  let options := with_command_capacity (max_permits + 1) example_options in
  ConnectOptions_validate t_instant_max 0 options = Ok ()
  ∧ (async_connect_with 100 options (accepting [])).1
    = Panic "a semaphore may not have more than MAX_PERMITS permits".
Proof. split; vm_compute; reflexivity. Qed.

(** [validate] checks the acknowledgement timeout against the instant of the connect only:
    a nanosecond later the same timeout makes a publish panic. *)
Lemma accepted_ack_timeout_panics :
  let options := with_ack_timeout t_instant_max example_options in
  let connected := new_connection (mkNet [] [] [] 1) 1 options example_connack capabilities_default
    (channel 64) (channel 64) in
  ConnectOptions_validate t_instant_max 0 options = Ok ()
  ∧ (begin_publish (lit "t") [] example_publish 0%nat connected).1
    = Panic "overflow when adding duration to instant".
Proof. split; vm_compute; reflexivity. Qed.

(** ** Lengths *)

(** A PUBLISH body of 2^32 bytes is not refused: its length is cast to 32 bits, and the fixed
    header announces an empty body in front of it. *)
Lemma long_body_truncated body :
  zlen body = 4294967296 → with_fixed_header Publish 0 body = Ok ([0x30; 0] ++ body).
Proof.
  intros Hb. unfold with_fixed_header. rewrite Hb. change (as_u32 4294967296) with 0.
  by apply written_ok.
Qed.

(** ** Identifiers of requests *)

(** A request remembers the identifier of its publish after the PUBACK has released it. When
    the identifier is reserved again, by another operation, withdrawing the request turns that
    operation into a tombstone: its caller is never told the outcome. *)
Lemma withdrawal_buries_successor k p i a e (s : MqttConnection Net) :
  conn_ok s → mc_pending_requests s !! k = Some p → pr_publish_packet_id p = Some i →
  mc_pending_acks s !! i = Some a → ¬ Exists (unsent k) (mc_outbound s) →
  mc_pending_acks (fail_request k e s).2 !! i
  = Some (a <| pk_kind := PK_Tombstone Ack_Publish true |>).
Proof.
  intros Hs Hp Hi Ha Hu. rewrite fail_request_run, Hp by done. cbn.
  rewrite Hi. rewrite <- existsb_unsent in Hu. apply not_true_is_false in Hu as ->.
  by rewrite lookup_alter_eq, Ha.
Qed.

(** Such a state, and what the caller of the other operation then sees: [ClientClosed],
    on a connection that is open, for a publish that is under way. *)
Lemma successor_told_closed :
  let s := (example_conn [])
    <| mc_pending_requests := {[ [7] := example_request ]} |>
    <| mc_pending_acks := {[ 9 := mkPendingAck 100 "publish acknowledgement" (PK_Publish 4) ]} |> in
  receive_result 4 s = None
  ∧ receive_result 4 (expire_operations (s <| mc_stream := mkNet [] [] [] 30 |>)).2 = Some None.
Proof. split; vm_compute; reflexivity. Qed.

(** ** The request lifecycle *)

(** A guard outlives the driver's [finish] of its request: dropped after another request has
    registered the same correlation data, it cancels that one. *)
Lemma stale_guard_cancels_successor k (l l' : RequestLifecycle) :
  register k (finish k l) = (Ok (), l') →
  (consume_cancellation k (RequestCancellation_drop (RequestCancellation_new k) l')).1 = true.
Proof.
  unfold register. destruct (_ <=? _); [done|]. destruct (decide _); [done|]. intros [= <-].
  unfold RequestCancellation_drop, RequestCancellation_new, cancel, consume_cancellation.
  cbn [rcn_correlation_data].
  rewrite (decide_True (P := k ∈ rl_active _)) by (cbn; set_solver).
  by rewrite decide_True by (cbn; set_solver).
Qed.

(** ** Response subscriptions *)

(** An UNSUBACK that overtakes a SUBACK lets the number of cached response topics exceed
    the limit on pending operations that [begin_request] compares it with. *)
Definition request_on (topic : string) (k : list Z) : RequestCommand :=
  request_command [] (lit "q") [] (ro_with_correlation_data k (RequestOptions_new (lit topic))).

Definition overtaken : M (MqttConnection Net) unit :=
  let! _ := begin_request (request_on "a" [1]) 0 in               (* SUBSCRIBE 1 *)
  let! _ := begin_unsubscribe (lit "a") 1 in                       (* UNSUBSCRIBE 2 *)
  let! _ := dispatch_packet (PktUnsubAck (mkUnsubAckPacket 2 [0])) in
  let! _ := fail_request [1] (Timeout "request response") in
  let! _ := begin_request (request_on "b" [2]) 2 in               (* SUBSCRIBE 3 *)
  let! _ := dispatch_packet (PktSubAck (mkSubAckPacket 3 [1])) in
  let! _ := fail_request [2] (Timeout "request response") in
  let! _ := begin_request (request_on "c" [3]) 3 in               (* SUBSCRIBE 4 *)
  dispatch_packet (PktSubAck (mkSubAckPacket 1 [1])).

Lemma subscriptions_exceed_limit :
  let s := (example_conn []) <| mc_max_pending_operations := 2 |> in
  let out := overtaken s in
  out.1 = Ok () ∧ size (mc_response_subscriptions out.2) = 3%nat.
Proof. split; vm_compute; reflexivity. Qed.
